(* ===== verification/_CoqProject ===== *)
-Q . S2P
Prelude.v
JsNum.v
JsFormat.v
World.v
ShardManager.v
HealthMonitor.v
RepairService.v
Replication.v
RestApi.v
Relay.v
Listener.v
Encrypt.v
Auth.v
Payments.v
Uptime.v
Proofs.v
Orchestrator.v
Backend.v
Page.v
Notices.v
NodeStatus.v
Governance.v
Wallet.v
Transactions.v
Dashboard.v
Vault.v
Daemon.v
Sectors.v
DaemonSync.v
DaemonFaults.v
EarlierDaemon.v
Indexer.v
NodeEncrypt.v
Files.v
FileFlow.v
FileKeys.v
Tables.v
Views.v
PageLoad.v
Cli.v
Adapter.v
Contracts.v
ChainRules.v
Token.v
Registry.v
Pool.v
Market.v
Distributor.v
Slashing.v
Verifier.v
Vesting.v
Protocol.v
Collateral.v
Escrow.v
Deals.v
Lifecycle.v
Roster.v
Penalties.v
Payouts.v
Deploy.v
Wiring.v
Bridge.v
Mirror.v
Ledgers.v
