(* ===== verification/Prelude.v ===== *)
(** * Kyneto: the incentive layer of a storage network, verified

    Kyneto (src/incentive-layer/) lets clients store files with independent
    providers: a file is cut into ten data and five parity shards, each shard goes
    to a provider, and a set of services watches, repairs, pays and slashes.  The
    rest of the repository is the Go implementation of IPFS, landing pages and
    deployment material.

    ** The program and the files that model it

    - Prelude.v: the effect monad of the handlers (state, exceptions, try/catch/
      finally, awaited loops), its invariant, Hoare and totality rules, JavaScript
      strings and lists, SQL selection, update and stable ordering.
    - JsNum.v, JsFormat.v: JavaScript numbers as IEEE doubles, parsing and printing.
    - World.v: the state the services share - the database tables, the chain, IPFS,
      the socket rooms, the clock - with a schedule of faults: every query and
      every call of an outside service may be told to fail, or, while the database
      answers ([db_answers]), every call but the queries.  The installed schema is a
      parameter of the world: the constraints and columns on which the code depends
      and config/database-schema.sql ([committed_schema]) differs.
    - ShardManager.v, HealthMonitor.v, RepairService.v (services/erasure-coding):
      encoding and reconstruction over a code that is a parameter with the law of
      Reed-Solomon codes, detection of lost shards, repair.
    - Replication.v (services/replication-orchestrator): choice of providers.
    - RestApi.v, Relay.v (api/rest-api/src/server.ts): the routes, the expiration
      job, the socket relay.
    - Listener.v (services/blockchain-listener/src/index.ts), Payments.v (payment-processor),
      Uptime.v (uptime-monitor), Proofs.v (proof-generator), Orchestrator.v
      (deal-orchestrator): the other services.
    - Encrypt.v, Auth.v (dashboard/kyneto-encrypt-browser.js, kyneto-auth.js): the
      encryption of files and the signing of requests in the browser.
    - Backend.v: all services together, as steps on one world.
    - Page.v: the browser page - document, local storage, global variables, the
      questions asked of wallet, contracts and API.
    - Notices.v, NodeStatus.v, Governance.v, Wallet.v, Transactions.v
      (dashboard/app.js): notifications and settings, the provider panel,
      proposals, the wallet session, everything that moves tokens.
    - Dashboard.v: all page events together.
    - Files.v (dashboard/app.js): choosing, encrypting, uploading and downloading
      files, with File objects shared between handlers and jobs that run later in any
      order; FileFlow.v: what happens to a chosen file; FileKeys.v: what uploads contain
      in every order of events, sessions that mix the file form with all other page
      events, downloads.
    - Tables.v (dashboard/app.js): statistics, detail views, tables of deals, profile
      page, socket messages; Views.v: what they show, and the page invariant with
      them; PageLoad.v: loading the page, tabs, the avatar preview.
    - Vault.v, Daemon.v (provider-stack/public-repo/src/storage-vault.ts, index.ts):
      the storage vault over a disk whose system calls fail by schedule, and the
      process on the provider's machine, which calls the routes of RestApi.v on the
      shared world; Sectors.v: its Merkle tables; DaemonSync.v: the abstract
      synchronisation of pins and its refinement; DaemonFaults.v: how it fails.
    - EarlierDaemon.v (services/provider-daemon/src/index.ts): the earlier copy of the
      daemon, with a simulation between the two.
    - Indexer.v (indexer/src/index.ts): connection with backoff, mirroring, health.
    - NodeEncrypt.v (services/encryption/kyneto-encrypt.ts), Cli.v (cli/): the
      encryption library of the command line tools, and the seven commands.
    - Adapter.v (services/kubo-adapter): the wrapper of the IPFS client.

    The contracts (smart-contracts/contracts/):

    - Contracts.v: the machine - words, reverts, transactions, the storage of every
      contract by address; ChainRules.v: inversion of runs, frames, sums over mappings.
    - Token.v (StorageToken and its ERC20), Registry.v (ProviderRegistry), Pool.v
      (CapacityPledge), Market.v (StorageMarketplace), Distributor.v (PaymentDistributor),
      Slashing.v (SlashingManager), Verifier.v (ProofVerifier), Vesting.v (TokenVesting):
      one function per function of the contract, calls between contracts included.
    - Protocol.v: every external function as a call, transactions, and the rule that
      turns a property of single calls into an invariant of the whole system.
    - Collateral.v, Escrow.v, Deals.v, Lifecycle.v, Roster.v, Penalties.v, Payouts.v: the
      theorems over every sequence of transactions of all contracts.
    - Deploy.v (smart-contracts/scripts, hardhat.config.js): the scripts as programs
      that send transactions to the contracts; Wiring.v: what they leave behind.
    - Bridge.v: the dashboard's cost formula against the contract that charges it.
    - Mirror.v, Ledgers.v: the listener of Listener.v fed with the events the contracts
      emit - the tables of providers, pledges, slashings and withdrawals against the
      storage of the contracts.

    A definition carries the name of the function it translates.  A handler is one
    monadic program with every guard, early return and write of the source in the
    order of the source.  Functions of the language are modelled; third-party code
    (the Reed-Solomon codec, AES-GCM, ethers, the wallet, keccak256, SQL RANDOM()) is
    a parameter, and what is used of it is a named hypothesis with a concrete
    instance in the witnesses.  The services and the page see the contracts as a
    parameter too: what a call answers there is arbitrary, so their theorems hold
    for every behaviour of the chain; Bridge.v, Mirror.v and Ledgers.v join the two sides.

    ** What the theorems show

    - Data safety: any ten shards of an encoded file give back every shard byte for
      byte (ShardManager); a repair puts exactly the lost bytes on an eligible provider,
      where the schema has the column it selects by, and never two shards of a deal on
      one provider, under every fault schedule; the queue drains while the database
      answers (RepairService).
    - Monitoring: repairs are queued only after the cooldown, heartbeats prevent
      loss reports (HealthMonitor); slashing hits only providers silent for a day
      (Uptime).
    - Deals: creation distributes fifteen shards evenly and tells each provider its
      own (RestApi); cancelling needs the owner's signature, and reaches every holder
      while the database answers; expired deals are completed; every interleaving of
      services and chain events keeps closed deals free of active shards, as long as
      the database does not fail in the middle of closing a deal (Backend).
    - Keys: encryption round trip in the browser and in Node, key storage round trip
      and its access control; with a wallet that signs, files leave the browser only
      encrypted in every order of events in which none is removed, and a file downloads
      back as it was (FileKeys).
    - Providers: a run of the assignments task refines one abstract round of pinning
      and unpinning (DaemonSync); sectors cover a shard and trees match sectors in
      every reachable state (Sectors); the vault is never shrunk and never reported
      ready below its size (Vault); the newer daemon without a vault is the earlier one,
      and its polling hands over the challenges the subscription would (EarlierDaemon).
    - The indexer: connecting ends within ten attempts and three minutes unless a call
      to the endpoint never settles, and then never; the health route tells the truth in
      every reachable state.
    - Money: at most one usage payment per deal (Payments); on the page, nothing is
      spent that was not approved in the same run, and the approval of a deal
      covers what the marketplace contract takes while its fee is at most the three
      per cent the page computes with (Transactions, Dashboard).
    - The page: an invariant of every sequence of events; the penalty schedule of
      the reputation score.
    - Contracts, over all sequences of transactions: balances add up to the supply
      (Protocol), the collateral of pledges stays locked and a due pledge is paid
      back (Collateral), the marketplace has the tokens it owes until its owner
      withdraws fees, which come out of escrow (Escrow), the marketplace refines a state machine on
      deals (Deals, Lifecycle), closed deals never change and the shard counter is
      the number of active shards (Lifecycle), the registry is consistent, its
      eligible list is a filter, cool-downs hold (Roster), a proof settles its
      challenge once and appeals settle once (Penalties), the tokens a vesting schedule
      has paid are what it records and at most its amount (Payouts).
    - Deployment: what the v2 and Amoy scripts wire, which key is used (Wiring); the
      market charges its formula at the stored fee, which the approval covers up to
      three per cent (Bridge).
    - How far the database follows the chain: after any transactions the provider table
      has one row per registered provider (Mirror); its score, the terms of its pledges
      and the sums of its slashings and withdrawals are those of the contracts when
      ethers spells the address without capital letters and the provider registered
      first, and otherwise never arrive (Ledgers), because rows are stored under the
      address in lower case and looked up by the checksummed one.  The proofs replay the log: the storage of a contract is a function of
      the events it emitted, and each handler of the listener is one step of that replay.
    - Behaviour that is not what the comments or names say is stated as a theorem of
      the model as well: padded reconstruction, sibling shards that are never
      repaired, checksummed addresses, double payment after a database failure, a
      shared wrapping pad, the signer that the request wrapper cannot see,
      overlapping votes, the signer recovery that always reports failure, plaintext
      uploaded when a file is removed during encryption, keys that never reach the
      API, shared shards unpinned by the daemon, messages that end the daemon, proofs
      that are never submitted, detail views without counts; in the contracts: usage
      rewards that are never distributed, slashing that burns the wallet and leaves
      the pledge, a difficulty check that tests the wrong bits, a revocation that takes
      vested tokens; in the scripts: deploy.js that throws before it ends, a
      deployment on Amoy that cannot slash, a v2 deployment that cannot refund; in the
      database: reactivations, ends of pledges, deals of the chain and what concerns
      checksummed addresses, which never arrive, a completion that fails half way on the
      committed schema, a second shard of a deal that the key of shards refuses.

    ** Assumptions and bounds

    - A handler of a service runs to its end before the next one starts, and its
      clock reads one time.  Inside a handler every awaited query or call may fail.
      On the page, code after an [await] that other handlers can overtake is split
      off where a theorem depends on it (wallet initialisation, voting, reading,
      encrypting and uploading files).
    - Statements are the SQL of the code on lists of rows.  The key and the foreign keys
      of shards, the foreign keys, keys and column widths of the tables the listener
      fills, and the columns available_capacity, duration_days, price_per_gb_month,
      shard_size_bytes, cancelled_at and deleted_at, which the committed schema lacks,
      are checked where the code depends on them; a missing column makes the first
      statement that names one fail.  Of the other services the tables are taken to have
      the columns the statements name: the committed schema also lacks last_payment_at
      and payment_processed (Payments.v), post_challenges and proof_submissions
      (Proofs.v) and system_config (Indexer.v, where it may be missing).
    - The expiration job sends BEGIN and COMMIT through a connection pool: whether its
      statements share one connection is a parameter ([one_connection]).
    - How ethers spells an address is a parameter of Mirror.v and Ledgers.v ([Spelling])
      under which different addresses stay different in lower case.
    - The fee of the marketplace is a variable of the contract; the dashboard computes
      with 300 basis points.
    - Fuel is used five times: the loop that fills up a selection of providers
      (Replication.second_pass) runs with the requested count, each turn adds a
      provider or leaves the loop, and selectWithDiversity_correct proves that the
      selection has the full length; decimal printing in JsFormat.v tries up to 25
      decimals, more than any value the page prints needs; the loop that cuts a shard
      into sectors (Daemon.sector_loop) has one unit more than the shard has bytes and
      sectors_cover_shard shows that nothing is lost; the connection loop
      (Indexer.connect_loop) has one unit more than MAX_RETRIES, and
      connectWithRetry_terminates shows that the fuel never runs out; the attempts to
      start AppKit (PageLoad.appkit_attempts) have six units, and appkit_start_ends shows
      that no more are made.
    - Integers are unbounded where the code uses counters, clocks and BigInt;
      amounts passed to contracts are range-checked as the encoder does.
    - Contract words are N with the overflow check of each operation written out; a
      transaction that reverts leaves the chain as it was; a call of an address where no
      contract of the kind lives reverts.  Gas and ether are left out (no function is
      payable); events are kept, and the guard against re-entrance is its status flag.
    - Markup keeps its text and handlers, not the attributes that style it.

    - Mirror.v and Ledgers.v look at one contract of each kind, from its deployment on,
      with every event delivered once and in order and the database answering.

    ** Not modelled

    - The landing pages: templates and their tables of texts, without protocol state.
    - app_download.js: an older copy of dashboard/app.js that no page loads.
    - Of the API: rate limits, metrics and headers, whose state is that of the libraries
      that provide them; the second route for DELETE /api/deals/:id, which is registered
      behind the first and never reached.
    - services/blockchain-listener/src/index.js: an older compilation that no script runs.
    - services/erasure-coding/src/index.ts: it connects and starts the modelled parts.
    - rebalanceShards of the replication orchestrator: it logs a count and changes nothing.
    - On the page: the drawing of charts in the detail views, and the first
      handleCreateDeal, which the second declaration of the name replaces.
    - Progress messages of the deployment scripts, command line parsing.
    - The machine learning sidecar (Python) and the Go implementation of IPFS. *)

From Stdlib Require Export ZArith Lia.
From stdpp Require Export base numbers gmap strings list sorting option pretty.

(** * 1. Exceptions and state: the effect monad of the handlers *)

(** The value of [error.code]: wallets throw numeric codes, ethers string codes. *)
Inductive err_code : Type :=
| CodeNum (n : Z)
| CodeStr (s : string).

#[global] Instance err_code_eq_dec : EqDecision err_code.
Proof. solve_decision. Defined.

(** A JavaScript [Error] object, with the properties the code reads. *)
Record js_error : Type := MkError {
  err_message : string;
  err_code_of : option err_code;
  err_reason : option string;
  err_data_message : option (option string);   (* error.data, and error.data.message *)
  err_inner_message : option (option string)   (* error.error, and error.error.message *)
}.

(** [new Error(msg)]. *)
Definition Error (msg : string) : js_error := MkError msg None None None None.

Inductive outcome (A : Type) : Type :=
| Ok (a : A)
| Throw (e : js_error).
Arguments Ok {A} a.
Arguments Throw {A} e.

(** A computation over a mutable state [S]: it returns or throws, and in both
    cases the writes made so far stay, as in JavaScript. *)
Definition M (S A : Type) : Type := S → outcome A * S.

#[global] Instance M_ret {S} : MRet (M S) := λ A a s, (Ok a, s).
#[global] Instance M_bind {S} : MBind (M S) := λ A B k m s,
  match m s with
  | (Ok a, s') => k a s'
  | (Throw e, s') => (Throw e, s')
  end.

Definition throw {S A} (e : js_error) : M S A := λ s, (Throw e, s).

(** [try { m } catch (e) { h e }] *)
Definition try_catch {S A} (m : M S A) (h : js_error → M S A) : M S A := λ s,
  match m s with
  | (Ok a, s') => (Ok a, s')
  | (Throw e, s') => h e s'
  end.

(** [try { m } finally { f }] *)
Definition try_finally {S A} (m : M S A) (f : M S unit) : M S A := λ s,
  match m s with
  | (r, s') => match f s' with
               | (Ok _, s'') => (r, s'')
               | (Throw e, s'') => (Throw e, s'')
               end
  end.

Definition gets {S A} (f : S → A) : M S A := λ s, (Ok (f s), s).
Definition modify {S} (f : S → S) : M S unit := λ s, (Ok tt, f s).

(** [for (const x of xs) { f x }] with the loop body awaited. *)
Fixpoint for_each {S A} (xs : list A) (f : A → M S unit) : M S unit :=
  match xs with
  | [] => mret tt
  | x :: xs' => f x ;; for_each xs' f
  end.

(** Run a loop body that returns a value per element, collecting the values. *)
Fixpoint map_each {S A B} (xs : list A) (f : A → M S B) : M S (list B) :=
  match xs with
  | [] => mret []
  | x :: xs' => y ← f x; ys ← map_each xs' f; mret (y :: ys)
  end.

(** ** Hoare triples and invariants of computations *)

Definition hoare {S A} (P : S → Prop) (m : M S A) (Q : outcome A → S → Prop) : Prop :=
  ∀ s, P s → Q (fst (m s)) (snd (m s)).

(** [preserves I m]: [m] keeps [I], whether it returns or throws. *)
Definition preserves {S A} (I : S → Prop) (m : M S A) : Prop :=
  ∀ s, I s → I (snd (m s)).

Create HintDb preserves.

Section PreservesRules.
  Context {S : Type} (I : S → Prop).

Lemma preserves_ret {A} (a : A) : preserves I (mret a).
Proof. intros s Hs. exact Hs. Qed.

Lemma preserves_throw {A} e : preserves I (throw e : M S A).
Proof. intros s Hs. exact Hs. Qed.

Lemma preserves_gets {A} (f : S → A) : preserves I (gets f).
Proof. intros s Hs. exact Hs. Qed.

Lemma preserves_modify f : (∀ s, I s → I (f s)) → preserves I (modify f).
Proof. intros H s Hs. apply H, Hs. Qed.

Lemma preserves_bind {A B} (m : M S A) (k : A → M S B) :
    preserves I m → (∀ a, preserves I (k a)) → preserves I (m ≫= k).
Proof.
    intros Hm Hk s Hs. unfold mbind, M_bind. specialize (Hm s Hs).
    destruct (m s) as [[a|e] s']; simpl in *; [apply Hk, Hm | exact Hm].
  Qed.

Lemma preserves_try_catch {A} (m : M S A) h :
    preserves I m → (∀ e, preserves I (h e)) → preserves I (try_catch m h).
Proof.
    intros Hm Hh s Hs. unfold try_catch. specialize (Hm s Hs).
    destruct (m s) as [[a|e] s']; simpl in *; [exact Hm | apply Hh, Hm].
  Qed.

Lemma preserves_try_finally {A} (m : M S A) f :
    preserves I m → preserves I f → preserves I (try_finally m f).
Proof.
    intros Hm Hf s Hs. unfold try_finally. specialize (Hm s Hs).
    destruct (m s) as [r s']; simpl in *. specialize (Hf s' Hm).
    destruct (f s') as [[[]|e] s'']; simpl in *; exact Hf.
  Qed.

Lemma preserves_for_each {A} (xs : list A) f :
    (∀ x, preserves I (f x)) → preserves I (for_each xs f).
Proof.
    intros Hf. induction xs as [|x xs IH]; simpl.
    - apply preserves_ret.
    - apply preserves_bind; [apply Hf | intros; apply IH].
  Qed.

Lemma preserves_map_each {A B} (xs : list A) (f : A → M S B) :
    (∀ x, preserves I (f x)) → preserves I (map_each xs f).
Proof.
    intros Hf. induction xs as [|x xs IH]; simpl; [apply preserves_ret|].
    apply preserves_bind; [apply Hf|]. intros y.
    apply preserves_bind; [apply IH|]. intros ys. apply preserves_ret.
  Qed.

(** Sequencing when the first step's result tells more than [I]. *)
Lemma preserves_bind_post {A B} (m : M S A) (k : A → M S B) (J : A → S → Prop) :
    (∀ s, I s → match m s with (Ok a, s') => J a s' | (Throw _, s') => I s' end) →
    (∀ a s, J a s → I (snd (k a s))) → preserves I (m ≫= k).
Proof.
    intros Hm Hk s Hs. unfold mbind, M_bind. specialize (Hm s Hs).
    destruct (m s) as [[a|e] s']; simpl in *; auto.
  Qed.

Lemma preserves_if {A} (b : bool) (m1 m2 : M S A) :
    (b = true → preserves I m1) → (b = false → preserves I m2) →
    preserves I (if b then m1 else m2).
Proof. destruct b; auto. Qed.
End PreservesRules.

#[export] Hint Resolve preserves_ret preserves_throw preserves_gets preserves_modify
  preserves_bind preserves_try_catch preserves_try_finally preserves_for_each
  preserves_map_each preserves_if : preserves.

(** ** Rules for Hoare triples *)

Lemma bind_ok {S A B} (m : M S A) (k : A → M S B) s a s' :
  m s = (Ok a, s') → (m ≫= k) s = k a s'.
Proof. intros H. unfold mbind, M_bind. by rewrite H. Qed.

Section HoareRules.
  Context {S : Type}.

Lemma hoare_bind {A B} (P : S → Prop) (m : M S A) (k : A → M S B) R Q :
    hoare P m R → (∀ a, hoare (R (Ok a)) (k a) Q) →
    (∀ e s, R (Throw e) s → Q (Throw e) s) → hoare P (m ≫= k) Q.
Proof.
    intros Hm Hk He s Hs. unfold mbind, M_bind. specialize (Hm s Hs).
    destruct (m s) as [[a|e] s']; simpl in *; [by apply Hk | by apply He].
  Qed.

Lemma hoare_try_catch {A} (P : S → Prop) (m : M S A) h R Q :
    hoare P m R → (∀ a s, R (Ok a) s → Q (Ok a) s) →
    (∀ e, hoare (R (Throw e)) (h e) Q) → hoare P (try_catch m h) Q.
Proof.
    intros Hm Hok Hh s Hs. unfold try_catch. specialize (Hm s Hs).
    destruct (m s) as [[a|e] s']; simpl in *; [by apply Hok | by apply Hh].
  Qed.

Lemma hoare_consequence {A} (P P' : S → Prop) (m : M S A) Q Q' :
    hoare P m Q → (∀ s, P' s → P s) → (∀ r s, Q r s → Q' r s) → hoare P' m Q'.
Proof. intros Hm HP HQ s Hs. apply HQ, Hm, HP, Hs. Qed.

Lemma hoare_preserves {A} (I : S → Prop) (m : M S A) :
    preserves I m → hoare I m (λ _, I).
Proof. done. Qed.

(** [ends I T m]: [m] keeps [I], and establishes [T] when it returns. *)
Definition ends {A} (I T : S → Prop) (m : M S A) : Prop :=
    hoare I m (λ r s, I s ∧ match r with Ok _ => T s | Throw _ => True end).

Lemma ends_bind {A B} (I T : S → Prop) (m : M S A) (k : A → M S B) :
    preserves I m → (∀ a, ends I T (k a)) → ends I T (m ≫= k).
Proof.
    intros Hm Hk s Hs. unfold mbind, M_bind. specialize (Hm s Hs).
    destruct (m s) as [[a|e] s']; simpl in *; [by apply Hk | done].
  Qed.

Lemma ends_throw {A} (I T : S → Prop) e : ends I T (throw e : M S A).
Proof. by intros s Hs. Qed.

(** A loop establishes, element by element, a fact about the elements done. *)
Lemma for_each_done {A} (I : list A → S → Prop) (f : A → M S unit) xs : ∀ done s,
    (∀ done' x rest s, done ++ xs = done' ++ x :: rest → I done' s →
       ∃ s', f x s = (Ok tt, s') ∧ I (done' ++ [x]) s') →
    I done s → ∃ s', for_each xs f s = (Ok tt, s') ∧ I (done ++ xs) s'.
Proof.
    induction xs as [|x xs IH]; intros done s Hf Hs; simpl.
    { exists s. by rewrite app_nil_r. }
    destruct (Hf done x xs s eq_refl Hs) as (s1 & H1 & Hs1).
    rewrite (bind_ok _ _ _ _ _ H1).
    destruct (IH (done ++ [x]) s1) as (s2 & H2 & Hs2); [|done|].
    - intros done' y rest t Heq. rewrite <- app_assoc in Heq. by apply (Hf done' y rest).
    - exists s2. by rewrite <- app_assoc in Hs2.
  Qed.
End HoareRules.

(** [preserve]: syntax-directed application of the rules above; what is left
    is one goal per write. *)
Ltac preserve_step :=
  match goal with
  | |- preserves _ (mret _) => apply preserves_ret
  | |- preserves _ (throw _) => apply preserves_throw
  | |- preserves _ (gets _) => apply preserves_gets
  | |- preserves _ (_ ≫= _) => apply preserves_bind; [|intros ?]
  | |- preserves _ (try_catch _ _) => apply preserves_try_catch; [|intros ?]
  | |- preserves _ (try_finally _ _) => apply preserves_try_finally
  | |- preserves _ (for_each _ _) => apply preserves_for_each; intros ?
  | |- preserves _ (map_each _ _) => apply preserves_map_each; intros ?
  | |- preserves _ (if ?b then _ else _) => destruct b eqn:?
  | |- preserves _ (match ?x with _ => _ end) => destruct x eqn:?
  | |- preserves _ (modify _) => apply preserves_modify; intros ? ?
  end.
Ltac preserve := repeat (preserve_step; simpl); auto with preserves.

(** ** Sequencing facts used when a concrete run is computed step by step *)

Lemma gets_bind {S A B} (g : S → A) (k : A → M S B) s : (gets g ≫= k) s = k (g s) s.
Proof. reflexivity. Qed.
Lemma bind_assoc_run {S A B C} (m : M S A) (k : A → M S B) (k' : B → M S C) s :
  ((m ≫= k) ≫= k') s = (m ≫= (λ a, k a ≫= k')) s.
Proof. unfold mbind, M_bind. by destruct (m s) as [[a|e] s']. Qed.
Lemma modify_bind {S B} (g : S → S) (k : unit → M S B) s : (modify g ≫= k) s = k tt (g s).
Proof. reflexivity. Qed.

Lemma bind_throw {S A B} (m : M S A) (k : A → M S B) s e s' :
  m s = (Throw e, s') → (m ≫= k) s = (Throw e, s').
Proof. intros H. unfold mbind, M_bind. by rewrite H. Qed.

Lemma for_each_app {S A} (xs ys : list A) (f : A → M S unit) s :
  for_each (xs ++ ys) f s = (for_each xs f ;; for_each ys f) s.
Proof.
  revert s. induction xs as [|x xs IH]; intros s; simpl; [done|].
  unfold mbind, M_bind in *. destruct (f x s) as [[[]|e] s']; [|done]. apply IH.
Qed.

(** A loop whose body never throws returns normally. *)
Lemma for_each_total {S A} (xs : list A) (f : A → M S unit) s :
  (∀ x s, ∃ s', f x s = (Ok tt, s')) → ∃ s', for_each xs f s = (Ok tt, s').
Proof.
  intros Hf. revert s. induction xs as [|x xs IH]; intros s; simpl; [by eexists|].
  destruct (Hf x s) as [s1 H1]. rewrite (bind_ok _ _ _ _ _ H1). apply IH.
Qed.

(** A [try] whose handler never throws returns normally. *)
Lemma try_catch_total {S A} (m : M S A) h s :
  (∀ e s, ∃ a s', h e s = (Ok a, s')) → ∃ a s', try_catch m h s = (Ok a, s').
Proof.
  intros Hh. unfold try_catch. destruct (m s) as [[a|e] s']; [eauto | apply Hh].
Qed.

(** [total m]: [m] never throws. *)
Definition total {S A} (m : M S A) : Prop := ∀ s, ∃ a s', m s = (Ok a, s').

Section TotalRules.
  Context {S : Type}.
Lemma total_ret {A} (a : A) : total (mret a : M S A).
Proof. intros s. by eexists _, _. Qed.
Lemma total_gets {A} (f : S → A) : total (gets f).
Proof. intros s. by eexists _, _. Qed.
Lemma total_modify (f : S → S) : total (modify f).
Proof. intros s. by eexists _, _. Qed.
Lemma total_bind {A B} (m : M S A) (k : A → M S B) :
    total m → (∀ a, total (k a)) → total (m ≫= k).
Proof.
    intros Hm Hk s. destruct (Hm s) as (a & s' & H). rewrite (bind_ok _ _ _ _ _ H). apply Hk.
  Qed.
Lemma total_try_catch {A} (m : M S A) h : (∀ e, total (h e)) → total (try_catch m h).
Proof. intros Hh s. apply try_catch_total. intros. apply Hh. Qed.
Lemma total_for_each {A} (xs : list A) (f : A → M S unit) :
    (∀ x, total (f x)) → total (for_each xs f).
Proof.
    intros Hf. induction xs as [|x xs IH]; simpl; [apply total_ret|].
    apply total_bind; [apply Hf|]. intros. apply IH.
  Qed.
Lemma total_unit (m : M S unit) s : total m → ∃ s', m s = (Ok tt, s').
Proof. intros Hm. destruct (Hm s) as ([] & s' & H). by exists s'. Qed.
End TotalRules.

Ltac total_step :=
  match goal with
  | |- total (mret _) => apply total_ret
  | |- total (gets _) => apply total_gets
  | |- total (modify _) => apply total_modify
  | |- total (_ ≫= _) => apply total_bind; [|intros ?]
  | |- total (try_catch _ _) => apply total_try_catch; intros ?
  | |- total (for_each _ _) => apply total_for_each; intros ?
  | |- total (if ?b then _ else _) => destruct b
  | |- total (match ?x with _ => _ end) => destruct x
  end.
Ltac totality := repeat (total_step; cbv beta zeta).

(** [running]: expose the state passing of a monadic program. *)
Ltac running :=
  unfold mbind, M_bind, mret, M_ret, gets, modify, throw, try_catch, try_finally in *; simpl in *.

(** * 2. JavaScript strings *)

Declare Scope js_scope.
Delimit Scope js_scope with js.
Open Scope Z_scope.

Definition lower_ascii (c : Ascii.ascii) : Ascii.ascii :=
  let n := Ascii.nat_of_ascii c in
  if (65 <=? n)%nat && (n <=? 90)%nat then Ascii.ascii_of_nat (n + 32) else c.

(** [s.toLowerCase()] on ASCII text, which also is SQL's [LOWER]. *)
Fixpoint toLowerCase (s : string) : string :=
  match s with
  | EmptyString => EmptyString
  | String c s' => String (lower_ascii c) (toLowerCase s')
  end.

Lemma lower_ascii_idemp c : lower_ascii (lower_ascii c) = lower_ascii c.
Proof. by destruct c as [[][][][][][][][]]. Qed.

Lemma toLowerCase_idemp s : toLowerCase (toLowerCase s) = toLowerCase s.
Proof. induction s as [|c s IH]; simpl; [done|]. by rewrite lower_ascii_idemp, IH. Qed.

(** Truthiness of an optional string: [undefined] and the empty string are falsy. *)
Definition truthy (s : option string) : bool :=
  match s with Some (String _ _) => true | _ => false end.

(** [s.includes(sub)] *)
Fixpoint includes (sub s : string) : bool :=
  String.prefix sub s ||
  match s with EmptyString => false | String _ s' => includes sub s' end.

(** [parseInt(s)] in base ten: white space, a sign, the longest run of digits;
    [None] is NaN. *)
Definition digit (c : Ascii.ascii) : option Z :=
  let n := Z.of_nat (Ascii.nat_of_ascii c) in
  if (48 <=? n) && (n <=? 57) then Some (n - 48) else None.
Fixpoint parse_digits (acc : option Z) (s : string) : option Z :=
  match s with
  | EmptyString => acc
  | String c s' =>
      match digit c with
      | Some d => parse_digits (Some (default 0 acc * 10 + d)) s'
      | None => acc
      end
  end.
Definition is_space (c : Ascii.ascii) : bool :=
  let n := Ascii.nat_of_ascii c in ((n =? 32) || ((9 <=? n) && (n <=? 13)))%nat.
Fixpoint parseInt (s : string) : option Z :=
  match s with
  | EmptyString => None
  | String c s' =>
      if is_space c then parseInt s'
      else if bool_decide (c = Ascii.ascii_of_nat 45) then Z.opp <$> parse_digits None s'
      else if bool_decide (c = Ascii.ascii_of_nat 43) then parse_digits None s'
      else parse_digits None (String c s')
  end.

(** The double-quote character. *)
Definition dq : string := String (Ascii.ascii_of_nat 34) EmptyString.

(** [xs.join(sep)] *)
Fixpoint join (sep : string) (xs : list string) : string :=
  match xs with
  | [] => ""
  | [x] => x
  | x :: xs' => x +:+ sep +:+ join sep xs'
  end.

(** Decimal printing of an integer, as in a template literal. *)
Definition show_Z (z : Z) : string := pretty.pretty z.

(** * 3. Lists *)

(** [filter]/[map]/[find] on lists with Boolean predicates, as the code calls
    them ([xs.find(p)] is [undefined] when nothing matches). *)
Definition where_ {A} (p : A → bool) (xs : list A) : list A := List.filter p xs.

Fixpoint find_first {A} (p : A → bool) (xs : list A) : option A :=
  match xs with
  | [] => None
  | x :: xs' => if p x then Some x else find_first p xs'
  end.

(** [UPDATE ... SET upd WHERE p] *)
Definition update_where {A} (p : A → bool) (upd : A → A) (xs : list A) : list A :=
  map (λ x, if p x then upd x else x) xs.

(** [DELETE FROM ... WHERE p] *)
Definition delete_where {A} (p : A → bool) (xs : list A) : list A :=
  List.filter (λ x, negb (p x)) xs.

(** [[...new Set(xs)]]: the distinct elements in order of first occurrence. *)
Fixpoint distinct_from {A} `{EqDecision A} (seen xs : list A) : list A :=
  match xs with
  | [] => []
  | x :: xs' => if decide (x ∈ seen) then distinct_from seen xs'
                else x :: distinct_from (x :: seen) xs'
  end.
Definition distinct {A} `{EqDecision A} (xs : list A) : list A := distinct_from [] xs.

Create HintDb kyneto.
Create Rewrite HintDb kyneto.

Section ListFacts.
  Context {A : Type}.
  Implicit Types (p q : A → bool) (xs ys : list A).

Lemma find_first_Some p xs x : find_first p xs = Some x → x ∈ xs ∧ p x = true.
Proof.
    induction xs as [|y xs IH]; simpl; [done|].
    destruct (p y) eqn:E; [intros [= <-]; set_solver|].
    intros H. destruct (IH H). set_solver.
  Qed.

Lemma find_first_None p xs : find_first p xs = None ↔ ∀ x, x ∈ xs → p x = false.
Proof.
    induction xs as [|y xs IH]; simpl; [set_solver|].
    destruct (p y) eqn:E; split; [done| |rewrite IH; set_solver|].
    - intros H. specialize (H y ltac:(set_solver)). congruence.
    - intros H. apply IH. set_solver.
  Qed.

Lemma elem_of_where p xs x : x ∈ where_ p xs ↔ x ∈ xs ∧ p x = true.
Proof. unfold where_. rewrite !list_elem_of_In. apply filter_In. Qed.

Lemma elem_of_delete_where p xs x : x ∈ delete_where p xs ↔ x ∈ xs ∧ p x = false.
Proof.
    unfold delete_where. rewrite !list_elem_of_In, filter_In. by rewrite negb_true_iff.
  Qed.

Lemma elem_of_update_where p u xs y :
    y ∈ update_where p u xs ↔ ∃ x, x ∈ xs ∧ y = (if p x then u x else x).
Proof.
    unfold update_where. rewrite list_elem_of_fmap. split; intros (x & ? & ?); eauto.
  Qed.

Lemma length_update_where p u xs : length (update_where p u xs) = length xs.
Proof. apply length_map. Qed.

Lemma update_where_none p u xs :
    (∀ x, x ∈ xs → p x = false) → update_where p u xs = xs.
Proof.
    intros H. unfold update_where. induction xs as [|x xs IH]; simpl; [done|].
    rewrite H by set_solver. f_equal. apply IH. set_solver.
  Qed.

Lemma where_update_where p q u xs :
    (∀ x, p (u x) = p x) → where_ p (update_where q u xs) = update_where q u (where_ p xs).
Proof.
    intros Hu. unfold where_, update_where. induction xs as [|x xs IH]; simpl; [done|].
    destruct (q x) eqn:Eq; rewrite ?Hu; destruct (p x) eqn:Ep; simpl; rewrite ?Eq, IH; done.
  Qed.

Lemma where_where p q xs : where_ p (where_ q xs) = where_ (λ x, q x && p x) xs.
Proof.
    unfold where_. induction xs as [|x xs IH]; simpl; [done|].
    destruct (q x); simpl; [destruct (p x); by rewrite IH | apply IH].
  Qed.

Lemma sublist_where p xs : where_ p xs `sublist_of` xs.
Proof.
    unfold where_. induction xs as [|x xs IH]; simpl; [done|].
    destruct (p x); [by apply sublist_skip | by apply sublist_cons].
  Qed.

Lemma where_app p xs ys : where_ p (xs ++ ys) = where_ p xs ++ where_ p ys.
Proof. apply List.filter_app. Qed.

Lemma where_ext p q xs : (∀ x, x ∈ xs → p x = q x) → where_ p xs = where_ q xs.
Proof.
    intros H. unfold where_. apply filter_ext_in. intros x Hx. apply H.
    by apply list_elem_of_In.
  Qed.
End ListFacts.

Section Distinct.
  Context {A : Type} `{EqDecision A}.

Lemma elem_of_distinct_from (seen xs : list A) x :
    x ∈ distinct_from seen xs ↔ x ∈ xs ∧ x ∉ seen.
Proof.
    revert seen. induction xs as [|y xs IH]; intros seen; simpl; [set_solver|].
    case_decide; [rewrite IH|rewrite elem_of_cons, IH]; [set_solver|].
    destruct (decide (x = y)); set_solver.
  Qed.

Lemma elem_of_distinct (xs : list A) x : x ∈ distinct xs ↔ x ∈ xs.
Proof. unfold distinct. rewrite elem_of_distinct_from. set_solver. Qed.

Lemma NoDup_distinct_from (seen xs : list A) : NoDup (distinct_from seen xs).
Proof.
    revert seen. induction xs as [|y xs IH]; intros seen; simpl; [constructor|].
    case_decide; [apply IH|]. constructor; [|apply IH].
    rewrite elem_of_distinct_from. set_solver.
  Qed.

Lemma NoDup_distinct (xs : list A) : NoDup (distinct xs).
Proof. apply NoDup_distinct_from. Qed.
End Distinct.

(** [ORDER BY key ASC], and [xs.sort((a, b) => key a - key b)]: a stable sort. *)
Definition le_by {A} (key : A → Z) (x y : A) : Prop := key x ≤ key y.
Fixpoint insert_by {A} (key : A → Z) (x : A) (xs : list A) : list A :=
  match xs with
  | [] => [x]
  | y :: ys => if key x <=? key y then x :: y :: ys else y :: insert_by key x ys
  end.
Definition order_by {A} (key : A → Z) (xs : list A) : list A := foldr (insert_by key) [] xs.

(** [ORDER BY key DESC, RANDOM()]: the rows arrive in an order the database
    picks, and a stable sort keeps that order among equal keys. *)
Class Shuffle : Type := { shuffle : ∀ {A}, list A → list A }.
Class ShuffleLaws `{Shuffle} : Prop := { shuffle_Permutation : ∀ A (xs : list A), shuffle xs ≡ₚ xs }.

Definition in_order : Shuffle := {| shuffle := λ _ xs, xs |}.
Lemma in_order_laws : @ShuffleLaws in_order.
Proof. by constructor. Qed.

Section OrderBy.
  Context {A : Type} (key : A → Z).

Lemma insert_by_Permutation x (xs : list A) : insert_by key x xs ≡ₚ x :: xs.
Proof.
    induction xs as [|y xs IH]; simpl; [done|]. destruct (_ <=? _); [done|].
    rewrite IH. apply Permutation_swap.
  Qed.

Lemma order_by_Permutation (xs : list A) : order_by key xs ≡ₚ xs.
Proof.
    induction xs as [|x xs IH]; simpl; [done|]. by rewrite insert_by_Permutation, IH.
  Qed.

Lemma elem_of_order_by (xs : list A) x : x ∈ order_by key xs ↔ x ∈ xs.
Proof. by rewrite order_by_Permutation. Qed.

Lemma Sorted_insert_by x (xs : list A) :
    StronglySorted (le_by key) xs → StronglySorted (le_by key) (insert_by key x xs).
Proof.
    unfold le_by. induction xs as [|y xs IH]; simpl; [by repeat constructor|].
    intros Hs. pose proof Hs as Hs0. apply StronglySorted_cons in Hs as [Hy Hxs].
    rewrite Forall_forall in Hy. destruct (key x <=? key y) eqn:E.
    - apply Z.leb_le in E. apply StronglySorted_cons. split; [|done].
      apply Forall_forall. intros z [->|Hz]%elem_of_cons; [done|].
      specialize (Hy z Hz). simpl in Hy. lia.
    - apply Z.leb_gt in E. apply StronglySorted_cons. split; [|by apply IH].
      apply Forall_forall. intros z. rewrite insert_by_Permutation.
      intros [->|Hz]%elem_of_cons; [lia|by apply Hy].
  Qed.

Lemma Sorted_order_by (xs : list A) : StronglySorted (le_by key) (order_by key xs).
Proof. induction xs as [|x xs IH]; simpl; [constructor|]. by apply Sorted_insert_by. Qed.

(** Stability: the elements with one key keep their order. *)
Lemma where_insert_by k x (xs : list A) :
    where_ (λ y, key y =? k) (insert_by key x xs) = where_ (λ y, key y =? k) (x :: xs).
Proof.
    unfold where_. induction xs as [|y xs IH]; simpl; [done|].
    destruct (key x <=? key y) eqn:E; simpl; [done|]. rewrite IH. simpl.
    destruct (key x =? k) eqn:Ex, (key y =? k) eqn:Ey; try done. lia.
  Qed.

Lemma order_by_stable k (xs : list A) :
    where_ (λ y, key y =? k) (order_by key xs) = where_ (λ y, key y =? k) xs.
Proof.
    induction xs as [|x xs IH]; [done|]. simpl. rewrite where_insert_by.
    unfold where_ in *. simpl. by rewrite IH.
  Qed.

(** The first row of the order has the least key. *)
Lemma order_by_head (xs : list A) x y ys :
    order_by key xs = y :: ys → x ∈ xs → key y ≤ key x.
Proof.
    intros Ho Hx. pose proof (Sorted_order_by xs) as Hs. rewrite Ho in Hs.
    apply StronglySorted_inv in Hs as [_ Hall]. rewrite Forall_forall in Hall.
    apply (elem_of_order_by xs) in Hx. rewrite Ho, elem_of_cons in Hx.
    destruct Hx as [->|Hx]; [done|by apply Hall].
  Qed.
End OrderBy.

#[export] Hint Rewrite @elem_of_order_by : kyneto.

#[export] Hint Rewrite @elem_of_where @elem_of_delete_where @elem_of_update_where
  @elem_of_distinct : kyneto.
#[export] Hint Resolve NoDup_distinct toLowerCase_idemp : kyneto.

(** [rows]: membership goals about selected, updated and deleted rows. *)
Ltac rows := autorewrite with kyneto in *; naive_solver.
