(* ===== verification/JsNum.v ===== *)
(** JavaScript numbers.

    A JS number is an IEEE-754 binary64 value.  [num] is the Standard Library's
    executable specification of such values ([spec_float]) at precision 53 and
    maximal exponent 1024, so every operation below rounds exactly where the
    JavaScript engine rounds.  Integers that the code only counts with (array
    indices, millisecond clocks, token amounts as BigInt) are modelled as [Z];
    the conversions between the two are here. *)

From Stdlib Require Import SpecFloat.

From S2P Require Import Prelude.

Local Open Scope Z_scope.

Definition num : Type := spec_float.

#[global] Instance num_eq_dec : EqDecision num.
Proof. solve_decision. Defined.

Definition num_prec : Z := 53.
Definition num_emax : Z := 1024.

Definition num_nan : num := S754_nan.

(** The double nearest to an integer. *)
Definition num_of_Z (z : Z) : num := binary_normalize num_prec num_emax z 0 false.

Definition num_add (x y : num) : num := SFadd num_prec num_emax x y.
Definition num_sub (x y : num) : num := SFsub num_prec num_emax x y.
Definition num_mul (x y : num) : num := SFmul num_prec num_emax x y.
Definition num_div (x y : num) : num := SFdiv num_prec num_emax x y.
Definition num_lt (x y : num) : bool := SFltb x y.
Definition num_le (x y : num) : bool := SFleb x y.
Definition num_eqb (x y : num) : bool := SFeqb x y.

(** The decimal literal [m / 10^d], correctly rounded (both operands are exact
    when they are below 2^53). *)
Definition num_lit (m : Z) (d : Z) : num := num_div (num_of_Z m) (num_of_Z (10 ^ d)).

(** Falsy numbers: the two zeros and NaN. *)
Definition num_falsy (x : num) : bool :=
  match x with S754_zero _ | S754_nan => true | _ => false end.

(** [x || d] on numbers that may be [undefined]. *)
Definition num_or (x : option num) (d : num) : num :=
  match x with Some v => if num_falsy v then d else v | None => d end.

(** Signed mantissa of a finite double. *)
Definition signed_mant (s : bool) (m : positive) : Z := if s then Z.neg m else Z.pos m.

(** [Math.floor], [Math.ceil] and [Math.round] as integers; [None] on NaN and
    the infinities.  [Math.round] rounds half towards +infinity. *)
Definition num_floor (x : num) : option Z :=
  match x with
  | S754_zero _ => Some 0
  | S754_finite s m e =>
      Some (if 0 <=? e then signed_mant s m * 2 ^ e else signed_mant s m / 2 ^ (- e))
  | _ => None
  end.

Definition num_ceil (x : num) : option Z :=
  match x with
  | S754_zero _ => Some 0
  | S754_finite s m e =>
      Some (if 0 <=? e then signed_mant s m * 2 ^ e else - ((- signed_mant s m) / 2 ^ (- e)))
  | _ => None
  end.

Definition num_round (x : num) : option Z :=
  match x with
  | S754_zero _ => Some 0
  | S754_finite s m e =>
      Some (if 0 <=? e then signed_mant s m * 2 ^ e
            else (2 * signed_mant s m + 2 ^ (- e)) / 2 ^ (- e + 1))
  | _ => None
  end.

(** [Math.ceil(a / b)] of integers well below 2^53, where the double quotient
    cannot reach the next integer by rounding. *)
Definition ceil_div (a b : Z) : Z := - ((- a) / b).

(** [Math.ceil] and [Math.max] as operations on doubles. *)
Definition num_ceil_num (x : num) : num :=
  match num_ceil x with Some z => num_of_Z z | None => x end.
Definition num_max (x y : num) : num :=
  match x, y with
  | S754_nan, _ | _, S754_nan => S754_nan
  | _, _ => if num_lt x y then y else x
  end.

(** An integral double as an integer, as a database accepts it for an integer
    column. *)
Definition num_to_Z (x : num) : option Z :=
  match num_floor x, num_ceil x with
  | Some a, Some b => if a =? b then Some a else None
  | _, _ => None
  end.

(** ** Facts *)

Lemma ceil_div_bounds a b : 0 < b → b * (ceil_div a b - 1) < a ∧ a ≤ b * ceil_div a b.
Proof. intros Hb. unfold ceil_div. pose proof (Z.div_mod (- a) b ltac:(lia)).
  pose proof (Z.mod_pos_bound (- a) b Hb). nia. Qed.

Lemma ceil_div_mul a b : 0 < b → ceil_div (b * a) b = a.
Proof. intros Hb. pose proof (ceil_div_bounds (b * a) b Hb). nia. Qed.

Lemma ceil_div_unique a b q : 0 < b → b * (q - 1) < a → a ≤ b * q → ceil_div a b = q.
Proof. intros Hb H H'. pose proof (ceil_div_bounds a b Hb). nia. Qed.

Lemma ceil_div_nonneg a b : 0 < b → 0 ≤ a → 0 ≤ ceil_div a b.
Proof. intros Hb Ha. pose proof (ceil_div_bounds a b Hb). nia. Qed.

Lemma ceil_div_pos a b : 0 < b → 0 < a → 0 < ceil_div a b.
Proof. intros Hb Ha. pose proof (ceil_div_bounds a b Hb). nia. Qed.

Lemma ceil_div_mono a a' b : 0 < b → a ≤ a' → ceil_div a b ≤ ceil_div a' b.
Proof.
  intros Hb Ha. pose proof (ceil_div_bounds a b Hb). pose proof (ceil_div_bounds a' b Hb). nia.
Qed.

#[export] Hint Resolve ceil_div_nonneg ceil_div_pos : kyneto.

(** A product of doubles carries the product of the signs, so a product of
    two values that are not negative is never negative. *)
Definition num_nonneg (x : num) : bool :=
  match x with
  | S754_zero _ => true
  | S754_infinity s | S754_finite s _ _ => negb s
  | S754_nan => false
  end.

(** The two roundings of the code that are known to differ from exact
    arithmetic: 0.29 * 50 is below 14.5, and 0.1 + 0.2 is not 0.3. *)
Example num_mul_rounds_down :
  num_round (num_mul (num_div (num_of_Z 29) (num_of_Z 100)) (num_of_Z 50)) = Some 14.
Proof. reflexivity. Qed.

Example num_add_rounds : num_eqb (num_add (num_lit 1 1) (num_lit 2 1)) (num_lit 3 1) = false.
Proof. reflexivity. Qed.
