(* ===== verification/JsFormat.v ===== *)
(** Text and numbers: the conversions of the dashboard between form fields,
    doubles and displayed text ([parseFloat], [Number], [toFixed], string
    concatenation with a number, [substring], [trim]). *)

From Stdlib Require Import SpecFloat.

From S2P Require Import Prelude JsNum.

Local Open Scope Z_scope.

(** * Reading numbers *)

(** The double nearest to [m / 10^d]: the quotient with 64 extra bits and a
    sticky last bit rounds like the exact one. *)
Definition num_decimal (m d : Z) : num :=
  if d <=? 0 then num_of_Z (m * 10 ^ (- d))
  else
    let k := 64 + 4 * d in
    let a := Z.abs m * 2 ^ k in
    let q := a / 10 ^ d in
    let sticky := if a mod 10 ^ d =? 0 then 0 else 1 in
    binary_normalize num_prec num_emax ((if m <? 0 then -1 else 1) * (2 * q + sticky)) (- (k + 1)) false.

(** A run of digits: the value so far, the digits read, and what follows. *)
Fixpoint take_digits (acc n : Z) (s : string) : Z * Z * string :=
  match s with
  | EmptyString => (acc, n, EmptyString)
  | String c s' =>
      match digit c with
      | Some d => take_digits (acc * 10 + d) (n + 1) s'
      | None => (acc, n, s)
      end
  end.

Definition char_is (k : nat) (c : Ascii.ascii) : bool := bool_decide (c = Ascii.ascii_of_nat k).

(** An exponent part, if one follows: its value and what follows. *)
Definition take_exponent (s : string) : Z * string :=
  match s with
  | String c rest =>
      if char_is 101 c || char_is 69 c then
        let '(sign, digits) := match rest with
          | String c' r => if char_is 45 c' then (-1, r) else if char_is 43 c' then (1, r) else (1, rest)
          | EmptyString => (1, rest)
          end in
        let '(e, n, rest') := take_digits 0 0 digits in
        if n =? 0 then (0, s) else (sign * e, rest')
      else (0, s)
  | EmptyString => (0, s)
  end.

(** An unsigned decimal literal at the start of the text. *)
Definition take_decimal (s : string) : option (Z * Z * string) :=
  let '(whole, n, rest) := take_digits 0 0 s in
  let '(m, frac, rest') := match rest with
    | String c r => if char_is 46 c
                    then let '(m, k, r') := take_digits whole 0 r in
                         if (n =? 0) && (k =? 0) then (whole, 0, rest) else (m, k, r')
                    else (whole, 0, rest)
    | EmptyString => (whole, 0, rest)
    end in
  if (n =? 0) && (frac =? 0) then None
  else let '(e, rest'') := take_exponent rest' in Some (m, frac - e, rest'').

Fixpoint trim_start (s : string) : string :=
  match s with
  | String c s' => if is_space c then trim_start s' else s
  | EmptyString => EmptyString
  end.
Fixpoint trim_end (s : string) : string :=
  match s with
  | EmptyString => EmptyString
  | String c s' => match trim_end s' with
                   | EmptyString => if is_space c then EmptyString else String c EmptyString
                   | t => String c t
                   end
  end.
(** [s.trim()] *)
Definition trim (s : string) : string := trim_end (trim_start s).

Definition take_sign (s : string) : bool * string :=
  match s with
  | String c r => if char_is 45 c then (true, r) else if char_is 43 c then (false, r) else (false, s)
  | EmptyString => (false, s)
  end.

Definition signed_num (neg : bool) (x : num) : num := if neg then SFopp x else x.

(** [parseFloat(s)]: the longest decimal literal at the start, NaN if none. *)
Definition parseFloat (s : string) : num :=
  let '(neg, t) := take_sign (trim_start s) in
  match take_decimal t with
  | Some (m, d, _) => signed_num neg (num_decimal m d)
  | None => S754_nan
  end.

(** [Number(s)], which [Math.ceil(s)] applies to a text: the whole text is a
    literal, and the empty text is zero. *)
Definition Number (s : string) : num :=
  match trim s with
  | EmptyString => num_of_Z 0
  | t0 => let '(neg, t) := take_sign t0 in
          match take_decimal t with
          | Some (m, d, EmptyString) => signed_num neg (num_decimal m d)
          | _ => S754_nan
          end
  end.

(** [BigInt(x)]: a RangeError unless the number is an integer. *)
Definition BigInt (x : num) : outcome Z :=
  match num_to_Z x with
  | Some z => Ok z
  | None => Throw (Error "The number cannot be converted to a BigInt because it is not an integer")
  end.

(** * Printing numbers *)

Fixpoint zeros (n : nat) : string :=
  match n with O => EmptyString | S n' => String (Ascii.ascii_of_nat 48) (zeros n') end.

(** [n / 10^d] in positional notation. *)
Definition show_decimal (n : Z) (d : nat) : string :=
  let sign := if n <? 0 then "-" else "" in
  let a := Z.abs n in
  match d with
  | O => sign +:+ show_Z a
  | _ => let frac := show_Z (a mod 10 ^ Z.of_nat d) in
         sign +:+ show_Z (a / 10 ^ Z.of_nat d) +:+ "." +:+
         zeros (d - String.length frac) +:+ frac
  end.

(** The integer nearest to [x * 10^d], the larger one on a tie. *)
Definition scaled (d : nat) (x : num) : option Z :=
  match x with
  | S754_zero _ => Some 0
  | S754_finite s m e =>
      let a := signed_mant s m * 10 ^ Z.of_nat d in
      Some (if 0 <=? e then a * 2 ^ e else (2 * a + 2 ^ (- e)) / 2 ^ (- e + 1))
  | _ => None
  end.

(** [x.toFixed(d)], below 10^21 in magnitude: it rounds the magnitude. *)
Definition toFixed (d : nat) (x : num) : string :=
  match x with
  | S754_nan => "NaN"
  | S754_infinity s => if s then "-Infinity" else "Infinity"
  | S754_zero _ => show_decimal 0 d
  | S754_finite s _ _ =>
      match scaled d (SFabs x) with
      | Some n => (if s then "-" else "") +:+ show_decimal n d
      | None => ""
      end
  end.

(** [`${x}`]: the fewest decimals that read back as [x] (numbers between 10^-6
    and 10^21, where JavaScript prints positional notation). *)
Fixpoint shortest (fuel d : nat) (x : num) : string :=
  match fuel with
  | O => toFixed d x
  | S fuel' => if num_eqb (parseFloat (toFixed d x)) x then toFixed d x else shortest fuel' (S d) x
  end.
Definition show_num (x : num) : string :=
  match x with
  | S754_nan => "NaN"
  | S754_infinity s => if s then "-Infinity" else "Infinity"
  | S754_zero _ => "0"
  | _ => shortest 25 0 x
  end.

(** * Strings *)

(** [s.substring(a, b)] and [s.substring(a)] *)
Definition substring (a b : nat) (s : string) : string :=
  let lo := Nat.min (Nat.min a b) (String.length s) in
  let hi := Nat.min (Nat.max a b) (String.length s) in
  String.substring lo (hi - lo) s.
Definition substring_from (a : nat) (s : string) : string := substring a (String.length s) s.

(** Drop a literal suffix: [s.replace(/\.00$/, '')]. *)
Fixpoint drop_suffix (suffix s : string) : string :=
  if bool_decide (s = suffix) then EmptyString
  else match s with EmptyString => EmptyString | String c s' => String c (drop_suffix suffix s') end.

(** * Checks against the language *)

Example parse_simple : parseFloat "12.5 GB" = num_div (num_of_Z 25) (num_of_Z 2).
Proof. reflexivity. Qed.

Example number_rejects_suffix : (Number "12.5 GB", Number "", Number " 7 ") = (S754_nan, num_of_Z 0, num_of_Z 7).
Proof. reflexivity. Qed.

Example prints_back :
  (show_num (num_lit 1 1), show_num (num_add (num_lit 1 1) (num_lit 2 1)), show_num (num_of_Z 1500), toFixed 2 (num_lit 1005 3))
  = ("0.1", "0.30000000000000004", "1500", "1.00").
Proof. vm_compute. reflexivity. Qed.

Example price_in_micros : num_round (num_mul (parseFloat "0.00505") (num_of_Z 1000000)) = Some 5050.
Proof. vm_compute. reflexivity. Qed.
