(* ===== verification/World.v ===== *)
(** The world the backend services share: the PostgreSQL database, the IPFS
    node, the chain, the clock and the WebSocket server.

    The tables are lists of rows with the columns the services read and write
    (src/incentive-layer/config/database-schema.sql and the columns the queries
    name beyond it).  A query is one [external] step: PostgreSQL, IPFS and the
    RPC node are outside the repository, and any call to them may fail, so the
    world carries the schedule of failures [w_faults] and every theorem is about
    all schedules unless it says otherwise.  The clock does not advance inside
    one handler run; it advances between runs. *)

From Stdlib Require Strings.Byte.
From S2P Require Import Prelude JsNum.

Local Open Scope Z_scope.

(** * JSON values, as stored in JSONB columns and sent over WebSockets *)

Inductive json : Type :=
| JNull
| JBool (b : bool)
| JInt (z : Z)
| JNum (x : num)
| JStr (s : string)
| JArr (xs : list json)
| JObj (fields : list (string * json)).

Definition json_strs (xs : list string) : json := JArr (map JStr xs).

(** * Tables *)

Record provider_row : Type := Provider {
  p_address : string;
  p_peer_id : string;
  p_endpoint : option string;
  p_region : string;
  p_reputation_score : Z;
  p_active : bool;
  p_last_heartbeat : option Z;
  p_last_proof_at : option Z;
  p_registered_at : Z;
  p_pledged_capacity_gb : num;
  p_used_gb : num
}.

Record pledge_row : Type := Pledge {
  pl_provider_address : string;
  pl_pledge_id : Z;
  pl_capacity_gb : Z;
  pl_duration_seconds : Z;
  pl_collateral : Z;
  pl_utilization_gb : Z;
  pl_available_capacity : Z;
  pl_active : bool;
  pl_created_at : Z;
  pl_last_payment_at : option Z
}.

Record deal_row : Type := Deal {
  d_deal_id : string;
  d_client_address : string;
  d_file_cid : string;
  d_file_size_gb : num;
  d_duration_days : Z;
  d_price_per_gb_month : num;
  d_total_cost : num;
  d_protocol_fee : num;
  d_status : string;
  d_is_encrypted : bool;
  d_encrypted_key : option string;
  d_encryption_iv : option string;
  d_encryption_auth_tag : option string;
  d_created_at : Z;
  d_completed_at : option Z;
  d_cancelled_at : option Z;
  d_payment_processed : bool
}.

(** [is_data_shard] and the two size columns are nullable: the REST API writes
    [shard_size_bytes] and [is_data_shard], the repair service [size_bytes]. *)
Record shard_row : Type := Shard {
  s_deal_id : string;
  s_provider_address : string;
  s_shard_index : Z;
  s_shard_cid : string;
  s_shard_size_bytes : option Z;
  s_size_bytes : option Z;
  s_is_data_shard : option bool;
  s_active : bool;
  s_created_at : Z;
  s_lost_at : option Z;
  s_deleted_at : option Z
}.

Record loss_report : Type := LossReport {
  lr_deal_id : string;
  lr_provider_address : string;
  lr_shard_index : Z;
  lr_shard_cid : string;
  lr_reported_at : Z
}.

Record repair_row : Type := Repair {
  r_id : Z;
  r_deal_id : string;
  r_old_provider : string;
  r_shard_index : Z;
  r_shard_cid : string;
  r_status : string;
  r_new_provider : option string;
  r_new_shard_cid : option string;
  r_error : option string;
  r_created_at : Z;
  r_started_at : option Z;
  r_completed_at : option Z
}.

Record event_row : Type := Event {
  ev_type : string;
  ev_description : string;
  ev_data : json;
  ev_created_at : Z
}.

Record challenge_row : Type := Challenge {
  ch_challenge_id : string;
  ch_provider_address : string;
  ch_deadline : Z;
  ch_submitted : bool;
  ch_checked : bool
}.

Record submission_row : Type := Submission {
  ps_provider_address : string;
  ps_submitted_at : Z;
  ps_bonus_paid : bool
}.

Record miss_row : Type := ProofMiss {
  pm_provider_address : string; pm_challenge_id : string; pm_missed_at : Z }.
Record slash_row : Type := SlashingEvent {
  sl_provider_address : string; sl_amount : Z; sl_reason : string; sl_slashed_at : Z }.
Record withdrawal_row : Type := Withdrawal {
  wd_provider_address : string; wd_amount : Z; wd_withdrawn_at : Z }.

Record db : Type := Db {
  providers : list provider_row;
  pledges : list pledge_row;
  deals : list deal_row;
  shards : list shard_row;
  loss_reports : list loss_report;
  repair_queue : list repair_row;
  protocol_events : list event_row;
  challenges : list challenge_row;
  submissions : list submission_row;
  proof_misses : list miss_row;
  slashing_events : list slash_row;
  withdrawals : list withdrawal_row
}.

Definition set_providers x d := Db x (pledges d) (deals d) (shards d) (loss_reports d) (repair_queue d) (protocol_events d) (challenges d) (submissions d) (proof_misses d) (slashing_events d) (withdrawals d).
Definition set_pledges x d := Db (providers d) x (deals d) (shards d) (loss_reports d) (repair_queue d) (protocol_events d) (challenges d) (submissions d) (proof_misses d) (slashing_events d) (withdrawals d).
Definition set_deals x d := Db (providers d) (pledges d) x (shards d) (loss_reports d) (repair_queue d) (protocol_events d) (challenges d) (submissions d) (proof_misses d) (slashing_events d) (withdrawals d).
Definition set_shards x d := Db (providers d) (pledges d) (deals d) x (loss_reports d) (repair_queue d) (protocol_events d) (challenges d) (submissions d) (proof_misses d) (slashing_events d) (withdrawals d).
Definition set_loss_reports x d := Db (providers d) (pledges d) (deals d) (shards d) x (repair_queue d) (protocol_events d) (challenges d) (submissions d) (proof_misses d) (slashing_events d) (withdrawals d).
Definition set_repair_queue x d := Db (providers d) (pledges d) (deals d) (shards d) (loss_reports d) x (protocol_events d) (challenges d) (submissions d) (proof_misses d) (slashing_events d) (withdrawals d).
Definition set_protocol_events x d := Db (providers d) (pledges d) (deals d) (shards d) (loss_reports d) (repair_queue d) x (challenges d) (submissions d) (proof_misses d) (slashing_events d) (withdrawals d).
Definition set_challenges x d := Db (providers d) (pledges d) (deals d) (shards d) (loss_reports d) (repair_queue d) (protocol_events d) x (submissions d) (proof_misses d) (slashing_events d) (withdrawals d).
Definition set_submissions x d := Db (providers d) (pledges d) (deals d) (shards d) (loss_reports d) (repair_queue d) (protocol_events d) (challenges d) x (proof_misses d) (slashing_events d) (withdrawals d).
Definition set_proof_misses x d := Db (providers d) (pledges d) (deals d) (shards d) (loss_reports d) (repair_queue d) (protocol_events d) (challenges d) (submissions d) x (slashing_events d) (withdrawals d).
Definition set_slashing_events x d := Db (providers d) (pledges d) (deals d) (shards d) (loss_reports d) (repair_queue d) (protocol_events d) (challenges d) (submissions d) (proof_misses d) x (withdrawals d).
Definition set_withdrawals x d := Db (providers d) (pledges d) (deals d) (shards d) (loss_reports d) (repair_queue d) (protocol_events d) (challenges d) (submissions d) (proof_misses d) (slashing_events d) x.

Definition empty_db : db := Db [] [] [] [] [] [] [] [] [] [] [] [].

(** * The world *)

#[global] Instance byte_eq_dec : EqDecision Byte.byte := Stdlib.Strings.Byte.byte_eq_dec.

Abbreviation bytes := (list Byte.byte).

(** A WebSocket message: to everybody, or to the sockets of one room. *)
Inductive emit_target : Type := ToAll | ToRoom (room : string).
Record emitted : Type := Emit { em_target : emit_target; em_event : string; em_payload : json }.

(** A transaction the service signed and sent. *)
Record chain_tx : Type := Tx { tx_contract : string; tx_method : string; tx_args : list json }.

(** How the installed database differs from what the statements assume: whether deals
    and shards have the columns, and room for the identifiers, that the API writes,
    whether capacity_pledges has the column available_capacity that the repair service
    reads, whether shards has the primary key (deal_id, provider_address), and whether the
    foreign keys to providers and deals are enforced. *)
Record schema : Type := Schema {
  sc_api_columns : bool;
  sc_available_capacity : bool;
  sc_shard_key : bool;
  sc_foreign_keys : bool
}.

(** config/database-schema.sql *)
Definition committed_schema : schema := Schema false false true true.

Record world : Type := World {
  w_db : db;
  w_txn : option db;                    (* the state at BEGIN while a transaction is open *)
  w_ipfs : gmap string bytes;           (* CID -> content, for the blocks the node can fetch *)
  w_now : Z;                            (* milliseconds since the epoch *)
  w_faults : list (option js_error);    (* outcome of the next external calls; [] = all succeed *)
  w_emits : list emitted;               (* WebSocket messages, oldest first *)
  w_chain : list chain_tx;              (* transactions sent, oldest first *)
  w_shard_manager : bool * bool;        (* ShardManager.rs and ShardManager.ipfs are loaded *)
  w_api_ipfs : bool;                    (* server.ts: ipfsClient is loaded *)
  w_db_up : bool;                       (* the schedule spares the database *)
  w_schema : schema                     (* what the installed tables have and enforce *)
}.

Definition with_db f w := World (f (w_db w)) (w_txn w) (w_ipfs w) (w_now w) (w_faults w) (w_emits w) (w_chain w) (w_shard_manager w) (w_api_ipfs w) (w_db_up w) (w_schema w).
Definition with_txn t w := World (w_db w) t (w_ipfs w) (w_now w) (w_faults w) (w_emits w) (w_chain w) (w_shard_manager w) (w_api_ipfs w) (w_db_up w) (w_schema w).
Definition with_ipfs m w := World (w_db w) (w_txn w) m (w_now w) (w_faults w) (w_emits w) (w_chain w) (w_shard_manager w) (w_api_ipfs w) (w_db_up w) (w_schema w).
Definition with_now t w := World (w_db w) (w_txn w) (w_ipfs w) t (w_faults w) (w_emits w) (w_chain w) (w_shard_manager w) (w_api_ipfs w) (w_db_up w) (w_schema w).
Definition with_faults fs w := World (w_db w) (w_txn w) (w_ipfs w) (w_now w) fs (w_emits w) (w_chain w) (w_shard_manager w) (w_api_ipfs w) (w_db_up w) (w_schema w).
Definition with_emits es w := World (w_db w) (w_txn w) (w_ipfs w) (w_now w) (w_faults w) es (w_chain w) (w_shard_manager w) (w_api_ipfs w) (w_db_up w) (w_schema w).
Definition with_chain txs w := World (w_db w) (w_txn w) (w_ipfs w) (w_now w) (w_faults w) (w_emits w) txs (w_shard_manager w) (w_api_ipfs w) (w_db_up w) (w_schema w).
Definition with_api_ipfs b w := World (w_db w) (w_txn w) (w_ipfs w) (w_now w) (w_faults w) (w_emits w) (w_chain w) (w_shard_manager w) b (w_db_up w) (w_schema w).
Definition with_db_up b w := World (w_db w) (w_txn w) (w_ipfs w) (w_now w) (w_faults w) (w_emits w) (w_chain w) (w_shard_manager w) (w_api_ipfs w) b (w_schema w).
Definition with_shard_manager r w := World (w_db w) (w_txn w) (w_ipfs w) (w_now w) (w_faults w) (w_emits w) (w_chain w) r (w_api_ipfs w) (w_db_up w) (w_schema w).

(** One call to an external system: it fails when the schedule says so. *)
Definition external : M world unit := λ w,
  match w_faults w with
  | Some e :: fs => (Throw e, with_faults fs w)
  | None :: fs => (Ok tt, with_faults fs w)
  | [] => (Ok tt, w)
  end.

(** One call to the database, which may be spared by the schedule. *)
Definition query : M world unit := λ w,
  match w_faults w with
  | [] => (Ok tt, w)
  | _ => if w_db_up w then (Ok tt, w) else external w
  end.

(** [await db.query(SELECT ...)] and [await db.query(UPDATE/INSERT/DELETE ...)]. *)
Definition select {A} (q : db → A) : M world A := query ;; gets (λ w, q (w_db w)).
Definition exec (f : db → db) : M world unit := query ;; modify (with_db f).

(** An INSERT into a table with constraints: [refused] is the violated one. *)
Definition insert_checked (refused : schema → db → option string) (f : db → db) : M world unit :=
  query ;;
  violation ← gets (λ w, refused (w_schema w) (w_db w));
  match violation with
  | Some msg => throw (Error msg)
  | None => modify (with_db f)
  end.
Definition now : M world Z := gets w_now.

(** [BEGIN], [COMMIT] and [ROLLBACK]; a transaction whose ROLLBACK cannot be
    delivered is rolled back by the server as well. *)
Definition begin_txn : M world unit := query ;; modify (λ w, with_txn (Some (w_db w)) w).
Definition commit_txn : M world unit := query ;; modify (with_txn None).
Definition rollback_txn : M world unit :=
  modify (λ w, match w_txn w with
               | Some d => with_txn None (with_db (λ _, d) w)
               | None => w
               end).

(** [io.emit(ev, payload)] and [io.to(room).emit(ev, payload)]. *)
Definition io_emit (t : emit_target) (ev : string) (payload : json) : M world unit :=
  modify (λ w, with_emits (w_emits w ++ [Emit t ev payload]) w).

(** [const tx = await contract.method(args); await tx.wait()]: sending may fail,
    and so may waiting for the confirmation, after the transaction went out. *)
Definition send_tx (contract method : string) (args : list json) : M world unit :=
  external ;;
  modify (λ w, with_chain (w_chain w ++ [Tx contract method args]) w) ;;
  external.

(** IPFS: [add] stores a block under its content identifier, [cat] streams the
    chunks of a block.  The identifier and the chunking are the node's. *)
Class Ipfs : Type := {
  cid_of : bytes → string;
  chunks_of : bytes → list bytes
}.

Class IpfsLaws `{Ipfs} : Prop := {
  chunks_concat : ∀ b, concat (chunks_of b) = b;
  cid_inj :: Inj (=) (=) cid_of      (* content addressing *)
}.

(** A node whose identifiers are the content itself and that sends one chunk. *)
Definition raw_ipfs : Ipfs := {|
  cid_of := String.string_of_list_byte;
  chunks_of := λ b, [b]
|}.

Lemma raw_ipfs_laws : @IpfsLaws raw_ipfs.
Proof.
  constructor; simpl; [intros b; apply app_nil_r|].
  intros b1 b2 Hb. simpl in Hb.
  by rewrite <- (String.list_byte_of_string_of_list_byte b1), Hb, String.list_byte_of_string_of_list_byte.
Qed.

Section IpfsCalls.
  Context `{Ipfs}.

Definition ipfs_add (b : bytes) : M world string :=
    external ;;
    modify (λ w, with_ipfs (<[cid_of b := b]> (w_ipfs w)) w) ;;
    mret (cid_of b).

(** The chunks of [for await (const chunk of ipfs.cat(cid)) chunks.push(chunk)]. *)
Definition ipfs_cat (cid : string) : M world (list bytes) :=
    external ;;
    blocks ← gets w_ipfs;
    match blocks !! cid with
    | Some b => mret (chunks_of b)
    | None => throw (Error "block was not found locally (offline)")
    end.
End IpfsCalls.

(** * Constraints *)

(** A statement that names a column the table does not have fails. *)
Definition require_column (has : schema → bool) (name : string) : M world unit :=
  present ← gets (λ w, has (w_schema w));
  if (present : bool) then mret tt else throw (Error ("column " +:+ name +:+ " does not exist")).

(** Such a statement on columns of the API, which one flag covers: in a sequence of
    statements the first one decides. *)
Definition select_api {A} (column : string) (q : db → A) : M world A :=
  query ;; require_column sc_api_columns column ;; gets (λ w, q (w_db w)).
Definition exec_api (column : string) (f : db → db) : M world unit :=
  query ;; require_column sc_api_columns column ;; modify (with_db f).

Definition known_provider (addr : string) (d : db) : bool :=
  existsb (λ p, bool_decide (p_address p = addr)) (providers d).
Definition known_deal (dealId : string) (d : db) : bool :=
  existsb (λ r, bool_decide (d_deal_id r = dealId)) (deals d).

(** The primary key of shards. *)
Definition shard_place (s : shard_row) : string * string := (s_deal_id s, s_provider_address s).

(** The constraint of shards that refuses [row]. *)
Definition shard_refused (row : shard_row) (sc : schema) (d : db) : option string :=
  if sc_shard_key sc && existsb (λ s, bool_decide (shard_place s = shard_place row)) (shards d) then
    Some "duplicate key value violates unique constraint shards_pkey"
  else if sc_foreign_keys sc && negb (known_deal (s_deal_id row) d) then
    Some "insert on table shards violates foreign key constraint shards_deal_id_fkey"
  else if sc_foreign_keys sc && negb (known_provider (s_provider_address row) d) then
    Some "insert on table shards violates foreign key constraint shards_provider_address_fkey"
  else None.

(** [INSERT INTO shards] *)
Definition add_shard (row : shard_row) : M world unit :=
  insert_checked (shard_refused row) (λ d, set_shards (shards d ++ [row]) d).

(** * Facts shared by the services *)

Section WorldRules.
  Context (I : world → Prop).
(** An invariant that does not depend on the failures already consumed. *)
  Hypothesis I_faults : ∀ x fs w, w_faults w = x :: fs → I w → I (with_faults fs w).

Lemma preserves_external : preserves I external.
Proof.
    intros w Hw. unfold external. destruct (w_faults w) as [|[e|] fs] eqn:Hf; simpl; eauto.
  Qed.

Lemma preserves_query : preserves I query.
Proof.
    intros w Hw. pose proof (preserves_external w Hw) as He. unfold query.
    destruct (w_faults w) as [|x fs]; [done|]. by destruct (w_db_up w).
  Qed.

Lemma preserves_select {A} (q : db → A) : preserves I (select q).
Proof. unfold select. preserve; auto using preserves_query. Qed.

Lemma preserves_exec f : (∀ w, I w → I (with_db f w)) → preserves I (exec f).
Proof. intros Hf. unfold exec. preserve; auto using preserves_query. Qed.

Lemma preserves_insert_checked refused f :
    (∀ w, I w → refused (w_schema w) (w_db w) = None → I (with_db f w)) → preserves I (insert_checked refused f).
Proof.
    intros Hf. unfold insert_checked. apply preserves_bind; [apply preserves_query|intros _].
    intros w Hw. unfold mbind, M_bind, gets. destruct (refused _ _) eqn:E; simpl; auto.
  Qed.

Lemma preserves_add_shard row :
    (∀ w, I w → shard_refused row (w_schema w) (w_db w) = None →
       I (with_db (λ d, set_shards (shards d ++ [row]) d) w)) → preserves I (add_shard row).
Proof. apply preserves_insert_checked. Qed.

Lemma preserves_require_column has name : preserves I (require_column has name).
Proof. unfold require_column. preserve. Qed.

Lemma preserves_select_api {A} column (q : db → A) : preserves I (select_api column q).
Proof. unfold select_api. preserve; auto using preserves_query, preserves_require_column. Qed.

Lemma preserves_exec_api column f : (∀ w, I w → I (with_db f w)) → preserves I (exec_api column f).
Proof. intros Hf. unfold exec_api. preserve; auto using preserves_query, preserves_require_column. Qed.

Lemma preserves_send_tx c m args :
    (∀ txs w, I w → I (with_chain txs w)) → preserves I (send_tx c m args).
Proof. intros Hc. unfold send_tx. preserve; auto using preserves_external. Qed.

Lemma preserves_io_emit t ev p :
    (∀ es w, I w → I (with_emits es w)) → preserves I (io_emit t ev p).
Proof. intros He. unfold io_emit. preserve; auto. Qed.

Lemma preserves_now : preserves I now.
Proof. apply preserves_gets. Qed.

(** What a query or the clock returned was true in some state with [I]. *)
Lemma preserves_select_bind {A B} (q : db → A) (k : A → M world B) :
    (∀ w, I w → preserves I (k (q (w_db w)))) → preserves I (select q ≫= k).
Proof.
    intros Hk w Hw. unfold select, mbind, M_bind.
    pose proof (preserves_query w Hw) as He.
    destruct (query w) as [[[]|e] w']; simpl in *; [|done]. by apply Hk.
  Qed.

Lemma preserves_now_bind {B} (k : Z → M world B) :
    (∀ w, I w → preserves I (k (w_now w))) → preserves I (now ≫= k).
Proof. intros Hk w Hw. by apply Hk. Qed.
End WorldRules.

#[export] Hint Resolve preserves_external preserves_query preserves_select preserves_exec preserves_add_shard
  preserves_require_column preserves_select_api preserves_exec_api preserves_send_tx
  preserves_io_emit preserves_now : preserves.

(** An external call changes the schedule only. *)
Lemma external_cases w : ∃ r fs, external w = (r, with_faults fs w).
Proof.
  unfold external. destruct w as [? ? ? ? [|[e|] fs] ? ? ? ? ? ?]; simpl; [|by eexists _, _..].
  by exists (Ok tt), [].
Qed.

Lemma query_cases w : ∃ r fs, query w = (r, with_faults fs w).
Proof.
  unfold query. destruct (external_cases w) as (r & fs & He). rewrite He.
  assert (w = with_faults (w_faults w) w) as Hw by (by destruct w).
  destruct (w_faults w) eqn:Hf; [|destruct (w_db_up w)].
  all: try (exists (Ok tt), (w_faults w); by rewrite Hf, <- Hw).
  by eexists _, _.
Qed.

(** [query_step]: case analysis on the next external call of a run. *)
Ltac query_step :=
  match goal with
  | |- context [external ?w] =>
      let r := fresh "r" in let fs := fresh "fs" in let H := fresh "H" in
      destruct (external_cases w) as (r & fs & H); rewrite H; destruct r as [[]|?]; simpl
  | |- context [query ?w] =>
      let r := fresh "r" in let fs := fresh "fs" in let H := fresh "H" in
      destruct (query_cases w) as (r & fs & H); rewrite H; destruct r as [[]|?]; simpl
  end.

(** A query in a world without scheduled failures succeeds. *)
Definition no_faults (w : world) : Prop := w_faults w = [].

Lemma external_ok w : no_faults w → external w = (Ok tt, w).
Proof. intros H. unfold external. by rewrite H. Qed.

(** The database answers every query of a run. *)
Definition db_answers (w : world) : Prop := w_db_up w = true ∨ w_faults w = [].

Lemma no_faults_answers w : no_faults w → db_answers w.
Proof. by right. Qed.

Lemma external_answers w r fs : external w = (r, with_faults fs w) → db_answers w → db_answers (with_faults fs w).
Proof.
  unfold external. intros He [Hu|Hf]; [by left|]. right. rewrite Hf in He. injection He as _ He.
  apply (f_equal w_faults) in He. simpl in *. congruence.
Qed.

Lemma query_up w : db_answers w → query w = (Ok tt, w).
Proof. unfold query. intros [->| ->]; [by destruct (w_faults w)|done]. Qed.

Lemma query_ok w : no_faults w → query w = (Ok tt, w).
Proof. intros H. by apply query_up, no_faults_answers. Qed.

Lemma select_up {A} (q : db → A) w : db_answers w → select q w = (Ok (q (w_db w)), w).
Proof. intros H. unfold select. by rewrite (bind_ok _ _ _ _ _ (query_up w H)). Qed.

Lemma exec_up f w : db_answers w → exec f w = (Ok tt, with_db f w).
Proof. intros H. unfold exec. by rewrite (bind_ok _ _ _ _ _ (query_up w H)). Qed.

Lemma select_ok {A} (q : db → A) w : no_faults w → select q w = (Ok (q (w_db w)), w).
Proof. intros H. by apply select_up, no_faults_answers. Qed.

Lemma exec_ok f w : no_faults w → exec f w = (Ok tt, with_db f w).
Proof. intros H. by apply exec_up, no_faults_answers. Qed.

Lemma insert_checked_up refused f w : db_answers w →
  insert_checked refused f w = match refused (w_schema w) (w_db w) with
                               | Some msg => (Throw (Error msg), w)
                               | None => (Ok tt, with_db f w)
                               end.
Proof.
  intros H. unfold insert_checked. rewrite (bind_ok _ _ _ _ _ (query_up w H)).
  unfold mbind, M_bind, gets. by destruct (refused _ _).
Qed.

Lemma require_column_ok has name w : has (w_schema w) = true → require_column has name w = (Ok tt, w).
Proof. intros H. unfold require_column, mbind, M_bind, gets. by rewrite H. Qed.
Lemma require_column_missing has name w :
  has (w_schema w) = false → require_column has name w = (Throw (Error ("column " +:+ name +:+ " does not exist")), w).
Proof. intros H. unfold require_column, mbind, M_bind, gets. by rewrite H. Qed.

(** With the columns the statements are plain ones, without them they fail. *)
Definition has_api_columns (w : world) : Prop := sc_api_columns (w_schema w) = true.
#[global] Instance has_api_columns_dec w : Decision (has_api_columns w).
Proof. unfold has_api_columns. apply _. Defined.

Lemma query_schema w : w_schema (snd (query w)) = w_schema w.
Proof. unfold query, external. destruct (w_faults w) as [|[e|] fs]; [done|..]; by destruct (w_db_up w). Qed.

Lemma select_api_present {A} column (q : db → A) w : has_api_columns w → select_api column q w = select q w.
Proof.
  intros H. unfold select_api, select, mbind, M_bind. pose proof (query_schema w) as Hs.
  destruct (query w) as [[[]|e] w']; [|done]. simpl in Hs. by rewrite require_column_ok by (by rewrite Hs).
Qed.
Lemma exec_api_present column f w : has_api_columns w → exec_api column f w = exec f w.
Proof.
  intros H. unfold exec_api, exec, mbind, M_bind. pose proof (query_schema w) as Hs.
  destruct (query w) as [[[]|e] w']; [|done]. simpl in Hs. by rewrite require_column_ok by (by rewrite Hs).
Qed.

Lemma select_api_up {A} column (q : db → A) w :
  db_answers w → has_api_columns w → select_api column q w = (Ok (q (w_db w)), w).
Proof. intros Hw H. by rewrite select_api_present, select_up. Qed.
Lemma exec_api_up column f w : db_answers w → has_api_columns w → exec_api column f w = (Ok tt, with_db f w).
Proof. intros Hw H. by rewrite exec_api_present, exec_up. Qed.
Lemma exec_api_run column f w : db_answers w →
  exec_api column f w = if sc_api_columns (w_schema w) then (Ok tt, with_db f w)
                        else (Throw (Error ("column " +:+ column +:+ " does not exist")), w).
Proof.
  intros Hw. unfold exec_api, require_column. rewrite (bind_ok _ _ _ _ _ (query_up w Hw)).
  unfold mbind, M_bind, gets. by destruct (sc_api_columns _).
Qed.
Lemma exec_api_missing column f w :
  db_answers w → ¬ has_api_columns w → ∃ e, exec_api column f w = (Throw e, w).
Proof.
  intros Hw H. unfold exec_api. rewrite (bind_ok _ _ _ _ _ (query_up w Hw)).
  apply not_true_is_false in H. eexists. by rewrite (bind_throw _ _ _ _ _ (require_column_missing _ column w H)).
Qed.

Lemma no_faults_with_db f w : no_faults w → no_faults (with_db f w).
Proof. done. Qed.

#[export] Hint Resolve no_faults_with_db : kyneto.

(** ** Rows the constraints of shards let in *)

Definition room_for (sc : schema) (d : db) (rows : list shard_row) : Prop :=
  (sc_shard_key sc = true → NoDup (map shard_place rows) ∧
     ∀ s row, s ∈ shards d → row ∈ rows → shard_place s ≠ shard_place row) ∧
  (sc_foreign_keys sc = true → Forall (λ row, known_deal (s_deal_id row) d = true ∧
     known_provider (s_provider_address row) d = true) rows).

Lemma room_for_cons sc d row rows :
  room_for sc d (row :: rows) →
  shard_refused row sc d = None ∧ room_for sc (set_shards (shards d ++ [row]) d) rows.
Proof.
  intros [Hk Hf]. split.
  - unfold shard_refused. destruct (sc_shard_key sc && _) eqn:E1.
    { apply andb_prop in E1 as [E1 (s & Hs & Heq)%existsb_exists]. apply list_elem_of_In in Hs.
      apply bool_decide_eq_true in Heq. destruct (Hk E1) as [_ Hno]. by destruct (Hno s row Hs ltac:(by left)). }
    destruct (sc_foreign_keys sc); [|done].
    pose proof (Forall_inv (Hf eq_refl)) as [H1 H2]. by rewrite H1, H2.
  - split.
    + intros Hsk. destruct (Hk Hsk) as [[Hnew Hnd]%NoDup_cons Hno]. split; [done|].
      intros s row' Hs Hrow'. simpl in Hs. apply elem_of_app in Hs as [Hs|Hs%list_elem_of_singleton].
      * apply Hno; [done|by right].
      * subst s. intros Heq. apply Hnew. rewrite Heq. by apply (list_elem_of_fmap_2 shard_place).
    + intros Hfk. exact (Forall_inv_tail (Hf Hfk)).
Qed.

(** A loop that inserts accepted rows one by one. *)
Lemma for_each_add_shard {A} (xs : list A) (m : A → M world unit) (row : A → shard_row) t : ∀ w,
  (∀ x w, x ∈ xs → w_now w = t → m x w = add_shard (row x) w) →
  db_answers w → w_now w = t → room_for (w_schema w) (w_db w) (map row xs) →
  for_each xs m w = (Ok tt, with_db (λ d, set_shards (shards d ++ map row xs) d) w).
Proof.
  induction xs as [|x xs IH]; intros w Hm Hw Ht Hroom; simpl.
  { unfold mret, M_ret. destruct w as [[]]. simpl. unfold with_db, set_shards. simpl. by rewrite app_nil_r. }
  destruct (room_for_cons _ _ _ _ Hroom) as [Hok Hrest].
  assert (m x w = (Ok tt, with_db (λ d, set_shards (shards d ++ [row x]) d) w)) as E.
  { rewrite (Hm x w ltac:(by left) Ht). unfold add_shard. rewrite insert_checked_up by done. by rewrite Hok. }
  rewrite (bind_ok _ _ _ _ _ E), IH; [|intros; apply Hm; [by right|done]|done|done|done].
  unfold with_db, set_shards. simpl. by rewrite <- app_assoc.
Qed.
