(* ===== verification/ShardManager.v ===== *)
(** ShardManager: the 10+5 erasure coding of files
    (src/incentive-layer/services/erasure-coding/src/shard-manager.ts).

    The Reed-Solomon codec is the WASM package @subspace/reed-solomon-erasure and
    the block store an IPFS node; both are parameters.  The definitions follow the
    class method by method; the theorems show the layout of the shards, that any
    ten of the fifteen shards give the padded file back, and that the shard
    rebuilt by [reconstructShard] is the shard that was lost. *)

From S2P Require Import Prelude JsNum World.

Local Open Scope nat_scope.

Definition DATA_SHARDS : nat := 10.
Definition PARITY_SHARDS : nat := 5.
Definition TOTAL_SHARDS : nat := 15.

Record ShardInfo : Type := MkShardInfo {
  shardIndex : nat;
  shardCID : string;
  sizeBytes : nat;
  isDataShard : bool;
  originalFileCID : string
}.

(** The codec works in place on a contiguous buffer of shards: it gives the
    buffer after the call and the result code, 0 for success. *)
Class RSCodec : Type := {
  rs_encode : bytes → nat → nat → bytes * Z;
  rs_reconstruct : bytes → nat → nat → list bool → bytes * Z
}.

(** * Node buffers *)

Definition buf_alloc (n : nat) : bytes := replicate n Byte.x00.

(** [src.copy(dst, off)] *)
Definition buf_copy (src dst : bytes) (off : nat) : bytes :=
  take off dst ++ take (length dst - off) src ++ drop (off + length src) dst.

(** [b.subarray(s, e)] *)
Definition subarray (b : bytes) (s e : nat) : bytes := take (e - s) (drop s b).

(** [Math.ceil(n / DATA_SHARDS)] *)
Definition shard_size (n : nat) : nat := (n + (DATA_SHARDS - 1)) / DATA_SHARDS.

Section ShardManager.
  Context `{Ipfs} `{RSCodec}.

(** ** init: load the WASM module and the IPFS client once *)
Definition init : M world unit :=
    ready ← gets w_shard_manager;
    if fst ready && snd ready then mret tt
    else try_catch
      ((if fst ready then mret tt
        else external ;; modify (λ w, with_shard_manager (true, snd (w_shard_manager w)) w)) ;;
       (if snd ready then mret tt
        else external ;; modify (λ w, with_shard_manager (fst (w_shard_manager w), true) w)))
      (λ e, throw e).

(** ** applyErasureCoding *)
Definition applyErasureCoding (data : bytes) : M world (list bytes) :=
    init ;;
    let shardSize := shard_size (length data) in
    let totalSize := shardSize * TOTAL_SHARDS in
    let contiguousBuffer := buf_copy data (buf_alloc totalSize) 0 in
    let '(contiguousBuffer, result) := rs_encode contiguousBuffer DATA_SHARDS PARITY_SHARDS in
    if negb (result =? 0)%Z then
      throw (Error ("Reed-Solomon encoding failed with error code: " +:+ show_Z result))
    else
      mret (map (λ i, subarray contiguousBuffer (i * shardSize) (i * shardSize + shardSize))
                (seq 0 TOTAL_SHARDS)).

(** The loop that copies the available shards into the contiguous buffer,
      for indices [i], [i+1], ..., [i+n-1]. *)
Fixpoint fill_buffer (shards : gmap nat bytes) (shardSize i n : nat) (buf : bytes) : bytes :=
    match n with
    | O => buf
    | S n' =>
        let buf := match shards !! i with
                   | Some s => buf_copy s buf (i * shardSize)
                   | None => buf
                   end in
        fill_buffer shards shardSize (i + 1) n' buf
    end.

(** ** reconstructFromShards *)
Definition reconstructFromShards (shards : gmap nat bytes) (availableIndices : list nat)
      : M world bytes :=
    init ;;
    let hasAllDataShards :=
      length (where_ (λ i, i <? DATA_SHARDS) availableIndices) =? DATA_SHARDS in
    if hasAllDataShards then
      mret (concat (omap (λ i, shards !! i) (seq 0 DATA_SHARDS)))
    else
      match head availableIndices ≫= (λ i, shards !! i) with
      | None => throw (Error "Cannot read properties of undefined (reading 'length')")
      | Some first =>
          let shardSize := length first in
          let totalSize := shardSize * TOTAL_SHARDS in
          let contiguousBuffer := fill_buffer shards shardSize 0 TOTAL_SHARDS (buf_alloc totalSize) in
          let shardsAvailable :=
            map (λ i, bool_decide (is_Some (shards !! i))) (seq 0 TOTAL_SHARDS) in
          let '(contiguousBuffer, result) :=
            rs_reconstruct contiguousBuffer DATA_SHARDS PARITY_SHARDS shardsAvailable in
          if negb (result =? 0)%Z then
            throw (Error ("Reed-Solomon reconstruction failed with error code: " +:+ show_Z result))
          else
            mret (concat (map (λ i, subarray contiguousBuffer (i * shardSize) (i * shardSize + shardSize))
                              (seq 0 DATA_SHARDS)))
      end.

(** ** uploadShard *)
Definition uploadShard (shard : bytes) : M world string := ipfs_add shard.

(** ** encodeFile: split a file into fifteen shards and upload them *)
Definition encodeFile (fileCID : string) : M world (list ShardInfo) :=
    init ;;
    try_catch
      (chunks ← ipfs_cat fileCID;
       let fileData := concat chunks in
       shards ← applyErasureCoding fileData;
       map_each (imap pair shards) (λ '(i, shard),
         shardCID ← uploadShard shard;
         mret (MkShardInfo i shardCID (length shard) (i <? DATA_SHARDS) fileCID)))
      (λ error, throw error).

(** The download loop of [reconstructFile] and [reconstructShard]:
      [shards[index] = Buffer.concat(chunks)] for each (cid, index); an index
      that is [undefined] sets no numeric slot. *)
Fixpoint download_shards (wanted : list (string * option nat)) (shards : gmap nat bytes)
      : M world (gmap nat bytes) :=
    match wanted with
    | [] => mret shards
    | (cid, index) :: rest =>
        chunks ← ipfs_cat cid;
        download_shards rest
          (match index with Some i => <[i := concat chunks]> shards | None => shards end)
    end.

(** ** reconstructFile: rebuild a file from its shards and upload it *)
Definition reconstructFile (shardCIDs : list string) (shardIndices : list nat)
      : M world string :=
    init ;;
    if length shardCIDs <? DATA_SHARDS then
      throw (Error ("Insufficient shards: need at least " +:+ pretty DATA_SHARDS
                    +:+ ", have " +:+ pretty (length shardCIDs)))
    else
      try_catch
        (shards ← download_shards (imap (λ i cid, (cid, shardIndices !! i)) shardCIDs) ∅;
         reconstructedData ← reconstructFromShards shards shardIndices;
         ipfs_add reconstructedData)
        (λ error, throw error).

(** ** reconstructShard: rebuild one missing shard; [None] is [undefined] *)
Definition reconstructShard (availableShards : list (string * nat)) (targetShardIndex : nat)
      : M world (option bytes) :=
    init ;;
    if length availableShards <? DATA_SHARDS then
      throw (Error ("Need at least " +:+ pretty DATA_SHARDS +:+ " shards to reconstruct"))
    else
      shards ← download_shards (map (λ '(cid, i), (cid, Some i)) availableShards) ∅;
      reconstructedData ← reconstructFromShards shards (map snd availableShards);
      allShards ← applyErasureCoding reconstructedData;
      mret (allShards !! targetShardIndex).
End ShardManager.

(** What the methods may change: the node's blocks, the loaded modules and
    nothing of the database. *)
Section Frame.
  Context {ipfs : Ipfs} {codec : RSCodec} (I : world → Prop).
  Hypothesis I_faults : ∀ x fs w, w_faults w = x :: fs → I w → I (with_faults fs w).
  Hypothesis I_manager : ∀ r w, I w → I (with_shard_manager r w).
  Hypothesis I_ipfs : ∀ m w, I w → I (with_ipfs m w).

Lemma preserves_ipfs_cat cid : preserves I (ipfs_cat cid).
Proof. unfold ipfs_cat. preserve. Qed.

Lemma preserves_ipfs_add b : preserves I (ipfs_add b).
Proof. unfold ipfs_add. preserve. Qed.

Lemma preserves_init : preserves I init.
Proof. unfold init. preserve. Qed.

Lemma preserves_applyErasureCoding data : preserves I (applyErasureCoding data).
Proof.
    unfold applyErasureCoding. apply preserves_bind; [apply preserves_init|intros _].
    destruct (rs_encode _ _ _). preserve.
  Qed.

Lemma preserves_reconstructFromShards shards indices :
    preserves I (reconstructFromShards shards indices).
Proof.
    unfold reconstructFromShards. apply preserves_bind; [apply preserves_init|intros _].
    repeat (case_match; try apply preserves_ret; try apply preserves_throw).
  Qed.

Lemma preserves_download_shards wanted : ∀ m, preserves I (download_shards wanted m).
Proof.
    induction wanted as [|[cid i] wanted IH]; intros m; simpl; [apply preserves_ret|].
    apply preserves_bind; [apply preserves_ipfs_cat | intros; apply IH].
  Qed.

Lemma preserves_reconstructShard avail target : preserves I (reconstructShard avail target).
Proof.
    unfold reconstructShard. apply preserves_bind; [apply preserves_init|intros _].
    destruct (_ <? _); [apply preserves_throw|].
    apply preserves_bind; [apply preserves_download_shards|intros m].
    apply preserves_bind; [apply preserves_reconstructFromShards|intros data].
    apply preserves_bind; [apply preserves_applyErasureCoding|intros all]. apply preserves_ret.
  Qed.

Lemma preserves_encodeFile cid : preserves I (encodeFile cid).
Proof.
    unfold encodeFile. apply preserves_bind; [apply preserves_init|intros _].
    apply preserves_try_catch; [|intros; apply preserves_throw].
    apply preserves_bind; [apply preserves_ipfs_cat|intros chunks].
    apply preserves_bind; [apply preserves_applyErasureCoding|intros shards].
    apply preserves_map_each. intros [i shard]. unfold uploadShard.
    apply preserves_bind; [apply preserves_ipfs_add | intros; apply preserves_ret].
  Qed.
End Frame.

#[export] Hint Resolve preserves_ipfs_cat preserves_ipfs_add preserves_init
  preserves_applyErasureCoding preserves_reconstructFromShards preserves_download_shards
  preserves_reconstructShard preserves_encodeFile : preserves.

(** * Buffers and shard layout *)

Section Buffers.
  Implicit Types (b src dst out : bytes).

Lemma length_buf_copy src dst off :
    off ≤ length dst → length (buf_copy src dst off) = length dst.
Proof.
    intros Ho. unfold buf_copy. rewrite !length_app, !length_take, length_drop. lia.
  Qed.

Lemma buf_copy_prefix src n :
    length src ≤ n → buf_copy src (buf_alloc n) 0 = src ++ buf_alloc (n - length src).
Proof.
    intros Hn. unfold buf_copy, buf_alloc. rewrite length_replicate, take_0. simpl.
    rewrite take_ge by lia. by rewrite drop_replicate.
  Qed.

(** Copying a shard right behind the part of the buffer already written. *)
Lemma buf_copy_at src done n :
    length src ≤ n →
    buf_copy src (done ++ buf_alloc n) (length done) = done ++ src ++ buf_alloc (n - length src).
Proof.
    intros Hn. unfold buf_copy, buf_alloc. rewrite take_app_length, length_app, length_replicate.
    rewrite (take_ge src) by lia. f_equal. f_equal.
    rewrite drop_app_ge by lia. rewrite drop_replicate. f_equal. lia.
  Qed.

Lemma length_subarray b s e : e ≤ length b → s ≤ e → length (subarray b s e) = e - s.
Proof. intros. unfold subarray. rewrite length_take, length_drop. lia. Qed.

(** The [i]-th shard of a contiguous buffer. *)
Definition shard_at (ss : nat) out (i : nat) : bytes := subarray out (i * ss) (i * ss + ss).

Lemma length_shard_at ss out i :
    i < TOTAL_SHARDS → length out = ss * TOTAL_SHARDS → length (shard_at ss out i) = ss.
Proof.
    unfold TOTAL_SHARDS. intros Hi Hl. unfold shard_at. rewrite length_subarray; nia.
  Qed.

Lemma concat_shards ss out k : concat (map (shard_at ss out) (seq 0 k)) = take (k * ss) out.
Proof.
    induction k as [|k IH]; [done|].
    rewrite seq_S, map_app, concat_app, IH. simpl. rewrite app_nil_r.
    unfold shard_at, subarray.
    replace (k * ss + ss - k * ss) with ss by lia.
    replace (ss + k * ss) with (k * ss + ss) by lia.
    by rewrite <- take_take_drop.
  Qed.

Lemma shard_size_bounds n : n ≤ shard_size n * DATA_SHARDS.
Proof.
    unfold shard_size, DATA_SHARDS. pose proof (Nat.div_mod_eq (n + (10 - 1)) 10).
    pose proof (Nat.mod_upper_bound (n + (10 - 1)) 10). lia.
  Qed.

Lemma shard_size_padded ss : shard_size (ss * DATA_SHARDS) = ss.
Proof.
    unfold shard_size, DATA_SHARDS. symmetry. apply (Nat.div_unique _ _ _ 9); lia.
  Qed.

(** What the receiver of the shards in [avail] puts in its buffer: the shards
      it has, zeros elsewhere. *)
Definition received (ss : nat) (avail : nat → bool) out : bytes :=
    concat (map (λ i, if avail i then shard_at ss out i else buf_alloc ss) (seq 0 TOTAL_SHARDS)).

Lemma length_concat_pieces (f : nat → bytes) ss k :
    (∀ i, i < k → length (f i) = ss) → length (concat (map f (seq 0 k))) = k * ss.
Proof.
    induction k as [|k IH]; intros Hf; [done|].
    rewrite seq_S, map_app, concat_app, length_app, IH by auto.
    simpl. rewrite app_nil_r, Hf by lia. lia.
  Qed.

(** The loop of [reconstructFromShards] writes exactly that buffer. *)
Lemma fill_buffer_pieces (shards : gmap nat bytes) (f : nat → bytes) ss n : ∀ i,
    (∀ j, j < i + n → length (f j) = ss) →
    (∀ j, j < i + n → match shards !! j with Some s => s = f j | None => f j = buf_alloc ss end) →
    fill_buffer shards ss i n (concat (map f (seq 0 i)) ++ buf_alloc (n * ss))
    = concat (map f (seq 0 (i + n))).
Proof.
    induction n as [|n IH]; intros i Hlen Hf; simpl.
    { by rewrite app_nil_r, Nat.add_0_r. }
    pose proof (Hlen i ltac:(lia)) as Hli.
    pose proof (length_concat_pieces f ss i ltac:(intros; apply Hlen; lia)) as Hci.
    assert (Hstep : match shards !! i with
                    | Some s => buf_copy s (concat (map f (seq 0 i)) ++ buf_alloc (ss + n * ss)) (i * ss)
                    | None => concat (map f (seq 0 i)) ++ buf_alloc (ss + n * ss)
                    end = concat (map f (seq 0 (i + 1))) ++ buf_alloc (n * ss)).
    { rewrite seq_app, map_app, concat_app. simpl. rewrite app_nil_r, <- app_assoc.
      pose proof (Hf i ltac:(lia)) as Hi. destruct (shards !! i) as [s|].
      - subst s. rewrite <- Hci, buf_copy_at by lia. rewrite Hli. do 3 f_equal. lia.
      - rewrite Hi. f_equal. unfold buf_alloc. by rewrite <- replicate_add. }
    rewrite Hstep, IH; [by replace (i + 1 + n) with (i + S n) by lia| |];
      intros j Hj; [apply Hlen | apply Hf]; lia.
  Qed.
End Buffers.

(** * Correctness of the methods *)

Section Correctness.
  Context {ipfs : Ipfs} `{!IpfsLaws} {codec : RSCodec}.
  Implicit Types (w : world) (data out : bytes).

(** The manager after a successful [init], talking to services that answer. *)
Definition sm_ready w : Prop := no_faults w ∧ w_shard_manager w = (true, true).

Lemma init_ready w : sm_ready w → init w = (Ok tt, w).
Proof. intros [_ Hr]. unfold init. running. by rewrite Hr. Qed.

(** Documented behaviour of the codec, at one buffer: encoding succeeds, keeps
      the data part and fills the parity part; reconstruction restores the encoded
      buffer from the shards that are present. *)
Definition encodes (ss : nat) buf out : Prop :=
    rs_encode buf DATA_SHARDS PARITY_SHARDS = (out, 0%Z) ∧
    length out = ss * TOTAL_SHARDS ∧
    take (DATA_SHARDS * ss) out = take (DATA_SHARDS * ss) buf.

Definition restores (ss : nat) (avail : nat → bool) out : Prop :=
    rs_reconstruct (received ss avail out) DATA_SHARDS PARITY_SHARDS
      (map avail (seq 0 TOTAL_SHARDS)) = (out, 0%Z).

(** The buffer [applyErasureCoding] hands to the codec. *)
Definition code_buffer data : bytes :=
    buf_copy data (buf_alloc (shard_size (length data) * TOTAL_SHARDS)) 0.

Definition padded data : bytes :=
    data ++ buf_alloc (shard_size (length data) * DATA_SHARDS - length data).

Lemma code_buffer_padded data :
    code_buffer data = padded data ++ buf_alloc (shard_size (length data) * PARITY_SHARDS).
Proof.
    pose proof (shard_size_bounds (length data)) as Hb.
    unfold code_buffer, padded, TOTAL_SHARDS, DATA_SHARDS, PARITY_SHARDS in *.
    rewrite buf_copy_prefix by lia. rewrite <- app_assoc. f_equal.
    unfold buf_alloc. rewrite <- replicate_add. f_equal. lia.
  Qed.

Lemma length_padded data : length (padded data) = shard_size (length data) * DATA_SHARDS.
Proof.
    pose proof (shard_size_bounds (length data)). unfold padded, buf_alloc.
    rewrite length_app, length_replicate. lia.
  Qed.

Lemma encodes_data data out :
    encodes (shard_size (length data)) (code_buffer data) out →
    take (DATA_SHARDS * shard_size (length data)) out = padded data.
Proof.
    intros (_ & _ & ->). rewrite code_buffer_padded.
    by rewrite take_app_length' by (rewrite length_padded; lia).
  Qed.

(** Encoding a padded file again uses the same buffer. *)
Lemma code_buffer_padded_again data : code_buffer (padded data) = code_buffer data.
Proof.
    unfold code_buffer at 1. rewrite length_padded, shard_size_padded.
    pose proof (shard_size_bounds (length data)) as Hb.
    rewrite (code_buffer_padded data), buf_copy_prefix.
    - f_equal. f_equal. rewrite length_padded. unfold TOTAL_SHARDS, DATA_SHARDS, PARITY_SHARDS. lia.
    - rewrite length_padded. unfold TOTAL_SHARDS, DATA_SHARDS in *. lia.
  Qed.

Lemma applyErasureCoding_run data out w :
    sm_ready w → encodes (shard_size (length data)) (code_buffer data) out →
    applyErasureCoding data w
    = (Ok (map (shard_at (shard_size (length data)) out) (seq 0 TOTAL_SHARDS)), w).
Proof.
    intros Hw (He & _ & _). unfold applyErasureCoding.
    rewrite (bind_ok _ _ _ _ _ (init_ready w Hw)). fold (code_buffer data). by rewrite He.
  Qed.

(** Ten distinct indices below ten are all of them. *)
Lemma all_data_present indices :
    NoDup indices → length (where_ (λ i, i <? DATA_SHARDS) indices) = DATA_SHARDS →
    ∀ i, i < DATA_SHARDS → i ∈ indices.
Proof.
    intros Hnd Hlen i Hi.
    assert (Hin : incl (seq 0 DATA_SHARDS) (where_ (λ i, i <? DATA_SHARDS) indices)).
    { apply NoDup_length_incl.
      - unfold where_. apply List.NoDup_filter. by apply NoDup_ListNoDup.
      - rewrite Hlen. by rewrite length_seq.
      - intros j Hj. unfold where_ in Hj. apply filter_In in Hj as [_ Hj].
        apply in_seq. apply Nat.ltb_lt in Hj. lia. }
    specialize (Hin i ltac:(apply in_seq; lia)). unfold where_ in Hin.
    apply filter_In in Hin as [Hin _]. by apply list_elem_of_In.
  Qed.

(** The shards at hand: index [i] holds the [i]-th shard of [out]. *)
Definition holds (ss : nat) out (indices : list nat) (shards : gmap nat bytes) : Prop :=
    ∀ i, shards !! i = if decide (i ∈ indices) then Some (shard_at ss out i) else None.

Lemma reconstructFromShards_run ss out indices shards w :
    sm_ready w → length out = ss * TOTAL_SHARDS →
    holds ss out indices shards →
    NoDup indices → Forall (λ i, i < TOTAL_SHARDS) indices → indices ≠ [] →
    restores ss (λ i, bool_decide (i ∈ indices)) out →
    reconstructFromShards shards indices w = (Ok (take (DATA_SHARDS * ss) out), w).
Proof.
    intros Hw Hlen Hsh Hnd Hlt Hne Hres. unfold reconstructFromShards.
    rewrite (bind_ok _ _ _ _ _ (init_ready w Hw)).
    destruct (_ =? DATA_SHARDS) eqn:Hall.
    - apply Nat.eqb_eq in Hall. unfold mret, M_ret. do 2 f_equal.
      rewrite <- concat_shards. f_equal. unfold DATA_SHARDS in *.
      pose proof (all_data_present indices Hnd Hall) as Hin. simpl.
      rewrite !Hsh. by repeat (rewrite decide_True by (apply Hin; unfold DATA_SHARDS; lia)).
    - destruct indices as [|i0 rest]; [done|].
      cbn [head mbind option_bind].
      rewrite Hsh, decide_True by set_solver.
      pose proof (proj1 (proj1 (Forall_cons _ _ _) Hlt)) as Hi0. simpl in Hi0. rewrite length_shard_at by done.
      assert (Hfill : fill_buffer shards ss 0 TOTAL_SHARDS (buf_alloc (ss * TOTAL_SHARDS))
                      = received ss (λ i, bool_decide (i ∈ i0 :: rest)) out).
      { rewrite Nat.mul_comm. rewrite <- (app_nil_l (buf_alloc _)).
        apply (fill_buffer_pieces shards _ ss TOTAL_SHARDS 0); intros j Hj.
        - case_bool_decide; [by apply length_shard_at|]. apply length_replicate.
        - rewrite Hsh. destruct (decide (j ∈ i0 :: rest)) as [Hd|Hd].
          + by rewrite bool_decide_true.
          + by rewrite bool_decide_false. }
      rewrite Hfill.
      replace (map (λ i, bool_decide (is_Some (shards !! i))) (seq 0 TOTAL_SHARDS))
        with (map (λ i, bool_decide (i ∈ i0 :: rest)) (seq 0 TOTAL_SHARDS)).
      2:{ apply map_ext. intros i. apply bool_decide_ext. rewrite Hsh.
          case_decide; split; intros Hx; [eauto | done | done | by destruct (is_Some_None Hx)]. }
      rewrite Hres. simpl. unfold mret, M_ret. do 2 f_equal.
      apply (concat_shards ss out DATA_SHARDS).
  Qed.

(** ** The IPFS side of the pipeline *)

Definition store_all (m : gmap string bytes) (shards : list bytes) : gmap string bytes :=
    foldl (λ m s, <[cid_of s := s]> m) m shards.

Lemma store_all_other m shards c b :
    (∀ s, s ∈ shards → cid_of s ≠ c ∨ s = b) → m !! c = Some b → store_all m shards !! c = Some b.
Proof.
    revert m. induction shards as [|s shards IH]; intros m Hs Hm; simpl; [done|].
    apply IH; [set_solver|]. destruct (decide (cid_of s = c)) as [<-|Hne].
    - rewrite lookup_insert_eq. f_equal. destruct (Hs s); set_solver.
    - by rewrite lookup_insert_ne.
  Qed.

Lemma store_all_lookup m shards s : s ∈ shards → store_all m shards !! cid_of s = Some s.
Proof.
    revert m. induction shards as [|t shards IH]; intros m Hs; simpl; [set_solver|].
    destruct (decide (s ∈ shards)) as [Hin|Hnin]; [by apply IH|].
    assert (s = t) as -> by set_solver.
    apply store_all_other; [|by rewrite lookup_insert_eq].
    intros u Hu. left. intros Heq. apply cid_inj in Heq. set_solver.
  Qed.

Lemma no_faults_with_ipfs m w : no_faults w → no_faults (with_ipfs m w).
Proof. done. Qed.

Lemma ipfs_cat_run cid b w :
    no_faults w → w_ipfs w !! cid = Some b → ipfs_cat cid w = (Ok (chunks_of b), w).
Proof.
    intros Hw Hc. unfold ipfs_cat. rewrite (bind_ok _ _ _ _ _ (external_ok w Hw)).
    running. by rewrite Hc.
  Qed.

Lemma ipfs_add_run b w :
    no_faults w → ipfs_add b w = (Ok (cid_of b), with_ipfs (<[cid_of b := b]> (w_ipfs w)) w).
Proof. intros Hw. unfold ipfs_add. by rewrite (bind_ok _ _ _ _ _ (external_ok w Hw)). Qed.

Definition shard_info (fileCID : string) (i : nat) (shard : bytes) : ShardInfo :=
    MkShardInfo i (cid_of shard) (length shard) (i <? DATA_SHARDS) fileCID.

Lemma upload_all fileCID shards : ∀ k w, no_faults w →
    map_each (imap (λ i s, (k + i, s)) shards) (λ '(i, shard),
      shardCID ← uploadShard shard;
      mret (MkShardInfo i shardCID (length shard) (i <? DATA_SHARDS) fileCID)) w
    = (Ok (imap (λ i s, shard_info fileCID (k + i) s) shards),
       with_ipfs (store_all (w_ipfs w) shards) w).
Proof.
    induction shards as [|s shards IH]; intros k w Hw; [by destruct w|].
    rewrite !imap_cons. simpl. unfold uploadShard at 1.
    rewrite Nat.add_0_r. erewrite bind_ok; [|by rewrite (bind_ok _ _ _ _ _ (ipfs_add_run s w Hw))].
    specialize (IH (S k) (with_ipfs (<[cid_of s:=s]> (w_ipfs w)) w) ltac:(done)).
    erewrite bind_ok.
    2:{ rewrite <- IH. f_equal. apply imap_ext. intros i x _. simpl. by rewrite Nat.add_succ_r. }
    unfold mret, M_ret. destruct w. simpl. do 2 f_equal. f_equal.
    apply imap_ext. intros i x _. simpl. by rewrite Nat.add_succ_r.
  Qed.

Lemma encodeFile_run fileCID data out w :
    sm_ready w → w_ipfs w !! fileCID = Some data →
    encodes (shard_size (length data)) (code_buffer data) out →
    let shards := map (shard_at (shard_size (length data)) out) (seq 0 TOTAL_SHARDS) in
    encodeFile fileCID w
    = (Ok (imap (shard_info fileCID) shards), with_ipfs (store_all (w_ipfs w) shards) w).
Proof.
    intros Hw Hc He shards. unfold encodeFile.
    rewrite (bind_ok _ _ _ _ _ (init_ready w Hw)). pose proof (proj1 Hw) as Hf.
    unfold try_catch. erewrite bind_ok; [|by apply ipfs_cat_run].
    rewrite chunks_concat. erewrite bind_ok; [|by apply applyErasureCoding_run].
    fold shards. clearbody shards. pose proof (upload_all fileCID shards 0 w Hf) as Hup.
    change (imap pair shards) with (imap (λ i s, (0 + i, s)) shards). by rewrite Hup.
  Qed.

Lemma download_run (content : nat → bytes) (avail : list (string * nat)) : ∀ m w,
    no_faults w → (∀ c i, (c, i) ∈ avail → w_ipfs w !! c = Some (content i)) →
    ∃ m', download_shards (map (λ '(c, i), (c, Some i)) avail) m w = (Ok m', w) ∧
          ∀ i, m' !! i = if decide (i ∈ map snd avail) then Some (content i) else m !! i.
Proof.
    induction avail as [|[c i] avail IH]; intros m w Hw Hc.
    { exists m. split; [done|]. intros i. by rewrite decide_False by set_solver. }
    pose proof (Hc c i ltac:(set_solver)) as Hci.
    destruct (IH (<[i := content i]> m) w Hw ltac:(set_solver)) as (m' & Hrun & Hm').
    exists m'. simpl. erewrite bind_ok; [|by apply ipfs_cat_run]. rewrite chunks_concat.
    split; [done|]. intros j. rewrite Hm', lookup_insert.
    destruct (decide (i = j)) as [->|Hne].
    - rewrite (decide_True (P := j ∈ j :: _)) by set_solver. by case_decide.
    - destruct (decide (j ∈ map snd avail));
        [rewrite decide_True by set_solver | rewrite decide_False by set_solver]; done.
  Qed.

(** [reconstructShard] rebuilds the shard from any ten survivors. *)
Lemma reconstructShard_run data out (avail : list (string * nat)) target w :
    let ss := shard_size (length data) in
    sm_ready w → encodes ss (code_buffer data) out →
    (∀ c i, (c, i) ∈ avail → w_ipfs w !! c = Some (shard_at ss out i)) →
    NoDup (map snd avail) → Forall (λ i, i < TOTAL_SHARDS) (map snd avail) →
    DATA_SHARDS ≤ length avail →
    restores ss (λ i, bool_decide (i ∈ map snd avail)) out →
    reconstructShard avail target w
    = (Ok (map (shard_at ss out) (seq 0 TOTAL_SHARDS) !! target), w).
Proof.
    intros ss Hw He Hc Hnd Hlt Hlen Hres. unfold reconstructShard.
    rewrite (bind_ok _ _ _ _ _ (init_ready w Hw)).
    rewrite (proj2 (Nat.ltb_ge _ _) Hlen).
    destruct (download_run (shard_at ss out) avail ∅ w (proj1 Hw) Hc) as (m & Hdl & Hm).
    rewrite (bind_ok _ _ _ _ _ Hdl).
    erewrite bind_ok; [|apply (reconstructFromShards_run ss out); try done].
    - assert (Hd : take (DATA_SHARDS * ss) out = padded data) by by apply encodes_data.
      rewrite Hd.
      erewrite bind_ok; [|apply (applyErasureCoding_run _ out); [done|]].
      + rewrite length_padded, shard_size_padded. done.
      + rewrite length_padded, shard_size_padded, code_buffer_padded_again. done.
    - apply He.
    - intros Hnil. destruct avail; [simpl in Hlen; unfold DATA_SHARDS in Hlen; lia | done].
  Qed.

Lemma zip_indices (avail : list (string * nat)) :
    imap (λ i cid, (cid, map snd avail !! i)) (map fst avail)
    = map (λ '(c, i), (c, Some i)) avail.
Proof.
    apply list_eq. intros k. rewrite list_lookup_imap, !list_lookup_fmap.
    by destruct (avail !! k) as [[c i]|].
  Qed.

Lemma reconstructFile_run data out (avail : list (string * nat)) w :
    let ss := shard_size (length data) in
    sm_ready w → encodes ss (code_buffer data) out →
    (∀ c i, (c, i) ∈ avail → w_ipfs w !! c = Some (shard_at ss out i)) →
    NoDup (map snd avail) → Forall (λ i, i < TOTAL_SHARDS) (map snd avail) →
    DATA_SHARDS ≤ length avail →
    restores ss (λ i, bool_decide (i ∈ map snd avail)) out →
    reconstructFile (map fst avail) (map snd avail) w
    = (Ok (cid_of (padded data)), with_ipfs (<[cid_of (padded data) := padded data]> (w_ipfs w)) w).
Proof.
    intros ss Hw He Hc Hnd Hlt Hlen Hres. unfold reconstructFile.
    rewrite (bind_ok _ _ _ _ _ (init_ready w Hw)), length_map, (proj2 (Nat.ltb_ge _ _) Hlen).
    rewrite zip_indices. unfold try_catch.
    destruct (download_run (shard_at ss out) avail ∅ w (proj1 Hw) Hc) as (m & Hdl & Hm).
    rewrite (bind_ok _ _ _ _ _ Hdl).
    erewrite bind_ok; [|apply (reconstructFromShards_run ss out); try done].
    - assert (Hd : take (DATA_SHARDS * ss) out = padded data) by by apply encodes_data.
      rewrite Hd, ipfs_add_run by apply Hw. done.
    - apply He.
    - intros Hnil. destruct avail; [simpl in Hlen; unfold DATA_SHARDS in Hlen; lia | done].
  Qed.

Lemma padded_exact data : padded data = data ↔ length data mod DATA_SHARDS = 0.
Proof.
    pose proof (shard_size_bounds (length data)) as Hb. split.
    - intros Hp. rewrite <- Hp, length_padded. apply Nat.Div0.mod_mul.
    - intros Hm. unfold padded.
      assert (shard_size (length data) * DATA_SHARDS = length data) as ->.
      { apply Nat.Div0.div_exact in Hm. rewrite Nat.mul_comm in Hm.
        rewrite Hm, shard_size_padded. done. }
      by rewrite Nat.sub_diag, app_nil_r.
  Qed.
End Correctness.

(** * A concrete codec

    Parity shard 0 is the XOR of the data shards and the other parity shards are
    zero: it restores one missing data shard.  It instantiates the parameters in
    the witnesses below. *)

Definition xor_byte (a b : Byte.byte) : Byte.byte :=
  default Byte.x00 (Byte.of_N (N.lxor (Byte.to_N a) (Byte.to_N b))).

Definition xor_bytes (a b : bytes) : bytes := zip_with xor_byte a b.

Definition pieces (ss k : nat) (b : bytes) : list bytes := map (shard_at ss b) (seq 0 k).

Definition xor_encode (buf : bytes) (k m : nat) : bytes * Z :=
  let ss := length buf / (k + m) in
  (take (k * ss) buf ++ foldr xor_bytes (buf_alloc ss) (pieces ss k buf) ++ buf_alloc ((m - 1) * ss), 0%Z).

Definition xor_reconstruct (buf : bytes) (k m : nat) (avail : list bool) : bytes * Z :=
  let ss := length buf / (k + m) in
  let present i := default false (avail !! i) in
  match where_ (λ i, negb (present i)) (seq 0 k) with
  | [] => xor_encode buf k m
  | [j] =>
      if present k then
        let lost := foldr xor_bytes (buf_alloc ss) (pieces ss (k + 1) buf) in
        xor_encode (buf_copy lost buf (j * ss)) k m
      else (buf, 1%Z)
  | _ => (buf, 1%Z)
  end.

Definition xor_codec : RSCodec := {| rs_encode := xor_encode; rs_reconstruct := xor_reconstruct |}.

(** A twelve-byte file on a node that holds it, and the shards that survive
    when providers of shards 3 and 12 are gone. *)
Definition demo_file : bytes :=
  [Byte.x01; Byte.x02; Byte.x03; Byte.x04; Byte.x05; Byte.x06; Byte.x07; Byte.x08;
   Byte.x09; Byte.x0a; Byte.x0b; Byte.x0c].
Definition demo_out : bytes :=
  fst (xor_encode (code_buffer demo_file) DATA_SHARDS PARITY_SHARDS).
Definition demo_survivors : list nat := [0; 1; 2; 4; 5; 6; 7; 8; 9; 10; 11; 13; 14].
Definition demo_world : world :=
  World empty_db None {[ "file" := demo_file ]} 0 [] [] [] (true, true) true false committed_schema.

(** The survivors of a coded file, as the repair service passes them. *)
Definition survivors_of (infos : list ShardInfo) (indices : list nat) : list (string * nat) :=
  omap (λ i, (λ info, (shardCID info, i)) <$> infos !! i) indices.

Lemma survivors_of_indices infos indices :
  Forall (λ i, i < length infos) indices → map snd (survivors_of infos indices) = indices.
Proof.
  induction indices as [|i rest IH]; intros Hall; [done|].
  apply Forall_cons in Hall as [Hi Hall]. unfold survivors_of in *. simpl.
  destruct (lookup_lt_is_Some_2 infos i Hi) as [info ->]. simpl. f_equal. by apply IH.
Qed.

Lemma length_coded_infos {ipfs : Ipfs} fileCID ss out :
  length (imap (shard_info fileCID) (map (shard_at ss out) (seq 0 TOTAL_SHARDS))) = TOTAL_SHARDS.
Proof. by rewrite length_imap, length_map, length_seq. Qed.

Section EndToEnd.
  Context {ipfs : Ipfs} `{!IpfsLaws} {codec : RSCodec}.

Lemma survivors_content fileCID ss out m indices c i :
    (c, i) ∈ survivors_of (imap (shard_info fileCID)
                             (map (shard_at ss out) (seq 0 TOTAL_SHARDS))) indices →
    store_all m (map (shard_at ss out) (seq 0 TOTAL_SHARDS)) !! c = Some (shard_at ss out i).
Proof.
    unfold survivors_of. rewrite list_elem_of_omap. intros (j & Hj & Heq).
    rewrite list_lookup_imap in Heq.
    destruct (map (shard_at ss out) (seq 0 TOTAL_SHARDS) !! j) as [b|] eqn:Eb; [|done].
    simpl in Heq. injection Heq as <- <-.
    pose proof Eb as Hb. rewrite list_lookup_fmap in Hb.
    destruct (seq 0 TOTAL_SHARDS !! j) as [j'|] eqn:Ej; [|done].
    apply lookup_seq in Ej as [-> _]. injection Hb as <-.
    apply store_all_lookup. by apply list_elem_of_lookup_2 with j.
  Qed.

(** C1. Repair is exact: encode a file, lose any shards as long as ten distinct
      ones survive, and [reconstructShard] gives back, for every shard index, the
      very bytes that [encodeFile] uploaded for that index. *)
Theorem encode_then_repair fileCID data out w survivors target :
    let ss := shard_size (length data) in
    sm_ready w → w_ipfs w !! fileCID = Some data →
    encodes ss (code_buffer data) out →
    NoDup survivors → Forall (λ i, i < TOTAL_SHARDS) survivors → DATA_SHARDS ≤ length survivors →
    restores ss (λ i, bool_decide (i ∈ survivors)) out →
    target < TOTAL_SHARDS →
    ∃ infos w' info shard,
      encodeFile fileCID w = (Ok infos, w') ∧
      infos !! target = Some info ∧
      w_ipfs w' !! shardCID info = Some shard ∧
      reconstructShard (survivors_of infos survivors) target w' = (Ok (Some shard), w').
Proof.
    intros ss Hw Hc He Hnd Hlt Hlen Hres Ht.
    set (coded := map (shard_at ss out) (seq 0 TOTAL_SHARDS)).
    set (infos := imap (shard_info fileCID) coded).
    set (w' := with_ipfs (store_all (w_ipfs w) coded) w).
    assert (Hcoded : coded !! target = Some (shard_at ss out target)).
    { unfold coded. rewrite list_lookup_fmap, lookup_seq_lt by done. done. }
    assert (Hidx : map snd (survivors_of infos survivors) = survivors).
    { apply survivors_of_indices. unfold infos, coded. by rewrite length_coded_infos. }
    exists infos, w', (shard_info fileCID target (shard_at ss out target)), (shard_at ss out target).
    split_and!.
    - by apply (encodeFile_run fileCID data out w Hw Hc He).
    - unfold infos. by rewrite list_lookup_imap, Hcoded.
    - change (store_all (w_ipfs w) coded !! cid_of (shard_at ss out target) = Some (shard_at ss out target)).
      apply store_all_lookup. by apply list_elem_of_lookup_2 with target.
    - rewrite (reconstructShard_run data out); rewrite ?Hidx; try done.
      + fold ss coded. by rewrite Hcoded.
      + intros c i. apply survivors_content.
      + rewrite <- (length_map snd), Hidx. done.
  Qed.

(** [reconstructFile] succeeds from any ten surviving shards and uploads the
      file padded with zeros to a multiple of ten bytes; the identifier it returns is
      the identifier of the original file exactly when the length is such a multiple. *)
Theorem reconstructFile_returns_padded_file fileCID data out w survivors :
    let ss := shard_size (length data) in
    sm_ready w → w_ipfs w !! fileCID = Some data →
    encodes ss (code_buffer data) out →
    NoDup survivors → Forall (λ i, i < TOTAL_SHARDS) survivors → DATA_SHARDS ≤ length survivors →
    restores ss (λ i, bool_decide (i ∈ survivors)) out →
    ∃ infos w' cid w'',
      encodeFile fileCID w = (Ok infos, w') ∧
      reconstructFile (map fst (survivors_of infos survivors)) survivors w' = (Ok cid, w'') ∧
      w_ipfs w'' !! cid = Some (padded data) ∧
      (cid = cid_of data ↔ length data mod DATA_SHARDS = 0).
Proof.
    intros ss Hw Hc He Hnd Hlt Hlen Hres.
    set (coded := map (shard_at ss out) (seq 0 TOTAL_SHARDS)).
    set (infos := imap (shard_info fileCID) coded).
    set (w' := with_ipfs (store_all (w_ipfs w) coded) w).
    assert (Hidx : map snd (survivors_of infos survivors) = survivors).
    { apply survivors_of_indices. unfold infos, coded. by rewrite length_coded_infos. }
    eexists infos, w', _, _. split_and!.
    - by apply (encodeFile_run fileCID data out w Hw Hc He).
    - rewrite <- Hidx at 2. apply (reconstructFile_run data out); rewrite ?Hidx; try done.
      + intros c i. apply survivors_content.
      + rewrite <- (length_map snd), Hidx. done.
    - simpl. apply lookup_insert_eq.
    - rewrite <- padded_exact. split; [apply cid_inj | by intros ->].
  Qed.
End EndToEnd.

Lemma reconstructFile_returns_padded_file_witness :
  ∃ infos w' cid w'',
    @encodeFile raw_ipfs xor_codec "file" demo_world = (Ok infos, w') ∧
    @reconstructFile raw_ipfs xor_codec (map fst (survivors_of infos demo_survivors))
      demo_survivors w' = (Ok cid, w'') ∧
    w_ipfs w'' !! cid = Some (padded demo_file) ∧
    (cid = @cid_of raw_ipfs demo_file ↔ length demo_file mod DATA_SHARDS = 0).
Proof.
  apply (@reconstructFile_returns_padded_file raw_ipfs raw_ipfs_laws xor_codec "file" demo_file
           demo_out demo_world demo_survivors).
  - by split.
  - reflexivity.
  - by split_and!; vm_compute.
  - apply (bool_decide_unpack _). by vm_compute.
  - apply (bool_decide_unpack _). by vm_compute.
  - vm_compute. lia.
  - by vm_compute.
Defined.

Lemma encode_then_repair_witness :
  ∃ infos w' info shard,
    @encodeFile raw_ipfs xor_codec "file" demo_world = (Ok infos, w') ∧
    infos !! 3 = Some info ∧
    w_ipfs w' !! shardCID info = Some shard ∧
    @reconstructShard raw_ipfs xor_codec (survivors_of infos demo_survivors) 3 w' = (Ok (Some shard), w').
Proof.
  apply (@encode_then_repair raw_ipfs raw_ipfs_laws xor_codec "file" demo_file demo_out demo_world
           demo_survivors 3).
  - by split.
  - reflexivity.
  - by split_and!; vm_compute.
  - apply (bool_decide_unpack _). by vm_compute.
  - apply (bool_decide_unpack _). by vm_compute.
  - vm_compute. lia.
  - by vm_compute.
  - vm_compute. lia.
Defined.
