(* ===== verification/HealthMonitor.v ===== *)
(** HealthMonitor: detection of lost shards from missing heartbeats
    (src/incentive-layer/services/erasure-coding/src/health-monitor.ts).

    A provider silent for more than a minute gets a loss report per shard; a
    report older than five minutes is confirmed: the repair is queued, the shard
    rows of that provider in that deal are switched off and the reports dropped.
    A heartbeat removes the reports of its provider. *)

From S2P Require Import Prelude JsNum World.

Local Open Scope Z_scope.

Definition HEARTBEAT_INTERVAL : Z := 30000.
Definition OFFLINE_THRESHOLD : Z := 60000.
Definition LOSS_COOLDOWN : Z := 300000.

(** A row of the join of active shards with active providers. *)
Record monitored : Type := Monitored {
  m_provider_address : string;
  m_deal_id : string;
  m_shard_index : Z;
  m_shard_cid : string;
  m_last_heartbeat : option Z;
  m_endpoint : option string
}.

#[global] Instance monitored_eq_dec : EqDecision monitored.
Proof. solve_decision. Defined.

(** [SELECT DISTINCT ... FROM shards s JOIN providers p ON s.provider_address =
    p.address WHERE s.active = true AND p.active = true] *)
Definition monitored_rows (d : db) : list monitored :=
  distinct (s ← where_ s_active (shards d);
            p ← where_ (λ p, p_active p && bool_decide (s_provider_address s = p_address p))
                       (providers d);
            [Monitored (s_provider_address s) (s_deal_id s) (s_shard_index s) (s_shard_cid s)
                       (p_last_heartbeat p) (p_endpoint p)]).

(** [new Date(t).getTime()]: a NULL timestamp is the epoch. *)
Definition date_time (t : option Z) : Z := default 0 t.

(** SERIAL primary key of the repair queue. *)
Definition next_repair_id (d : db) : Z := 1 + foldr Z.max 0 (map r_id (repair_queue d)).

(** ** triggerRepair: queue the repair of one shard; errors are logged only *)
Definition triggerRepair (dealId oldProvider : string) (shardIndex : Z) (shardCID : string)
    : M world unit :=
  try_catch
    (t ← now;
     exec (λ d, set_repair_queue
       (repair_queue d ++ [Repair (next_repair_id d) dealId oldProvider shardIndex shardCID
                                  "pending" None None None t None None]) d))
    (λ error, mret tt).

Definition same_report (dealId providerAddress : string) (shardIndex : Z) (r : loss_report) : bool :=
  bool_decide (lr_deal_id r = dealId) && bool_decide (lr_provider_address r = providerAddress)
  && (lr_shard_index r =? shardIndex).

(** ** reportPotentialShardLoss *)
Definition reportPotentialShardLoss (dealId providerAddress : string) (shardIndex : Z)
    (shardCID : string) : M world unit :=
  try_catch
    (existing ← select (λ d, where_ (same_report dealId providerAddress shardIndex) (loss_reports d));
     t ← now;
     match existing with
     | report :: _ =>
         let elapsed := t - lr_reported_at report in
         if LOSS_COOLDOWN <? elapsed then
           triggerRepair dealId providerAddress shardIndex shardCID ;;
           exec (λ d, set_shards
             (update_where (λ s, bool_decide (s_deal_id s = dealId)
                                 && bool_decide (s_provider_address s = providerAddress))
                (λ s, Shard (s_deal_id s) (s_provider_address s) (s_shard_index s) (s_shard_cid s)
                            (s_shard_size_bytes s) (s_size_bytes s) (s_is_data_shard s)
                            false (s_created_at s) (Some t) (s_deleted_at s))
                (shards d)) d) ;;
           exec (λ d, set_loss_reports
             (delete_where (λ r, bool_decide (lr_deal_id r = dealId)
                                 && bool_decide (lr_provider_address r = providerAddress))
                (loss_reports d)) d)
         else mret tt
     | [] =>
         exec (λ d, set_loss_reports
           (loss_reports d ++ [LossReport dealId providerAddress shardIndex shardCID t]) d)
     end)
    (λ error, mret tt).

(** ** checkAllProviders: one round of the monitor *)
Definition checkAllProviders : M world unit :=
  try_catch
    (rows ← select monitored_rows;
     currentTime ← now;
     for_each rows (λ row,
       let timeSinceHeartbeat := currentTime - date_time (m_last_heartbeat row) in
       if OFFLINE_THRESHOLD <? timeSinceHeartbeat then
         reportPotentialShardLoss (m_deal_id row) (m_provider_address row)
           (m_shard_index row) (m_shard_cid row)
       else mret tt))
    (λ error, mret tt).

(** ** recordHeartbeat *)
Definition recordHeartbeat (providerAddress : string) : M world unit :=
  try_catch
    (t ← now;
     exec (λ d, set_providers
       (update_where (λ p, bool_decide (p_address p = providerAddress))
          (λ p, Provider (p_address p) (p_peer_id p) (p_endpoint p) (p_region p)
                  (p_reputation_score p) (p_active p) (Some t) (p_last_proof_at p)
                  (p_registered_at p) (p_pledged_capacity_gb p) (p_used_gb p))
          (providers d)) d) ;;
     exec (λ d, set_loss_reports
       (delete_where (λ r, bool_decide (lr_provider_address r = providerAddress))
          (loss_reports d)) d))
    (λ error, mret tt).

(** ** getDealHealth *)
Inductive health : Type := Healthy | Degraded | Critical.

Record DealHealthStatus : Type := MkDealHealth {
  dh_dealId : string;
  dh_totalShards : Z;
  dh_activeShards : Z;
  dh_lostShards : Z;
  dh_isHealthy : bool;
  dh_status : health
}.

Definition count {A} (p : A → bool) (xs : list A) : Z := Z.of_nat (length (where_ p xs)).

Definition getDealHealth (dealId : string) : M world DealHealthStatus :=
  row ← select (λ d,
    let mine := where_ (λ s, bool_decide (s_deal_id s = dealId)) (shards d) in
    (count (λ _, true) mine, count s_active mine, count (λ s, negb (s_active s)) mine));
  let '(total_shards, active_shards, lost_shards) := row in
  let isHealthy := 10 <=? active_shards in
  mret (MkDealHealth dealId total_shards active_shards lost_shards isHealthy
          (if isHealthy then Healthy else if 10 <=? active_shards then Degraded else Critical)).

(** * Properties *)

Definition is_repair_of (dealId provider : string) (index : Z) (q : repair_row) : Prop :=
  r_deal_id q = dealId ∧ r_old_provider q = provider ∧ r_shard_index q = index.

Definition is_report_of (dealId provider : string) (index : Z) (r : loss_report) : Prop :=
  lr_deal_id r = dealId ∧ lr_provider_address r = provider ∧ lr_shard_index r = index.

Lemma same_report_spec dealId provider index r :
  same_report dealId provider index r = true ↔ is_report_of dealId provider index r.
Proof.
  unfold same_report, is_report_of. rewrite !andb_true_iff, !bool_decide_eq_true, Z.eqb_eq. tauto.
Qed.

Section OneRound.
(** The state before the round. *)
  Context (w0 : world).

(** Reports written during the round carry the time of the round; repairs
      queued during the round come from a report that was old before it. *)
Definition round_ok (w : world) : Prop :=
    w_now w = w_now w0 ∧
    (∀ r, r ∈ loss_reports (w_db w) → r ∈ loss_reports (w_db w0) ∨ lr_reported_at r = w_now w0) ∧
    (∀ q, q ∈ repair_queue (w_db w) → q ∈ repair_queue (w_db w0) ∨
       ∃ r, r ∈ loss_reports (w_db w0) ∧
            is_report_of (r_deal_id q) (r_old_provider q) (r_shard_index q) r ∧
            w_now w0 - lr_reported_at r > LOSS_COOLDOWN).

Lemma round_ok_faults x fs w :
    w_faults w = x :: fs → round_ok w → round_ok (with_faults fs w).
Proof. done. Qed.

Lemma round_ok_queue q w :
    round_ok w →
    (∃ r, r ∈ loss_reports (w_db w0) ∧
          is_report_of (r_deal_id q) (r_old_provider q) (r_shard_index q) r ∧
          w_now w0 - lr_reported_at r > LOSS_COOLDOWN) →
    round_ok (with_db (λ d, set_repair_queue (repair_queue d ++ [q]) d) w).
Proof.
    intros (Hn & Hr & Hq) Hnew. split_and!; [done|done|].
    intros q'. simpl. rewrite elem_of_app, list_elem_of_singleton. intros [?| ->]; eauto.
  Qed.

Lemma round_ok_report r w :
    round_ok w → lr_reported_at r = w_now w0 →
    round_ok (with_db (λ d, set_loss_reports (loss_reports d ++ [r]) d) w).
Proof.
    intros (Hn & Hr & Hq) Ht. split_and!; [done| |done].
    intros r'. simpl. rewrite elem_of_app, list_elem_of_singleton. intros [?| ->]; eauto.
  Qed.

Lemma round_ok_shards f w :
    round_ok w → round_ok (with_db (λ d, set_shards (f d) d) w).
Proof. done. Qed.

Lemma round_ok_drop_reports p w :
    round_ok w → round_ok (with_db (λ d, set_loss_reports (delete_where p (loss_reports d)) d) w).
Proof.
    intros (Hn & Hr & Hq). split_and!; [done| |done].
    intros r. simpl. rewrite elem_of_delete_where. intros [? _]; eauto.
  Qed.

(** Report of one shard: a confirmation needs a report from before the round. *)
Lemma report_keeps_round dealId provider index cid :
    preserves round_ok (reportPotentialShardLoss dealId provider index cid).
Proof.
    unfold reportPotentialShardLoss. apply preserves_try_catch; [|intros; apply preserves_ret].
    apply preserves_select_bind; [apply round_ok_faults|]. intros w1 Hw1.
    apply preserves_now_bind. intros w2 (Hn2 & _).
    destruct (where_ _ _) as [|report reports] eqn:Hex.
    { apply preserves_exec; [apply round_ok_faults|]. intros w Hw. by apply round_ok_report. }
    assert (Hrep : report ∈ loss_reports (w_db w1) ∧ is_report_of dealId provider index report).
    { assert (report ∈ report :: reports) as Hin by set_solver.
      rewrite <- Hex, elem_of_where, same_report_spec in Hin. done. }
    destruct (LOSS_COOLDOWN <? _) eqn:Hc; [|apply preserves_ret].
    apply Z.ltb_lt in Hc. rewrite Hn2 in Hc.
    destruct Hrep as [Hin Hof]. destruct Hw1 as (_ & Hr1 & _).
    destruct (Hr1 _ Hin) as [Hin0|Hnow]; [|unfold LOSS_COOLDOWN in Hc; lia].
    apply preserves_bind; [|intros _; apply preserves_bind; [|intros _]].
    - unfold triggerRepair. apply preserves_try_catch; [|intros; apply preserves_ret].
      apply preserves_now_bind. intros w3 _.
      apply preserves_exec; [apply round_ok_faults|]. intros w Hw.
      apply (round_ok_queue (Repair (next_repair_id (w_db w)) dealId provider index cid
               "pending" None None None (w_now w3) None None) w Hw).
      exists report. split_and!; [done|done|lia].
    - apply preserves_exec; [apply round_ok_faults|]. intros w Hw. by apply round_ok_shards.
    - apply preserves_exec; [apply round_ok_faults|]. intros w Hw. by apply round_ok_drop_reports.
  Qed.

Lemma check_keeps_round : preserves round_ok checkAllProviders.
Proof.
    unfold checkAllProviders. apply preserves_try_catch; [|intros; apply preserves_ret].
    apply preserves_bind; [apply preserves_select, round_ok_faults | intros rows].
    apply preserves_bind; [apply preserves_now | intros t].
    apply preserves_for_each. intros row.
    destruct (OFFLINE_THRESHOLD <? _); [apply report_keeps_round | apply preserves_ret].
  Qed.
End OneRound.

(** No shard is declared lost without the five-minute cooldown: whatever fails
    during a round, every repair it queues belongs to a loss report that existed
    before the round and was older than five minutes. *)
Theorem repair_only_after_cooldown (w : world) q :
  q ∈ repair_queue (w_db (snd (checkAllProviders w))) →
  q ∈ repair_queue (w_db w) ∨
  ∃ r, r ∈ loss_reports (w_db w) ∧
       is_report_of (r_deal_id q) (r_old_provider q) (r_shard_index q) r ∧
       w_now w - lr_reported_at r > LOSS_COOLDOWN.
Proof.
  assert (H0 : round_ok w w) by (split_and!; auto).
  destruct (check_keeps_round w w H0) as (_ & _ & Hq). apply Hq.
Qed.

(** ** The confirmation branch *)

Definition shard_lost (t : Z) (s : shard_row) : shard_row :=
  Shard (s_deal_id s) (s_provider_address s) (s_shard_index s) (s_shard_cid s)
        (s_shard_size_bytes s) (s_size_bytes s) (s_is_data_shard s)
        false (s_created_at s) (Some t) (s_deleted_at s).

Definition shard_of (dealId provider : string) (s : shard_row) : bool :=
  bool_decide (s_deal_id s = dealId) && bool_decide (s_provider_address s = provider).

Definition report_by (dealId provider : string) (r : loss_report) : bool :=
  bool_decide (lr_deal_id r = dealId) && bool_decide (lr_provider_address r = provider).

Lemma confirm_run dealId provider index cid report reports w :
  no_faults w →
  where_ (same_report dealId provider index) (loss_reports (w_db w)) = report :: reports →
  LOSS_COOLDOWN < w_now w - lr_reported_at report →
  reportPotentialShardLoss dealId provider index cid w
  = (Ok tt, with_db (λ d,
       set_loss_reports (delete_where (report_by dealId provider) (loss_reports d))
         (set_shards (update_where (shard_of dealId provider) (shard_lost (w_now w)) (shards d))
           (set_repair_queue (repair_queue d ++ [Repair (next_repair_id d) dealId provider index cid
              "pending" None None None (w_now w) None None]) d))) w).
Proof.
  intros Hw Hex Hc. unfold reportPotentialShardLoss, try_catch.
  rewrite (bind_ok _ _ _ _ _ (select_ok _ w Hw)), Hex.
  rewrite (bind_ok now _ w (w_now w) w eq_refl), (proj2 (Z.ltb_lt _ _) Hc).
  destruct w; unfold no_faults in Hw; simpl in Hw; subst. done.
Qed.

(** ** Which rows a round looks at *)

Lemma elem_of_monitored m d :
  m ∈ monitored_rows d ↔
  ∃ s p, s ∈ shards d ∧ s_active s = true ∧ p ∈ providers d ∧ p_active p = true ∧
         s_provider_address s = p_address p ∧
         m = Monitored (s_provider_address s) (s_deal_id s) (s_shard_index s) (s_shard_cid s)
                       (p_last_heartbeat p) (p_endpoint p).
Proof.
  unfold monitored_rows. rewrite elem_of_distinct, list_elem_of_bind.
  setoid_rewrite list_elem_of_bind. setoid_rewrite list_elem_of_singleton.
  setoid_rewrite elem_of_where. setoid_rewrite andb_true_iff.
  setoid_rewrite bool_decide_eq_true. naive_solver.
Qed.

(** An invariant survives a round when reporting a silent row keeps it. *)
Lemma preserves_round (I : world → Prop) :
  (∀ x fs w, w_faults w = x :: fs → I w → I (with_faults fs w)) →
  (∀ w t m, I w → t = w_now w → m ∈ monitored_rows (w_db w) →
     OFFLINE_THRESHOLD < t - date_time (m_last_heartbeat m) →
     preserves I (reportPotentialShardLoss (m_deal_id m) (m_provider_address m)
                    (m_shard_index m) (m_shard_cid m))) →
  preserves I checkAllProviders.
Proof.
  intros Hf Hrep w Hw. unfold checkAllProviders, try_catch, select, mbind, M_bind, gets, now.
  destruct (query w) as [[[]|e] w1] eqn:He; simpl.
  2: { pose proof (preserves_query I Hf w Hw) as H. by rewrite He in H. }
  assert (Hw1 : I w1) by (pose proof (preserves_query I Hf w Hw) as H; by rewrite He in H).
  assert (Hall : preserves I (for_each (monitored_rows (w_db w1)) (λ row,
       if OFFLINE_THRESHOLD <? w_now w1 - date_time (m_last_heartbeat row) then
         reportPotentialShardLoss (m_deal_id row) (m_provider_address row)
           (m_shard_index row) (m_shard_cid row)
       else mret tt))).
  { assert (Hsub : ∀ m, m ∈ monitored_rows (w_db w1) → m ∈ monitored_rows (w_db w1)) by done.
    revert Hsub. generalize (monitored_rows (w_db w1)) at 1 3 as ms.
    induction ms as [|m ms IH]; intros Hsub; simpl; [apply preserves_ret|].
    apply preserves_bind; [|intros _; apply IH; set_solver].
    destruct (_ <? _) eqn:Hlt; [|apply preserves_ret].
    apply Z.ltb_lt in Hlt. eapply Hrep; eauto. set_solver. }
  specialize (Hall w1 Hw1). by destruct (for_each _ _ w1) as [[[]|e] w2].
Qed.

(** ** Siblings of a confirmed loss *)

Section Sibling.
  Context (dealId provider : string) (sibling : Z).

(** The provider holds no active shard of the deal, and no repair of the
      sibling was ever queued. *)
Definition abandoned (w : world) : Prop :=
    (∀ s, s ∈ shards (w_db w) → shard_of dealId provider s = true → s_active s = false) ∧
    (∀ q, q ∈ repair_queue (w_db w) → ¬ is_repair_of dealId provider sibling q).

Lemma abandoned_shards_off f w :
    abandoned w → abandoned (with_db (λ d, set_shards (update_where f (shard_lost (w_now w)) (shards d)) d) w).
Proof.
    intros [Hs Hq]. split; [|done]. intros s. simpl. rewrite elem_of_update_where.
    intros (s0 & Hin & ->). specialize (Hs s0 Hin). by destruct (f s0).
  Qed.

Lemma abandoned_report dealId' provider' index' cid' :
    (dealId', provider') ≠ (dealId, provider) →
    preserves abandoned (reportPotentialShardLoss dealId' provider' index' cid').
Proof.
    intros Hne. unfold reportPotentialShardLoss, triggerRepair.
    preserve; try apply preserves_select; try apply preserves_now; try done.
    all: apply preserves_exec; [done|]; intros w [Hs Hq]; split; simpl; try done.
    - intros q. rewrite elem_of_app, list_elem_of_singleton. intros [?| ->]; [by apply Hq|].
      unfold is_repair_of. simpl. naive_solver.
    - intros s. rewrite elem_of_update_where. intros (s0 & Hin & ->). specialize (Hs s0 Hin).
      by destruct (_ && _).
  Qed.

Lemma abandoned_round : preserves abandoned checkAllProviders.
Proof.
    apply preserves_round; [done|]. intros w t m [Hs _] _ Hm _. apply abandoned_report.
    apply elem_of_monitored in Hm as (s & p & Hin & Hact & _ & _ & _ & ->). simpl.
    intros [= Hd Hp]. specialize (Hs s Hin). unfold shard_of in Hs.
    rewrite Hd, Hp, !bool_decide_true in Hs by done. simpl in Hs. rewrite Hs in Hact; done.
  Qed.
End Sibling.

(** The monitor's rounds at the times [ts]; [start] runs one every 30 s. *)
Fixpoint rounds (ts : list Z) (w : world) : world :=
  match ts with
  | [] => w
  | t :: ts' => rounds ts' (snd (checkAllProviders (with_now t w)))
  end.

Lemma abandoned_rounds dealId provider sibling ts w :
  abandoned dealId provider sibling w → abandoned dealId provider sibling (rounds ts w).
Proof.
  revert w. induction ts as [|t ts IH]; intros w Hw; simpl; [done|].
  apply IH, abandoned_round. exact Hw.
Qed.

(** A confirmed loss switches off every shard the provider holds in the deal and
    queues the repair of a single one: the sibling shards are lost to the
    monitor, and no later round, at any times and under any failures, ever
    queues their repair. *)
Theorem sibling_shards_never_repaired dealId provider index cid sibling report reports ts w :
  no_faults w →
  where_ (same_report dealId provider index) (loss_reports (w_db w)) = report :: reports →
  LOSS_COOLDOWN < w_now w - lr_reported_at report →
  sibling ≠ index →
  (∀ q, q ∈ repair_queue (w_db w) → ¬ is_repair_of dealId provider sibling q) →
  let w' := rounds ts (snd (reportPotentialShardLoss dealId provider index cid w)) in
  (∀ s, s ∈ shards (w_db w') → shard_of dealId provider s = true → s_active s = false) ∧
  (∀ q, q ∈ repair_queue (w_db w') → ¬ is_repair_of dealId provider sibling q).
Proof.
  intros Hw Hex Hc Hsib Hq w'. subst w'. apply (abandoned_rounds dealId provider sibling).
  rewrite (confirm_run _ _ _ _ _ _ _ Hw Hex Hc). split; simpl.
  - intros s. rewrite elem_of_update_where. intros (s0 & _ & ->) Hof.
    destruct (shard_of dealId provider s0) eqn:E; [done|congruence].
  - intros q. rewrite elem_of_app, list_elem_of_singleton. intros [?| ->]; [by apply Hq|].
    unfold is_repair_of. simpl. naive_solver.
Qed.

(** A provider with shards 0 and 3 of deal D1, silent, reported six minutes ago. *)
Definition demo_provider (addr : string) (beat : Z) : provider_row :=
  Provider addr "peer" None "us-east" 100 true (Some beat) None 0 (num_of_Z 100) (num_of_Z 0).
Definition demo_shard (deal prov : string) (i : Z) : shard_row :=
  Shard deal prov i "cid" (Some 4) None (Some true) true 0 None None.
Definition demo_silent : world :=
  World (Db [demo_provider "0xa" 0] [] [] [demo_shard "D1" "0xa" 0; demo_shard "D1" "0xa" 3]
            [LossReport "D1" "0xa" 0 "cid" 640000; LossReport "D1" "0xa" 3 "cid" 640000]
            [] [] [] [] [] [] [])
        None ∅ 1000000 [] [] [] (true, true) true false committed_schema.

Lemma sibling_shards_never_repaired_witness :
  let w' := rounds [1030000; 1060000; 1390000]
              (snd (reportPotentialShardLoss "D1" "0xa" 0 "cid" demo_silent)) in
  (∀ s, s ∈ shards (w_db w') → shard_of "D1" "0xa" s = true → s_active s = false) ∧
  (∀ q, q ∈ repair_queue (w_db w') → ¬ is_repair_of "D1" "0xa" 3 q).
Proof.
  apply (sibling_shards_never_repaired "D1" "0xa" 0 "cid" 3
           (LossReport "D1" "0xa" 0 "cid" 640000) []); try done.
  simpl. intros q Hq. by apply elem_of_nil in Hq.
Defined.

(** The hypothesis of [repair_only_after_cooldown] is met: this round queues repairs. *)
Lemma repair_only_after_cooldown_witness :
  let q := Repair 1 "D1" "0xa" 0 "cid" "pending" None None None 1000000 None None in
  q ∈ repair_queue (w_db (snd (checkAllProviders demo_silent))) ∧
  ∃ r, r ∈ loss_reports (w_db demo_silent) ∧
       is_report_of (r_deal_id q) (r_old_provider q) (r_shard_index q) r ∧
       w_now demo_silent - lr_reported_at r > LOSS_COOLDOWN.
Proof.
  intros q.
  assert (Hq : q ∈ repair_queue (w_db (snd (checkAllProviders demo_silent)))).
  { vm_compute. by left. }
  split; [exact Hq|].
  destruct (repair_only_after_cooldown demo_silent q Hq) as [H|H]; [|exact H].
  exfalso. simpl in H. by apply elem_of_nil in H.
Defined.

(** ** Heartbeats *)

(** The provider's row is fresh, and nothing is reported or newly queued for it. *)
Definition healthy_provider (provider : string) (t0 : Z) (queue0 : list repair_row) (w : world) : Prop :=
  w_now w ≤ t0 + OFFLINE_THRESHOLD ∧
  (∀ p, p ∈ providers (w_db w) → p_address p = provider → p_last_heartbeat p = Some t0) ∧
  (∀ r, r ∈ loss_reports (w_db w) → lr_provider_address r ≠ provider) ∧
  (∀ q, q ∈ repair_queue (w_db w) → r_old_provider q = provider → q ∈ queue0).

Lemma healthy_report provider t0 queue0 dealId' provider' index' cid' :
  provider' ≠ provider →
  preserves (healthy_provider provider t0 queue0)
    (reportPotentialShardLoss dealId' provider' index' cid').
Proof.
  intros Hne. unfold reportPotentialShardLoss, triggerRepair.
  preserve; try apply preserves_select; try apply preserves_now; try done.
  all: apply preserves_exec; [done|]; intros w (Ht & Hp & Hr & Hq); split_and!; simpl; try done.
  - intros r. rewrite elem_of_app, list_elem_of_singleton. intros [?| ->]; [by apply Hr|done].
  - intros q. rewrite elem_of_app, list_elem_of_singleton. intros [?| ->]; [by apply Hq|done].
  - intros r. rewrite elem_of_delete_where. intros [? _]. by apply Hr.
Qed.

Lemma healthy_round provider t0 queue0 :
  preserves (healthy_provider provider t0 queue0) checkAllProviders.
Proof.
  apply preserves_round; [done|]. intros w t m (Ht & Hp & _) -> Hm Hlate.
  apply healthy_report. intros Heq.
  apply elem_of_monitored in Hm as (s & p & _ & _ & Hin & _ & Hadr & ->). simpl in *.
  rewrite (Hp p Hin) in Hlate by congruence. simpl in Hlate. lia.
Qed.

(** A heartbeat protects its provider: after [recordHeartbeat] at time t, no
    round up to a minute later reports any of the provider's shards or queues a
    repair for them, whatever fails during that round. *)
Theorem heartbeat_prevents_loss provider w t' fs :
  no_faults w → t' ≤ w_now w + OFFLINE_THRESHOLD →
  let w1 := snd (recordHeartbeat provider w) in
  let w2 := snd (checkAllProviders (with_faults fs (with_now t' w1))) in
  (∀ r, r ∈ loss_reports (w_db w2) → lr_provider_address r ≠ provider) ∧
  (∀ q, q ∈ repair_queue (w_db w2) → r_old_provider q = provider → q ∈ repair_queue (w_db w)).
Proof.
  intros Hw Ht w1 w2.
  assert (H : healthy_provider provider (w_now w) (repair_queue (w_db w)) w2).
  { apply healthy_round. subst w1. destruct w; unfold no_faults in Hw; simpl in *; subst.
    split_and!; simpl; [done| | |done].
    - intros p. rewrite elem_of_update_where. intros (p0 & _ & ->). by case_bool_decide.
    - intros r. rewrite elem_of_delete_where, bool_decide_eq_false. naive_solver. }
  destruct H as (_ & _ & Hr & Hq). done.
Qed.

Lemma heartbeat_prevents_loss_witness :
  let w1 := snd (recordHeartbeat "0xa" demo_silent) in
  let w2 := snd (checkAllProviders (with_faults [] (with_now 1060000 w1))) in
  (∀ r, r ∈ loss_reports (w_db w2) → lr_provider_address r ≠ "0xa") ∧
  (∀ q, q ∈ repair_queue (w_db w2) → r_old_provider q = "0xa" → q ∈ repair_queue (w_db demo_silent)).
Proof. by apply (heartbeat_prevents_loss "0xa" demo_silent 1060000 []). Defined.

(** Deal health: in a world without failures [getDealHealth] counts the deal's
    shards, active and lost, reports healthy exactly when at least the ten data
    shards' worth are active, and never reports the degraded state: both guards
    test the same bound. *)
Theorem getDealHealth_spec dealId w :
  no_faults w →
  let mine := where_ (λ s, bool_decide (s_deal_id s = dealId)) (shards (w_db w)) in
  ∃ h, getDealHealth dealId w = (Ok h, w) ∧
       dh_totalShards h = dh_activeShards h + dh_lostShards h ∧
       dh_activeShards h = count s_active mine ∧
       (dh_status h = Healthy ↔ 10 ≤ dh_activeShards h) ∧
       (dh_status h = Critical ↔ dh_activeShards h < 10).
Proof.
  intros Hw mine. unfold getDealHealth. rewrite (bind_ok _ _ _ _ _ (select_ok _ w Hw)).
  eexists. split; [reflexivity|]. cbn [dh_totalShards dh_activeShards dh_lostShards dh_status].
  fold mine. split_and!.
  - unfold count, where_. clear. induction mine as [|s mine IH]; [done|].
    simpl in *. destruct (s_active s); simpl in *; lia.
  - done.
  - destruct (10 <=? _) eqn:E; split; try done; lia.
  - destruct (10 <=? _) eqn:E; split; try done; lia.
Qed.

Lemma getDealHealth_spec_witness :
  ∃ h, getDealHealth "D1" demo_silent = (Ok h, demo_silent) ∧ dh_status h = Critical.
Proof.
  destruct (getDealHealth_spec "D1" demo_silent eq_refl) as (h & Hrun & _ & Hact & _ & Hcrit).
  exists h. split; [exact Hrun|]. apply Hcrit. rewrite Hact. vm_compute. reflexivity.
Defined.
