(* ===== verification/RepairService.v ===== *)
(** RepairService: reconstruction and placement of lost shards
    (src/incentive-layer/services/erasure-coding/src/repair-service.ts).

    Every minute the oldest ten pending repairs are taken from the queue.  A
    repair reads the deal's active shards, rebuilds the missing one through the
    ShardManager, picks a new provider, uploads the shard, records the new
    allocation and updates the chain; any exception marks the repair failed. *)

From S2P Require Import Prelude JsNum World ShardManager.

Local Open Scope Z_scope.

Definition REPAIR_CHECK_INTERVAL : Z := 60000.

(** [UPDATE repair_queue SET ... WHERE id = $n] *)
Definition update_repair (repairId : Z) (f : repair_row → repair_row) (d : db) : db :=
  set_repair_queue (update_where (λ r, r_id r =? repairId) f (repair_queue d)) d.

Definition repair_started (t : Z) (r : repair_row) : repair_row :=
  Repair (r_id r) (r_deal_id r) (r_old_provider r) (r_shard_index r) (r_shard_cid r)
         "in_progress" (r_new_provider r) (r_new_shard_cid r) (r_error r) (r_created_at r)
         (Some t) (r_completed_at r).
Definition repair_completed (t : Z) (newProvider newShardCID : string) (r : repair_row) : repair_row :=
  Repair (r_id r) (r_deal_id r) (r_old_provider r) (r_shard_index r) (r_shard_cid r)
         "completed" (Some newProvider) (Some newShardCID) (r_error r) (r_created_at r)
         (r_started_at r) (Some t).
Definition repair_failed (msg : string) (r : repair_row) : repair_row :=
  Repair (r_id r) (r_deal_id r) (r_old_provider r) (r_shard_index r) (r_shard_cid r)
         "failed" (r_new_provider r) (r_new_shard_cid r) (Some msg) (r_created_at r)
         (r_started_at r) (r_completed_at r).

Definition active_in_deal (dealId : string) (s : shard_row) : bool :=
  bool_decide (s_deal_id s = dealId) && s_active s.

(** The providers that may take a shard, joined with a pledge that has room. *)
Definition candidate_rows (excludedAddresses : list string) (d : db) : list (provider_row * pledge_row) :=
  p ← where_ (λ p, p_active p && (50 <=? p_reputation_score p)
                   && negb (bool_decide (p_address p ∈ excludedAddresses))) (providers d);
  cp ← where_ (λ cp, bool_decide (p_address p = pl_provider_address cp) && pl_active cp
                     && (0 <? pl_available_capacity cp)) (pledges d);
  [(p, cp)].

Section RepairService.
  Context {ipfs : Ipfs} {codec : RSCodec} {random : Shuffle}.
(** PRIVATE_KEY, MARKETPLACE_ADDRESS and RPC_URL are all set; the installed version of
      ethers has [ethers.JsonRpcProvider] (version 6 has it, version 5 keeps it under
      [ethers.providers]). *)
  Context (chain_configured ethers6 : bool).

(** ** selectNewProvider *)
Definition selectNewProvider (dealId excludeProvider : string) : M world (option string) :=
    existingProviders ← select (λ d,
      distinct (map s_provider_address (where_ (active_in_deal dealId) (shards d))));
    let excludedAddresses := excludeProvider :: existingProviders in
    require_column sc_available_capacity "cp.available_capacity" ;;
    result ← select (λ d,
      take 1 (order_by (λ r, - p_reputation_score (fst r))
                       (shuffle (candidate_rows excludedAddresses d))));
    match result with
    | [] => mret None
    | r :: _ => mret (Some (p_address (fst r)))
    end.

(** ** updateBlockchainShardAllocation *)
Definition updateBlockchainShardAllocation (dealId oldProvider newProvider newShardCID : string)
      : M world unit :=
    try_catch
      (if negb chain_configured then
         throw (Error "Missing blockchain configuration (PRIVATE_KEY, MARKETPLACE_ADDRESS, RPC_URL)")
       else if negb ethers6 then
         throw (Error "ethers_1.ethers.JsonRpcProvider is not a constructor")
       else
         send_tx "StorageMarketplace" "repairShard"
           [JStr dealId; JStr oldProvider; JStr newProvider; JStr newShardCID])
      (λ error, throw error).

(** Steps 3 to 7 of [repairShard]: a provider, the upload, the row, the chain. *)
Definition place_shard (repairId : Z) (dealId oldProvider : string) (shardIndex : Z)
      (reconstructedShard : bytes) : M world unit :=
    choice ← selectNewProvider dealId oldProvider;
    if negb (truthy choice) then
      throw (Error "No available provider for shard placement")
    else
      let newProvider := default "" choice in
      newShardCID ← ipfs_add reconstructedShard;
      t1 ← now;
      add_shard (Shard dealId newProvider shardIndex newShardCID None
                   (Some (Z.of_nat (length reconstructedShard))) None true t1 None None) ;;
      updateBlockchainShardAllocation dealId oldProvider newProvider newShardCID ;;
      t2 ← now;
      exec (update_repair repairId (repair_completed t2 newProvider newShardCID)).

(** The body of [repairShard]'s try block.  Rows hold indices 0..14, which
      are array indices for the ShardManager. *)
Definition repair_body (repairId : Z) (dealId oldProvider : string) (shardIndex : Z)
      : M world unit :=
    t0 ← now;
    exec (update_repair repairId (repair_started t0)) ;;
    rows ← select (λ d, order_by s_shard_index (where_ (active_in_deal dealId) (shards d)));
    if (length rows <? 10)%nat then
      throw (Error ("Insufficient shards to reconstruct: have " +:+ pretty (length rows)
                    +:+ ", need 10"))
    else
      let availableShards := map (λ row, (s_shard_cid row, Z.to_nat (s_shard_index row))) rows in
      reconstructed ← reconstructShard availableShards (Z.to_nat shardIndex);
      match reconstructed with
      | None => throw (Error "Cannot read properties of undefined (reading 'length')")
      | Some reconstructedShard => place_shard repairId dealId oldProvider shardIndex reconstructedShard
      end.

(** ** repairShard *)
Definition repairShard (repairId : Z) (dealId oldProvider : string) (shardIndex : Z)
      (oldShardCID : string) : M world unit :=
    try_catch (repair_body repairId dealId oldProvider shardIndex)
      (λ error, exec (update_repair repairId (repair_failed (err_message error)))).

(** ** processRepairQueue *)
Definition pending_repairs (d : db) : list repair_row :=
    take 10 (order_by r_created_at
               (where_ (λ r, bool_decide (r_status r = "pending")) (repair_queue d))).

Definition processRepairQueue : M world unit :=
    try_catch
      (rows ← select pending_repairs;
       for_each rows (λ repair,
         repairShard (r_id repair) (r_deal_id repair) (r_old_provider repair)
           (r_shard_index repair) (r_shard_cid repair)))
      (λ error, mret tt).
End RepairService.


(** * Properties *)

(** No provider holds two active shards of one deal. *)
Definition spread (d : db) : Prop := NoDup (map shard_place (where_ s_active (shards d))).

(** A provider the placement rules allow. *)
Definition eligible (d : db) (addr : string) : Prop :=
  ∃ p cp, p ∈ providers d ∧ cp ∈ pledges d ∧ p_address p = addr ∧ pl_provider_address cp = addr ∧
          p_active p = true ∧ 50 ≤ p_reputation_score p ∧
          pl_active cp = true ∧ 0 < pl_available_capacity cp.

Lemma elem_of_candidates excluded d p cp :
  (p, cp) ∈ candidate_rows excluded d → eligible d (p_address p) ∧ p_address p ∉ excluded.
Proof.
  unfold candidate_rows. rewrite list_elem_of_bind. intros (p' & Hcp & Hp).
  rewrite list_elem_of_bind in Hcp. destruct Hcp as (cp' & Heq & Hcp).
  apply list_elem_of_singleton in Heq. injection Heq as <- <-.
  rewrite elem_of_where, !andb_true_iff, negb_true_iff, bool_decide_eq_false in Hp.
  rewrite elem_of_where, !andb_true_iff, bool_decide_eq_true in Hcp.
  destruct Hp as (Hp & (Hact & Hrep) & Hex), Hcp as (Hcp & (Hadr & Hpact) & Hcap).
  split; [|done]. exists p, cp. split_and!; try done; lia.
Qed.

Section Placement.
  Context {ipfs : Ipfs} {codec : RSCodec} {random : Shuffle} `{!ShuffleLaws}.
  Context (chain_configured ethers6 : bool) (w0 : world).

(** The state of a placement run that started in [w0]. *)
Definition placed (w : world) : Prop :=
    providers (w_db w) = providers (w_db w0) ∧ pledges (w_db w) = pledges (w_db w0) ∧
    spread (w_db w) ∧
    ∀ s, s ∈ shards (w_db w) → s ∈ shards (w_db w0) ∨
         (s_active s = true ∧ eligible (w_db w0) (s_provider_address s)).

Definition placed_with (dealId : string) (choice : option string) (w : world) : Prop :=
    placed w ∧
    ∀ a, choice = Some a → eligible (w_db w0) a ∧
         (dealId, a) ∉ map shard_place (where_ s_active (shards (w_db w))).

Lemma placed_faults x fs w : w_faults w = x :: fs → placed w → placed (with_faults fs w).
Proof. done. Qed.

Lemma selectNewProvider_post dealId old w :
    placed w →
    match selectNewProvider dealId old w with
    | (Ok choice, w') => placed_with dealId choice w'
    | (Throw _, w') => placed w'
    end.
Proof.
    intros Hw. unfold selectNewProvider, require_column, select, mbind, M_bind, gets.
    query_step; [|done]. destruct (sc_available_capacity _); simpl; [|done]. query_step; [|done].
    set (excluded := old :: _). destruct (order_by _ _) as [|[p cp] rs] eqn:Ho; simpl.
    { split; [done|]. intros a [=]. }
    split; [done|]. intros a [= <-].
    assert (Hin : (p, cp) ∈ candidate_rows excluded (w_db w)).
    { assert (Hin : (p, cp) ∈ (p, cp) :: rs) by set_solver.
      rewrite <- Ho, elem_of_order_by, shuffle_Permutation in Hin. done. }
    apply elem_of_candidates in Hin as [Hel Hex]. split.
    - destruct Hw as (Hp & Hpl & _). destruct Hel as (p' & cp' & Hel1 & Hel2 & Hel3).
      exists p', cp'. rewrite Hp in Hel1. rewrite Hpl in Hel2. done.
    - intros Hin. apply Hex. apply elem_of_cons. right. rewrite elem_of_distinct.
      apply list_elem_of_fmap in Hin as (s & [= -> ->] & Hs).
      apply elem_of_where in Hs as [Hs Hact].
      apply list_elem_of_fmap. exists s. split; [done|]. apply elem_of_where. split; [done|].
      unfold active_in_deal. by rewrite bool_decide_true.
  Qed.

Lemma placed_insert dealId a index cid size t w :
    placed_with dealId (Some a) w →
    placed (with_db (λ d, set_shards (shards d ++
      [Shard dealId a index cid None size None true t None None]) d) w).
Proof.
    intros [(Hp & Hpl & Hs & Hel) Hfresh]. destruct (Hfresh a eq_refl) as [Ha Hnin].
    split_and!; [done|done| |].
    - unfold spread in *. simpl. rewrite where_app, map_app. simpl.
      apply NoDup_app. split; [done|]. split; [|apply NoDup_singleton].
      intros x Hx Hx'. apply list_elem_of_singleton in Hx'. subst x. done.
    - intros s. simpl. rewrite elem_of_app, list_elem_of_singleton. intros [?| ->]; eauto.
  Qed.

Lemma placed_queue f w : placed w → placed (with_db (λ d, set_repair_queue (f d) d) w).
Proof. done. Qed.

Lemma placed_blockchain dealId old new cid :
    preserves placed (updateBlockchainShardAllocation chain_configured ethers6 dealId old new cid).
Proof. unfold updateBlockchainShardAllocation. preserve. Qed.

(** From the chosen provider on: upload, insert, chain update, completion. *)
Lemma placed_commit repairId dealId old a index shard :
    hoare (placed_with dealId (Some a))
      (newShardCID ← ipfs_add shard;
       t1 ← now;
       add_shard (Shard dealId a index newShardCID None
                    (Some (Z.of_nat (length shard))) None true t1 None None) ;;
       updateBlockchainShardAllocation chain_configured ethers6 dealId old a newShardCID ;;
       t2 ← now;
       exec (update_repair repairId (repair_completed t2 a newShardCID)))
      (λ _, placed).
Proof.
    eapply hoare_bind with (R := λ _, placed_with dealId (Some a)).
    { apply hoare_preserves, preserves_ipfs_add; done. }
    2: { by intros e s []. }
    intros cid. eapply hoare_bind with (R := λ _, placed_with dealId (Some a)).
    { apply hoare_preserves, preserves_now. }
    2: { by intros e s []. }
    intros t. eapply hoare_bind with (R := λ _, placed).
    - intros w Hw. unfold add_shard, insert_checked, mbind, M_bind, gets. query_step; [|apply Hw].
      destruct (shard_refused _ _ _); simpl; [apply Hw|]. by apply placed_insert.
    - intros _. apply hoare_preserves. apply preserves_bind; [apply placed_blockchain|intros _].
      apply preserves_bind; [apply preserves_now|intros t2].
      apply preserves_exec; [done|]. intros w Hw. by apply placed_queue.
    - done.
  Qed.

Lemma placed_repairShard repairId dealId old index cid :
    preserves placed (repairShard chain_configured ethers6 repairId dealId old index cid).
Proof.
    unfold repairShard. apply preserves_try_catch.
    2: { intros e. apply preserves_exec; [done|]. intros w Hw. by apply placed_queue. }
    unfold repair_body. apply preserves_bind; [apply preserves_now|intros t0].
    apply preserves_bind; [apply preserves_exec; [done|]; intros w Hw; by apply placed_queue|intros _].
    apply preserves_bind; [by apply preserves_select|intros rows].
    destruct (_ <? _)%nat; [apply preserves_throw|].
    apply preserves_bind; [by apply preserves_reconstructShard|intros [shard|]];
      [|apply preserves_throw].
    unfold place_shard. apply (preserves_bind_post _ _ _ (placed_with dealId)); [apply selectNewProvider_post|].
    intros [a|] w Hw; simpl; [|apply Hw].
    destruct a as [|c a]; simpl; [apply Hw|]. by apply placed_commit.
  Qed.

Lemma placed_processRepairQueue : preserves placed (processRepairQueue chain_configured ethers6).
Proof.
    unfold processRepairQueue. apply preserves_try_catch; [|intros; apply preserves_ret].
    apply preserves_bind; [by apply preserves_select|intros rows].
    apply preserves_for_each. intros r. apply placed_repairShard.
  Qed.
End Placement.

(** The status an update gives to its row. *)
Lemma updated_status repairId f rows r st :
  (∀ x, r_status (f x) = st) → r ∈ update_where (λ x, r_id x =? repairId) f rows → r_id r = repairId →
  r_status r = st.
Proof.
  intros Hf Hr Hid. apply elem_of_update_where in Hr as (x & _ & ->).
  destruct (r_id x =? repairId) eqn:E; [apply Hf|lia].
Qed.

(** ** The queue is drained *)

Definition settled (r : repair_row) : Prop := r_status r = "completed" ∨ r_status r = "failed".

Section Settle.
  Context {ipfs : Ipfs} {codec : RSCodec} {random : Shuffle} (chain_configured ethers6 : bool).

Definition all_settled (done : list Z) (w : world) : Prop :=
    db_answers w ∧ ∀ r, r ∈ repair_queue (w_db w) → r_id r ∈ done → settled r.

Lemma all_settled_faults done x fs w :
    w_faults w = x :: fs → all_settled done w → all_settled done (with_faults fs w).
Proof. intros Hf [[Hn|Hn] Hs]; [|congruence]. split; [by left|done]. Qed.

Lemma all_settled_started done repairId t w :
    repairId ∉ done → all_settled done w →
    all_settled done (with_db (update_repair repairId (repair_started t)) w).
Proof.
    intros Hid [Hn Hs]. split; [done|]. intros r. simpl. rewrite elem_of_update_where.
    intros (r0 & Hin & ->). destruct (r_id r0 =? repairId) eqn:E; [|by apply Hs].
    apply Z.eqb_eq in E. simpl. by rewrite E.
  Qed.

Lemma all_settled_closed done repairId f w :
    (∀ r, settled (f r) ∧ r_id (f r) = r_id r) → all_settled done w →
    all_settled (done ++ [repairId]) (with_db (update_repair repairId f) w).
Proof.
    intros Hf [Hn Hs]. split; [done|]. intros r. simpl. rewrite elem_of_update_where.
    intros (r0 & Hin & ->). destruct (r_id r0 =? repairId) eqn:E; intros Hid; [apply Hf|].
    apply Hs; [done|]. apply Z.eqb_neq in E.
    rewrite elem_of_app, list_elem_of_singleton in Hid. naive_solver.
  Qed.

Lemma all_settled_weaken done x w : all_settled (done ++ [x]) w → all_settled done w.
Proof. intros [Hn Hs]. split; [done|]. set_solver. Qed.

Lemma all_settled_completed done repairId t a cid :
    ends (all_settled done) (all_settled (done ++ [repairId]))
      (exec (update_repair repairId (repair_completed t a cid))).
Proof.
    intros w Hw. rewrite exec_up by apply Hw. simpl.
    assert (H : all_settled (done ++ [repairId])
              (with_db (update_repair repairId (repair_completed t a cid)) w)).
    { apply all_settled_closed; [|done]. intros r. split; [by left|done]. }
    split; [|done]. by apply all_settled_weaken in H.
  Qed.

Lemma selectNewProvider_all_settled done dealId old :
    preserves (all_settled done) (selectNewProvider dealId old).
Proof. unfold selectNewProvider. preserve; eauto using preserves_select, all_settled_faults. Qed.

Lemma repair_body_settles done repairId dealId old index :
    repairId ∉ done →
    ends (all_settled done) (all_settled (done ++ [repairId]))
      (repair_body chain_configured ethers6 repairId dealId old index).
Proof.
    intros Hid. unfold repair_body. pose proof (all_settled_faults done) as Hf.
    apply ends_bind; [apply preserves_now|intros t0].
    apply ends_bind; [apply preserves_exec; [done|]; intros w Hw; by apply all_settled_started|intros _].
    apply ends_bind; [by apply preserves_select|intros rows].
    destruct (_ <? _)%nat; [apply ends_throw|].
    apply ends_bind; [by apply preserves_reconstructShard|intros [shard|]]; [|apply ends_throw].
    unfold place_shard. apply ends_bind; [apply selectNewProvider_all_settled|intros choice].
    destruct (truthy choice); simpl; [|apply ends_throw].
    apply ends_bind; [by apply preserves_ipfs_add|intros cid].
    apply ends_bind; [apply preserves_now|intros t1].
    apply ends_bind; [by apply preserves_add_shard|intros _].
    apply ends_bind; [|intros _].
    { unfold updateBlockchainShardAllocation. preserve; by apply preserves_send_tx. }
    apply ends_bind; [apply preserves_now|intros t2]. apply all_settled_completed.
  Qed.

Lemma repairShard_settles done repairId dealId old index cid w :
    repairId ∉ done → all_settled done w →
    ∃ w', repairShard chain_configured ethers6 repairId dealId old index cid w = (Ok tt, w') ∧
          all_settled (done ++ [repairId]) w'.
Proof.
    intros Hid Hw. unfold repairShard, try_catch.
    pose proof (repair_body_settles done repairId dealId old index Hid w Hw) as [HI HT].
    destruct (repair_body _ _ _ _ _ _ w) as [[[]|e] w1]; simpl in *; [by eexists|].
    rewrite exec_up by apply HI. eexists. split; [done|].
    apply all_settled_closed; [|done]. intros r. split; [by right|done].
  Qed.
End Settle.

(** ** A successful reconstruction, step by step *)

Definition survivors (dealId : string) (d : db) : list (string * nat) :=
  map (λ row, (s_shard_cid row, Z.to_nat (s_shard_index row)))
      (order_by s_shard_index (where_ (active_in_deal dealId) (shards d))).

(** What [selectNewProvider] chooses from. *)
Definition candidates {random : Shuffle} (dealId old : string) (d : db) : list (provider_row * pledge_row) :=
  order_by (λ r, - p_reputation_score (fst r))
    (shuffle (candidate_rows
       (old :: distinct (map s_provider_address (where_ (active_in_deal dealId) (shards d)))) d)).

Section Run.
  Context {ipfs : Ipfs} `{!IpfsLaws} {codec : RSCodec} {random : Shuffle}.

Lemma selectNewProvider_run dealId old w p cp rest :
    no_faults w → sc_available_capacity (w_schema w) = true → candidates dealId old (w_db w) = (p, cp) :: rest →
    selectNewProvider dealId old w = (Ok (Some (p_address p)), w).
Proof.
    intros Hw Hcol Hc. unfold selectNewProvider.
    rewrite (bind_ok _ _ _ _ _ (select_ok _ w Hw)), (bind_ok _ _ _ _ _ (require_column_ok _ _ w Hcol)).
    rewrite (bind_ok _ _ _ _ _ (select_ok _ w Hw)). unfold candidates in Hc. by rewrite Hc.
  Qed.

(** Without the column the second query fails. *)
Lemma selectNewProvider_no_column dealId old w :
    no_faults w → sc_available_capacity (w_schema w) = false →
    selectNewProvider dealId old w = (Throw (Error "column cp.available_capacity does not exist"), w).
Proof.
    intros Hw Hcol. unfold selectNewProvider. rewrite (bind_ok _ _ _ _ _ (select_ok _ w Hw)).
    by rewrite (bind_throw _ _ _ _ _ (require_column_missing _ _ w Hcol)).
  Qed.

Definition new_row (dealId a : string) (index : Z) (shard : bytes) (t : Z) : shard_row :=
    Shard dealId a index (cid_of shard) None (Some (Z.of_nat (length shard))) None true t None None.

(** The repair has been marked as started. *)
Definition started (repairId : Z) (w : world) : world :=
    with_db (update_repair repairId (repair_started (w_now w))) w.

(** The state just before the chain is updated. *)
Definition before_chain (repairId : Z) (dealId a : string) (index : Z) (shard : bytes) (w : world) : world :=
    with_db (λ d, set_shards (shards d ++ [new_row dealId a index shard (w_now w)]) d)
      (with_ipfs (<[cid_of shard := shard]> (w_ipfs w)) (started repairId w)).

Lemma repair_body_run chain_configured ethers6 repairId dealId old index w shard :
    no_faults w → (10 ≤ length (survivors dealId (w_db w)))%nat →
    (∀ w1, w_ipfs w1 = w_ipfs w → w_faults w1 = w_faults w → w_shard_manager w1 = w_shard_manager w →
       reconstructShard (survivors dealId (w_db w)) (Z.to_nat index) w1 = (Ok (Some shard), w1)) →
    repair_body chain_configured ethers6 repairId dealId old index w
    = place_shard chain_configured ethers6 repairId dealId old index shard (started repairId w).
Proof.
    intros Hw Hlen Hrec. unfold repair_body.
    rewrite (bind_ok now _ w (w_now w) w eq_refl).
    rewrite (bind_ok _ _ _ _ _ (exec_ok _ w Hw)). fold (started repairId w).
    rewrite (bind_ok _ _ _ _ _ (select_ok _ (started repairId w) Hw)).
    change (shards (w_db (started repairId w))) with (shards (w_db w)).
    unfold survivors in Hlen. rewrite length_map in Hlen. rewrite (proj2 (Nat.ltb_ge _ _) Hlen).
    fold (survivors dealId (w_db w)). by rewrite (bind_ok _ _ _ _ _ (Hrec (started repairId w) eq_refl eq_refl eq_refl)).
  Qed.

Lemma place_shard_run chain_configured ethers6 repairId dealId old index shard p cp rest w :
    no_faults w → sc_available_capacity (w_schema w) = true →
    candidates dealId old (w_db w) = (p, cp) :: rest → p_address p ≠ "" →
    shard_refused (new_row dealId (p_address p) index shard (w_now w)) (w_schema w) (w_db w) = None →
    place_shard chain_configured ethers6 repairId dealId old index shard (started repairId w)
    = (updateBlockchainShardAllocation chain_configured ethers6 dealId old (p_address p) (cid_of shard) ;;
       t2 ← now;
       exec (update_repair repairId (repair_completed t2 (p_address p) (cid_of shard))))
        (before_chain repairId dealId (p_address p) index shard w).
Proof.
    intros Hw Hcol Hc Hne Hok. unfold place_shard.
    rewrite (bind_ok _ _ _ _ _ (selectNewProvider_run dealId old (started repairId w) p cp rest Hw Hcol Hc)).
    destruct (p_address p) as [|c a] eqn:Ha; [done|].
    cbn [truthy negb default]. rewrite <- Ha in *.
    rewrite (bind_ok _ _ _ _ _ (ipfs_add_run shard (started repairId w) Hw)).
    set (w2 := with_ipfs _ _). rewrite (bind_ok now _ w2 (w_now w2) w2 eq_refl).
    assert (add_shard (new_row dealId (p_address p) index shard (w_now w)) w2
            = (Ok tt, before_chain repairId dealId (p_address p) index shard w)) as E.
    { unfold add_shard. rewrite insert_checked_up by (by right).
      change (shard_refused _ (w_schema w2) (w_db w2)) with
        (shard_refused (new_row dealId (p_address p) index shard (w_now w)) (w_schema w) (w_db w)).
      by rewrite Hok. }
    by rewrite (bind_ok _ _ _ _ _ E).
  Qed.
End Run.

Section Claims.
  Context {ipfs : Ipfs} {codec : RSCodec} {random : Shuffle}.

(** C14. Placement safety: whatever fails on the way, a run of the repair queue never
      puts two active shards of one deal on one provider, and every shard row it adds
      belongs to an active provider with reputation of at least 50 and an active
      pledge with free capacity. *)
Theorem repairs_placed_safely `{!ShuffleLaws} chain_configured ethers6 w :
    spread (w_db w) →
    let w' := snd (processRepairQueue chain_configured ethers6 w) in
    spread (w_db w') ∧
    ∀ s, s ∈ shards (w_db w') → s ∉ shards (w_db w) → eligible (w_db w) (s_provider_address s).
Proof.
    intros Hs w'. destruct (placed_processRepairQueue chain_configured ethers6 w w) as (_ & _ & Hs' & Hel).
    { split_and!; auto. }
    split; [done|]. intros s Hin Hnin. destruct (Hel s Hin) as [?|[_ ?]]; [done|done].
  Qed.


(** C13. A repair gives the deal back the lost shard, byte for byte, on a new provider:
      when no call fails, with ten survivors of the encoded file in reach, a provider to
      take the shard, tables that accept the new row and the column available_capacity,
      [repairShard] uploads the original shard and adds an active row with its
      identifier; the repair is completed when the chain is configured and the installed
      ethers has JsonRpcProvider, and is marked failed otherwise although the uploaded
      shard and the active row stay.  Without the column, which the committed schema
      does not have, the repair is marked failed and no row is added. *)
Theorem repair_restores_shard `{!IpfsLaws} chain_configured ethers6 repairId dealId old index cid
      data out p cp rest w :
    let ss := shard_size (length data) in
    let d := w_db w in
    sm_ready w → encodes ss (code_buffer data) out →
    (∀ c i, (c, i) ∈ survivors dealId d → w_ipfs w !! c = Some (shard_at ss out i)) →
    NoDup (map snd (survivors dealId d)) →
    Forall (λ i, i < TOTAL_SHARDS)%nat (map snd (survivors dealId d)) →
    (10 ≤ length (survivors dealId d))%nat →
    restores ss (λ i, bool_decide (i ∈ map snd (survivors dealId d))) out →
    (Z.to_nat index < TOTAL_SHARDS)%nat →
    candidates dealId old d = (p, cp) :: rest → p_address p ≠ "" →
    let shard := shard_at ss out (Z.to_nat index) in
    let row := new_row dealId (p_address p) index shard (w_now w) in
    shard_refused row (w_schema w) d = None →
    ∃ w', repairShard chain_configured ethers6 repairId dealId old index cid w = (Ok tt, w') ∧
      if sc_available_capacity (w_schema w) then
        shards (w_db w') = shards d ++ [row] ∧ w_ipfs w' !! cid_of shard = Some shard ∧
        ∀ r, r ∈ repair_queue (w_db w') → r_id r = repairId →
             r_status r = if chain_configured && ethers6 then "completed" else "failed"
      else
        shards (w_db w') = shards d ∧
        ∀ r, r ∈ repair_queue (w_db w') → r_id r = repairId → r_status r = "failed".
Proof.
    intros ss d Hw He Hc Hnd Hlt Hlen Hres Hidx Hcand Hne shard row Hok.
    unfold repairShard, try_catch.
    rewrite (repair_body_run chain_configured ethers6 repairId dealId old index w shard); [|apply Hw|done|].
    2: { intros w1 Hi Hf Hm. rewrite (reconstructShard_run data out); try done.
         - by rewrite list_lookup_fmap, lookup_seq_lt by done.
         - destruct Hw as [Hw1 Hw2]. split; [unfold no_faults in *|]; congruence.
         - by rewrite Hi. }
    destruct Hw as [Hw _]. destruct (sc_available_capacity (w_schema w)) eqn:Hcol.
    - rewrite (place_shard_run _ _ _ _ _ _ shard p cp rest) by done. unfold no_faults in Hw.
      destruct chain_configured, ethers6; destruct w; simpl in *; subst.
      all: eexists; split; [reflexivity|]; split_and!; simpl; [done|apply lookup_insert_eq|].
      all: intros r Hr Hid; eapply updated_status; [|exact Hr|exact Hid]; done.
    - unfold place_shard. rewrite (bind_throw _ _ _ _ _ (selectNewProvider_no_column _ _ (started repairId w) Hw Hcol)).
      rewrite exec_ok by done. eexists. split; [reflexivity|]. split; [done|].
      intros r Hr Hid. eapply updated_status; [|exact Hr|exact Hid]. done.
  Qed.
End Claims.

(** ** Witnesses: a deal of the twelve-byte file with shards 3 and 12 lost *)

Definition demo_deal_shard (i : nat) : shard_row :=
  Shard "D1" ("0xp" +:+ pretty i) (Z.of_nat i)
        (@cid_of raw_ipfs (shard_at (shard_size (length demo_file)) demo_out i))
        (Some 2) None (Some (i <? DATA_SHARDS)%nat) true 0 None None.

Definition demo_spare : provider_row :=
  Provider "0xnew" "peer" None "us-east" 80 true (Some 0) None 0 (num_of_Z 100) (num_of_Z 0).

Definition demo_repair_world : world :=
  World (Db [demo_spare] [Pledge "0xnew" 1 100 0 0 0 100 true 0 None]
            [Deal "D1" "0xc" "file" (num_of_Z 1) 30 (num_of_Z 1) (num_of_Z 1) (num_of_Z 0) "active" false
               None None None 0 None None false]
            (map demo_deal_shard demo_survivors) []
            [Repair 7 "D1" "0xp3" 3 "cid" "pending" None None None 10 None None] [] [] [] [] [] [])
        None
        (list_to_map (map (λ i, let b := shard_at (shard_size (length demo_file)) demo_out i in
                                (@cid_of raw_ipfs b, b)) demo_survivors))
        1000 [] [] [] (true, true) true true (Schema true true true true).

Lemma repair_restores_shard_witness :
  let shard := shard_at (shard_size (length demo_file)) demo_out 3 in
  ∃ w', @repairShard raw_ipfs xor_codec in_order true true 7 "D1" "0xp3" 3 "cid" demo_repair_world
        = (Ok tt, w') ∧
    shards (w_db w') = shards (w_db demo_repair_world) ++ [@new_row raw_ipfs "D1" "0xnew" 3 shard 1000] ∧
    w_ipfs w' !! @cid_of raw_ipfs shard = Some shard ∧
    ∀ r, r ∈ repair_queue (w_db w') → r_id r = 7 → r_status r = "completed".
Proof.
  apply (@repair_restores_shard raw_ipfs xor_codec in_order raw_ipfs_laws true true 7 "D1" "0xp3" 3 "cid"
           demo_file demo_out demo_spare (Pledge "0xnew" 1 100 0 0 0 100 true 0 None) []).
  - by split.
  - by split_and!; vm_compute.
  - intros c i Hin. apply list_elem_of_In in Hin. vm_compute in Hin.
    repeat (destruct Hin as [[= <- <-]|Hin]; [by vm_compute|]). done.
  - apply (bool_decide_unpack _). by vm_compute.
  - apply (bool_decide_unpack _). by vm_compute.
  - vm_compute. lia.
  - by vm_compute.
  - vm_compute. lia.
  - by vm_compute.
  - done.
  - by vm_compute.
Defined.

Lemma repairs_placed_safely_witness :
  let w' := snd (@processRepairQueue raw_ipfs xor_codec in_order false true demo_repair_world) in
  spread (w_db w') ∧
  ∀ s, s ∈ shards (w_db w') → s ∉ shards (w_db demo_repair_world) →
       eligible (w_db demo_repair_world) (s_provider_address s).
Proof.
  apply (@repairs_placed_safely raw_ipfs xor_codec in_order in_order_laws false true demo_repair_world).
  apply (bool_decide_unpack _). by vm_compute.
Defined.

(** The node does not answer; the database does. *)
Definition demo_outage : world := with_faults [Some (Error "connect ECONNREFUSED")] demo_repair_world.

