(* ===== verification/Replication.v ===== *)
(** ReplicationOrchestrator: choice of the fifteen providers of a deal
    (src/incentive-layer/services/replication-orchestrator/src/index.ts).

    Query rows are JavaScript objects and [selected.includes(p)] compares them by
    identity, so a candidate carries its row number in the result set. *)

From S2P Require Import Prelude JsNum World.

Local Open Scope nat_scope.

Definition REQUIRED_SHARDS : nat := 15.
Definition MIN_REPUTATION : Z := 30.

Record candidate : Type := Candidate {
  c_ref : nat;
  c_address : string;
  c_peer_id : string;
  c_endpoint : option string;
  c_region : string;
  c_reputation_score : Z
}.

#[global] Instance candidate_eq_dec : EqDecision candidate.
Proof. solve_decision. Defined.

Record ProviderSelection : Type := MkSelection {
  sel_shardIndex : nat;
  sel_providerAddress : string;
  sel_peerId : string;
  sel_endpoint : option string;
  sel_region : string;
  sel_reputationScore : Z
}.

(** [selected.includes(p)] *)
Definition selected_includes (selected : list candidate) (p : candidate) : bool :=
  existsb (λ q, c_ref q =? c_ref p) selected.

(** [providers.find(p => p.region === region && !selected.includes(p))] *)
Definition find_in_region (providers selected : list candidate) (region : string) : option candidate :=
  find_first (λ p, bool_decide (c_region p = region) && negb (selected_includes selected p)) providers.

Definition region_count (regionCounts : gmap string nat) (r : string) : nat := default 0 (regionCounts !! r).

(** First pass: one provider per region, until [count] are selected. *)
Fixpoint first_pass (providers : list candidate) (count : nat) (regions : list string)
    (selected : list candidate) (regionCounts : gmap string nat)
    : list candidate * gmap string nat :=
  match regions with
  | [] => (selected, regionCounts)
  | region :: rest =>
      if count <=? length selected then (selected, regionCounts)
      else match find_in_region providers selected region with
           | Some provider =>
               first_pass providers count rest (selected ++ [provider]) (<[region := 1]> regionCounts)
           | None => first_pass providers count rest selected regionCounts
           end
  end.

(** The inner loop of the second pass: the first region, in the sorted order,
    that still has a provider. *)
Fixpoint pick_region (providers selected : list candidate) (sortedRegions : list string)
    : option (string * candidate) :=
  match sortedRegions with
  | [] => None
  | region :: rest =>
      match find_in_region providers selected region with
      | Some provider => Some (region, provider)
      | None => pick_region providers selected rest
      end
  end.

(** Second pass.  Every iteration selects a provider or stops, so [count]
    iterations are enough; [regions.sort] sorts the array in place. *)
Fixpoint second_pass (fuel : nat) (providers : list candidate) (count : nat) (regions : list string)
    (selected : list candidate) (regionCounts : gmap string nat) : list candidate :=
  match fuel with
  | O => selected
  | S fuel' =>
      if length selected <? count then
        let sortedRegions := order_by (λ r, Z.of_nat (region_count regionCounts r)) regions in
        match pick_region providers selected sortedRegions with
        | Some (region, provider) =>
            second_pass fuel' providers count sortedRegions (selected ++ [provider])
              (<[region := region_count regionCounts region + 1]> regionCounts)
        | None =>
            match find_first (λ p, negb (selected_includes selected p)) providers with
            | Some remaining =>
                second_pass fuel' providers count sortedRegions (selected ++ [remaining]) regionCounts
            | None => selected
            end
        end
      else selected
  end.

(** ** selectWithDiversity *)
Definition selectWithDiversity (providers : list candidate) (count : nat) : list candidate :=
  let regions := distinct (map c_region providers) in
  let '(selected, regionCounts) := first_pass providers count regions [] ∅ in
  take count (second_pass count providers count regions selected regionCounts).

Section Orchestrator.
  Context {random : Shuffle}.
(** The column [p.reput_score] the query names, if the table has it. *)
  Context (reput_score : option (provider_row → Z)).

Definition candidate_rows (score : provider_row → Z) (perShardSize : num) (d : db)
      : list (provider_row * pledge_row) :=
    order_by (λ r, (- p_reputation_score (fst r))%Z) (shuffle (
      p ← where_ (λ p, p_active p && (MIN_REPUTATION <=? score p)%Z) (providers d);
      cp ← where_ (λ cp, bool_decide (p_address p = pl_provider_address cp) && pl_active cp
                         && num_le perShardSize (num_of_Z (pl_capacity_gb cp - pl_utilization_gb cp)))
                  (pledges d);
      [(p, cp)])).

Definition to_candidate (i : nat) (r : provider_row * pledge_row) : candidate :=
    let p := fst r in
    Candidate i (p_address p) (p_peer_id p) (p_endpoint p) (p_region p) (p_reputation_score p).

(** ** selectProvidersForDeal *)
Definition selectProvidersForDeal (requiredCapacityGB : num) : M world (list ProviderSelection) :=
    try_catch
      (let encodedSize := num_mul requiredCapacityGB (num_lit 15 1) in
       let perShardSize := num_div encodedSize (num_of_Z (Z.of_nat REQUIRED_SHARDS)) in
       rows ← (match reput_score with
               | None => external ;; throw (Error "column p.reput_score does not exist")
               | Some score => select (candidate_rows score perShardSize)
               end);
       if length rows <? REQUIRED_SHARDS then
         throw (Error ("Insufficient providers: need " +:+ pretty REQUIRED_SHARDS
                       +:+ ", found " +:+ pretty (length rows)))
       else
         let selected := selectWithDiversity (imap to_candidate rows) REQUIRED_SHARDS in
         mret (imap (λ index p, MkSelection index (c_address p) (c_peer_id p) (c_endpoint p)
                                  (c_region p) (c_reputation_score p)) selected))
      (λ error, throw error).
End Orchestrator.

(** * Properties of the selection *)

Section Selection.
  Context (providers : list candidate) (Hrefs : NoDup (map c_ref providers)).
  Implicit Types sel : list candidate.

Definition rcount (r : string) sel : nat := length (where_ (λ p, bool_decide (c_region p = r)) sel).

(** No provider of the region is left. *)
Definition exhausted (r : string) sel : Prop := ∀ p, p ∈ providers → c_region p = r → p ∈ sel.

Definition balanced sel : Prop := ∀ a b, rcount a sel + 1 < rcount b sel → exhausted a sel.

Record sel_inv sel (counts : gmap string nat) : Prop := {
    inv_refs : NoDup (map c_ref sel);
    inv_sub : ∀ p, p ∈ sel → p ∈ providers;
    inv_counts : ∀ r, region_count counts r = rcount r sel;
    inv_balanced : balanced sel
  }.

Lemma ref_inj p q : p ∈ providers → q ∈ providers → c_ref p = c_ref q → p = q.
Proof using Hrefs.
    intros Hp Hq Heq. apply list_elem_of_lookup in Hp as [i Hi], Hq as [j Hj].
    assert (i = j) as ->; [|congruence].
    eapply (NoDup_lookup (map c_ref providers)); [done| |].
    - rewrite list_lookup_fmap, Hi. done.
    - rewrite list_lookup_fmap, Hj. by rewrite Heq.
  Qed.

Lemma includes_spec sel p :
    (∀ q, q ∈ sel → q ∈ providers) → p ∈ providers → selected_includes sel p = true ↔ p ∈ sel.
Proof using Hrefs.
    intros Hsub Hp. unfold selected_includes. rewrite existsb_exists. split.
    - intros (q & Hq & Heq). apply list_elem_of_In in Hq. apply Nat.eqb_eq in Heq.
      by rewrite <- (ref_inj q p (Hsub q Hq) Hp Heq).
    - intros Hin. exists p. split; [by apply list_elem_of_In | by apply Nat.eqb_eq].
  Qed.

Lemma find_in_region_Some sel counts r p :
    sel_inv sel counts → find_in_region providers sel r = Some p →
    p ∈ providers ∧ c_region p = r ∧ p ∉ sel.
Proof using Hrefs.
    intros [_ Hsub _ _] Hf. apply find_first_Some in Hf as [Hp Hc].
    rewrite andb_true_iff, bool_decide_eq_true, negb_true_iff in Hc. destruct Hc as [Hr Hni].
    split_and!; [done|done|]. intros Hin. apply (includes_spec sel p Hsub Hp) in Hin. congruence.
  Qed.

Lemma find_in_region_None sel counts r :
    sel_inv sel counts → find_in_region providers sel r = None → exhausted r sel.
Proof using Hrefs.
    intros [_ Hsub _ _] Hf p Hp Hr. unfold find_in_region in Hf. rewrite find_first_None in Hf.
    specialize (Hf p Hp). rewrite bool_decide_true in Hf by done. simpl in Hf.
    apply negb_false_iff in Hf. by apply includes_spec in Hf.
  Qed.

Lemma rcount_app r sel p :
    rcount r (sel ++ [p]) = rcount r sel + if bool_decide (c_region p = r) then 1 else 0.
Proof.
    unfold rcount. rewrite where_app, length_app. f_equal. unfold where_. simpl. by case_bool_decide.
  Qed.

Lemma exhausted_app r sel p : exhausted r sel → exhausted r (sel ++ [p]).
Proof. intros He q Hq Hr. apply elem_of_app. left. by apply He. Qed.

(** Adding an unselected provider keeps the invariant when every region with
      fewer providers selected is exhausted. *)
Lemma sel_inv_add sel counts p :
    sel_inv sel counts → p ∈ providers → p ∉ sel →
    (∀ a, rcount a sel < rcount (c_region p) sel → exhausted a sel) →
    sel_inv (sel ++ [p]) (<[c_region p := region_count counts (c_region p) + 1]> counts).
Proof using Hrefs.
    intros [Hnd Hsub Hcnt Hbal] Hp Hni Hless. split.
    - rewrite map_app. apply NoDup_app. split; [done|]. split; [|apply NoDup_singleton].
      intros x Hx Hx'. apply list_elem_of_singleton in Hx'. subst x.
      apply list_elem_of_fmap in Hx as (q & Heq & Hq).
      apply Hni. by rewrite (ref_inj p q Hp (Hsub q Hq) Heq).
    - intros q. rewrite elem_of_app, list_elem_of_singleton. intros [?| ->]; auto.
    - intros r. rewrite rcount_app. unfold region_count at 1. rewrite lookup_insert.
      case_decide; case_bool_decide; try done; subst; simpl; [by rewrite Hcnt|].
      rewrite Nat.add_0_r. apply Hcnt.
    - intros a b. rewrite !rcount_app. intros Hlt. apply exhausted_app.
      destruct (bool_decide (c_region p = a)) eqn:Ha, (bool_decide (c_region p = b)) eqn:Hb;
        try (apply (Hbal a b); lia).
      apply Hless. apply bool_decide_eq_true in Hb. rewrite Hb. lia.
  Qed.

Lemma second_pass_pick sel counts sorted r p :
    sel_inv sel counts → StronglySorted (le_by (λ r, Z.of_nat (region_count counts r))) sorted →
    (∀ q, q ∈ providers → c_region q ∈ sorted) →
    pick_region providers sel sorted = Some (r, p) →
    p ∈ providers ∧ (p ∉ sel) ∧ c_region p = r ∧
    ∀ a, rcount a sel < rcount r sel → exhausted a sel.
Proof using Hrefs.
    intros Hinv Hs Hall Hpick.
    assert (Hgen : p ∈ providers ∧ (p ∉ sel) ∧ c_region p = r ∧
              ∀ a, a ∈ sorted → rcount a sel < rcount r sel → exhausted a sel).
    { clear Hall. induction sorted as [|a sorted IH]; [done|]. simpl in Hpick.
      apply StronglySorted_cons in Hs as [Ha Hs].
      destruct (find_in_region providers sel a) as [q|] eqn:Hf.
      - injection Hpick as -> ->. destruct (find_in_region_Some _ _ _ _ Hinv Hf) as (H1 & H2 & H3).
        split_and!; try done. intros b. rewrite elem_of_cons. intros [->|Hb] Hlt; [lia|].
        rewrite Forall_forall in Ha. specialize (Ha b Hb). unfold le_by in Ha.
        rewrite !(inv_counts _ _ Hinv) in Ha. lia.
      - destruct (IH Hs Hpick) as (H1 & H2 & H3 & H4). split_and!; try done.
        intros b. rewrite elem_of_cons. intros [->|Hb] Hlt; [|by apply H4].
        by apply (find_in_region_None _ _ _ Hinv). }
    destruct Hgen as (H1 & H2 & H3 & H4). split_and!; try done.
    intros a Hlt q Hq Hr. apply (H4 a); [|done|done|done]. rewrite <- Hr. by apply Hall.
  Qed.

Lemma pick_region_None sel counts sorted :
    sel_inv sel counts → pick_region providers sel sorted = None →
    ∀ r, r ∈ sorted → exhausted r sel.
Proof using Hrefs.
    intros Hinv. induction sorted as [|a sorted IH]; [intros _ r Hr; by apply elem_of_nil in Hr|].
    simpl. destruct (find_in_region providers sel a) eqn:Hf; [done|].
    intros Hp r. rewrite elem_of_cons. intros [->|Hr]; [by apply (find_in_region_None _ _ _ Hinv)|].
    by apply IH.
  Qed.

Lemma NoDup_of_refs sel : NoDup (map c_ref sel) → NoDup sel.
Proof. apply NoDup_fmap_1. Qed.

Lemma sel_length sel counts : sel_inv sel counts → length sel ≤ length providers.
Proof.
    intros [Hnd Hsub _ _]. apply NoDup_of_refs in Hnd.
    apply submseteq_length, NoDup_submseteq; [done|]. intros p. apply Hsub.
  Qed.

Lemma sel_complete sel counts :
    sel_inv sel counts → (∀ p, p ∈ providers → p ∈ sel) → length sel = length providers.
Proof using Hrefs.
    intros [Hnd Hsub _ _] Hall. apply Permutation_length, NoDup_Permutation.
    - by apply NoDup_of_refs.
    - by apply NoDup_of_refs.
    - intros p. split; auto.
  Qed.

Lemma second_pass_spec fuel : ∀ count regions sel counts,
    sel_inv sel counts → (∀ q, q ∈ providers → c_region q ∈ regions) →
    length sel ≤ count → count ≤ length sel + fuel →
    let sel' := second_pass fuel providers count regions sel counts in
    (∃ counts', sel_inv sel' counts') ∧ sel `prefix_of` sel' ∧
    length sel' = Nat.min count (length providers).
Proof using Hrefs.
    induction fuel as [|fuel IH]; intros count regions sel counts Hinv Hall Hle Hfuel; simpl.
    { split; [by eexists|]. split; [done|]. pose proof (sel_length _ _ Hinv). lia. }
    destruct (length sel <? count) eqn:Hlt.
    2: { apply Nat.ltb_ge in Hlt. split; [by eexists|]. split; [done|].
         pose proof (sel_length _ _ Hinv). lia. }
    apply Nat.ltb_lt in Hlt. set (sorted := order_by _ regions).
    assert (Hall' : ∀ q, q ∈ providers → c_region q ∈ sorted).
    { intros q Hq. apply elem_of_order_by. by apply Hall. }
    destruct (pick_region providers sel sorted) as [[r p]|] eqn:Hpick.
    - destruct (second_pass_pick _ _ _ _ _ Hinv (Sorted_order_by _ _) Hall' Hpick)
        as (Hp & Hni & <- & Hless).
      specialize (IH count sorted (sel ++ [p]) _ (sel_inv_add _ _ _ Hinv Hp Hni Hless) Hall').
      rewrite length_app in IH. simpl in IH.
      destruct (IH ltac:(lia) ltac:(lia)) as (Hi & Hpre & Hlen). split_and!; [done| |done].
      etrans; [|exact Hpre]. by exists [p].
    - pose proof (pick_region_None _ _ _ Hinv Hpick) as Hex.
      destruct (find_first _ providers) as [q|] eqn:Hf.
      + exfalso. apply find_first_Some in Hf as [Hq Hnq]. apply negb_true_iff in Hnq.
        assert (Hin : q ∈ sel) by (apply (Hex (c_region q)); auto).
        apply (includes_spec sel q (inv_sub _ _ Hinv) Hq) in Hin. congruence.
      + split; [by eexists|]. split; [done|].
        assert (length sel = length providers); [|lia].
        apply (sel_complete _ _ Hinv). intros p Hp. by apply (Hex (c_region p)); auto.
  Qed.

(** ** The first pass *)
Lemma first_pass_spec count : ∀ regions sel counts,
    sel_inv sel counts → NoDup regions → (∀ r, rcount r sel ≤ 1) →
    (∀ r, r ∈ regions → rcount r sel = 0 ∧ ∃ p, p ∈ providers ∧ c_region p = r) →
    length sel ≤ count →
    let '(sel', counts') := first_pass providers count regions sel counts in
    sel_inv sel' counts' ∧ sel `prefix_of` sel' ∧
    length sel' = Nat.min count (length sel + length regions) ∧
    (length sel + length regions ≤ count → ∀ r, r ∈ regions → ∃ p, p ∈ sel' ∧ c_region p = r).
Proof using Hrefs.
    induction regions as [|r regions IH]; intros sel counts Hinv Hnd H1 Hreg Hle; simpl.
    { split_and!; [done|done|lia|]. intros _ r Hr. by apply elem_of_nil in Hr. }
    apply NoDup_cons in Hnd as [Hr Hnd].
    destruct (count <=? length sel) eqn:Hc.
    { apply Nat.leb_le in Hc. split_and!; [done|done|lia|lia]. }
    apply Nat.leb_gt in Hc. destruct (Hreg r ltac:(set_solver)) as [H0 (q & Hq & Hqr)].
    destruct (find_in_region providers sel r) as [p|] eqn:Hf.
    2: { exfalso. pose proof (find_in_region_None _ _ _ Hinv Hf q Hq Hqr) as Hin.
         unfold rcount in H0. apply length_zero_iff_nil in H0.
         assert (Hx : q ∈ where_ (λ p, bool_decide (c_region p = r)) sel)
           by (apply elem_of_where; by rewrite bool_decide_true).
         rewrite H0 in Hx. by apply elem_of_nil in Hx. }
    destruct (find_in_region_Some _ _ _ _ Hinv Hf) as (Hp & Hpr & Hni).
    assert (Hadd : sel_inv (sel ++ [p]) (<[r := 1]> counts)).
    { pose proof (sel_inv_add sel counts p Hinv Hp Hni) as Hadd.
      rewrite (inv_counts _ _ Hinv), Hpr, H0 in Hadd. apply Hadd. lia. }
    specialize (IH (sel ++ [p]) (<[r := 1]> counts) Hadd Hnd).
    destruct (first_pass providers count regions (sel ++ [p]) (<[r:=1]> counts)) as [sel' counts'].
    rewrite length_app in IH. simpl in IH. destruct IH as (Hi & Hpre & Hlen & Hcov); try lia.
    - intros a. rewrite rcount_app. case_bool_decide as Ha; [|rewrite Nat.add_0_r; apply H1].
      rewrite <- Ha, Hpr, H0. lia.
    - intros a Ha. destruct (Hreg a ltac:(set_solver)) as [Ha0 Hex]. split; [|done].
      rewrite rcount_app, Ha0, bool_decide_false; [done|]. rewrite Hpr. by intros ->.
    - split_and!; [done| |lia|].
      + etrans; [|exact Hpre]. by exists [p].
      + intros Hlen2 a. rewrite elem_of_cons. intros [->|Ha]; [|apply Hcov; [lia|done]].
        exists p. split; [|done]. eapply elem_of_prefix; [|exact Hpre]. set_solver.
  Qed.
End Selection.

(** The rows of a result set are pairwise different objects. *)
Lemma NoDup_row_refs (rows : list (provider_row * pledge_row)) : NoDup (map c_ref (imap to_candidate rows)).
Proof.
  assert (Heq : map c_ref (imap to_candidate rows) = seq 0 (length rows)).
  { apply list_eq. intros i. rewrite list_lookup_fmap, list_lookup_imap.
    destruct (rows !! i) as [r|] eqn:E; simpl.
    - symmetry. apply lookup_seq. split; [done|]. by apply lookup_lt_Some in E.
    - symmetry. apply lookup_seq_ge. by apply lookup_ge_None in E. }
  rewrite Heq. apply NoDup_seq.
Qed.

(** What the two passes together guarantee. *)
Lemma selection_core (providers : list candidate) (count : nat) :
  NoDup (map c_ref providers) →
  let selected := selectWithDiversity providers count in
  (∃ counts, sel_inv providers selected counts) ∧
  length selected = Nat.min count (length providers) ∧
  (length (distinct (map c_region providers)) ≤ count →
     ∀ p, p ∈ providers → ∃ q, q ∈ selected ∧ c_region q = c_region p).
Proof.
  intros Hrefs selected.
  assert (Hreg : ∀ p, p ∈ providers → c_region p ∈ distinct (map c_region providers)).
  { intros p Hp. apply elem_of_distinct, list_elem_of_fmap. by exists p. }
  pose proof (first_pass_spec providers Hrefs count (distinct (map c_region providers)) [] ∅) as H1.
  unfold selected, selectWithDiversity.
  destruct (first_pass _ _ _ _ _) as [sel counts].
  destruct H1 as (Hinv & _ & Hlen & Hcov).
  { split; [by constructor | | |]; [intros p Hp; by apply elem_of_nil in Hp|done|].
    intros a b. unfold rcount. simpl. lia. }
  { apply NoDup_distinct. }
  { intros r. unfold rcount. simpl. lia. }
  { intros r. rewrite elem_of_distinct, list_elem_of_fmap. intros (p & -> & Hp). eauto. }
  { simpl. lia. }
  destruct (second_pass_spec providers Hrefs count count (distinct (map c_region providers)) sel counts)
    as ([counts' Hinv'] & Hpre & Hlen2); [done|done|lia|lia|].
  rewrite take_ge by lia. split_and!; [by eexists|done|].
  intros Hc p Hp. destruct (Hcov Hc (c_region p) (Hreg p Hp)) as (q & Hq & Hqr).
  exists q. split; [|done]. by eapply elem_of_prefix.
Qed.

Lemma select_all (rows : list (provider_row * pledge_row)) :
  NoDup (map c_ref (imap to_candidate rows)) → REQUIRED_SHARDS ≤ length rows →
  let selected := selectWithDiversity (imap to_candidate rows) REQUIRED_SHARDS in
  length selected = REQUIRED_SHARDS ∧ ∀ p, p ∈ selected → p ∈ imap to_candidate rows.
Proof.
  intros Hrefs Hge selected.
  destruct (selection_core _ REQUIRED_SHARDS Hrefs) as ([counts [_ Hsub _ _]] & Hlen & _).
  split; [|done]. subst selected. rewrite Hlen, length_imap. lia.
Qed.

(** C21. Provider selection: from any result set, [selectWithDiversity] returns
    different rows of it, as many as asked for or all there are; every region is
    represented when there are slots for all regions; and the regions are balanced:
    one has at least two more providers than another only when the other has none
    left. *)
Theorem selectWithDiversity_correct (providers : list candidate) (count : nat) :
  NoDup (map c_ref providers) →
  let selected := selectWithDiversity providers count in
  NoDup (map c_ref selected) ∧
  (∀ p, p ∈ selected → p ∈ providers) ∧
  length selected = Nat.min count (length providers) ∧
  (length (distinct (map c_region providers)) ≤ count →
     ∀ p, p ∈ providers → ∃ q, q ∈ selected ∧ c_region q = c_region p) ∧
  (∀ a b, rcount a selected + 1 < rcount b selected → exhausted providers a selected).
Proof.
  intros Hrefs selected.
  destruct (selection_core providers count Hrefs) as ([counts [H1 H2 _ H4]] & Hlen & Hcov).
  by split_and!.
Qed.

Definition demo_candidates : list candidate :=
  imap (λ i r, Candidate i ("0x" +:+ pretty i) "peer" None r 60)
    ["us"; "us"; "us"; "us"; "eu"; "eu"; "asia"].

Lemma selectWithDiversity_correct_witness :
  let selected := selectWithDiversity demo_candidates 5 in
  length selected = 5 ∧ map c_region selected = ["us"; "eu"; "asia"; "us"; "eu"].
Proof.
  destruct (selectWithDiversity_correct demo_candidates 5) as (_ & _ & Hlen & _).
  { apply (bool_decide_unpack _). by vm_compute. }
  split; [exact Hlen|]. by vm_compute.
Defined.

Lemma selection_indices (selected : list candidate) :
  map sel_shardIndex (imap (λ index p, MkSelection index (c_address p) (c_peer_id p) (c_endpoint p)
                              (c_region p) (c_reputation_score p)) selected)
  = seq 0 (length selected).
Proof.
  apply list_eq. intros i. rewrite list_lookup_fmap, list_lookup_imap.
  destruct (selected !! i) as [p|] eqn:E; simpl; symmetry.
  - apply lookup_seq. apply lookup_lt_Some in E. lia.
  - apply lookup_seq_ge. by apply lookup_ge_None in E.
Qed.

(** Placement of a deal, end to end: when the query's column exists and the database
    answers, [selectProvidersForDeal] returns exactly fifteen selections with shard
    indices 0 to 14, or throws when fewer than fifteen rows qualify; with the schema
    of the repository, which has no [reput_score] column, it throws on every call. *)
Theorem selectProvidersForDeal_spec {random : Shuffle} score gb w :
  no_faults w →
  let perShardSize := num_div (num_mul gb (num_lit 15 1)) (num_of_Z (Z.of_nat REQUIRED_SHARDS)) in
  let rows := candidate_rows score perShardSize (w_db w) in
  (length rows < REQUIRED_SHARDS → ∃ e, selectProvidersForDeal (Some score) gb w = (Throw e, w)) ∧
  (REQUIRED_SHARDS ≤ length rows →
     ∃ sels, selectProvidersForDeal (Some score) gb w = (Ok sels, w) ∧
             map sel_shardIndex sels = seq 0 REQUIRED_SHARDS ∧
             ∀ s, s ∈ sels → ∃ p cp, (p, cp) ∈ rows ∧ sel_providerAddress s = p_address p) ∧
  (∃ e, selectProvidersForDeal None gb w = (Throw e, w)).
Proof.
  intros Hw perShardSize rows. unfold selectProvidersForDeal, try_catch. split_and!.
  - intros Hlt. rewrite (bind_ok _ _ _ _ _ (select_ok _ w Hw)). fold perShardSize rows.
    rewrite (proj2 (Nat.ltb_lt _ _) Hlt). by eexists.
  - intros Hge. rewrite (bind_ok _ _ _ _ _ (select_ok _ w Hw)). fold perShardSize rows.
    rewrite (proj2 (Nat.ltb_ge _ _) Hge). eexists. split; [reflexivity|].
    pose proof (NoDup_row_refs rows) as Hrefs.
    destruct (select_all rows Hrefs Hge) as [Hlen Hsub].
    set (selected := selectWithDiversity _ _) in *. split.
    + by rewrite selection_indices, Hlen.
    + intros s Hs. apply list_elem_of_lookup in Hs as [i Hi]. rewrite list_lookup_imap in Hi.
      destruct (selected !! i) as [p|] eqn:E; [|done]. injection Hi as <-.
      apply list_elem_of_lookup_2 in E. apply Hsub in E.
      apply list_elem_of_lookup in E as [j Hj]. rewrite list_lookup_imap in Hj.
      destruct (rows !! j) as [[pr cp]|] eqn:Er; [|done]. injection Hj as <-.
      exists pr, cp. split; [by apply list_elem_of_lookup_2 in Er|done].
  - rewrite (bind_throw _ _ _ (Error "column p.reput_score does not exist") w); [by eexists|].
    by rewrite (bind_ok _ _ _ _ _ (external_ok w Hw)).
Qed.

Lemma selectProvidersForDeal_spec_witness :
  ∃ e, @selectProvidersForDeal in_order None (num_of_Z 1)
         (World empty_db None ∅ 0 [] [] [] (true, true) true false committed_schema)
       = (Throw e, World empty_db None ∅ 0 [] [] [] (true, true) true false committed_schema).
Proof.
  by apply (@selectProvidersForDeal_spec in_order p_reputation_score (num_of_Z 1)
           (World empty_db None ∅ 0 [] [] [] (true, true) true false committed_schema)).
Defined.
