(* ===== verification/RestApi.v ===== *)
(** The REST API: deals, providers, keys and the expiration job
    (src/incentive-layer/api/rest-api/src/server.ts).

    One definition per route handler.  A handler takes the fields of the request
    it reads and returns the response it sends; queries, IPFS calls and emits go
    through the shared world.  Handlers run one at a time.  The statements of the
    expiration job form a transaction only when the pool gives them one connection,
    which is a parameter. *)

From S2P Require Import Prelude JsNum World ShardManager.

Local Open Scope Z_scope.

#[global] Instance deal_row_eq_dec : EqDecision deal_row.
Proof. solve_decision. Defined.

(** * Responses *)

Record cleanup_row : Type := Cleanup {
  cl_shard_cid : string; cl_deal_id : string; cl_deal_status : string; cl_deleted_at : option Z }.

(** The one row of the statistics query; AVG as sum and count, NULL when there is no
    row. *)
Record stats_row : Type := Stats {
  st_active_deals : nat; st_total_deals : nat; st_deals_completed : nat; st_deals_failed : nat;
  st_active_providers : nat; st_total_providers : nat; st_active_shards : nat;
  st_total_capacity_gb : Z; st_total_capacity_all_gb : Z; st_total_utilization_gb : Z;
  st_avg_reputation : option (Z * nat); st_total_protocol_revenue : num; st_total_tokens_burned : Z }.

Inductive body : Type :=
| BStats (row : stats_row)
| BError (msg : string)
| BJson (j : json)
| BDeals (rows : list deal_row)
| BDeal (deal : deal_row) (shards : list (shard_row * provider_row))
| BProviders (rows : list provider_row)
| BProvider (p : provider_row) (pledges : list pledge_row) (deals : list deal_row)
| BEvents (rows : list event_row)
| BEvent (row : event_row)
| BCleanup (provider : string) (cleanup_count : nat) (rows : list cleanup_row)
| BFile (headers : list (string * string)) (content : bytes).

Record response : Type := Resp { r_code : Z; r_body : body }.

(** [res.status(code).json({ error: msg })] and [res.json(b)] *)
Definition fail (code : Z) (msg : string) : M world response := mret (Resp code (BError msg)).
Definition send (b : body) : M world response := mret (Resp 200 b).

(** A route body inside [try { ... } catch { res.status(500)... }]. *)
Definition route (m : M world response) : M world response :=
  try_catch m (λ error, fail 500 "Internal server error").

Definition same_text (a b : string) : bool := bool_decide (a = b).
Definition same_lower (a b : string) : bool := bool_decide (toLowerCase a = toLowerCase b).

(** * Queries *)

(** GET /api/deals *)
Definition listDeals (status client : option string) : M world response :=
  route
    (rows ← select (λ d, take 100 (order_by (λ r, - d_created_at r)
       (where_ (λ r, (negb (truthy status) || same_text (d_status r) (default "" status))
                     && (negb (truthy client) || same_text (d_client_address r) (default "" client)))
               (deals d))));
     send (BDeals rows)).

(** GET /api/deals/:id *)
Definition getDeal (dealId : string) : M world response :=
  route
    (rows ← select (λ d, where_ (λ r, same_text (d_deal_id r) dealId) (deals d));
     match rows with
     | [] => fail 404 "Deal not found"
     | deal :: _ =>
         shardRows ← select (λ d, order_by (λ r, s_shard_index (fst r))
           (s ← where_ (λ s, same_text (s_deal_id s) dealId) (shards d);
            p ← where_ (λ p, same_text (s_provider_address s) (p_address p)) (providers d);
            [(s, p)]));
         send (BDeal deal shardRows)
     end).

(** GET /api/providers.  A [min_reputation] that is not a number is rejected by
    the database. *)
Definition listProviders (active min_reputation : option string) : M world response :=
  route
    (let sel (min : option Z) := select (λ d, take 100 (order_by (λ p, - p_reputation_score p)
       (where_ (λ p, match active with
                     | Some a => Bool.eqb (p_active p) (same_text a "true")
                     | None => true
                     end
                     && match min with Some m => m <=? p_reputation_score p | None => true end)
               (providers d)))) in
     rows ← (if truthy min_reputation then
               match parseInt (default "" min_reputation) with
               | Some m => sel (Some m)
               | None => external ;; throw (Error "invalid input syntax for type integer: NaN")
               end
             else sel None);
     send (BProviders rows)).

(** [ORDER BY t DESC NULLS LAST], and [ORDER BY t DESC], which puts NULLs first. *)
Definition desc_nulls_last {A} (t : A → option Z) (rows : list A) : list A :=
  order_by (λ r, match t r with Some _ => 0 | None => 1 end) (order_by (λ r, - default 0 (t r)) rows).
Definition desc_nulls_first {A} (t : A → option Z) (rows : list A) : list A :=
  order_by (λ r, match t r with Some _ => 1 | None => 0 end) (order_by (λ r, - default 0 (t r)) rows).

(** GET /api/providers/:address *)
Definition getProvider (address : string) : M world response :=
  route
    (rows ← select (λ d, take 1 (desc_nulls_last p_last_heartbeat
       (where_ (λ p, same_lower (p_address p) address) (providers d))));
     match rows with
     | [] => fail 404 "Provider not found"
     | provider :: _ =>
         pledgeRows ← select (λ d, order_by (λ r, - pl_created_at r)
           (where_ (λ r, same_lower (pl_provider_address r) address) (pledges d)));
         dealRows ← select (λ d, take 20 (order_by (λ r, - d_created_at r)
           (distinct (r ← deals d;
                      s ← where_ (λ s, same_text (d_deal_id r) (s_deal_id s)
                                       && same_lower (s_provider_address s) address) (shards d);
                      [r]))));
         send (BProvider provider pledgeRows dealRows)
     end).

(** GET /api/events *)
Definition listEvents : M world response :=
  route (rows ← select (λ d, take 50 (order_by (λ r, - ev_created_at r) (protocol_events d)));
         send (BEvents rows)).

(** GET /api/stats *)
Definition sum_Z (xs : list Z) : Z := foldr Z.add 0 xs.
Definition recent (t : Z) (p : provider_row) : bool :=
  match p_last_heartbeat p with Some h => t - 45000 <? h | None => false end.
Definition with_status (st : string) (d : db) : list deal_row :=
  where_ (λ r, same_text (d_status r) st) (deals d).
Definition active_pledges (d : db) : list pledge_row := where_ pl_active (pledges d).

(** [LOWER(provider_address) IN (online) OR EXISTS (online)] *)
Definition counted_pledges (t : Z) (d : db) : list pledge_row :=
  where_ (λ pl, existsb (λ p, recent t p && same_lower (p_address p) (pl_provider_address pl)) (providers d)
                || existsb (recent t) (providers d)) (active_pledges d).

Definition stats_of (t : Z) (d : db) : stats_row := Stats
  (length (with_status "active" d)) (length (deals d))
  (length (with_status "completed" d)) (length (with_status "failed" d))
  (length (where_ (λ p, p_active p && recent t p) (providers d)))
  (length (remove_dups (map pl_provider_address (active_pledges d))))
  (length (where_ s_active (shards d)))
  (sum_Z (map pl_capacity_gb (counted_pledges t d)))
  (sum_Z (map pl_capacity_gb (active_pledges d)))
  (sum_Z (map pl_utilization_gb (active_pledges d)))
  (match where_ p_active (providers d) with
   | [] => None
   | rows => Some (sum_Z (map p_reputation_score rows), length rows)
   end)
  (foldr num_add (num_of_Z 0) (map d_protocol_fee (deals d)))
  (sum_Z (map sl_amount (slashing_events d))).

Definition getStats : M world response :=
  route (t ← now; row ← select (stats_of t); send (BStats row)).

(** GET /api/providers/:address/cleanup *)
Definition cleanup_rows (address : string) (d : db) : list cleanup_row :=
  desc_nulls_first cl_deleted_at
    (s ← where_ (λ s, same_lower (s_provider_address s) address && negb (s_active s)) (shards d);
     r ← where_ (λ r, same_text (s_deal_id s) (d_deal_id r)
                      && bool_decide (d_status r ∈ ["cancelled"; "completed"; "failed"])) (deals d);
     [Cleanup (s_shard_cid s) (s_deal_id s) (d_status r) (s_deleted_at s)]).

Definition getCleanup (address : string) : M world response :=
  route (rows ← select_api "s.deleted_at" (cleanup_rows address);
         send (BCleanup address (length rows) rows)).

(** GET /api/deals/:dealId/key *)
Definition getKey (dealId : string) : M world response :=
  route
    (rows ← select (λ d, where_ (λ r, same_text (d_deal_id r) dealId) (deals d));
     match rows with
     | [] => fail 404 "Deal not found"
     | deal :: _ =>
         if negb (d_is_encrypted deal) || negb (truthy (d_encrypted_key deal)) then
           send (BJson (JObj [("is_encrypted", JBool false)]))
         else
           let str (s : option string) := match s with Some s => JStr s | None => JNull end in
           send (BJson (JObj [("is_encrypted", JBool true);
                              ("encrypted_key", str (d_encrypted_key deal));
                              ("encryption_iv", str (d_encryption_iv deal));
                              ("encryption_auth_tag", str (d_encryption_auth_tag deal));
                              ("client_address", JStr (d_client_address deal))]))
     end).

(** * Events *)

(** [INSERT INTO protocol_events ... RETURNING *]: [created_at] defaults to NOW(). *)
Definition insert_event (event_type description : string) (data : json) : M world event_row :=
  t ← now;
  exec (λ d, set_protocol_events (protocol_events d ++ [Event event_type description data t]) d) ;;
  mret (Event event_type description data t).

Definition event_json (e : event_row) : json :=
  JObj [("event_type", JStr (ev_type e)); ("description", JStr (ev_description e));
        ("data", ev_data e); ("created_at", JInt (ev_created_at e))].

(** POST /api/events *)
Definition postEvent (event_type description : string) (data : json) : M world response :=
  route
    (row ← insert_event event_type description data;
     io_emit ToAll "protocol_event" (event_json row) ;;
     send (BEvent row)).

(** GET /api/detect-region; the answer of ip-api.com, or its failure. *)
Record ip_api_answer : Type := IpApi {
  ip_status : string; ip_message : string; ip_continentCode : string; ip_countryCode : string }.

Definition regionMap (code : string) : option string :=
  if same_text code "NA" then Some "na"
  else if same_text code "EU" then Some "eu"
  else if same_text code "AS" then Some "asia"
  else if same_text code "SA" then Some "sa"
  else if same_text code "OC" then Some "oc"
  else if same_text code "AF" then Some "af"
  else None.

Definition detectRegion (fetched : outcome ip_api_answer) : M world response :=
  try_catch
    (match fetched with
     | Throw e => throw e
     | Ok data =>
         if same_text (ip_status data) "fail" then
           send (BJson (JObj [("region", JStr "na"); ("detected", JBool false);
                              ("message", JStr (ip_message data))]))
         else
           let region := default "na" (regionMap (ip_continentCode data)) in
           send (BJson (JObj [("region", JStr region); ("detected", JBool true);
                              ("country", JStr (ip_countryCode data))]))
     end)
    (λ error, send (BJson (JObj [("region", JStr "na"); ("detected", JBool false)]))).

(** * Signed requests *)

Section Signed.
(** [ethers.verifyMessage(message, signature)]: the address that signed, or an
      exception. *)
  Context (verifyMessage : string → string → option string).

Definition verifySignature (message signature expectedAddress : string) : bool :=
    match verifyMessage message signature with
    | Some recovered => same_lower recovered expectedAddress
    | None => false
    end.

(** [INSERT INTO providers ... ON CONFLICT (address) DO UPDATE ...] *)
Definition heartbeat_upsert (provider_address : string) (t : Z) (d : db) : db :=
    let address := toLowerCase provider_address in
    if existsb (λ p, same_text (p_address p) address) (providers d) then
      set_providers (update_where (λ p, same_text (p_address p) address)
        (λ p, Provider (p_address p) "pending" (p_endpoint p) (p_region p) (p_reputation_score p)
                true (Some t) (p_last_proof_at p) (p_registered_at p) (p_pledged_capacity_gb p)
                (p_used_gb p)) (providers d)) d
    else
      set_providers (providers d ++
        [Provider address "pending" None "" 50 true (Some t) None t (num_of_Z 0) (num_of_Z 0)]) d.

Definition set_storage (provider_address : string) (pledged used : num) (d : db) : db :=
    set_providers (update_where (λ p, same_lower (p_address p) provider_address)
      (λ p, Provider (p_address p) (p_peer_id p) (p_endpoint p) (p_region p) (p_reputation_score p)
              (p_active p) (p_last_heartbeat p) (p_last_proof_at p) (p_registered_at p) pledged used)
      (providers d)) d.

(** POST /api/heartbeat; [storage] carries [pledged_capacity_gb] and [used_gb]. *)
Definition postHeartbeat (provider_address signature : option string)
      (storage : option (option num * option num)) : M world response :=
    route
      (if negb (truthy provider_address) || negb (truthy signature) then
         fail 400 "provider_address and signature required"
       else
         let address := default "" provider_address in
         if negb (verifySignature "Kyneto Provider Heartbeat" (default "" signature) address) then
           fail 401 "Invalid signature"
         else
           t ← now;
           exec (heartbeat_upsert address t) ;;
           (match storage with
            | Some (Some pledged, used) =>
                try_catch (exec (set_storage address pledged (num_or used (num_of_Z 0))))
                          (λ storageErr, mret tt)
            | _ => mret tt
            end) ;;
           t' ← now;
           io_emit ToAll "heartbeat" (JObj [("provider", JStr address); ("timestamp", JInt t')]) ;;
           send (BJson (JObj [("success", JBool true)]))).

Definition set_key (key iv tag dealId client : string) (d : db) : db :=
    set_deals (update_where (λ r, same_text (d_deal_id r) dealId && same_text (d_client_address r) client)
      (λ r, Deal (d_deal_id r) (d_client_address r) (d_file_cid r) (d_file_size_gb r)
              (d_duration_days r) (d_price_per_gb_month r) (d_total_cost r) (d_protocol_fee r)
              (d_status r) true (Some key) (Some iv) (Some tag) (d_created_at r)
              (d_completed_at r) (d_cancelled_at r) (d_payment_processed r)) (deals d)) d.

(** POST /api/deals/:dealId/key *)
Definition postKey (dealId : string)
      (encrypted_key encryption_iv encryption_auth_tag client_address signature : option string)
      : M world response :=
    route
      (if negb (truthy client_address) || negb (truthy signature) then
         fail 400 "client_address and signature required"
       else if negb (truthy encrypted_key) || negb (truthy encryption_iv)
               || negb (truthy encryption_auth_tag) then
         fail 400 "Missing required encryption fields"
       else if negb (verifySignature ("store-key-" +:+ dealId) (default "" signature)
                                     (default "" client_address)) then
         fail 401 "Invalid signature"
       else
         exec (set_key (default "" encrypted_key) (default "" encryption_iv)
                       (default "" encryption_auth_tag) dealId
                       (toLowerCase (default "" client_address))) ;;
         send (BJson (JObj [("message", JStr "Encryption key stored"); ("deal_id", JStr dealId)]))).

(** [UPDATE deals SET status = 'cancelled', cancelled_at = NOW() WHERE deal_id = $2] *)
Definition cancel_deal (dealId : string) (t : Z) (d : db) : db :=
    set_deals (update_where (λ r, same_text (d_deal_id r) dealId)
      (λ r, Deal (d_deal_id r) (d_client_address r) (d_file_cid r) (d_file_size_gb r)
              (d_duration_days r) (d_price_per_gb_month r) (d_total_cost r) (d_protocol_fee r)
              "cancelled" (d_is_encrypted r) (d_encrypted_key r) (d_encryption_iv r)
              (d_encryption_auth_tag r) (d_created_at r) (d_completed_at r) (Some t)
              (d_payment_processed r)) (deals d)) d.

Definition live_shard (dealId : string) (s : shard_row) : bool :=
    same_text (s_deal_id s) dealId && s_active s.

(** [UPDATE shards SET active = false, deleted_at = NOW() WHERE deal_id = $1 AND active = true] *)
Definition deactivate_shards (dealId : string) (t : Z) (d : db) : db :=
    set_shards (update_where (live_shard dealId)
      (λ s, Shard (s_deal_id s) (s_provider_address s) (s_shard_index s) (s_shard_cid s)
              (s_shard_size_bytes s) (s_size_bytes s) (s_is_data_shard s) false (s_created_at s)
              (s_lost_at s) (Some t)) (shards d)) d.

(** DELETE /api/deals/:id, after the checks *)
Definition cancel_body (dealId : string) : M world response :=
    t ← now;
    exec_api "cancelled_at" (cancel_deal dealId t) ;;
    rows ← select (λ d, where_ (live_shard dealId) (shards d));
    let shardCIDs := map s_shard_cid rows in
    let providerAddresses := distinct (map s_provider_address rows) in
    t' ← now;
    exec (deactivate_shards dealId t') ;;
    let n := pretty (length shardCIDs) in
    insert_event "DEAL_CANCELLED"
      ("Deal #" +:+ dealId +:+ " cancelled — " +:+ n +:+ " shards marked for cleanup")
      (JObj [("dealId", JStr dealId); ("shardCIDs", json_strs shardCIDs);
             ("providerAddresses", json_strs providerAddresses)]) ;;
    for_each providerAddresses (λ addr,
      io_emit (ToRoom ("provider-rpc:" +:+ toLowerCase addr)) "deal:cancelled"
        (JObj [("dealId", JStr dealId); ("shardCIDs", json_strs shardCIDs)])) ;;
    send (BJson (JObj [("success", JBool true);
      ("message", JStr ("Deal #" +:+ dealId +:+ " cancelled. " +:+ n
                        +:+ " shards queued for provider cleanup."));
      ("shards_deactivated", JInt (Z.of_nat (length shardCIDs)))])).

(** DELETE /api/deals/:id *)
Definition deleteDeal (dealId : string) (client_address signature : option string) : M world response :=
    route
      (rows ← select (λ d, where_ (λ r, same_text (d_deal_id r) dealId) (deals d));
       match rows with
       | [] => fail 404 "Deal not found"
       | deal :: _ =>
           if negb (same_text (d_status deal) "active")
              && negb (same_text (d_status deal) "in_grace_period") then
             fail 400 ("Deal is already " +:+ d_status deal)
           else if negb (truthy client_address) || negb (truthy signature) then
             fail 400 "client_address and signature required"
           else if negb (verifySignature ("cancel-deal-" +:+ dealId) (default "" signature)
                                         (d_client_address deal)) then
             fail 401 "Invalid signature"
           else cancel_body dealId
       end).
End Signed.

(** * Upload, creation and download *)

Section Files.
  Context {ipfs : Ipfs} {codec : RSCodec}.

(** [getIpfs()]: import the client on first use. *)
Definition getIpfs : M world unit :=
    loaded ← gets w_api_ipfs;
    if (loaded : bool) then mret tt
    else external ;; modify (with_api_ipfs true).

(** POST /api/upload; [file] is the temporary file multer stored. *)
Definition postUpload (file : option (bytes * string)) : M world response :=
    try_catch
      (match file with
       | None => fail 400 "No file provided"
       | Some (content, originalname) =>
           getIpfs ;;
           cid ← ipfs_add content;
           let size := Z.of_nat (length content) in
           send (BJson (JObj [("success", JBool true); ("cid", JStr cid); ("size", JInt size);
             ("sizeGB", JNum (num_div (num_of_Z size) (num_of_Z (1024 ^ 3))));
             ("filename", JStr originalname)]))
       end)
      (λ error, fail 500 "Failed to upload file to storage network").

(** The body of POST /api/deals/create. *)
Record create_request : Type := CreateReq {
    q_fileCID : option string;
    q_fileName : option string;
    q_sizeGB : option num;
    q_pricePerGBMonth : option num;
    q_durationDays : option num;
    q_clientAddress : option string;
    q_encrypted : bool
  }.

(** Step 1: shard identifiers and sizes; on any failure the file itself is
      the only shard. *)
Definition make_shards (fileCID : string) (sizeGB : option num)
      : M world (list string * list (option Z)) :=
    try_catch
      (getIpfs ;;
       chunks ← ipfs_cat fileCID;
       let fileData := concat chunks in
       external ;;
       let shardSize := shard_size (length fileData) in
       let contiguousBuffer := buf_copy fileData (buf_alloc (shardSize * TOTAL_SHARDS)%nat) 0 in
       let '(contiguousBuffer, encodeResult) :=
         rs_encode contiguousBuffer DATA_SHARDS PARITY_SHARDS in
       if negb (encodeResult =? 0) then
         throw (Error ("Reed-Solomon encoding failed with error code: " +:+ show_Z encodeResult))
       else
         let allShards := map (λ i, subarray contiguousBuffer (i * shardSize) ((i + 1) * shardSize))%nat
                              (seq 0 TOTAL_SHARDS) in
         shardCIDs ← map_each allShards ipfs_add;
         mret (shardCIDs, map (λ b, Some (Z.of_nat (length b))) allShards))
      (λ shardErr,
         let size := num_or sizeGB (num_lit 1 3) in
         let k := num_of_Z 1024 in
         mret ([fileCID], [num_ceil (num_mul (num_mul (num_mul size k) k) k)])).

(** Step 2: the online providers, best reputation first, one row per active
      pledge (one row without a pledge). *)
Definition online_providers (t : Z) (d : db) : list provider_row :=
    order_by (λ p, - p_reputation_score p)
      (p ← where_ (λ p, p_active p && match p_last_heartbeat p with
                                      | Some b => t - 90000 <? b
                                      | None => false
                                      end) (providers d);
       match where_ (λ cp, same_lower (p_address p) (pl_provider_address cp) && pl_active cp)
                    (pledges d) with
       | [] => [p]
       | cps => map (λ _, p) cps
       end).

Definition select_online : M world (list provider_row) :=
    try_catch (t ← now; select (online_providers t)) (λ provErr, mret []).

(** Round-robin: the provider of the [i]-th shard. *)
Definition assigned_provider (selectedProviders : list provider_row) (clientAddress : string)
      (i : nat) : string :=
    if (0 <? length selectedProviders)%nat then
      default "" (p_address <$> selectedProviders !! (i mod length selectedProviders)%nat)
    else clientAddress.

(** An integer column rejects a value that is not an integer. *)
Definition int_param (x : option Z) : M world Z :=
    match x with
    | Some z => mret z
    | None => throw (Error "invalid input syntax for type integer")
    end.

Definition insert_shard (dealId : string) (i : nat) (cid : string) (size : option Z)
      (provider : string) : M world unit :=
    size ← int_param size;
    t ← now;
    add_shard (Shard dealId (toLowerCase provider) (Z.of_nat i) cid (Some size) None
                 (Some (i <? DATA_SHARDS)%nat) true t None None).

(** The shards of which [p] is told. *)
Definition assigned_to (selectedProviders : list provider_row) (shardCIDs : list string)
      (p : provider_row) : list string :=
    map snd (where_ (λ x,
      match selectedProviders !! (fst x mod length selectedProviders)%nat with
      | Some assignedTo => same_lower (p_address assignedTo) (p_address p)
      | None => false
      end) (imap pair shardCIDs)).

(** POST /api/deals/create; [nonce] is [crypto.randomBytes(4).toString('hex')]. *)
Definition createDeal (nonce : string) (q : create_request) : M world response :=
    try_catch
      (if negb (truthy (q_fileCID q)) || negb (truthy (q_clientAddress q))
          || match q_sizeGB q with Some x => num_falsy x | None => true end then
         fail 400 "Missing required fields: fileCID, clientAddress, sizeGB"
       else
         let fileCID := default "" (q_fileCID q) in
         let clientAddress := default "" (q_clientAddress q) in
         let sizeGB := num_or (q_sizeGB q) (num_of_Z 0) in
         coded ← make_shards fileCID (q_sizeGB q);
         let '(shardCIDs, shardSizes) := coded in
         selectedProviders ← select_online;
         t ← now;
         let dealId := "D-" +:+ show_Z t +:+ "-" +:+ nonce in
         let duration := num_or (q_durationDays q) (num_of_Z 30) in
         let price := num_or (q_pricePerGBMonth q) (num_lit 1 2) in
         let totalMonths := num_max (num_of_Z 1) (num_ceil_num (num_div duration (num_of_Z 30))) in
         let storageCost := num_mul (num_mul (num_or (q_sizeGB q) (num_lit 1 3)) price) totalMonths in
         let protocolFee := num_mul storageCost (num_lit 3 2) in
         days ← int_param (num_to_Z duration);
         require_column sc_api_columns "duration_days of relation deals" ;;
         exec (λ d, set_deals (deals d ++
           [Deal dealId (toLowerCase clientAddress) fileCID sizeGB days price storageCost protocolFee
                 "active" true None None None t None None false]) d) ;;
         for_each (imap pair (zip shardCIDs shardSizes)) (λ '(i, (cid, size)),
           insert_shard dealId i cid size (assigned_provider selectedProviders clientAddress i)) ;;
         let shardCount := Z.of_nat (length shardCIDs) in
         let name := if truthy (q_fileName q) then default "" (q_fileName q) else "file" in
         insert_event "DEAL_CREATED"
           ("Deal " +:+ dealId +:+ " created: " +:+ name +:+ " (" +:+ show_Z shardCount +:+ " shards)")
           (JObj [("dealId", JStr dealId); ("fileCID", JStr fileCID); ("shardCount", JInt shardCount);
                  ("providers", JInt (Z.of_nat (length selectedProviders)));
                  ("encrypted", JBool (q_encrypted q))]) ;;
         t' ← now;
         io_emit ToAll "protocol_event"
           (JObj [("event_type", JStr "DEAL_CREATED");
                  ("description", JStr ("New storage deal: " +:+
                     if truthy (q_fileName q) then default "" (q_fileName q) else dealId));
                  ("data", JObj [("dealId", JStr dealId); ("fileCID", JStr fileCID);
                                 ("shardCount", JInt shardCount)]);
                  ("created_at", JInt t')]) ;;
         for_each selectedProviders (λ provider,
           io_emit (ToRoom ("provider-rpc:" +:+ toLowerCase (p_address provider))) "shard:assigned"
             (JObj [("dealId", JStr dealId);
                    ("shardCIDs", json_strs (assigned_to selectedProviders shardCIDs provider))])) ;;
         send (BJson (JObj [("success", JBool true); ("dealId", JStr dealId); ("fileCID", JStr fileCID);
           ("shardCount", JInt shardCount); ("shardCIDs", json_strs shardCIDs);
           ("providerCount", JInt (Z.of_nat (length selectedProviders)));
           ("providers", JArr (map (λ p, JObj [("address", JStr (p_address p));
                                               ("region", JStr (p_region p))]) selectedProviders));
           ("totalCost", JNum (num_add storageCost protocolFee)); ("protocolFee", JNum protocolFee);
           ("degradedMode", JBool (length selectedProviders <? TOTAL_SHARDS)%nat)])))
      (λ error, fail 500 ("Failed to create deal: " +:+ err_message error)).

(** GET /api/deals/:id/download *)
Definition cat_file (cid : string) : M world bytes :=
    chunks ← ipfs_cat cid; mret (concat chunks).

Definition file_headers (deal : deal_row) : list (string * string) :=
    [("Content-Type", "application/octet-stream");
     ("Content-Disposition", "attachment; filename=" +:+ dq +:+ d_file_cid deal +:+ dq);
     ("X-File-CID", d_file_cid deal)].

Definition data_shards (dealId : string) (d : db) : list shard_row :=
    order_by s_shard_index
      (where_ (λ s, live_shard dealId s && bool_decide (s_is_data_shard s = Some true)) (shards d)).

Definition downloadDeal (dealId : string) : M world response :=
    try_catch
      (rows ← select (λ d, where_ (λ r, same_text (d_deal_id r) dealId) (deals d));
       match rows with
       | [] => fail 404 "Deal not found"
       | deal :: _ =>
           direct ← try_catch
             (getIpfs ;; fileData ← cat_file (d_file_cid deal);
              mret (Some (Resp 200 (BFile (file_headers deal ++
                [("X-Encrypted", if d_is_encrypted deal then "true" else "false")]) fileData))))
             (λ ipfsErr, mret None);
           match direct with
           | Some res => mret res
           | None =>
               shardRows ← select (data_shards dealId);
               if (length shardRows =? 0)%nat then fail 404 "No active shards found for this deal"
               else
                 getIpfs ;;
                 dataShardBuffers ← map_each shardRows (λ s, cat_file (s_shard_cid s));
                 send (BFile (file_headers deal ++ [("X-Reconstructed", "true")])
                             (concat dataShardBuffers))
           end
       end)
      (λ error, fail 500 "Failed to download file").
End Files.

(** * The expiration job *)

Definition complete_deal (dealId : string) (t : Z) (d : db) : db :=
  set_deals (update_where (λ r, same_text (d_deal_id r) dealId)
    (λ r, Deal (d_deal_id r) (d_client_address r) (d_file_cid r) (d_file_size_gb r)
            (d_duration_days r) (d_price_per_gb_month r) (d_total_cost r) (d_protocol_fee r)
            "completed" (d_is_encrypted r) (d_encrypted_key r) (d_encryption_iv r)
            (d_encryption_auth_tag r) (d_created_at r) (Some t) (d_cancelled_at r)
            (d_payment_processed r)) (deals d)) d.

Definition MS_PER_DAY : Z := 86400000.

Definition expired_deals (t : Z) (d : db) : list deal_row :=
  where_ (λ r, same_text (d_status r) "active"
               && (d_created_at r + d_duration_days r * MS_PER_DAY <? t)) (deals d).

(** One expired deal.  BEGIN, the statements and COMMIT go through the pool: they form
    a transaction when the pool hands out one connection for all of them, and are
    separate statements otherwise.  What a transaction left open on another
    connection does to later statements there is not modelled. *)
Definition expire_deal (one_connection : bool) (dealId : string) : M world unit :=
  try_catch
    ((if one_connection then begin_txn else query) ;;
     t ← now;
     exec (complete_deal dealId t) ;;
     exec (deactivate_shards dealId t) ;;
     insert_event "DEAL_COMPLETED" ("Deal " +:+ dealId +:+ " automatically completed (expired)")
       (JObj [("dealId", JStr dealId)]) ;;
     (if one_connection then commit_txn else query) ;;
     io_emit ToAll "deal:cancelled" (JObj [("dealId", JStr dealId)]))
    (λ innerErr, if one_connection then rollback_txn else try_catch query (λ _, mret tt)).

(** The cron callback, every five minutes. *)
Definition expirationCheck (one_connection : bool) : M world unit :=
  try_catch
    (t ← now;
     rows ← select_api "duration_days" (expired_deals t);
     for_each rows (λ row, expire_deal one_connection (d_deal_id row)))
    (λ err, mret tt).

(** * Properties *)

(** The capacity online is all or nothing: one provider that sent a heartbeat makes the
    capacity of every active pledge count, those of silent providers included. *)
Theorem capacity_all_or_nothing t d :
  st_total_capacity_gb (stats_of t d) =
    if existsb (recent t) (providers d) then st_total_capacity_all_gb (stats_of t d) else 0.
Proof.
  simpl. unfold counted_pledges. destruct (existsb (recent t) (providers d)) eqn:E.
  - f_equal. f_equal. unfold where_. induction (active_pledges d) as [|pl pls IH]; [done|]. simpl.
    rewrite orb_true_r. by f_equal.
  - assert (∀ pl, existsb (λ p, recent t p && same_lower (p_address p) (pl_provider_address pl)) (providers d) = false)
      as Hno.
    { intros pl. apply not_true_iff_false. intros Hex. apply existsb_exists in Hex as (p & Hp & [Hr _]%andb_prop).
      assert (existsb (recent t) (providers d) = true) by (apply existsb_exists; eauto). congruence. }
    unfold where_. induction (active_pledges d) as [|pl pls IH]; [done|]. simpl. by rewrite Hno.
Qed.

(** ** Closed deals hold no storage *)

Definition terminal (status : string) : Prop := status ∈ ["cancelled"; "completed"; "failed"].

(** A deal in a terminal state has no active shard. *)
Definition closed (d : db) : Prop :=
  ∀ r s, r ∈ deals d → terminal (d_status r) → s ∈ shards d → s_deal_id s = d_deal_id r →
         s_active s = false.

Lemma closed_deactivate dealId t d : closed d → closed (deactivate_shards dealId t d).
Proof.
  intros Hc r s Hr Ht Hs Hid. simpl in *. apply elem_of_update_where in Hs as (s0 & Hs0 & ->).
  destruct (live_shard dealId s0); [done|]. by apply (Hc r s0).
Qed.

(** Giving a deal any status is safe once its shards are deactivated. *)
Lemma closed_close_deal dealId t' (u : deal_row → deal_row) d :
  (∀ r, d_deal_id (u r) = d_deal_id r) → closed d →
  closed (deactivate_shards dealId t'
    (set_deals (update_where (λ r, same_text (d_deal_id r) dealId) u (deals d)) d)).
Proof.
  intros Hu Hc r s Hr Ht Hs Hid. simpl in *.
  apply elem_of_update_where in Hs as (s0 & Hs0 & ->).
  destruct (live_shard dealId s0) eqn:El; [done|].
  apply elem_of_update_where in Hr as (r0 & Hr0 & ->).
  unfold same_text in *. case_bool_decide as Hd.
  - rewrite Hu in Hid. unfold live_shard, same_text in El.
    rewrite bool_decide_true in El by congruence. done.
  - by apply (Hc r0 s0).
Qed.

(** What one expired deal becomes. *)
Definition expire_db (dealId : string) (t : Z) (d : db) : db :=
  let d := deactivate_shards dealId t (complete_deal dealId t d) in
  set_protocol_events (protocol_events d ++
    [Event "DEAL_COMPLETED" ("Deal " +:+ dealId +:+ " automatically completed (expired)")
           (JObj [("dealId", JStr dealId)]) t]) d.

(** Atomicity of the transaction: on one connection all of it or nothing happens,
    whatever fails. *)
Lemma expire_deal_atomic dealId w :
  w_txn w = None →
  let '(r, w') := expire_deal true dealId w in
  r = Ok tt ∧ w_txn w' = None ∧ w_now w' = w_now w ∧
  (w_db w' = w_db w ∨ w_db w' = expire_db dealId (w_now w) (w_db w)).
Proof.
  intros Ht. unfold expire_deal, rollback_txn, begin_txn, commit_txn, insert_event, exec, now, io_emit.
  running. repeat (query_step; [|by rewrite ?Ht; auto]). rewrite ?Ht. by auto.
Qed.

Lemma expire_deal_run one_connection dealId w :
  db_answers w → w_txn w = None →
  ∃ w', expire_deal one_connection dealId w = (Ok tt, w') ∧ db_answers w' ∧ w_txn w' = None ∧
        w_now w' = w_now w ∧ w_db w' = expire_db dealId (w_now w) (w_db w).
Proof.
  intros Hw Ht. unfold expire_deal, begin_txn, commit_txn, insert_event, exec, now, io_emit.
  destruct one_connection; running; rewrite ?query_up by done; simpl;
    rewrite ?query_up by done; eexists; by split.
Qed.

Lemma closed_expire dealId t d : closed d → closed (expire_db dealId t d).
Proof.
  intros Hc. unfold expire_db, complete_deal.
  change (closed (deactivate_shards dealId t (complete_deal dealId t d))).
  by apply closed_close_deal.
Qed.

(** The invariant between the steps of the backend: no transaction is open. *)
Definition settled_world (w : world) : Prop := w_txn w = None ∧ closed (w_db w).

Lemma settled_faults x fs w : w_faults w = x :: fs → settled_world w → settled_world (with_faults fs w).
Proof. done. Qed.

Lemma expirationCheck_closed : preserves settled_world (expirationCheck true).
Proof.
  unfold expirationCheck. apply preserves_try_catch; [|intros; apply preserves_ret].
  apply preserves_bind; [apply preserves_now|intros t].
  apply preserves_bind; [by apply preserves_select_api|intros rows].
  apply preserves_for_each. intros r w [Ht Hc].
  pose proof (expire_deal_atomic (d_deal_id r) w Ht) as He.
  destruct (expire_deal true (d_deal_id r) w) as [res w']. destruct He as (_ & Ht' & _ & Hdb).
  simpl. split; [done|]. destruct Hdb as [-> | ->]; [done|by apply closed_expire].
Qed.

(** On several connections the statements need the database to answer. *)
Lemma expirationCheck_answered one_connection :
  preserves (λ w, db_answers w ∧ settled_world w) (expirationCheck one_connection).
Proof.
  assert (∀ x fs w, w_faults w = x :: fs → db_answers w ∧ settled_world w →
            db_answers (with_faults fs w) ∧ settled_world (with_faults fs w)) as Hf.
  { intros x fs w Hx [[Hup|Hno] Hs]; [|congruence]. split; [by left|done]. }
  unfold expirationCheck. apply preserves_try_catch; [|intros; apply preserves_ret].
  apply preserves_bind; [apply preserves_now|intros t].
  apply preserves_bind; [by apply preserves_select_api|intros rows].
  apply preserves_for_each. intros r w [Hw [Ht Hc]].
  destruct (expire_deal_run one_connection (d_deal_id r) w Hw Ht) as (w' & -> & Hw' & Ht' & _ & Hdb).
  simpl. split; [done|]. split; [done|]. rewrite Hdb. by apply closed_expire.
Qed.

(** ** Handlers that keep the invariant under every failure *)

Lemma settled_db (f : db → db) w :
  deals (f (w_db w)) = deals (w_db w) → shards (f (w_db w)) = shards (w_db w) →
  settled_world w → settled_world (with_db f w).
Proof. intros Hd Hs [Ht Hc]. split; [done|]. unfold closed in *. simpl. by rewrite Hd, Hs. Qed.

Lemma settled_set_key key iv tag dealId client w :
  settled_world w → settled_world (with_db (set_key key iv tag dealId client) w).
Proof.
  intros [Ht Hc]. split; [done|]. intros r s Hr Hter Hs Hid. simpl in *.
  apply elem_of_update_where in Hr as (r0 & Hr0 & ->).
  apply (Hc r0 s); [done| |done|]; by destruct (_ && _).
Qed.

Lemma insert_event_closed ty desc data : preserves settled_world (insert_event ty desc data).
Proof.
  unfold insert_event, now. preserve.
Qed.

Lemma postKey_closed verifyMessage dealId key iv tag client sig :
  preserves settled_world (postKey verifyMessage dealId key iv tag client sig).
Proof.
  unfold postKey, route, fail, send. preserve.
  apply preserves_exec; [done|]. intros w. apply settled_set_key.
Qed.

Lemma heartbeat_upsert_tables address t d :
  deals (heartbeat_upsert address t d) = deals d ∧ shards (heartbeat_upsert address t d) = shards d.
Proof. unfold heartbeat_upsert. by destruct (existsb _ _). Qed.

Lemma postHeartbeat_closed verifyMessage address sig storage :
  preserves settled_world (postHeartbeat verifyMessage address sig storage).
Proof.
  unfold postHeartbeat, route, fail, send, now, io_emit. preserve.
  all: try (apply preserves_exec; [done|]; intros w Hw; apply settled_db; [..|done];
            first [done | apply heartbeat_upsert_tables]).
  all: done.
Qed.

Lemma postEvent_closed ty desc data : preserves settled_world (postEvent ty desc data).
Proof.
  unfold postEvent, route, fail, send, io_emit. preserve.
  apply insert_event_closed.
Qed.

Section CreateClosed.
  Context {ipfs : Ipfs} {codec : RSCodec} (t0 : Z) (nonce : string).

Definition created_id : string := "D-" +:+ show_Z t0 +:+ "-" +:+ nonce.

(** No closed deal carries the new identifier. *)
Definition creating (w : world) : Prop :=
    w_now w = t0 ∧ settled_world w ∧
    ∀ r, r ∈ deals (w_db w) → d_deal_id r = created_id → ¬ terminal (d_status r).

Lemma creating_deal row w :
    creating w → d_deal_id row = created_id → d_status row = "active" →
    creating (with_db (λ d, set_deals (deals d ++ [row]) d) w).
Proof.
    intros (Hn & [Ht Hc] & Hid) Hrow Hst.
    assert (Hact : ¬ terminal (d_status row)) by (rewrite Hst; unfold terminal; set_solver).
    split; [done|]. split; [split; [done|]|].
    - intros r s. simpl. rewrite elem_of_app, list_elem_of_singleton. intros [Hr| ->]; [apply Hc; done|done].
    - intros r. simpl. rewrite elem_of_app, list_elem_of_singleton. intros [Hr| ->]; [by apply Hid|done].
  Qed.

Lemma creating_shard row w :
    creating w → s_deal_id row = created_id →
    creating (with_db (λ d, set_shards (shards d ++ [row]) d) w).
Proof.
    intros (Hn & [Ht Hc] & Hid) Hrow. split; [done|]. split; [split; [done|]|done].
    intros r s Hr Hter. simpl. rewrite elem_of_app, list_elem_of_singleton.
    intros [Hs| ->]; [by apply Hc|]. intros Heq. exfalso.
    apply (Hid r Hr); [congruence|done].
  Qed.

Lemma make_shards_creating cid size : preserves creating (make_shards cid size).
Proof.
    unfold make_shards, getIpfs. preserve.
  Qed.

Lemma createDeal_creating q : preserves creating (createDeal nonce q).
Proof.
    unfold createDeal, fail, send. apply preserves_try_catch; [|intros; apply preserves_ret].
    destruct (_ || _); [apply preserves_ret|].
    apply preserves_bind; [apply make_shards_creating|intros [cids sizes]].
    apply preserves_bind; [unfold select_online, now; preserve|intros sel].
    apply preserves_now_bind. intros w0 (Hn & _). rewrite Hn. fold created_id.
    apply preserves_bind; [unfold int_param; preserve|intros days].
    apply preserves_bind; [apply preserves_require_column|intros _]. apply preserves_bind.
    { apply preserves_exec; [done|]. intros w Hw. by apply creating_deal. }
    intros _. apply preserves_bind; [apply preserves_for_each; intros [i [cid size]]|intros _].
    { unfold insert_shard, int_param, now. preserve.
      apply preserves_add_shard; [done|]. intros w Hw _. by apply creating_shard. }
    unfold insert_event, now, io_emit. preserve; try done.
  Qed.
End CreateClosed.

(** ** Who may change what *)

Lemma same_lower_spec a b : same_lower a b = true ↔ toLowerCase a = toLowerCase b.
Proof. unfold same_lower. apply bool_decide_eq_true. Qed.

Lemma verifySignature_signed verifyMessage msg sig addr :
  verifySignature verifyMessage msg sig addr = true ↔
  ∃ signer, verifyMessage msg sig = Some signer ∧ toLowerCase signer = toLowerCase addr.
Proof.
  unfold verifySignature. destruct (verifyMessage msg sig) as [a|]; [|naive_solver].
  rewrite same_lower_spec. naive_solver.
Qed.

(** C17. Only the owner cancels: whatever fails, DELETE /api/deals/:id changes the
    database only when the deal was active or in its grace period and the request
    carries a signature of the cancellation message by the deal's own client. *)
Theorem cancel_requires_owner verifyMessage dealId client sig w :
  w_db (snd (deleteDeal verifyMessage dealId client sig w)) ≠ w_db w →
  ∃ deal signer, deal ∈ deals (w_db w) ∧ d_deal_id deal = dealId ∧
    d_status deal ∈ ["active"; "in_grace_period"] ∧
    verifyMessage ("cancel-deal-" +:+ dealId) (default "" sig) = Some signer ∧
    toLowerCase signer = toLowerCase (d_client_address deal).
Proof.
  unfold deleteDeal, route, select, fail, send. running. query_step; [|done].
  destruct (where_ _ (deals (w_db w))) as [|deal rows] eqn:Hrows; [done|].
  assert (Hin : deal ∈ where_ (λ r, same_text (d_deal_id r) dealId) (deals (w_db w)))
    by (rewrite Hrows; set_solver).
  apply elem_of_where in Hin as [Hin Hid]. apply bool_decide_eq_true in Hid.
  destruct (negb (same_text _ "active") && _) eqn:Hst; [done|].
  destruct (_ || _); [done|].
  destruct (verifySignature _ _ _ _) eqn:Hsig; [|done]. intros _.
  apply verifySignature_signed in Hsig as (signer & Hv & Hl).
  exists deal, signer. split_and!; try done.
  apply andb_false_iff in Hst. rewrite !negb_false_iff in Hst. unfold same_text in Hst.
  rewrite !bool_decide_eq_true in Hst. set_solver.
Qed.

(** Only the owner stores a key: a deal row that POST /api/deals/:dealId/key
    changes is the addressed deal, and its client address is the lower-case address
    of a signer of the key message. *)
Theorem store_key_requires_owner verifyMessage dealId key iv tag client sig w r :
  r ∈ deals (w_db (snd (postKey verifyMessage dealId key iv tag client sig w))) →
  r ∉ deals (w_db w) →
  d_deal_id r = dealId ∧
  ∃ signer, verifyMessage ("store-key-" +:+ dealId) (default "" sig) = Some signer ∧
            d_client_address r = toLowerCase signer.
Proof.
  unfold postKey, route, fail, send, exec. running.
  destruct (negb (truthy client) || _); [done|]. destruct (negb (truthy key) || _ || _); [done|].
  destruct (verifySignature _ _ _ _) eqn:Hsig; simpl; [|done]. query_step; [|done].
  apply verifySignature_signed in Hsig as (signer & Hv & Hl).
  rewrite elem_of_update_where. intros (r0 & Hr0 & ->).
  destruct (same_text (d_deal_id r0) dealId && _) eqn:E; [|done]. intros _.
  apply andb_true_iff in E as [E1 E2]. unfold same_text in *.
  rewrite bool_decide_eq_true in E1, E2. simpl. split; [done|].
  exists signer. split; [done|]. rewrite E2. congruence.
Qed.

(** ** Keys *)

(** Key round trip: once the owner has stored a wrapped key for the deal, reading
    the deal's key returns exactly what was stored. *)
Theorem key_roundtrip verifyMessage dealId key iv tag client sig signer deal w :
  no_faults w →
  where_ (λ r, same_text (d_deal_id r) dealId) (deals (w_db w)) = [deal] →
  key ≠ "" → iv ≠ "" → tag ≠ "" → client ≠ "" → sig ≠ "" →
  verifyMessage ("store-key-" +:+ dealId) sig = Some signer →
  toLowerCase signer = toLowerCase client → d_client_address deal = toLowerCase client →
  let w1 := snd (postKey verifyMessage dealId (Some key) (Some iv) (Some tag) (Some client) (Some sig) w) in
  fst (getKey dealId w1)
  = Ok (Resp 200 (BJson (JObj [("is_encrypted", JBool true); ("encrypted_key", JStr key);
         ("encryption_iv", JStr iv); ("encryption_auth_tag", JStr tag);
         ("client_address", JStr (toLowerCase client))]))).
Proof.
  intros Hw Hdeal Hk Hi Ht Hc Hs Hv Hl Hcl w1.
  assert (Hsig : verifySignature verifyMessage ("store-key-" +:+ dealId) sig client = true)
    by (apply verifySignature_signed; eauto).
  assert (Hw1 : w1 = with_db (set_key key iv tag dealId (toLowerCase client)) w).
  { subst w1. unfold postKey, route, try_catch, fail, send.
    destruct key, iv, tag, client, sig; try done. cbn [truthy negb orb from_option id].
    rewrite Hsig. cbn [negb]. by rewrite (bind_ok _ _ _ _ _ (exec_ok _ w Hw)). }
  assert (Hrows : where_ (λ r, same_text (d_deal_id r) dealId) (deals (w_db w1))
                  = [Deal (d_deal_id deal) (d_client_address deal) (d_file_cid deal)
                       (d_file_size_gb deal) (d_duration_days deal) (d_price_per_gb_month deal)
                       (d_total_cost deal) (d_protocol_fee deal) (d_status deal) true (Some key)
                       (Some iv) (Some tag) (d_created_at deal) (d_completed_at deal)
                       (d_cancelled_at deal) (d_payment_processed deal)]).
  { rewrite Hw1. simpl. rewrite where_update_where, Hdeal by done.
    assert (Hid : deal ∈ [deal]) by set_solver. rewrite <- Hdeal, elem_of_where in Hid.
    unfold update_where. simpl. rewrite (proj2 Hid). unfold same_text.
    by rewrite (bool_decide_true _ Hcl). }
  unfold getKey, route, try_catch. rewrite (bind_ok _ _ _ _ _ (select_ok _ w1 ltac:(by rewrite Hw1))).
  rewrite Hrows. simpl. destruct key; [done|]. simpl. by rewrite Hcl.
Qed.

(** ** Cancellation *)

Lemma for_each_emit {A} (xs : list A) (target : A → emit_target) ev (payload : A → json) w :
  for_each xs (λ x, io_emit (target x) ev (payload x)) w
  = (Ok tt, with_emits (w_emits w ++ map (λ x, Emit (target x) ev (payload x)) xs) w).
Proof.
  revert w. induction xs as [|x xs IH]; intros w; simpl.
  - rewrite app_nil_r. by destruct w.
  - unfold io_emit at 1. running. rewrite IH. simpl. by rewrite <- app_assoc.
Qed.

Definition cancelled_db (dealId : string) (t : Z) (d : db) : db :=
  deactivate_shards dealId t (cancel_deal dealId t d).

(** The messages a cancellation sends: one per provider that held a shard. *)
Definition cancel_emits (dealId : string) (rows : list shard_row) : list emitted :=
  map (λ addr, Emit (ToRoom ("provider-rpc:" +:+ toLowerCase addr)) "deal:cancelled"
                 (JObj [("dealId", JStr dealId); ("shardCIDs", json_strs (map s_shard_cid rows))]))
      (distinct (map s_provider_address rows)).

Lemma cancel_body_run dealId w :
  db_answers w → has_api_columns w →
  let rows := where_ (live_shard dealId) (shards (w_db w)) in
  ∃ b w', cancel_body dealId w = (Ok (Resp 200 b), w') ∧
    deals (w_db w') = deals (cancelled_db dealId (w_now w) (w_db w)) ∧
    shards (w_db w') = shards (cancelled_db dealId (w_now w) (w_db w)) ∧
    w_emits w' = w_emits w ++ cancel_emits dealId rows ∧ w_txn w' = w_txn w ∧ db_answers w'.
Proof.
  intros Hw Hcol rows. unfold cancel_body.
  rewrite (bind_ok now _ w (w_now w) w eq_refl).
  rewrite (bind_ok _ _ _ _ _ (exec_api_up _ _ w Hw Hcol)).
  set (w1 := with_db _ w). assert (Hw1 : db_answers w1) by done.
  rewrite (bind_ok _ _ _ _ _ (select_up _ w1 Hw1)). change (shards (w_db w1)) with (shards (w_db w)).
  fold rows. rewrite (bind_ok now _ w1 (w_now w) w1 eq_refl).
  rewrite (bind_ok _ _ _ _ _ (exec_up _ w1 Hw1)).
  set (w2 := with_db _ w1). assert (Hw2 : db_answers w2) by done.
  erewrite bind_ok; [|unfold insert_event; rewrite (bind_ok now _ w2 (w_now w) w2 eq_refl);
                      by rewrite (bind_ok _ _ _ _ _ (exec_up _ w2 Hw2))].
  set (w3 := with_db _ w2). rewrite (bind_ok _ _ _ _ _ (for_each_emit _ _ _ _ w3)).
  eexists _, _. by split.
Qed.

(** Without the column cancelled_at nothing happens. *)
Lemma cancel_body_missing dealId w :
  db_answers w → ¬ has_api_columns w → ∃ e, cancel_body dealId w = (Throw e, w).
Proof.
  intros Hw Hcol. destruct (exec_api_missing "cancelled_at" (cancel_deal dealId (w_now w)) w Hw Hcol) as [e He].
  exists e. unfold cancel_body. rewrite (bind_ok now _ w (w_now w) w eq_refl). by rewrite (bind_throw _ _ _ _ _ He).
Qed.

Lemma elem_of_cleanup address c d :
  c ∈ cleanup_rows address d ↔
  ∃ s r, s ∈ shards d ∧ r ∈ deals d ∧ s_deal_id s = d_deal_id r ∧ s_active s = false ∧
         terminal (d_status r) ∧ toLowerCase (s_provider_address s) = toLowerCase address ∧
         c = Cleanup (s_shard_cid s) (s_deal_id s) (d_status r) (s_deleted_at s).
Proof.
  unfold cleanup_rows, desc_nulls_first. rewrite !elem_of_order_by, list_elem_of_bind.
  setoid_rewrite list_elem_of_bind. setoid_rewrite list_elem_of_singleton.
  setoid_rewrite elem_of_where. setoid_rewrite andb_true_iff.
  setoid_rewrite same_lower_spec. setoid_rewrite negb_true_iff. unfold same_text, terminal.
  setoid_rewrite bool_decide_eq_true. naive_solver.
Qed.

(** The guards of the route, passed. *)
Lemma deleteDeal_accepts verifyMessage dealId client sig signer deal rest w w1 :
  select (λ d, where_ (λ r, same_text (d_deal_id r) dealId) (deals d)) w = (Ok (deal :: rest), w1) →
  d_status deal ∈ ["active"; "in_grace_period"] → client ≠ "" → sig ≠ "" →
  verifyMessage ("cancel-deal-" +:+ dealId) sig = Some signer →
  toLowerCase signer = toLowerCase (d_client_address deal) →
  deleteDeal verifyMessage dealId (Some client) (Some sig) w = route (cancel_body dealId) w1.
Proof.
  intros Hrows Hst Hc Hs Hv Hl. unfold deleteDeal, route, try_catch.
  rewrite (bind_ok _ _ _ _ _ Hrows).
  assert (Hst' : negb (same_text (d_status deal) "active")
                 && negb (same_text (d_status deal) "in_grace_period") = false).
  { apply andb_false_iff. rewrite !negb_false_iff. unfold same_text. rewrite !bool_decide_eq_true.
    set_solver. }
  rewrite Hst'. destruct client, sig; try done. cbn [truthy negb orb from_option id].
  rewrite (proj2 (verifySignature_signed _ _ _ _)) by eauto. done.
Qed.

Section Cancel.
  Context (verifyMessage : string → string → option string) (dealId client sig signer : string).
  Context (deal : deal_row) (rest : list deal_row) (w : world).
  Context (Hrows : where_ (λ r, same_text (d_deal_id r) dealId) (deals (w_db w)) = deal :: rest).
  Context (Hst : d_status deal ∈ ["active"; "in_grace_period"]) (Hc : client ≠ "") (Hs : sig ≠ "").
  Context (Hv : verifyMessage ("cancel-deal-" +:+ dealId) sig = Some signer).
  Context (Hl : toLowerCase signer = toLowerCase (d_client_address deal)).

Lemma cancel_deal_in : deal ∈ deals (w_db w) ∧ d_deal_id deal = dealId.
Proof using Hrows.
    assert (Hin : deal ∈ deal :: rest) by (apply elem_of_cons; by left).
    rewrite <- Hrows, elem_of_where in Hin.
    unfold same_text in Hin. by rewrite bool_decide_eq_true in Hin.
  Qed.

(** C18. A cancellation by the owner reaches every provider while the database answers and
      has the columns cancelled_at and deleted_at, which the committed schema lacks: the route answers 200, no shard of the deal stays active, every provider that held
      one is told, in its own room, all the identifiers, and each of these shards is
      from then on in the cleanup list of its provider. *)
Theorem cancel_reaches_providers :
    db_answers w → has_api_columns w →
    let held := where_ (live_shard dealId) (shards (w_db w)) in
    ∃ b w', deleteDeal verifyMessage dealId (Some client) (Some sig) w = (Ok (Resp 200 b), w') ∧
      (∀ s, s ∈ shards (w_db w') → s_deal_id s = dealId → s_active s = false) ∧
      ∀ s, s ∈ held →
        Emit (ToRoom ("provider-rpc:" +:+ toLowerCase (s_provider_address s))) "deal:cancelled"
             (JObj [("dealId", JStr dealId); ("shardCIDs", json_strs (map s_shard_cid held))])
          ∈ w_emits w' ∧
        Cleanup (s_shard_cid s) dealId "cancelled" (Some (w_now w))
          ∈ cleanup_rows (s_provider_address s) (w_db w').
Proof using Hrows Hst Hc Hs Hv Hl.
    intros Hw Hcol held. destruct cancel_deal_in as [Hin Hid].
    rewrite (deleteDeal_accepts _ _ _ _ signer deal rest w w) by (rewrite ?select_up, ?Hrows; done).
    destruct (cancel_body_run dealId w Hw Hcol) as (b & w' & Hrun & Hd & Hsh & Hem & _).
    exists b, w'. split; [unfold route, try_catch; by rewrite Hrun|]. split.
    { intros s. rewrite Hsh. simpl. rewrite elem_of_update_where. intros (s0 & _ & ->).
      unfold live_shard, same_text. destruct (bool_decide (s_deal_id s0 = dealId) && s_active s0) eqn:E;
        [done|]. intros Hs0. rewrite bool_decide_true in E by done. done. }
    intros s Hheld. split.
    { rewrite Hem, elem_of_app. right. apply list_elem_of_fmap. exists (s_provider_address s).
      split; [done|]. apply elem_of_distinct, list_elem_of_fmap. by exists s. }
    apply elem_of_where in Hheld as [Hins Hlive]. apply elem_of_cleanup.
    rewrite Hd, Hsh. simpl. setoid_rewrite elem_of_update_where.
    pose proof Hlive as Hl0. apply andb_true_iff in Hl0 as [Hsd _].
    apply bool_decide_eq_true in Hsd.
    eexists _, _. split_and!; [by exists s|by exists deal|..]; rewrite ?Hlive;
      unfold same_text; rewrite ?(bool_decide_true _ Hid); simpl; try congruence.
    unfold terminal. set_solver.
  Qed.

(** Cancellation is not atomic: when the database fails right after the deal row
      was updated, the route answers 500, the deal is cancelled for good and its
      shards stay active, so the closed-deal invariant is broken. *)
Theorem cancel_not_atomic e fs s :
    w_faults w = None :: None :: Some e :: fs → w_db_up w = false → has_api_columns w →
    s ∈ shards (w_db w) → s_deal_id s = dealId → s_active s = true →
    ∃ w', deleteDeal verifyMessage dealId (Some client) (Some sig) w
          = (Ok (Resp 500 (BError "Internal server error")), w') ∧
          ¬ closed (w_db w').
Proof using Hrows Hst Hc Hs Hv Hl.
    intros Hf Hup Hcol Hin Hsd Hact. destruct cancel_deal_in as [Hind Hid].
    set (w1 := with_faults (None :: Some e :: fs) w).
    assert (Hrun : deleteDeal verifyMessage dealId (Some client) (Some sig) w
                   = route (cancel_body dealId) w1).
    { apply (deleteDeal_accepts _ _ _ _ signer deal rest); try done.
      assert (Hx : query w = (Ok tt, w1)) by (unfold query, external; by rewrite Hf, Hup).
      unfold select. rewrite (bind_ok _ _ _ _ _ Hx). unfold gets.
      change (w_db w1) with (w_db w). by rewrite Hrows. }
    rewrite Hrun. unfold route, try_catch, cancel_body. rewrite (bind_ok now _ w1 (w_now w1) w1 eq_refl).
    unfold mbind, M_bind. rewrite exec_api_present by done. unfold w1, with_faults. rewrite Hup. eexists. split; [reflexivity|]. simpl. intros Hcl.
    assert (Hs' : s_active s = false); [|congruence].
    apply (Hcl (Deal (d_deal_id deal) (d_client_address deal) (d_file_cid deal) (d_file_size_gb deal)
              (d_duration_days deal) (d_price_per_gb_month deal) (d_total_cost deal)
              (d_protocol_fee deal) "cancelled" (d_is_encrypted deal) (d_encrypted_key deal)
              (d_encryption_iv deal) (d_encryption_auth_tag deal) (d_created_at deal)
              (d_completed_at deal) (Some (w_now w)) (d_payment_processed deal)) s);
      [|unfold terminal; set_solver|done|simpl; congruence].
    simpl. apply elem_of_update_where. exists deal. split; [done|].
    unfold same_text. by rewrite (bool_decide_true _ Hid).
  Qed.
End Cancel.

(** ** Expiration *)

Definition expired_done (w0 : world) (done : list deal_row) (w : world) : Prop :=
  db_answers w ∧ w_txn w = None ∧ w_now w = w_now w0 ∧
  (∀ r, r ∈ deals (w_db w) → d_deal_id r ∈ map d_deal_id done → d_status r = "completed") ∧
  (∀ r, d_deal_id r ∉ map d_deal_id done → r ∈ deals (w_db w) ↔ r ∈ deals (w_db w0)).

Lemma elem_of_complete dealId t d r :
  r ∈ deals (expire_db dealId t d) ↔
  (d_deal_id r ≠ dealId ∧ r ∈ deals d) ∨
  (d_deal_id r = dealId ∧ d_status r = "completed" ∧ ∃ r0, r0 ∈ deals d ∧
     r = Deal (d_deal_id r0) (d_client_address r0) (d_file_cid r0) (d_file_size_gb r0)
            (d_duration_days r0) (d_price_per_gb_month r0) (d_total_cost r0) (d_protocol_fee r0)
            "completed" (d_is_encrypted r0) (d_encrypted_key r0) (d_encryption_iv r0)
            (d_encryption_auth_tag r0) (d_created_at r0) (Some t) (d_cancelled_at r0)
            (d_payment_processed r0)).
Proof.
  simpl. rewrite elem_of_update_where. unfold same_text. split.
  - intros (r0 & Hr0 & ->). case_bool_decide; [right|left]; simpl; eauto.
  - intros [[Hne Hr]|(Hid & _ & r0 & Hr0 & Heq)].
    + exists r. split; [done|]. by rewrite bool_decide_false.
    + exists r0. split; [done|]. rewrite bool_decide_true; [done|]. by subst r.
Qed.

Lemma expire_deal_done one_connection w0 done x w :
  expired_done w0 done w →
  ∃ w', expire_deal one_connection (d_deal_id x) w = (Ok tt, w') ∧ expired_done w0 (done ++ [x]) w'.
Proof.
  intros (Hw & Ht & Hn & Hdone & Hother).
  destruct (expire_deal_run one_connection (d_deal_id x) w Hw Ht) as (w' & Hrun & Hw' & Ht' & Hn' & Hdb).
  exists w'. split; [done|]. split_and!; [done|done|congruence| |].
  - intros r. rewrite Hdb, elem_of_complete, map_app, elem_of_app. simpl.
    rewrite list_elem_of_singleton. naive_solver.
  - intros r. rewrite Hdb, elem_of_complete, map_app, elem_of_app. simpl.
    rewrite list_elem_of_singleton. intros Hr. rewrite <- Hother; naive_solver.
Qed.

(** Expiration: while the database answers and has the columns duration_days and
    deleted_at, which the committed schema lacks, one run of the job completes every
    active deal whose duration is over and leaves all other deals as they were;
    afterwards no expired deal is left. *)
Theorem expiration_completes_deals one_connection w :
  db_answers w → has_api_columns w → w_txn w = None →
  ∃ w', expirationCheck one_connection w = (Ok tt, w') ∧
    expired_deals (w_now w) (w_db w') = [] ∧
    (∀ r, r ∈ deals (w_db w') → d_deal_id r ∈ map d_deal_id (expired_deals (w_now w) (w_db w)) →
          d_status r = "completed") ∧
    (∀ r, d_deal_id r ∉ map d_deal_id (expired_deals (w_now w) (w_db w)) →
          r ∈ deals (w_db w') ↔ r ∈ deals (w_db w)).
Proof.
  intros Hw Hcol Ht. unfold expirationCheck, try_catch.
  rewrite (bind_ok now _ w (w_now w) w eq_refl), (bind_ok _ _ _ _ _ (select_api_up _ _ w Hw Hcol)).
  set (batch := expired_deals (w_now w) (w_db w)).
  destruct (for_each_done (expired_done w) (λ row, expire_deal one_connection (d_deal_id row)) batch [] w)
    as (w' & -> & _ & _ & _ & Hdone & Hother).
  - intros done x rest w1 _ Hw1. by apply expire_deal_done.
  - split_and!; try done. intros r _ Hin. by apply elem_of_nil in Hin.
  - exists w'. simpl in Hdone, Hother. split_and!; [done| |done|done].
    destruct (expired_deals (w_now w) (w_db w')) as [|r rs] eqn:E; [done|exfalso].
    assert (Hr : r ∈ expired_deals (w_now w) (w_db w')) by (rewrite E; set_solver).
    apply elem_of_where in Hr as [Hr Hexp].
    destruct (decide (d_deal_id r ∈ map d_deal_id batch)) as [Hb|Hb].
    + apply andb_true_iff in Hexp as [Hst _]. apply bool_decide_eq_true in Hst.
      rewrite (Hdone r Hr Hb) in Hst. done.
    + apply Hb, list_elem_of_fmap. exists r. split; [done|]. apply elem_of_where.
      split; [by apply Hother|done].
Qed.

(** ** Heartbeats *)

(** The rows after the upsert. *)
Lemma heartbeat_upsert_rows address t d p :
  p ∈ providers (heartbeat_upsert address t d) →
  (p_address p = toLowerCase address ∧ p_active p = true ∧
     p_last_heartbeat p = Some t ∧ p_peer_id p = "pending") ∨
  (p_address p ≠ toLowerCase address ∧ p ∈ providers d).
Proof.
  unfold heartbeat_upsert. destruct (existsb _ _) eqn:Hex; simpl.
  - rewrite elem_of_update_where. intros (p0 & Hp0 & ->). unfold same_text.
    case_bool_decide; simpl; auto.
  - rewrite elem_of_app, list_elem_of_singleton. intros [Hp| ->]; [right|left; done].
    split; [|done]. intros Heq. apply not_true_iff_false in Hex. apply Hex, existsb_exists.
    exists p. split; [by apply list_elem_of_In|]. by apply bool_decide_eq_true.
Qed.

Lemma heartbeat_upsert_known address t d :
  ∃ p, p ∈ providers (heartbeat_upsert address t d) ∧ p_address p = toLowerCase address.
Proof.
  unfold heartbeat_upsert. destruct (existsb _ _) eqn:Hex; simpl.
  - apply existsb_exists in Hex as (p & Hp & Heq). apply list_elem_of_In in Hp.
    setoid_rewrite elem_of_update_where. eexists. split; [exists p; split; [done|cbn beta; by rewrite Heq]|].
    simpl. by apply bool_decide_eq_true in Heq.
  - setoid_rewrite elem_of_app. setoid_rewrite list_elem_of_singleton. eauto.
Qed.

(** The storage report of a heartbeat. *)
Definition report_storage (address : string) (storage : option (option num * option num)) (d : db) : db :=
  match storage with
  | Some (Some pledged, used) => set_storage address pledged (num_or used (num_of_Z 0)) d
  | _ => d
  end.

(** A signed heartbeat, while the database answers. *)
Lemma postHeartbeat_run verifyMessage address sig signer storage w :
  no_faults w → address ≠ "" → sig ≠ "" →
  verifyMessage "Kyneto Provider Heartbeat" sig = Some signer →
  toLowerCase signer = toLowerCase address →
  ∃ b w', postHeartbeat verifyMessage (Some address) (Some sig) storage w = (Ok (Resp 200 b), w') ∧
    w_db w' = report_storage address storage (heartbeat_upsert address (w_now w) (w_db w)) ∧
    w_now w' = w_now w ∧ no_faults w'.
Proof.
  intros Hw Ha Hs Hv Hl. unfold postHeartbeat, route, try_catch.
  destruct address as [|c addr], sig; try done. cbn [truthy negb orb from_option id].
  set (address := String c addr) in *. clearbody address.
  rewrite (proj2 (verifySignature_signed _ _ _ _)) by eauto. cbn [negb].
  rewrite (bind_ok now _ w (w_now w) w eq_refl), (bind_ok _ _ _ _ _ (exec_ok _ w Hw)).
  destruct storage as [[[pledged|] used]|]; [|by eexists _, _..].
  unfold mbind, M_bind. rewrite exec_ok by done. by eexists _, _.
Qed.

(** A signed heartbeat makes its provider known and online: the row with the
    lower-case address exists afterwards, is active and carries the current time,
    and rows with other addresses are untouched.  It also sets the peer identifier of
    that row to the placeholder of the INSERT, whatever was stored before. *)
Theorem heartbeat_marks_online verifyMessage address sig signer w :
  no_faults w → address ≠ "" → sig ≠ "" →
  verifyMessage "Kyneto Provider Heartbeat" sig = Some signer →
  toLowerCase signer = toLowerCase address →
  ∃ b w', postHeartbeat verifyMessage (Some address) (Some sig) None w = (Ok (Resp 200 b), w') ∧
    (∃ p, p ∈ providers (w_db w') ∧ p_address p = toLowerCase address) ∧
    (∀ p, p ∈ providers (w_db w') → p_address p = toLowerCase address →
          p_active p = true ∧ p_last_heartbeat p = Some (w_now w) ∧ p_peer_id p = "pending") ∧
    (∀ p, p_address p ≠ toLowerCase address →
          p ∈ providers (w_db w') ↔ p ∈ providers (w_db w)).
Proof.
  intros Hw Ha Hs Hv Hl.
  destruct (postHeartbeat_run _ address sig signer None w Hw Ha Hs Hv Hl) as (b & w' & Hrun & Hdb & _).
  exists b, w'. split; [done|]. rewrite Hdb. simpl. split_and!.
  - apply heartbeat_upsert_known.
  - intros p Hp Heq. destruct (heartbeat_upsert_rows _ _ _ _ Hp) as [(_ & ?)|[? _]]; done.
  - intros p Hne. split; [intros Hp; destruct (heartbeat_upsert_rows _ _ _ _ Hp) as [(? & _)|[_ ?]]; done|].
    intros Hp. unfold heartbeat_upsert. destruct (existsb _ _); simpl.
    + apply elem_of_update_where. exists p. split; [done|]. unfold same_text.
      by rewrite bool_decide_false.
    + apply elem_of_app. by left.
Qed.

(** ** Creation *)

Lemma imap_map_seq {A B} (f : nat → A → B) (g : nat → A) n :
  imap f (map g (seq 0 n)) = map (λ i, f i (g i)) (seq 0 n).
Proof.
  apply list_eq. intros i. rewrite list_lookup_imap, !list_lookup_fmap.
  destruct (seq 0 n !! i) as [j|] eqn:E; [|done]. by apply lookup_seq in E as [-> _].
Qed.

Lemma zip_map_map {A B C} (f : A → B) (g : A → C) xs : zip (map f xs) (map g xs) = map (λ x, (f x, g x)) xs.
Proof. induction xs as [|x xs IH]; simpl; [done|]. by rewrite IH. Qed.

Lemma map_ext_seq {A} (f g : nat → A) n :
  (∀ i, (i < n)%nat → f i = g i) → map f (seq 0 n) = map g (seq 0 n).
Proof. intros H. apply map_ext_in. intros i Hi%in_seq. apply H. lia. Qed.

Section CreateRun.
  Context {ipfs : Ipfs} `{!IpfsLaws} {codec : RSCodec}.

Lemma map_each_add shards : ∀ w, no_faults w →
    map_each shards ipfs_add w = (Ok (map cid_of shards), with_ipfs (store_all (w_ipfs w) shards) w).
Proof.
    induction shards as [|s shards IH]; intros w Hw; simpl; [by destruct w|].
    rewrite (bind_ok _ _ _ _ _ (ipfs_add_run s w Hw)).
    by rewrite (bind_ok _ _ _ _ _ (IH (with_ipfs (<[cid_of s:=s]> (w_ipfs w)) w) Hw)).
  Qed.

Lemma getIpfs_run w : no_faults w → getIpfs w = (Ok tt, with_api_ipfs true w).
Proof.
    intros Hw. destruct w as [? ? ? ? fs ? ? ? [] ? ?]; unfold no_faults in Hw; simpl in Hw; by subst.
  Qed.

(** The world after the file was coded and its shards uploaded. *)
Definition coded_world (shards : list bytes) (w : world) : world :=
    with_ipfs (store_all (w_ipfs w) shards) (with_api_ipfs true w).

Lemma make_shards_run fileCID size data out w :
    let ss := shard_size (length data) in
    let shards := map (shard_at ss out) (seq 0 TOTAL_SHARDS) in
    no_faults w → w_ipfs w !! fileCID = Some data → encodes ss (code_buffer data) out →
    make_shards fileCID size w
    = (Ok (map cid_of shards, map (λ b, Some (Z.of_nat (length b))) shards), coded_world shards w).
Proof.
    intros ss shards Hw Hc (He & _ & _). unfold make_shards, try_catch.
    rewrite (bind_ok _ _ _ _ _ (getIpfs_run w Hw)). set (w1 := with_api_ipfs true w).
    assert (Hw1 : no_faults w1) by done.
    rewrite (bind_ok _ _ _ _ _ (ipfs_cat_run fileCID data w1 Hw1 Hc)), chunks_concat.
    rewrite (bind_ok _ _ _ _ _ (external_ok w1 Hw1)). fold ss.
    change (buf_copy data (buf_alloc (ss * TOTAL_SHARDS)%nat) 0) with (code_buffer data).
    rewrite He. cbn [Z.eqb negb].
    replace (map (λ i, subarray out (i * ss) ((i + 1) * ss))%nat (seq 0 TOTAL_SHARDS)) with shards.
    2: { apply map_ext. intros i. unfold shard_at. f_equal. lia. }
    by rewrite (bind_ok _ _ _ _ _ (map_each_add shards w1 Hw1)).
  Qed.

(** When the file cannot be read, it becomes its own only shard. *)
Lemma make_shards_fallback fileCID size w :
    no_faults w → w_ipfs w !! fileCID = None →
    ∃ z, make_shards fileCID (Some size) w = (Ok ([fileCID], [z]), with_api_ipfs true w).
Proof.
    intros Hw Hc. unfold make_shards, try_catch.
    rewrite (bind_ok _ _ _ _ _ (getIpfs_run w Hw)). set (w1 := with_api_ipfs true w).
    assert (Hcat : ipfs_cat fileCID w1 = (Throw (Error "block was not found locally (offline)"), w1)).
    { unfold ipfs_cat. rewrite (bind_ok _ _ _ _ _ (external_ok w1 Hw)). running. by rewrite Hc. }
    rewrite (bind_throw _ _ _ _ _ Hcat). by eexists.
  Qed.

(** The row of the [i]-th shard of a new deal. *)
Definition new_shard (dealId client : string) (sel : list provider_row) (ss : nat) (out : bytes)
      (t : Z) (i : nat) : shard_row :=
    Shard dealId (toLowerCase (assigned_provider sel client i)) (Z.of_nat i)
          (cid_of (shard_at ss out i)) (Some (Z.of_nat ss)) None (Some (i <? DATA_SHARDS)%nat) true t None None.

Lemma insert_shards_run dealId client sel ss out w :
    no_faults w → length out = (ss * TOTAL_SHARDS)%nat →
    room_for (w_schema w) (w_db w) (map (new_shard dealId client sel ss out (w_now w)) (seq 0 TOTAL_SHARDS)) →
    let shards0 := map (shard_at ss out) (seq 0 TOTAL_SHARDS) in
    for_each (imap pair (zip (map cid_of shards0) (map (λ b, Some (Z.of_nat (length b))) shards0)))
      (λ '(i, (cid, size)), insert_shard dealId i cid size (assigned_provider sel client i)) w
    = (Ok tt, with_db (λ d, set_shards (shards d ++
         map (new_shard dealId client sel ss out (w_now w)) (seq 0 TOTAL_SHARDS)) d) w).
Proof.
    intros Hw Hlen Hroom shards0. subst shards0. rewrite zip_map_map, map_map.
    rewrite (imap_map_seq pair (λ i, (cid_of (shard_at ss out i),
                                      Some (Z.of_nat (length (shard_at ss out i)))))).
    pose (row := λ x : nat * (string * option Z), let '(i, (cid, size)) := x in
      Shard dealId (toLowerCase (assigned_provider sel client i)) (Z.of_nat i) cid
            (Some (default 0 size)) None (Some (i <? DATA_SHARDS)%nat) true (w_now w) None None).
    assert (map row (map (λ i, (i, (cid_of (shard_at ss out i), Some (Z.of_nat (length (shard_at ss out i))))))
                       (seq 0 TOTAL_SHARDS))
            = map (new_shard dealId client sel ss out (w_now w)) (seq 0 TOTAL_SHARDS)) as Hrows.
    { rewrite map_map. apply map_ext_seq. intros i Hi. unfold row, new_shard. simpl.
      by rewrite (length_shard_at ss out i Hi Hlen). }
    rewrite (for_each_add_shard _ _ row (w_now w)); [by rewrite Hrows|..|by right|done|by rewrite Hrows].
    intros x w1 Hx Ht1. apply list_elem_of_fmap in Hx as (i & -> & _).
    unfold insert_shard. rewrite (bind_ok (int_param (Some _)) _ w1 _ w1 eq_refl).
    rewrite (bind_ok now _ w1 (w_now w1) w1 eq_refl). by rewrite Ht1.
  Qed.
End CreateRun.

(** *** Round robin *)

Definition residues (n j N : nat) : list nat := where_ (λ i, (i mod n =? j)%nat) (seq 0 N).

Lemma residues_count n j N : (j < n)%nat → length (residues n j N) = ((N + (n - 1 - j)) / n)%nat.
Proof.
  intros Hj. induction N as [|N IH].
  - simpl. symmetry. apply Nat.div_small. lia.
  - unfold residues in *. rewrite seq_S, where_app, length_app, IH. simpl. unfold where_. simpl.
    pose proof (Nat.div_mod_eq N n) as Hdm. pose proof (Nat.mod_upper_bound N n ltac:(lia)) as Hmod.
    set (q := (N / n)%nat) in *. set (m := (N mod n)%nat) in *.
    assert (H1 : ((N + (n - 1 - j)) / n = q + if (m <=? j)%nat then 0 else 1)%nat).
    { destruct (m <=? j)%nat eqn:E.
      - apply Nat.leb_le in E. symmetry. apply (Nat.div_unique _ _ _ (m + (n - 1 - j))); nia.
      - apply Nat.leb_gt in E. symmetry. apply (Nat.div_unique _ _ _ (m - 1 - j)); nia. }
    assert (H2 : (S (N + (n - 1 - j)) / n = q + if (m <? j)%nat then 0 else 1)%nat).
    { destruct (m <? j)%nat eqn:E.
      - apply Nat.ltb_lt in E. symmetry. apply (Nat.div_unique _ _ _ (m + (n - j))); nia.
      - apply Nat.ltb_ge in E. symmetry. apply (Nat.div_unique _ _ _ (m - j)); nia. }
    rewrite H1, H2. clear H1 H2.
    clearbody q m. destruct (Nat.eqb_spec m j), (Nat.leb_spec m j), (Nat.ltb_spec m j); simpl; lia.
Qed.

(** Two residues occur equally often, up to one. *)
Lemma residues_balanced n j k N :
  (j < n)%nat → (k < n)%nat → (length (residues n j N) ≤ length (residues n k N) + 1)%nat.
Proof.
  intros Hj Hk. rewrite !residues_count by done.
  assert (H : ((N + (n - 1 - j)) / n ≤ (N + (n - 1 - k) + n) / n)%nat) by (apply Nat.Div0.div_le_mono; lia).
  replace (N + (n - 1 - k) + n)%nat with (N + (n - 1 - k) + 1 * n)%nat in H by lia.
  rewrite Nat.div_add in H by lia. lia.
Qed.

Section RoundRobin.
  Context {ipfs : Ipfs} (dealId client : string) (sel : list provider_row) (ss : nat) (out : bytes) (t : Z).
  Context (Hsel : sel ≠ []) (Haddr : NoDup (map (λ p, toLowerCase (p_address p)) sel)).

Definition new_shards : list shard_row := map (new_shard dealId client sel ss out t) (seq 0 TOTAL_SHARDS).

Definition shards_of (p : provider_row) : list shard_row :=
    where_ (λ s, same_text (s_provider_address s) (toLowerCase (p_address p))) new_shards.

Lemma sel_length_pos : (0 < length sel)%nat.
Proof using Hsel. apply Nat.neq_0_lt_0. by rewrite length_zero_iff_nil. Qed.

Lemma assigned_is p j i :
    sel !! j = Some p → toLowerCase (assigned_provider sel client i) = toLowerCase (p_address p)
    ↔ (i mod length sel)%nat = j.
Proof using Hsel Haddr.
    intros Hj. pose proof sel_length_pos as Hpos. unfold assigned_provider.
    rewrite (proj2 (Nat.ltb_lt _ _) Hpos).
    destruct (lookup_lt_is_Some_2 sel (i mod length sel)) as [q Hq].
    { apply Nat.mod_upper_bound. lia. }
    rewrite Hq. simpl. split; [|intros <-; congruence].
    intros Heq. apply (NoDup_lookup (map (λ p, toLowerCase (p_address p)) sel) _ _
                         (toLowerCase (p_address p))); [done|..].
    - rewrite list_lookup_fmap, Hq. simpl. by rewrite Heq.
    - by rewrite list_lookup_fmap, Hj.
  Qed.

(** The shards of the [j]-th provider are those with index [j] modulo the
      number of providers. *)
Lemma shards_of_residues p j :
    sel !! j = Some p →
    shards_of p = map (new_shard dealId client sel ss out t) (residues (length sel) j TOTAL_SHARDS).
Proof using Hsel Haddr.
    intros Hj. unfold shards_of, new_shards, residues, where_.
    induction (seq 0 TOTAL_SHARDS) as [|i rest IH]; simpl; [done|].
    assert (Hiff : same_text (toLowerCase (assigned_provider sel client i)) (toLowerCase (p_address p))
                   = (i mod length sel =? j)%nat).
    { unfold same_text. apply eq_true_iff_eq. rewrite bool_decide_eq_true, Nat.eqb_eq.
      by apply assigned_is. }
    rewrite Hiff. destruct (_ =? _)%nat; simpl; by rewrite IH.
  Qed.

(** What a provider is told is what was recorded for it. *)
Lemma assigned_to_rows p j :
    sel !! j = Some p →
    assigned_to sel (map (λ i, cid_of (shard_at ss out i)) (seq 0 TOTAL_SHARDS)) p
    = map s_shard_cid (shards_of p).
Proof using Hsel Haddr.
    intros Hj. rewrite (shards_of_residues p j Hj). unfold assigned_to, residues, where_.
    rewrite (imap_map_seq pair). induction (seq 0 TOTAL_SHARDS) as [|i rest IH]; simpl; [done|].
    pose proof (assigned_is p j i Hj) as Hiff. unfold assigned_provider in Hiff.
    rewrite (proj2 (Nat.ltb_lt _ _) sel_length_pos) in Hiff.
    destruct (lookup_lt_is_Some_2 sel (i mod length sel)) as [q Hq].
    { apply Nat.mod_upper_bound. pose proof sel_length_pos. lia. }
    rewrite Hq in *. simpl in Hiff.
    assert (Hb : same_lower (p_address q) (p_address p) = (i mod length sel =? j)%nat).
    { unfold same_lower. apply eq_true_iff_eq. by rewrite bool_decide_eq_true, Nat.eqb_eq. }
    rewrite Hb. destruct (_ =? _)%nat; simpl; by rewrite IH.
  Qed.

(** Fifteen providers or more get at most one shard each. *)
Lemma new_shards_places : (TOTAL_SHARDS ≤ length sel)%nat → NoDup (map shard_place new_shards).
Proof using Hsel Haddr.
    intros Hlen. unfold new_shards. rewrite map_map. apply NoDup_fmap_2_strong; [|apply NoDup_seq].
    intros i k Hi Hk [= Heq]. apply elem_of_seq in Hi, Hk.
    destruct (lookup_lt_is_Some_2 sel k) as [p Hp]; [lia|].
    assert (toLowerCase (assigned_provider sel client k) = toLowerCase (p_address p)) as Hkp.
    { apply (assigned_is p k k Hp), Nat.mod_small. lia. }
    rewrite Hkp in Heq. apply (assigned_is p k i Hp) in Heq. rewrite Nat.mod_small in Heq by lia. done.
  Qed.

(** The provider of every shard is one of the selected ones. *)
Lemma assigned_selected i : ∃ p, p ∈ sel ∧ assigned_provider sel client i = p_address p.
Proof using Hsel.
    pose proof sel_length_pos as Hpos. unfold assigned_provider. rewrite (proj2 (Nat.ltb_lt _ _) Hpos).
    destruct (lookup_lt_is_Some_2 sel (i mod length sel)) as [q Hq]; [apply Nat.mod_upper_bound; lia|].
    exists q. rewrite Hq. split; [by eapply list_elem_of_lookup_2|done].
  Qed.

(** Load balance of the fifteen shards. *)
Lemma shards_of_balanced p q :
    p ∈ sel → q ∈ sel → (length (shards_of p) ≤ length (shards_of q) + 1)%nat.
Proof using Hsel Haddr.
    intros [j Hj]%list_elem_of_lookup [k Hk]%list_elem_of_lookup.
    rewrite (shards_of_residues p j Hj), (shards_of_residues q k Hk), !length_map.
    apply residues_balanced; by apply lookup_lt_Some in Hj, Hk.
  Qed.
End RoundRobin.

Section CreateClaim.
  Context {ipfs : Ipfs} `{!IpfsLaws} {codec : RSCodec}.

(** What the tables must be like to take the rows of a new deal: the columns of the
      API; under the key of shards, fifteen providers and no row of the identifier;
      under the foreign keys, addresses stored in lower case. *)
Definition takes_deal (sc : schema) (d : db) (dealId : string) (sel : list provider_row) : Prop :=
    sc_api_columns sc = true ∧
    (sc_shard_key sc = true → (TOTAL_SHARDS ≤ length sel)%nat ∧ ∀ s, s ∈ shards d → s_deal_id s ≠ dealId) ∧
    (sc_foreign_keys sc = true → Forall (λ p, toLowerCase (p_address p) = p_address p) sel).

Lemma elem_of_online t d p : p ∈ online_providers t d → p ∈ providers d.
Proof.
    unfold online_providers. rewrite elem_of_order_by, list_elem_of_bind. intros (q & Hp & Hq).
    apply elem_of_where in Hq as [Hq _]. destruct (where_ _ _) as [|cp cps].
    - apply list_elem_of_singleton in Hp. by subst.
    - apply list_elem_of_fmap in Hp as (_ & -> & _). done.
  Qed.

Lemma takes_deal_room sc d dealId client ss out t deal :
    let sel := online_providers t d in
    takes_deal sc d dealId sel → sel ≠ [] → NoDup (map (λ p, toLowerCase (p_address p)) sel) →
    d_deal_id deal = dealId →
    room_for sc (set_deals (deals d ++ [deal]) d) (new_shards dealId client sel ss out t).
Proof.
    intros sel (_ & Hkey & Hfk) Hsel Haddr Hid. split.
    - intros Hk. destruct (Hkey Hk) as [Hlen Hno]. split; [by apply new_shards_places|].
      intros s row Hs (i & -> & _)%list_elem_of_fmap [= Heq _]. by apply (Hno s).
    - intros Hf. apply Forall_forall. intros row (i & -> & _)%list_elem_of_fmap. simpl. split.
      + apply existsb_exists. exists deal. split; [apply in_app_iff; right; by left|].
        by rewrite bool_decide_eq_true.
      + destruct (assigned_selected client sel Hsel i) as (p & Hp & ->). apply existsb_exists. exists p. split.
        * apply list_elem_of_In. by apply (elem_of_online t).
        * apply bool_decide_eq_true. symmetry.
          by apply (proj1 (Forall_forall _ _) (Hfk Hf)).
  Qed.

(** The run of the route in a world that answers. *)
Lemma createDeal_run nonce q fileCID client size days data out w :
    let ss := shard_size (length data) in
    let sel := online_providers (w_now w) (w_db w) in
    let dealId := created_id (w_now w) nonce in
    let shards0 := map (shard_at ss out) (seq 0 TOTAL_SHARDS) in
    no_faults w → w_ipfs w !! fileCID = Some data → encodes ss (code_buffer data) out →
    q_fileCID q = Some fileCID → fileCID ≠ "" → q_clientAddress q = Some client → client ≠ "" →
    q_sizeGB q = Some size → num_falsy size = false →
    num_to_Z (num_or (q_durationDays q) (num_of_Z 30)) = Some days →
    takes_deal (w_schema w) (w_db w) dealId sel →
    sel ≠ [] → NoDup (map (λ p, toLowerCase (p_address p)) sel) →
    ∃ b deal ev w', createDeal nonce q w = (Ok (Resp 200 b), w') ∧
      d_deal_id deal = dealId ∧ d_client_address deal = toLowerCase client ∧
      d_file_cid deal = fileCID ∧ d_status deal = "active" ∧
      deals (w_db w') = deals (w_db w) ++ [deal] ∧
      shards (w_db w') = shards (w_db w) ++ new_shards dealId client sel ss out (w_now w) ∧
      w_ipfs w' = store_all (w_ipfs w) shards0 ∧
      w_emits w' = w_emits w ++ [ev] ++
        map (λ p, Emit (ToRoom ("provider-rpc:" +:+ toLowerCase (p_address p))) "shard:assigned"
               (JObj [("dealId", JStr dealId);
                      ("shardCIDs", json_strs (assigned_to sel (map cid_of shards0) p))])) sel.
Proof.
    intros ss sel dealId shards0 Hw Hc He Hf Hfne Hcl Hclne Hsz Hszf Hdays Htake Hsel Haddr.
    unfold createDeal, try_catch. rewrite Hf, Hcl, Hsz, Hszf.
    assert (Ht1 : truthy (Some fileCID) = true) by (by destruct fileCID).
    assert (Ht2 : truthy (Some client) = true) by (by destruct client).
    rewrite Ht1, Ht2. cbn [negb orb from_option id].
    rewrite (bind_ok _ _ _ _ _ (make_shards_run fileCID (Some size) data out w Hw Hc He)).
    fold ss shards0. set (w1 := coded_world shards0 w). assert (Hw1 : no_faults w1) by done.
    rewrite (bind_ok select_online _ w1 sel w1).
    2: { unfold select_online, try_catch. rewrite (bind_ok now _ w1 (w_now w) w1 eq_refl).
         by rewrite select_ok. }
    rewrite (bind_ok now _ w1 (w_now w) w1 eq_refl). rewrite Hdays.
    rewrite (bind_ok (int_param (Some days)) _ w1 days w1 eq_refl).
    rewrite (bind_ok _ _ _ _ _ (require_column_ok _ _ w1 (proj1 Htake))).
    rewrite (bind_ok _ _ _ _ _ (exec_ok _ w1 Hw1)).
    set (w2 := with_db _ w1). assert (Hw2 : no_faults w2) by done.
    fold (created_id (w_now w) nonce). fold dealId.
    rewrite (bind_ok _ _ _ _ _ (insert_shards_run dealId client sel ss out w2 Hw2 (proj1 (proj2 He))
               ltac:(by apply takes_deal_room))).
    set (w3 := with_db _ w2). assert (Hw3 : no_faults w3) by done.
    erewrite bind_ok; [|unfold insert_event; rewrite (bind_ok now _ w3 (w_now w) w3 eq_refl);
                        by rewrite (bind_ok _ _ _ _ _ (exec_ok _ w3 Hw3))].
    set (w4 := with_db _ w3).
    rewrite (bind_ok now _ w4 (w_now w) w4 eq_refl). 
    erewrite (bind_ok (io_emit _ _ _)); [|reflexivity]. set (w5 := with_emits _ w4).
    rewrite (bind_ok _ _ _ _ _ (for_each_emit _ _ _ _ w5)).
    eexists _, _, _, _. split; [reflexivity|].
    split_and!; [..|reflexivity|reflexivity|reflexivity|]; [done|done|done|done|].
    simpl. by rewrite <- app_assoc.
  Qed.

(** C15. Creation of a deal: when no call fails, for a file the node holds, with online
      providers of different addresses and tables that take the deal ([takes_deal]; with
      the committed key of shards that means at least fifteen providers), POST
      /api/deals/create answers 200, stores fifteen coded shards, records one active row
      per shard, numbered 0 to 14 and assigned round-robin; any two providers get the
      same number of shards up to one, and each is told, in its own room, exactly the
      identifiers recorded for it. *)
Theorem createDeal_distributes_shards nonce q fileCID client size days data out w :
    let ss := shard_size (length data) in
    let sel := online_providers (w_now w) (w_db w) in
    let dealId := created_id (w_now w) nonce in
    let rows := new_shards dealId client sel ss out (w_now w) in
    no_faults w → w_ipfs w !! fileCID = Some data → encodes ss (code_buffer data) out →
    q_fileCID q = Some fileCID → fileCID ≠ "" → q_clientAddress q = Some client → client ≠ "" →
    q_sizeGB q = Some size → num_falsy size = false →
    num_to_Z (num_or (q_durationDays q) (num_of_Z 30)) = Some days →
    takes_deal (w_schema w) (w_db w) dealId sel →
    sel ≠ [] → NoDup (map (λ p, toLowerCase (p_address p)) sel) →
    ∃ b w', createDeal nonce q w = (Ok (Resp 200 b), w') ∧
      shards (w_db w') = shards (w_db w) ++ rows ∧
      (∀ i, (i < TOTAL_SHARDS)%nat →
         w_ipfs w' !! cid_of (shard_at ss out i) = Some (shard_at ss out i)) ∧
      ∀ p, p ∈ sel →
        let mine := where_ (λ s, same_text (s_provider_address s) (toLowerCase (p_address p))) rows in
        Emit (ToRoom ("provider-rpc:" +:+ toLowerCase (p_address p))) "shard:assigned"
             (JObj [("dealId", JStr dealId); ("shardCIDs", json_strs (map s_shard_cid mine))])
          ∈ w_emits w' ∧
        ∀ p', p' ∈ sel →
          (length mine ≤ length (where_ (λ s, same_text (s_provider_address s)
                                                (toLowerCase (p_address p'))) rows) + 1)%nat.
Proof.
    intros ss sel dealId rows Hw Hc He Hf Hfne Hcl Hclne Hsz Hszf Hdays Htake Hsel Haddr.
    destruct (createDeal_run nonce q fileCID client size days data out w Hw Hc He Hf Hfne Hcl Hclne
                Hsz Hszf Hdays Htake Hsel Haddr) as (b & deal & ev & w' & Hrun & _ & _ & _ & _ & _ & Hsh & Hipfs & Hem).
    exists b, w'. split_and!; [done|done| |].
    - intros i Hi. rewrite Hipfs. apply store_all_lookup.
      apply list_elem_of_fmap. exists i. split; [done|]. apply elem_of_seq. lia.
    - intros p Hp mine. split.
      + rewrite Hem, !elem_of_app. right. right. apply list_elem_of_fmap. exists p. split; [|done].
        apply list_elem_of_lookup in Hp as [j Hj]. subst mine rows.
        fold (shards_of dealId client sel ss out (w_now w) p).
        rewrite <- (assigned_to_rows dealId client sel ss out (w_now w) Hsel Haddr p j Hj).
        by rewrite map_map.
      + intros p' Hp'. subst mine rows.
        apply (shards_of_balanced dealId client sel ss out (w_now w) Hsel Haddr p p' Hp Hp').
  Qed.

(** ** Download *)

Lemma map_each_cat (content : shard_row → bytes) rows w :
    no_faults w → (∀ s, s ∈ rows → w_ipfs w !! s_shard_cid s = Some (content s)) →
    map_each rows (λ s, cat_file (s_shard_cid s)) w = (Ok (map content rows), w).
Proof.
    intros Hw. induction rows as [|s rows IH]; intros Hc; simpl; [done|].
    erewrite bind_ok.
    2: { unfold cat_file. erewrite bind_ok; [|apply ipfs_cat_run; [done|apply Hc; set_solver]].
         by rewrite chunks_concat. }
    by erewrite bind_ok; [|apply IH; set_solver].
  Qed.

(** Download without the original file: the fallback answers 200 with the
      concatenation of the data shards that are still active, however many there are;
      with fewer than ten of them, or with a length that is not a multiple of ten,
      that is not the file. *)
Theorem download_fallback_content dealId deal rest (content : shard_row → bytes) ss data w :
    no_faults w →
    where_ (λ r, same_text (d_deal_id r) dealId) (deals (w_db w)) = deal :: rest →
    w_ipfs w !! d_file_cid deal = None →
    let rows := data_shards dealId (w_db w) in
    rows ≠ [] →
    (∀ s, s ∈ rows → w_ipfs w !! s_shard_cid s = Some (content s) ∧ length (content s) = ss) →
    ∃ hs w', downloadDeal dealId w = (Ok (Resp 200 (BFile hs (concat (map content rows)))), w') ∧
      (length rows * ss ≠ length data → concat (map content rows) ≠ data)%nat.
Proof.
    intros Hw Hrows Hno rows Hne Hc. unfold downloadDeal, try_catch.
    rewrite (bind_ok _ _ _ _ _ (select_ok _ w Hw)), Hrows.
    set (w1 := with_api_ipfs true w). assert (Hw1 : no_faults w1) by done.
    rewrite (bind_ok _ _ w None w1).
    2: { rewrite (bind_ok _ _ _ _ _ (getIpfs_run w Hw)). fold w1.
         erewrite bind_throw; [done|]. unfold cat_file. apply bind_throw.
         unfold ipfs_cat. rewrite (bind_ok _ _ _ _ _ (external_ok w1 Hw1)). running. by rewrite Hno. }
    rewrite (bind_ok _ _ _ _ _ (select_ok _ w1 Hw1)). change (w_db w1) with (w_db w). fold rows.
    destruct (length rows =? 0)%nat eqn:E; [by apply Nat.eqb_eq, length_zero_iff_nil in E|].
    rewrite (bind_ok _ _ _ _ _ (getIpfs_run w1 Hw1)).
    erewrite bind_ok; [|apply (map_each_cat content)]; [|done|intros s Hs; by apply Hc].
    eexists _, _. split; [reflexivity|]. intros Hlen Heq. apply Hlen. rewrite <- Heq.
    assert (Hall : ∀ s, s ∈ rows → length (content s) = ss) by (intros s Hs; by apply Hc).
    clear -Hall. induction rows as [|s rows IH]; simpl; [done|].
    rewrite length_app, (Hall s) by set_solver. rewrite IH by set_solver. done.
  Qed.
End CreateClaim.

(** * Witnesses *)

(** A signature scheme in which the signature names the signer. *)
Definition demo_verify (msg sig : string) : option string := Some sig.

Definition demo_deal : deal_row :=
  Deal "D1" "0xc" "file" (num_of_Z 1) 30 (num_lit 1 2) (num_lit 1 2) (num_lit 3 4) "active" true
       None None None 0 None None false.
Definition demo_row (prov : string) (i : Z) (cid : string) : shard_row :=
  Shard "D1" prov i cid (Some 4) None (Some true) true 0 None None.
Definition demo_online (addr : string) : provider_row :=
  Provider addr "12D3Koo" None "us-east" 60 true (Some 999000) None 0 (num_of_Z 0) (num_of_Z 0).

Definition demo_api : world :=
  World (Db [demo_online "0xa"; demo_online "0xb"] [] [demo_deal]
            [demo_row "0xa" 0 "c0"; demo_row "0xb" 1 "c1"] [] [] [] [] [] [] [] [])
        None (<["c0" := [Byte.x01]]> (<["c1" := [Byte.x02]]> ∅)) 1000000 [] [] [] (true, true) false
        false (Schema true true false false).

Lemma cancel_requires_owner_witness :
  ∃ deal signer, deal ∈ deals (w_db demo_api) ∧ d_deal_id deal = "D1" ∧
    d_status deal ∈ ["active"; "in_grace_period"] ∧
    demo_verify ("cancel-deal-" +:+ "D1") (default "" (Some "0xC")) = Some signer ∧
    toLowerCase signer = toLowerCase (d_client_address deal).
Proof.
  apply (cancel_requires_owner demo_verify "D1" (Some "0xC") (Some "0xC") demo_api).
  intros H. apply (f_equal (map d_status ∘ deals)) in H. vm_compute in H. discriminate H.
Defined.

Lemma store_key_requires_owner_witness :
  let r := Deal "D1" "0xc" "file" (num_of_Z 1) 30 (num_lit 1 2) (num_lit 1 2) (num_lit 3 4) "active" true
                (Some "k") (Some "iv") (Some "tag") 0 None None false in
  d_deal_id r = "D1" ∧
  ∃ signer, demo_verify ("store-key-" +:+ "D1") (default "" (Some "0xC")) = Some signer ∧
            d_client_address r = toLowerCase signer.
Proof.
  intros r. apply (store_key_requires_owner demo_verify "D1" (Some "k") (Some "iv") (Some "tag")
                     (Some "0xC") (Some "0xC") demo_api r).
  - vm_compute. by left.
  - intros H. apply list_elem_of_In in H. vm_compute in H. destruct H as [H|[]]. discriminate H.
Defined.

Lemma key_roundtrip_witness :
  let w1 := snd (postKey demo_verify "D1" (Some "k") (Some "iv") (Some "tag") (Some "0xC") (Some "0xC")
                   demo_api) in
  fst (getKey "D1" w1)
  = Ok (Resp 200 (BJson (JObj [("is_encrypted", JBool true); ("encrypted_key", JStr "k");
         ("encryption_iv", JStr "iv"); ("encryption_auth_tag", JStr "tag");
         ("client_address", JStr "0xc")]))).
Proof. by apply (key_roundtrip demo_verify "D1" "k" "iv" "tag" "0xC" "0xC" "0xC" demo_deal demo_api). Defined.

Lemma cancel_reaches_providers_witness :
  ∃ b w', deleteDeal demo_verify "D1" (Some "0xC") (Some "0xC") demo_api = (Ok (Resp 200 b), w') ∧
    (∀ s, s ∈ shards (w_db w') → s_deal_id s = "D1" → s_active s = false).
Proof.
  destruct (cancel_reaches_providers demo_verify "D1" "0xC" "0xC" "0xC" demo_deal [] demo_api)
    as (b & w' & Hrun & Hoff & _); try done; [by left|by right|].
  exists b, w'. split; [exact Hrun | exact Hoff].
Defined.

Lemma cancel_not_atomic_witness :
  let w := with_faults [None; None; Some (Error "connection lost")] demo_api in
  ∃ w', deleteDeal demo_verify "D1" (Some "0xC") (Some "0xC") w
        = (Ok (Resp 500 (BError "Internal server error")), w') ∧ ¬ closed (w_db w').
Proof.
  apply (cancel_not_atomic demo_verify "D1" "0xC" "0xC" "0xC" demo_deal []
           (with_faults [None; None; Some (Error "connection lost")] demo_api)
           eq_refl ltac:(by left) ltac:(done) ltac:(done) eq_refl eq_refl
           (Error "connection lost") [] (demo_row "0xa" 0 "c0")); try done.
  by left.
Defined.

Lemma expiration_completes_deals_witness :
  let w := with_now 3000000000 demo_api in
  ∃ w', expirationCheck false w = (Ok tt, w') ∧ expired_deals 3000000000 (w_db w') = [] ∧
        length (expired_deals 3000000000 (w_db w)) = 1%nat.
Proof.
  destruct (expiration_completes_deals false (with_now 3000000000 demo_api)) as (w' & Hrun & Hnone & _);
    [by right|done|done|].
  exists w'. split; [exact Hrun|]. split; [exact Hnone|]. by vm_compute.
Defined.

Lemma heartbeat_marks_online_witness :
  ∃ b w', postHeartbeat demo_verify (Some "0xA") (Some "0xA") None demo_api = (Ok (Resp 200 b), w') ∧
    (∀ p, p ∈ providers (w_db w') → p_address p = "0xa" →
          p_active p = true ∧ p_last_heartbeat p = Some 1000000 ∧ p_peer_id p = "pending").
Proof.
  destruct (heartbeat_marks_online demo_verify "0xA" "0xA" "0xA" demo_api)
    as (b & w' & Hrun & _ & Hp & _); try done.
  exists b, w'. split; [exact Hrun | exact Hp].
Defined.

Definition demo_request : create_request :=
  CreateReq (Some "file") None (Some (num_of_Z 1)) None None (Some "0xC") false.
Definition demo_create : world :=
  World (Db [demo_online "0xa"; demo_online "0xB"] [] [] [] [] [] [] [] [] [] [] [])
        None {[ "file" := demo_file ]} 1000000 [] [] [] (true, true) false
        false (Schema true true false false).

(** Fifteen providers, and every constraint of the committed tables. *)
Definition demo_fifteen : world :=
  World (Db (map (λ i, demo_online ("0xa" +:+ pretty i)) (seq 0 15)) [] [] [] [] [] [] [] [] [] [] [])
        None {[ "file" := demo_file ]} 1000000 [] [] [] (true, true) false
        false (Schema true false true true).

Lemma createDeal_distributes_shards_witness :
  ∃ b w', @createDeal raw_ipfs xor_codec "00ff" demo_request demo_fifteen = (Ok (Resp 200 b), w') ∧
    length (shards (w_db w')) = 15%nat ∧
    map s_provider_address (take 3 (shards (w_db w'))) = ["0xa0"; "0xa1"; "0xa2"].
Proof.
  destruct (@createDeal_distributes_shards raw_ipfs raw_ipfs_laws xor_codec "00ff" demo_request "file"
              "0xC" (num_of_Z 1) 30 demo_file demo_out demo_fifteen)
    as (b & w' & Hrun & Hsh & _).
  - reflexivity.
  - reflexivity.
  - split_and!; vm_compute; reflexivity.
  - reflexivity.
  - discriminate.
  - reflexivity.
  - discriminate.
  - reflexivity.
  - reflexivity.
  - vm_compute. reflexivity.
  - split; [reflexivity|]. split.
    + intros _. split; [vm_compute; lia|]. intros s Hs. by apply elem_of_nil in Hs.
    + intros _. apply (bool_decide_unpack _). vm_compute. exact I.
  - vm_compute. discriminate.
  - apply (bool_decide_unpack _). vm_compute. exact I.
  - exists b, w'. split; [exact Hrun|]. rewrite Hsh. split; vm_compute; reflexivity.
Defined.

(** With the key (deal_id, provider_address) two providers do not suffice: the third
    shard is refused, the route answers 500, and the deal stays with two shards. *)
Definition demo_keyed : world :=
  World (Db [demo_online "0xa"; demo_online "0xb"] [] [] [] [] [] [] [] [] [] [] [])
        None {[ "file" := demo_file ]} 1000000 [] [] [] (true, true) false
        false (Schema true false true true).
Example second_round_refused :
  let '(r, w') := @createDeal raw_ipfs xor_codec "00ff" demo_request demo_keyed in
  r = Ok (Resp 500 (BError "Failed to create deal: duplicate key value violates unique constraint shards_pkey")) ∧
  map d_status (deals (w_db w')) = ["active"] ∧ length (shards (w_db w')) = 2%nat.
Proof. by vm_compute. Qed.

Lemma download_fallback_content_witness :
  ∃ hs w', @downloadDeal raw_ipfs "D1" demo_api = (Ok (Resp 200 (BFile hs [Byte.x01; Byte.x02])), w').
Proof.
  destruct (@download_fallback_content raw_ipfs raw_ipfs_laws "D1" demo_deal []
              (λ s, if same_text (s_shard_cid s) "c0" then [Byte.x01] else [Byte.x02]) 1 [] demo_api)
    as (hs & w' & Hrun & _); try done.
  - intros s Hs. apply list_elem_of_In in Hs. vm_compute in Hs. by destruct Hs as [<-|[<-|[]]].
  - exists hs, w'. exact Hrun.
Defined.
