(* ===== verification/Relay.v ===== *)
(** The WebSocket relay of the REST API
    (src/incentive-layer/api/rest-api/src/server.ts, the connection handler and
    the peer-id route).

    [providerSockets] is a JavaScript Map: entries in insertion order, and setting
    an existing key keeps its place.  Rooms are Socket.IO's: a socket leaves all
    its rooms when it disconnects. *)

From S2P Require Import Prelude JsNum World RestApi.

Local Open Scope Z_scope.

Record relay : Type := Relay {
  providerSockets : list (string * string);   (* address, socket id *)
  rooms : list (string * string);             (* room, socket id *)
  relay_emits : list emitted
}.

Definition rpc_room (address : string) : string := "provider-rpc:" +:+ address.

(** [map.set(k, v)] *)
Definition map_set (k v : string) (m : list (string * string)) : list (string * string) :=
  if bool_decide (k ∈ map fst m) then
    map (λ e, if bool_decide (fst e = k) then (k, v) else e) m
  else m ++ [(k, v)].

(** [socket.join(room)] *)
Definition join_room (room socket : string) (rs : list (string * string)) : list (string * string) :=
  if bool_decide ((room, socket) ∈ rs) then rs else rs ++ [(room, socket)].

Definition status_message (address : string) (online : bool) : emitted :=
  Emit ToAll "provider:status" (JObj [("address", JStr address); ("online", JBool online)]).

(** 'register:provider'; [address] is [data && data.address]. *)
Definition registerProvider (socket : string) (address : option string) (r : relay) : relay :=
  if truthy address then
    let providerAddress := toLowerCase (default "" address) in
    Relay (map_set providerAddress socket (providerSockets r))
          (join_room (rpc_room providerAddress) socket (rooms r))
          (relay_emits r ++ [status_message providerAddress true])
  else r.

(** 'subscribe:deal' and 'subscribe:provider' *)
Definition subscribeDeal (socket dealId : string) (r : relay) : relay :=
  Relay (providerSockets r) (join_room ("deal:" +:+ dealId) socket (rooms r)) (relay_emits r).
Definition subscribeProvider (socket address : string) (r : relay) : relay :=
  Relay (providerSockets r) (join_room ("provider:" +:+ address) socket (rooms r)) (relay_emits r).

(** 'disconnect': the loop over the entries stops at the first match. *)
Fixpoint remove_first (socket : string) (m : list (string * string))
    : option string * list (string * string) :=
  match m with
  | [] => (None, [])
  | (address, id) :: m' =>
      if bool_decide (id = socket) then (Some address, m')
      else let '(found, rest) := remove_first socket m' in (found, (address, id) :: rest)
  end.

Definition disconnect (socket : string) (r : relay) : relay :=
  let '(found, entries) := remove_first socket (providerSockets r) in
  Relay entries (delete_where (λ e, bool_decide (snd e = socket)) (rooms r))
        (match found with
         | Some address => relay_emits r ++ [status_message address false]
         | None => relay_emits r
         end).

(** GET /api/providers/:address/rpc/peer-id.  [ask socket] is the answer of the
    provider daemon, or [None] when the acknowledgement timed out. *)
Definition rpcPeerId (ask : string → option json) (address : string) (r : relay) : response :=
  let address := toLowerCase address in
  match map snd (where_ (λ e, bool_decide (fst e = rpc_room address)) (rooms r)) with
  | [] => Resp 404 (BError "Provider is not currently connected to the relay")
  | clientSocket :: _ =>
      match ask clientSocket with
      | Some answer => Resp 200 (BJson answer)
      | None => Resp 504 (BError "Provider connected but failed to respond in time")
      end
  end.

Inductive relay_event : Type :=
| EvRegister (socket : string) (address : option string)
| EvSubscribeDeal (socket dealId : string)
| EvSubscribeProvider (socket address : string)
| EvDisconnect (socket : string).

Definition relay_step (e : relay_event) (r : relay) : relay :=
  match e with
  | EvRegister s a => registerProvider s a r
  | EvSubscribeDeal s d => subscribeDeal s d r
  | EvSubscribeProvider s a => subscribeProvider s a r
  | EvDisconnect s => disconnect s r
  end.

Definition relay_run (es : list relay_event) (r : relay) : relay := foldl (λ r e, relay_step e r) r es.

(** * Properties *)

(** Every registered socket is in the room of its address, an address has one
    entry, and a socket has one address. *)
Record consistent (r : relay) : Prop := {
  joined : ∀ a id, (a, id) ∈ providerSockets r → (rpc_room a, id) ∈ rooms r;
  keys_unique : NoDup (map fst (providerSockets r));
  one_each : ∀ a a' id, (a, id) ∈ providerSockets r → (a', id) ∈ providerSockets r → a = a'
}.

(** The events of clients that use one address per connection. *)
Definition one_address (e : relay_event) (r : relay) : Prop :=
  match e with
  | EvRegister s (Some a) => ∀ a', (a', s) ∈ providerSockets r → a' = toLowerCase a
  | _ => True
  end.

Lemma elem_of_map_set k v m a id :
  (a, id) ∈ map_set k v m → (a, id) = (k, v) ∨ (a ≠ k ∧ (a, id) ∈ m).
Proof.
  unfold map_set. case_bool_decide as Hk.
  - rewrite list_elem_of_fmap. intros ([a' id'] & Heq & Hin). simpl in Heq.
    case_bool_decide; [left; done|right]. injection Heq as -> ->. done.
  - rewrite elem_of_app, list_elem_of_singleton. intros [Hin|Heq]; [right|by left].
    split; [|done]. intros ->. apply Hk, list_elem_of_fmap. by exists (k, id).
Qed.

Lemma map_set_keys k v m : NoDup (map fst m) → NoDup (map fst (map_set k v m)).
Proof.
  intros Hnd. unfold map_set. case_bool_decide as Hk.
  - rewrite map_map. erewrite map_ext; [exact Hnd|]. intros [a id]. simpl. by case_bool_decide.
  - rewrite map_app. apply NoDup_app. split; [done|]. split; [|apply NoDup_singleton]. set_solver.
Qed.

Lemma elem_of_join room socket rs e : e ∈ join_room room socket rs ↔ e ∈ rs ∨ e = (room, socket).
Proof. unfold join_room. case_bool_decide; rewrite ?elem_of_app, ?list_elem_of_singleton; naive_solver. Qed.

Lemma remove_first_spec socket m found m' :
  remove_first socket m = (found, m') →
  m' `sublist_of` m ∧
  match found with
  | Some a => (a, socket) ∈ m ∧ (NoDup (map fst m) → a ∉ map fst m')
  | None => ∀ a, (a, socket) ∉ m
  end.
Proof.
  revert found m'. induction m as [|[a id] m IH]; intros found m'; simpl.
  { intros [= <- <-]. split; [done|]. set_solver. }
  case_bool_decide as Hid.
  - intros [= <- <-]. subst id. split; [by apply sublist_cons|]. split; [set_solver|].
    intros Hnd. by apply NoDup_cons in Hnd as [? _].
  - destruct (remove_first socket m) as [f rest] eqn:E. intros [= <- <-].
    destruct (IH f rest eq_refl) as [Hsub Hf]. split; [by apply sublist_skip|].
    destruct f as [b|]; [|set_solver]. destruct Hf as [Hin Hnd]. split; [set_solver|].
    intros Hn. apply NoDup_cons in Hn as [Hna Hn]. simpl. apply not_elem_of_cons. split; [|by apply Hnd].
    intros ->. apply Hna. apply list_elem_of_fmap. by exists (a, socket).
Qed.

Lemma register_consistent s a r :
  one_address (EvRegister s (Some a)) r → consistent r → consistent (registerProvider s (Some a) r).
Proof.
  intros Hone [Hj Hk Hu]. unfold registerProvider. destruct (truthy (Some a)); [|done].
  simpl in Hone. cbn [from_option id]. set (k := toLowerCase a) in *. split; simpl.
  - intros b id Hin. apply elem_of_join. apply elem_of_map_set in Hin as [[= -> ->]|[_ Hin]]; auto.
  - by apply map_set_keys.
  - intros b b' id Hb Hb'. apply elem_of_map_set in Hb, Hb'.
    destruct Hb as [[= -> ->]|[Hne Hb]], Hb' as [[= ->]|[Hne' Hb']]; subst; try done.
    + by rewrite (Hone b' Hb').
    + by rewrite (Hone b Hb).
    + by apply (Hu b b' id).
Qed.

Lemma disconnect_consistent s r :
  consistent r → consistent (disconnect s r) ∧ ∀ a, (a, s) ∉ providerSockets (disconnect s r).
Proof.
  intros [Hj Hk Hu]. unfold disconnect.
  destruct (remove_first s (providerSockets r)) as [found m'] eqn:E.
  apply remove_first_spec in E as [Hsub Hf]. simpl.
  assert (Hin : ∀ e, e ∈ m' → e ∈ providerSockets r) by (intros e He; by eapply elem_of_sublist).
  assert (Hgone : ∀ a, (a, s) ∉ m').
  { intros a Ha. destruct found as [b|]; [|by apply (Hf a), Hin].
    destruct Hf as [Hb Hnd]. rewrite (Hu a b s (Hin _ Ha) Hb) in Ha.
    apply (Hnd Hk). apply list_elem_of_fmap. by exists (b, s). }
  split; [split; simpl|done].
  - intros a id Ha. apply elem_of_delete_where. split; [by apply Hj, Hin|].
    apply bool_decide_eq_false. simpl. intros ->. by apply (Hgone a).
  - eapply sublist_NoDup; [exact Hk|]. by apply fmap_sublist.
  - intros a a' id Ha Ha'. by apply (Hu a a' id); apply Hin.
Qed.

Lemma relay_step_consistent e r : one_address e r → consistent r → consistent (relay_step e r).
Proof.
  intros Hone Hr. destruct e as [s [a|]|s d|s a|s]; simpl.
  - by apply register_consistent.
  - done.
  - destruct Hr as [Hj Hk Hu]. split; simpl; [|done|done]. intros a id Ha. apply elem_of_join. auto.
  - destruct Hr as [Hj Hk Hu]. split; simpl; [|done|done]. intros a' id Ha. apply elem_of_join. auto.
  - by apply disconnect_consistent.
Qed.

(** The events are admissible one after the other. *)
Fixpoint one_address_run (es : list relay_event) (r : relay) : Prop :=
  match es with
  | [] => True
  | e :: es' => one_address e r ∧ one_address_run es' (relay_step e r)
  end.

Lemma rpc_reaches ask a id r :
  (rpc_room (toLowerCase a), id) ∈ rooms r → r_code (rpcPeerId ask a r) ≠ 404.
Proof.
  intros Hin. unfold rpcPeerId.
  assert (Hm : id ∈ map snd (where_ (λ e, bool_decide (fst e = rpc_room (toLowerCase a))) (rooms r))).
  { apply list_elem_of_fmap. exists (rpc_room (toLowerCase a), id). split; [done|].
    apply elem_of_where. split; [done|]. by apply bool_decide_eq_true. }
  destruct (map snd _) as [|c cs]; [by apply elem_of_nil in Hm|]. by destruct (ask c).
Qed.

(** The relay keeps its books when every connection registers one address: after
    any events, a provider listed in [providerSockets] is reachable by the peer-id
    route (it never answers 404 for it), and a disconnected socket is listed nowhere. *)
Theorem relay_lists_reachable_providers es :
  one_address_run es (Relay [] [] []) →
  let r := relay_run es (Relay [] [] []) in
  (∀ ask a id, (a, id) ∈ providerSockets r → toLowerCase a = a → r_code (rpcPeerId ask a r) ≠ 404) ∧
  (∀ s a, (a, s) ∉ providerSockets (disconnect s r)).
Proof.
  intros Hes r. assert (Hc : consistent r).
  { subst r. assert (H0 : consistent (Relay [] [] [])) by (split; simpl; [set_solver|constructor|set_solver]).
    revert Hes H0. generalize (Relay [] [] []). induction es as [|e es IH]; intros r0 Hes H0; [done|].
    destruct Hes as [He Hes]. simpl. apply IH; [done|]. by apply relay_step_consistent. }
  split; [|intros s a; by apply disconnect_consistent].
  intros ask a id Ha Hlow. apply (rpc_reaches ask a id). rewrite Hlow. by apply (joined r Hc).
Qed.

Lemma relay_lists_reachable_providers_witness :
  let r := relay_run [EvRegister "s1" (Some "0xA"); EvRegister "s2" (Some "0xB"); EvDisconnect "s1"]
             (Relay [] [] []) in
  r_code (rpcPeerId (λ _, None) "0xb" r) ≠ 404.
Proof.
  assert (Hes : one_address_run
    [EvRegister "s1" (Some "0xA"); EvRegister "s2" (Some "0xB"); EvDisconnect "s1"] (Relay [] [] [])).
  { split; [|split; [|by split]]; intros a' Ha; apply list_elem_of_In in Ha; vm_compute in Ha;
      [done|]. destruct Ha as [[=]|[]]. }
  apply (proj1 (relay_lists_reachable_providers _ Hes) (λ _, None) "0xb" "s2").
  - vm_compute. by left.
  - reflexivity.
Defined.

(** A socket that registered two addresses leaves the second behind: after it
    disconnects, the second address is still listed with the dead socket, no offline
    message is sent for it, and the peer-id route answers 404. *)
Theorem second_address_goes_stale ask s a b :
  a ≠ "" → b ≠ "" → toLowerCase a ≠ toLowerCase b →
  let r := relay_run [EvRegister s (Some a); EvRegister s (Some b); EvDisconnect s] (Relay [] [] []) in
  providerSockets r = [(toLowerCase b, s)] ∧
  (status_message (toLowerCase b) false ∉ relay_emits r) ∧
  r_code (rpcPeerId ask b r) = 404.
Proof.
  intros Ha Hb Hne.
  assert (Hr : relay_run [EvRegister s (Some a); EvRegister s (Some b); EvDisconnect s] (Relay [] [] [])
    = Relay [(toLowerCase b, s)] []
        [status_message (toLowerCase a) true; status_message (toLowerCase b) true;
         status_message (toLowerCase a) false]).
  { destruct a as [|ca a], b as [|cb b]; try done. unfold relay_run. cbn [foldl relay_step].
    unfold registerProvider. cbn [truthy from_option id providerSockets rooms relay_emits].
    set (ka := toLowerCase (String ca a)) in *. set (kb := toLowerCase (String cb b)) in *.
    unfold map_set, join_room. cbn [map fst app].
    rewrite (bool_decide_false (ka ∈ [])) by set_solver.
    rewrite (bool_decide_false (_ ∈ [])) by set_solver. cbn [map fst app].
    rewrite (bool_decide_false (kb ∈ [ka])) by set_solver.
    rewrite (bool_decide_false (_ ∈ [(rpc_room ka, s)])).
    2: { rewrite list_elem_of_singleton. intros Heq. apply (f_equal fst) in Heq. simpl in Heq.
         unfold rpc_room in Heq. apply (inj (String.append _)) in Heq. congruence. }
    unfold disconnect. cbn [app remove_first providerSockets rooms relay_emits].
    rewrite (bool_decide_true (s = s)) by done. unfold delete_where. simpl.
    by rewrite !(bool_decide_true (s = s)) by done. }
  intros r. subst r. rewrite Hr. split; [done|]. split; [|done].
  simpl. rewrite !elem_of_cons. intros [[=]|[[=]|[[= Heq]|Hin]]]; [congruence|].
  by apply elem_of_nil in Hin.
Qed.

Lemma second_address_goes_stale_witness :
  let r := relay_run [EvRegister "s" (Some "0xA"); EvRegister "s" (Some "0xB"); EvDisconnect "s"]
             (Relay [] [] []) in
  providerSockets r = [("0xb", "s")] ∧
  (status_message "0xb" false ∉ relay_emits r) ∧
  r_code (rpcPeerId (λ _, None) "0xB" r) = 404.
Proof. by apply (second_address_goes_stale (λ _, None) "s" "0xA" "0xB"). Defined.
