(* ===== verification/Listener.v ===== *)
(** BlockchainListener: contract events written to the database
    (src/incentive-layer/services/blockchain-listener/src/index.ts; index.js beside it is
    an earlier compilation that no script runs).

    [chain_event] has a constructor per event of the six contracts and [handle]
    is the subscription table of [start]; addresses arrive as ethers spells them.
    Columns that the schema declares NOT NULL are not optional in the row types, so an
    INSERT that omits one cannot produce a row; keys, foreign keys and the widths of the
    columns the listener fills are checked as config/database-schema.sql declares them. *)

From S2P Require Import Prelude JsNum World HealthMonitor RestApi.

Local Open Scope Z_scope.

Inductive chain_event : Type :=
| DealCreated (dealId : Z) (client : string) (fileSizeGB totalCost : Z) (blockNumber : Z)
| ShardAssigned (dealId : Z) (provider : string) (shardIndex : Z) (shardCID : string)
| DealCompleted (dealId : Z)
| DealCancelled (dealId : Z) (client : string)
| ShardLost (dealId : Z) (provider : string) (shardIndex : Z)
| ProviderRegistered (provider peerId region : string)
| ReputationUpdated (provider : string) (newScore : Z) (reason : string)
| PledgeCreated (provider : string) (pledgeId capacityGB duration collateral : Z)
| PoStSubmitted (challengeId : Z) (provider : string)
| PoStMissed (challengeId : Z) (provider : string)
| ProviderSlashed (provider : string) (amount : Z) (reason : string)
| RewardsWithdrawn (provider : string) (amount : Z).

(** [try { await this.db.query(...) } catch (error) { log }] *)
Definition logged (m : M world unit) : M world unit := try_catch m (λ error, mret tt).

(** ** The constraints of the tables the listener fills *)

Definition too_long (n : Z) (s : string) : bool := n <? Z.of_nat (String.length s).
Definition int4 (n : Z) : bool := (-2147483648 <=? n) && (n <=? 2147483647).

(** providers: peer_id VARCHAR(100), region VARCHAR(50) *)
Definition provider_refused (peerId region : string) (sc : schema) (d : db) : option string :=
  if too_long 100 peerId then Some "value too long for type character varying(100)"
  else if too_long 50 region then Some "value too long for type character varying(50)"
  else None.

(** [FOREIGN KEY (provider_address) REFERENCES providers(address)] *)
Definition unknown_provider (provider : string) (sc : schema) (d : db) : option string :=
  if sc_foreign_keys sc && negb (known_provider provider d) then
    Some "insert violates foreign key constraint on provider_address"
  else None.

(** capacity_pledges: two INTEGER columns, the key, the foreign key *)
Definition pledge_refused (row : pledge_row) (sc : schema) (d : db) : option string :=
  if negb (int4 (pl_pledge_id row)) || negb (int4 (pl_duration_seconds row)) then Some "value out of range for type integer"
  else if existsb (λ r, same_text (pl_provider_address r) (pl_provider_address row)
                        && (pl_pledge_id r =? pl_pledge_id row)) (pledges d) then
    Some "duplicate key value violates unique constraint capacity_pledges_pkey"
  else unknown_provider (pl_provider_address row) sc d.

(** proof_misses: challenge_id VARCHAR(20), the foreign key *)
Definition miss_refused (provider challengeId : string) (sc : schema) (d : db) : option string :=
  if too_long 20 challengeId then Some "value too long for type character varying(20)"
  else unknown_provider provider sc d.

(** ** The handlers *)

(** The INSERT names neither [file_cid] nor [protocol_fee]. *)
Definition handleDealCreated (dealId : Z) (client : string) (fileSizeGB totalCost blockNumber : Z)
    : M world unit :=
  logged (query ;;
          throw (Error "null value in column file_cid of relation deals violates not-null constraint")).

Definition handleShardAssigned (dealId : Z) (provider : string) (shardIndex : Z) (shardCID : string)
    : M world unit :=
  logged (t ← now;
          add_shard (Shard (show_Z dealId) provider shardIndex shardCID None None None true t None None)).

Definition handleDealCompleted (dealId : Z) : M world unit :=
  logged (t ← now;
          exec (complete_deal (show_Z dealId) t) ;;
          exec_api "deleted_at" (deactivate_shards (show_Z dealId) t) ;;
          insert_event "DEAL_COMPLETED" ("Deal #" +:+ show_Z dealId +:+ " completed — shards marked for cleanup")
            (JObj [("dealId", JStr (show_Z dealId))]) ;;
          mret tt).

Definition handleDealCancelled (dealId : Z) (client : string) : M world unit :=
  logged (t ← now;
          exec_api "cancelled_at" (cancel_deal (show_Z dealId) t) ;;
          exec (deactivate_shards (show_Z dealId) t) ;;
          insert_event "DEAL_CANCELLED"
            ("Deal #" +:+ show_Z dealId +:+ " cancelled by client " +:+ String.substring 0 10 client +:+ "...")
            (JObj [("dealId", JStr (show_Z dealId)); ("client", JStr client)]) ;;
          mret tt).

Definition handleShardLost (dealId : Z) (provider : string) (shardIndex : Z) : M world unit :=
  logged (t ← now;
          exec (λ d, set_shards (update_where (shard_of (show_Z dealId) provider) (shard_lost t)
                                   (shards d)) d)).

(** [ON CONFLICT (address) DO NOTHING] *)
Definition insert_provider (row : provider_row) (d : db) : db :=
  if existsb (λ p, same_text (p_address p) (p_address row)) (providers d) then d
  else set_providers (providers d ++ [row]) d.

Definition registered_row (provider peerId region : string) (t : Z) : provider_row :=
  Provider (toLowerCase provider) peerId None region 50 true None None t (num_of_Z 0) (num_of_Z 0).

Definition handleProviderRegistered (provider peerId region : string) : M world unit :=
  logged (t ← now;
          insert_checked (provider_refused peerId region)
            (insert_provider (registered_row provider peerId region t))).

Definition set_score (newScore : Z) (p : provider_row) : provider_row :=
  Provider (p_address p) (p_peer_id p) (p_endpoint p) (p_region p) newScore (p_active p)
    (p_last_heartbeat p) (p_last_proof_at p) (p_registered_at p) (p_pledged_capacity_gb p) (p_used_gb p).

Definition handleReputationUpdated (provider : string) (newScore : Z) (reason : string) : M world unit :=
  logged (exec (λ d, set_providers
    (update_where (λ p, same_text (p_address p) provider) (set_score newScore) (providers d)) d)).

(** [utilization_gb] defaults to 0; a column the INSERT does not fill compares
    like 0 with what the repair service asks for. *)
Definition handlePledgeCreated (provider : string) (pledgeId capacityGB duration collateral : Z)
    : M world unit :=
  logged (t ← now;
          let row := Pledge provider pledgeId capacityGB duration collateral 0 0 true t None in
          insert_checked (pledge_refused row) (λ d, set_pledges (pledges d ++ [row]) d)).

Definition handlePoStSubmitted (challengeId : Z) (provider : string) : M world unit :=
  logged (t ← now;
          exec (λ d, set_providers
            (update_where (λ p, same_text (p_address p) provider)
               (λ p, Provider (p_address p) (p_peer_id p) (p_endpoint p) (p_region p)
                       (p_reputation_score p) (p_active p) (p_last_heartbeat p) (Some t)
                       (p_registered_at p) (p_pledged_capacity_gb p) (p_used_gb p))
               (providers d)) d)).

Definition handlePoStMissed (challengeId : Z) (provider : string) : M world unit :=
  logged (t ← now;
          insert_checked (miss_refused provider (show_Z challengeId))
            (λ d, set_proof_misses (proof_misses d ++ [ProofMiss provider (show_Z challengeId) t]) d)).

Definition handleProviderSlashed (provider : string) (amount : Z) (reason : string) : M world unit :=
  logged (t ← now;
          insert_checked (unknown_provider provider)
            (λ d, set_slashing_events (slashing_events d ++ [SlashingEvent provider amount reason t]) d)).

Definition handleRewardsWithdrawn (provider : string) (amount : Z) : M world unit :=
  logged (t ← now;
          insert_checked (unknown_provider provider)
            (λ d, set_withdrawals (withdrawals d ++ [Withdrawal provider amount t]) d)).

(** ** start: which handler runs on which event *)
Definition handle (e : chain_event) : M world unit :=
  match e with
  | DealCreated id c s t b => handleDealCreated id c s t b
  | ShardAssigned id p i c => handleShardAssigned id p i c
  | DealCompleted id => handleDealCompleted id
  | DealCancelled id c => handleDealCancelled id c
  | ShardLost id p i => handleShardLost id p i
  | ProviderRegistered p pe r => handleProviderRegistered p pe r
  | ReputationUpdated p s r => handleReputationUpdated p s r
  | PledgeCreated p i c d co => handlePledgeCreated p i c d co
  | PoStSubmitted c p => handlePoStSubmitted c p
  | PoStMissed c p => handlePoStMissed c p
  | ProviderSlashed p a r => handleProviderSlashed p a r
  | RewardsWithdrawn p a => handleRewardsWithdrawn p a
  end.

Definition handle_all (es : list chain_event) : M world unit := for_each es handle.

(** * Properties *)

Lemma logged_total m w : ∃ w', logged m w = (Ok tt, w').
Proof. unfold logged, try_catch. destruct (m w) as [[[]|e] w']; by eexists. Qed.

Lemma handle_total e w : ∃ w', handle e w = (Ok tt, w').
Proof. destruct e; apply logged_total. Qed.

(** An INSERT with constraints, while the database answers. *)
Lemma logged_insert refused (f : Z → db → db) w :
  db_answers w →
  logged (t ← now; insert_checked (refused t) (f t)) w
  = (Ok tt, match refused (w_now w) (w_schema w) (w_db w) with
            | Some _ => w
            | None => with_db (f (w_now w)) w
            end).
Proof.
  intros Hw. unfold logged, try_catch. rewrite (bind_ok now _ w (w_now w) w eq_refl).
  rewrite insert_checked_up by done. by destruct (refused _ _ _).
Qed.

(** The answers of the database leave only the tables of an event changed. *)
Definition handled (e : chain_event) (t : Z) (sc : schema) (d : db) : db :=
  match e with
  | DealCreated _ _ _ _ _ => d
  | ShardAssigned id p i c =>
      let row := Shard (show_Z id) p i c None None None true t None None in
      match shard_refused row sc d with Some _ => d | None => set_shards (shards d ++ [row]) d end
  | DealCompleted id =>
      if negb (sc_api_columns sc) then complete_deal (show_Z id) t d else
      let d := deactivate_shards (show_Z id) t (complete_deal (show_Z id) t d) in
      set_protocol_events (protocol_events d ++
        [Event "DEAL_COMPLETED" ("Deal #" +:+ show_Z id +:+ " completed — shards marked for cleanup")
           (JObj [("dealId", JStr (show_Z id))]) t]) d
  | DealCancelled id c =>
      if negb (sc_api_columns sc) then d else
      let d := deactivate_shards (show_Z id) t (cancel_deal (show_Z id) t d) in
      set_protocol_events (protocol_events d ++
        [Event "DEAL_CANCELLED" ("Deal #" +:+ show_Z id +:+ " cancelled by client " +:+ String.substring 0 10 c +:+ "...")
           (JObj [("dealId", JStr (show_Z id)); ("client", JStr c)]) t]) d
  | ShardLost id p _ => set_shards (update_where (shard_of (show_Z id) p) (shard_lost t) (shards d)) d
  | ProviderRegistered p peer region =>
      match provider_refused peer region sc d with
      | Some _ => d
      | None => insert_provider (registered_row p peer region t) d
      end
  | ReputationUpdated p n _ =>
      set_providers (update_where (λ r, same_text (p_address r) p) (set_score n) (providers d)) d
  | PledgeCreated p i cap dur coll =>
      let row := Pledge p i cap dur coll 0 0 true t None in
      match pledge_refused row sc d with Some _ => d | None => set_pledges (pledges d ++ [row]) d end
  | PoStSubmitted _ p =>
      set_providers (update_where (λ r, same_text (p_address r) p)
        (λ p, Provider (p_address p) (p_peer_id p) (p_endpoint p) (p_region p) (p_reputation_score p)
                (p_active p) (p_last_heartbeat p) (Some t) (p_registered_at p)
                (p_pledged_capacity_gb p) (p_used_gb p)) (providers d)) d
  | PoStMissed i p =>
      match miss_refused p (show_Z i) sc d with
      | Some _ => d
      | None => set_proof_misses (proof_misses d ++ [ProofMiss p (show_Z i) t]) d
      end
  | ProviderSlashed p n reason =>
      match unknown_provider p sc d with
      | Some _ => d
      | None => set_slashing_events (slashing_events d ++ [SlashingEvent p n reason t]) d
      end
  | RewardsWithdrawn p n =>
      match unknown_provider p sc d with
      | Some _ => d
      | None => set_withdrawals (withdrawals d ++ [Withdrawal p n t]) d
      end
  end.

(** While the database answers, every event has exactly the effect [handled]. *)
Lemma handle_run e w :
  db_answers w → handle e w = (Ok tt, with_db (handled e (w_now w) (w_schema w)) w).
Proof.
  intros Hw. assert (∀ d, d = w_db w → with_db (λ _, d) w = w) as Hsame by (intros d ->; by destruct w).
  destruct e; simpl.
  all: unfold handleDealCreated, handleShardAssigned, handleDealCompleted, handleDealCancelled, handleShardLost,
    handleProviderRegistered, handleReputationUpdated, handlePledgeCreated, handlePoStSubmitted, handlePoStMissed,
    handleProviderSlashed, handleRewardsWithdrawn, add_shard, insert_event.
  all: try (rewrite (logged_insert (λ t, _) (λ t, _) w Hw); unfold with_db; simpl;
            destruct (_ : option string); [by destruct w|done]).
  all: unfold logged, try_catch, exec, now; running; rewrite ?query_up by done; simpl; rewrite ?query_up by done; simpl.
  all: rewrite ?exec_api_run by done; try done.
  { by destruct w. }
  all: cbn [w_schema with_db]; destruct (sc_api_columns (w_schema w)) eqn:Hcol; simpl; rewrite ?query_up by done; simpl;
    unfold with_db, handled; rewrite Hcol; by destruct w.
Qed.

Lemma handle_answers e w : db_answers w → db_answers (snd (handle e w)).
Proof. intros Hw. by rewrite handle_run. Qed.

(** ** Closing a deal *)

(** A deal closed on the chain is closed in the database: while the database answers and
    has the columns cancelled_at and deleted_at, which the committed schema lacks, DealCompleted and DealCancelled close the row with the identifier of the event and
    leave none of its shards active. *)
Theorem chain_closing_closes dealId client w :
  db_answers w → has_api_columns w →
  let done_ := snd (handleDealCompleted dealId w) in
  let gone := snd (handleDealCancelled dealId client w) in
  (∀ r, r ∈ deals (w_db done_) → d_deal_id r = show_Z dealId → d_status r = "completed") ∧
  (∀ r, r ∈ deals (w_db gone) → d_deal_id r = show_Z dealId → d_status r = "cancelled") ∧
  (∀ s, s ∈ shards (w_db done_) ∨ s ∈ shards (w_db gone) → s_deal_id s = show_Z dealId → s_active s = false).
Proof.
  intros Hw Hcol done_ gone.
  assert (w_db done_ = handled (DealCompleted dealId) (w_now w) (w_schema w) (w_db w)) as Hd.
  { unfold done_. change (handleDealCompleted dealId) with (handle (DealCompleted dealId)). by rewrite handle_run. }
  assert (w_db gone = handled (DealCancelled dealId client) (w_now w) (w_schema w) (w_db w)) as Hg.
  { unfold gone. change (handleDealCancelled dealId client) with (handle (DealCancelled dealId client)).
    by rewrite handle_run. }
  rewrite Hd, Hg. unfold handled. rewrite Hcol. clear. simpl. split_and!.
  1-2: intros r; rewrite elem_of_update_where; intros (r0 & _ & ->); unfold same_text; by case_bool_decide.
  intros s [Hs|Hs]; apply elem_of_update_where in Hs as (s0 & _ & ->); unfold live_shard, same_text.
  all: destruct (bool_decide _ && _) eqn:E; [done|]; intros Hs0; by rewrite bool_decide_true in E.
Qed.

Lemma chain_closing_closes_witness :
  let w := with_db (λ d, set_shards [Shard "7" "0xa" 0 "c0" None None None true 0 None None] d) demo_api in
  map s_active (shards (w_db w)) = [true] ∧
  let done_ := snd (handleDealCompleted 7 w) in
  let gone := snd (handleDealCancelled 7 "0xc" w) in
  (∀ r, r ∈ deals (w_db done_) → d_deal_id r = "7" → d_status r = "completed") ∧
  (∀ r, r ∈ deals (w_db gone) → d_deal_id r = "7" → d_status r = "cancelled") ∧
  (∀ s, s ∈ shards (w_db done_) ∨ s ∈ shards (w_db gone) → s_deal_id s = "7" → s_active s = false).
Proof.
  intros w. split; [reflexivity|]. apply (chain_closing_closes 7 "0xc" w); [by right|reflexivity].
Defined.

(** On the committed schema, whose shards have no column deleted_at, DealCompleted closes
    the deal and then fails: its shards stay active. *)
Definition chain_deal : deal_row :=
  Deal "7" "0xc" "file" (num_of_Z 1) 30 (num_of_Z 1) (num_of_Z 1) (num_of_Z 0) "active" true None None None 0 None None false.
Example completion_on_committed_schema :
  let w := World (Db [] [] [chain_deal] [Shard "7" "0xa" 0 "c0" None None None true 0 None None]
                     [] [] [] [] [] [] [] []) None ∅ 0 [] [] [] (true, true) false false committed_schema in
  let w' := snd (handleDealCompleted 7 w) in
  map d_status (deals (w_db w')) = ["completed"] ∧ map s_active (shards (w_db w')) = [true].
Proof. split; reflexivity. Qed.

(** ** Registration *)

Lemma insert_provider_idemp row row' d :
  p_address row' = p_address row → insert_provider row' (insert_provider row d) = insert_provider row d.
Proof.
  intros Ha. unfold insert_provider. rewrite Ha. destruct (existsb _ (providers d)) eqn:E; [by rewrite E|]. simpl.
  rewrite existsb_app. simpl. unfold same_text at 2. rewrite bool_decide_true by done.
  by rewrite orb_true_r.
Qed.

(** A registration event delivered twice registers once: an event replayed after a
    reorganisation of the chain or a reconnect changes nothing. *)
Theorem registration_replay_harmless provider peerId region w :
  db_answers w →
  let w1 := snd (handleProviderRegistered provider peerId region w) in
  w_db (snd (handleProviderRegistered provider peerId region w1)) = w_db w1.
Proof.
  intros Hw. set (e := ProviderRegistered provider peerId region).
  change (w_db (snd (handle e (snd (handle e w)))) = w_db (snd (handle e w))).
  rewrite (handle_run e w Hw). cbn [snd]. rewrite handle_run by done. simpl.
  destruct (provider_refused peerId region (w_schema w) (w_db w)) eqn:E.
  - unfold provider_refused in *. destruct (too_long 100 _); [done|]. by destruct (too_long 50 _).
  - replace (provider_refused peerId region (w_schema w) (insert_provider _ (w_db w))) with (@None string)
      by (unfold provider_refused in *; destruct (too_long 100 _); [done|]; by destruct (too_long 50 _)).
    by apply insert_provider_idemp.
Qed.

Lemma registration_replay_harmless_witness :
  let w1 := snd (handleProviderRegistered "0xAB" "peer" "eu" demo_api) in
  map p_address (providers (w_db w1)) = ["0xa"; "0xb"; "0xab"] ∧
  w_db (snd (handleProviderRegistered "0xAB" "peer" "eu" w1)) = w_db w1.
Proof. split; [reflexivity|]. apply registration_replay_harmless. by right. Defined.

(** ** Capitals in addresses *)

(** Every row is stored under an address without capitals, as the listener and the API
    insert them. *)
Definition lower_rows (d : db) : Prop := Forall (λ p, toLowerCase (p_address p) = p_address p) (providers d).

Lemma unmatched_address a d :
  lower_rows d → toLowerCase a ≠ a → ∀ p, p ∈ providers d → same_text (p_address p) a = false.
Proof.
  intros Hd Ha p Hp. apply bool_decide_eq_false. intros <-. apply Ha.
  by apply (proj1 (Forall_forall _ _) Hd).
Qed.

Lemma update_unmatched {A} (p : A → bool) f l : (∀ x, x ∈ l → p x = false) → update_where p f l = l.
Proof.
  intros H. unfold update_where. rewrite <- (map_id l) at 2. apply map_ext_in. intros x Hx.
  by rewrite H by (by apply list_elem_of_In).
Qed.

Lemma unmatched_unknown a d : lower_rows d → toLowerCase a ≠ a → known_provider a d = false.
Proof.
  intros Hd Ha. apply not_true_iff_false. intros (p & Hp & E)%existsb_exists. apply list_elem_of_In in Hp.
  pose proof (unmatched_address a d Hd Ha p Hp) as H. unfold same_text in H. congruence.
Qed.

(** The provider an event is about, as ethers spells it. *)
Definition about_provider (a : string) (e : chain_event) : Prop :=
  match e with
  | ReputationUpdated p _ _ | PledgeCreated p _ _ _ _ | PoStSubmitted _ p | PoStMissed _ p
  | ProviderSlashed p _ _ | RewardsWithdrawn p _ => p = a
  | _ => False
  end.

(** The events of a provider whose checksummed address has a capital letter are lost:
    ProviderRegistered stores the address in lower case, the other handlers look for it as
    ethers spells it, and the foreign keys refuse the rows that mention it. *)
Theorem checksummed_events_are_lost a e w :
  db_answers w → sc_foreign_keys (w_schema w) = true → lower_rows (w_db w) → toLowerCase a ≠ a →
  about_provider a e → w_db (snd (handle e w)) = w_db w.
Proof.
  intros Hw Hfk Hd Ha He. rewrite handle_run by done. simpl.
  pose proof (unmatched_address a _ Hd Ha) as Hno. pose proof (unmatched_unknown a _ Hd Ha) as Hun.
  destruct e; simpl in He; try done; subst; simpl.
  1, 3: rewrite update_unmatched by done; by destruct (w_db w).
  all: unfold pledge_refused, miss_refused, unknown_provider; rewrite ?Hfk; simpl; rewrite ?Hun; simpl.
  - destruct (_ || _); [done|]. by destruct (existsb _ _).
  - by destruct (too_long _ _).
  - done.
  - done.
Qed.

Lemma checksummed_events_are_lost_witness :
  let w := snd (handleProviderRegistered "0xAb" "peer" "eu" (World empty_db None ∅ 1000 [] [] [] (true, true) true
                  false committed_schema)) in
  map p_address (providers (w_db w)) = ["0xab"] ∧
  w_db (snd (handle (ReputationUpdated "0xAb" 19 "missed") w)) = w_db w.
Proof.
  intros w. split; [reflexivity|].
  apply (checksummed_events_are_lost "0xAb" (ReputationUpdated "0xAb" 19 "missed") w); try done; [by right|].
  by repeat constructor.
Defined.

(** ** Slashing *)

(** Slashing of a provider, as the database adds it up. *)
Definition slashed_total (p : string) (d : db) : Z :=
  foldr Z.add 0 (map sl_amount (where_ (λ s, same_text (sl_provider_address s) p) (slashing_events d))).

Definition slashed_by (p : string) (e : chain_event) : Z :=
  match e with
  | ProviderSlashed q amount _ => if same_text q p then amount else 0
  | _ => 0
  end.

Lemma sum_app (xs ys : list Z) : foldr Z.add 0 (xs ++ ys) = foldr Z.add 0 xs + foldr Z.add 0 ys.
Proof. induction xs as [|x xs IH]; simpl; lia. Qed.

Lemma slashed_total_app p d row :
  slashed_total p (set_slashing_events (slashing_events d ++ [row]) d)
  = slashed_total p d + if same_text (sl_provider_address row) p then sl_amount row else 0.
Proof.
  unfold slashed_total. simpl. rewrite where_app, map_app, sum_app. unfold where_. simpl.
  destruct (same_text (sl_provider_address row) p); simpl; lia.
Qed.

(** No event removes a provider. *)
Lemma handled_known p e t sc d : known_provider p d = true → known_provider p (handled e t sc d) = true.
Proof.
  intros (r & Hr & Hp)%existsb_exists. apply bool_decide_eq_true in Hp. apply list_elem_of_In in Hr.
  assert (∀ d', (∃ r', r' ∈ providers d' ∧ p_address r' = p) → known_provider p d' = true) as Hk.
  { intros d' (r' & Hr' & Ha). apply existsb_exists. exists r'.
    split; [by apply list_elem_of_In|by apply bool_decide_eq_true]. }
  apply Hk. destruct e; simpl; repeat case_match; eauto.
  - unfold insert_provider. case_match; [eauto|]. exists r. simpl. rewrite elem_of_app. auto.
  - setoid_rewrite elem_of_update_where. eexists. split; [eexists; split; [exact Hr|reflexivity]|]. by case_match.
  - setoid_rewrite elem_of_update_where. eexists. split; [eexists; split; [exact Hr|reflexivity]|]. by case_match.
Qed.

Lemma handled_slashed p e t sc d :
  known_provider p d = true → slashed_total p (handled e t sc d) = slashed_total p d + slashed_by p e.
Proof.
  intros Hk. destruct e; simpl; try (repeat case_match; unfold insert_provider; repeat case_match;
    unfold slashed_total; simpl; lia).
  unfold unknown_provider. destruct (same_text provider p) eqn:E.
  - apply bool_decide_eq_true in E. subst. rewrite Hk, andb_false_r, slashed_total_app. simpl. unfold same_text.
    by rewrite bool_decide_true.
  - destruct (_ && _); [lia|]. rewrite slashed_total_app. simpl. rewrite E. lia.
Qed.

(** The listener keeps the books: whatever fails, it never dies on an event, so every
    later event is still handled; and while the database answers, the amounts recorded
    as slashed for a provider that has a row under the spelling of the events add up to
    exactly what the events announced. *)
Theorem listener_records_slashing es w :
  (∃ w', handle_all es w = (Ok tt, w')) ∧
  (db_answers w → ∀ p, known_provider p (w_db w) = true →
     slashed_total p (w_db (snd (handle_all es w)))
     = slashed_total p (w_db w) + foldr Z.add 0 (map (slashed_by p) es)).
Proof.
  split; [apply for_each_total, handle_total|]. intros Hw p Hk. revert w Hw Hk.
  induction es as [|e es IH]; intros w Hw Hk; simpl; [lia|]. unfold handle_all. simpl.
  rewrite (bind_ok _ _ _ _ _ (handle_run e w Hw)). fold (handle_all es).
  rewrite IH by (done || by apply handled_known). simpl. rewrite handled_slashed by done. lia.
Qed.

Lemma listener_records_slashing_witness :
  slashed_total "0xa" (w_db (snd (handle_all
    [ProviderSlashed "0xa" 5 "missed"; PoStMissed 1 "0xa"; ProviderSlashed "0xa" 7 "missed"] demo_api)))
  = 12.
Proof.
  rewrite (proj2 (listener_records_slashing
    [ProviderSlashed "0xa" 5 "missed"; PoStMissed 1 "0xa"; ProviderSlashed "0xa" 7 "missed"] demo_api)
    (or_intror eq_refl) "0xa" eq_refl).
  reflexivity.
Defined.
