(* ===== verification/Encrypt.v ===== *)
(** Client-side encryption of files
    (src/incentive-layer/dashboard/kyneto-encrypt-browser.js).

    AES-GCM and SHA-256 are the browser's Web Crypto API and the wallet is an
    extension: both are parameters, with the documented behaviour the module
    relies on as laws.  Keys, IVs and random bytes are arguments. *)

From S2P Require Import Prelude JsNum World ShardManager.

Local Open Scope Z_scope.

Definition IV_LENGTH : nat := 12.
Definition TAG_LENGTH : nat := 16.

(** [crypto.subtle]: encrypt appends the 16-byte tag; decrypt fails on a wrong tag. *)
Class WebCrypto : Type := {
  aes_gcm_encrypt : bytes → bytes → bytes → bytes;            (* key, iv, data *)
  aes_gcm_decrypt : bytes → bytes → bytes → option bytes;     (* key, iv, data with tag *)
  sha256 : bytes → bytes
}.

Class WebCryptoLaws `{WebCrypto} : Prop := {
  aes_gcm_inverse : ∀ k iv data, aes_gcm_decrypt k iv (aes_gcm_encrypt k iv data) = Some data;
  aes_gcm_length : ∀ k iv data, length (aes_gcm_encrypt k iv data) = (length data + TAG_LENGTH)%nat;
  sha256_length : ∀ b, length (sha256 b) = 32%nat
}.

(** * Hex utilities *)

Definition hex_char (n : Z) : Ascii.ascii :=
  Ascii.ascii_of_nat (Z.to_nat (if n <? 10 then 48 + n else 87 + n)).

Definition byte_to_Z (b : Byte.byte) : Z := Z.of_N (Byte.to_N b).
Definition Z_to_byte (z : Z) : Byte.byte := default Byte.x00 (Byte.of_N (Z.to_N (z mod 256))).

(** [b.toString(16).padStart(2, '0')] *)
Definition byte_to_hex (b : Byte.byte) : string :=
  let n := byte_to_Z b in String (hex_char (n / 16)) (String (hex_char (n mod 16)) EmptyString).

Definition arrayToHex (arr : bytes) : string := join "" (map byte_to_hex arr).

Definition hex_value (c : Ascii.ascii) : option Z :=
  let n := Z.of_nat (Ascii.nat_of_ascii c) in
  if (48 <=? n) && (n <=? 57) then Some (n - 48)
  else if (97 <=? n) && (n <=? 102) then Some (n - 87)
  else if (65 <=? n) && (n <=? 70) then Some (n - 55)
  else None.

Fixpoint parse_hex_digits (acc : option Z) (s : string) : option Z :=
  match s with
  | EmptyString => acc
  | String c s' =>
      match hex_value c with
      | Some d => parse_hex_digits (Some (default 0 acc * 16 + d)) s'
      | None => acc
      end
  end.

(** [parseInt(s, 16)]: white space, a sign, an optional 0x, the longest run of
    digits; [None] is NaN. *)
Definition strip_0x (s : string) : string :=
  match s with
  | String c (String x s') =>
      if bool_decide (c = Ascii.ascii_of_nat 48)
         && (bool_decide (x = Ascii.ascii_of_nat 120) || bool_decide (x = Ascii.ascii_of_nat 88))
      then s' else s
  | _ => s
  end.
Fixpoint parseInt16 (s : string) : option Z :=
  match s with
  | EmptyString => None
  | String c s' =>
      if is_space c then parseInt16 s'
      else if bool_decide (c = Ascii.ascii_of_nat 45) then Z.opp <$> parse_hex_digits None (strip_0x s')
      else if bool_decide (c = Ascii.ascii_of_nat 43) then parse_hex_digits None (strip_0x s')
      else parse_hex_digits None (strip_0x s)
  end.

(** [bytes[i / 2] = parseInt(hex.substr(i, 2), 16)] for even [i]: NaN is stored as
    0, numbers modulo 256; a last odd digit falls outside the array. *)
Fixpoint hexToArray (hex : string) : bytes :=
  match hex with
  | String a (String b rest) =>
      Z_to_byte (default 0 (parseInt16 (String a (String b EmptyString)))) :: hexToArray rest
  | _ => []
  end.

(** * Key wrapping *)

Definition newline : string := String (Ascii.ascii_of_nat 10) EmptyString.

Definition WRAP_MESSAGE : string :=
  "Kyneto Encryption Key Derivation v1" +:+ newline +:+ newline
  +:+ "Sign this message to encrypt/decrypt your files." +:+ newline
  +:+ "This does NOT cost any gas.".

(** A wallet: signs a message or throws (the user declined). *)
Definition wallet : Type := string → outcome string.

Section Encrypt.
  Context {crypto : WebCrypto}.

Definition deriveWrappingKey (w : wallet) : outcome bytes :=
    match w WRAP_MESSAGE with
    | Ok signature => Ok (sha256 (String.list_byte_of_string signature))
    | Throw e => Throw e
    end.

(** [wrapped[i] = rawAesKey[i] ^ wrappingKey[i % wrappingKey.length]]; the
      wrapping key is a digest, never empty. *)
Definition xor_with (wrappingKey rawAesKey : bytes) : bytes :=
    imap (λ i b, xor_byte b (default Byte.x00 (wrappingKey !! (i mod length wrappingKey)%nat))) rawAesKey.

Definition wrapKeyWithWallet (rawAesKey : bytes) (w : wallet) : outcome bytes :=
    match deriveWrappingKey w with
    | Ok wrappingKey => Ok (xor_with wrappingKey rawAesKey)
    | Throw e => Throw e
    end.

Definition unwrapKeyWithWallet (wrappedKey : bytes) (w : wallet) : outcome bytes :=
    wrapKeyWithWallet wrappedKey w.

Record encrypted_file : Type := EncryptedFile {
    ef_encryptedData : bytes;
    ef_encryptedKey : string;
    ef_iv : string;
    ef_authTag : string
  }.

(** ** encryptFile; [rawKey] and [iv] are the random AES key and IV. *)
Definition encryptFile (rawKey iv fileBuffer : bytes) (w : wallet) : outcome encrypted_file :=
    let encryptedBuffer := aes_gcm_encrypt rawKey iv fileBuffer in
    let n := (length encryptedBuffer - TAG_LENGTH)%nat in
    let encryptedData := take n encryptedBuffer in
    let authTag := drop n encryptedBuffer in
    match wrapKeyWithWallet rawKey w with
    | Throw e => Throw e
    | Ok encryptedKeyData =>
        Ok (EncryptedFile encryptedData (arrayToHex encryptedKeyData) (arrayToHex iv) (arrayToHex authTag))
    end.

(** [crypto.subtle.importKey('raw', ...)]: AES keys have 16, 24 or 32 bytes. *)
Definition importKey (rawKey : bytes) : outcome bytes :=
    if bool_decide (length rawKey ∈ [16; 24; 32])%nat then Ok rawKey
    else Throw (Error "AES key data must be 128 or 256 bits").

(** ** decryptFile *)
Definition decryptFile (encryptedData : bytes) (encryptedKeyHex ivHex authTagHex : string) (w : wallet)
      : outcome bytes :=
    match unwrapKeyWithWallet (hexToArray encryptedKeyHex) w with
    | Throw e => Throw e
    | Ok rawKey =>
        match importKey rawKey with
        | Throw e => Throw e
        | Ok aesKey =>
            match aes_gcm_decrypt aesKey (hexToArray ivHex) (encryptedData ++ hexToArray authTagHex) with
            | Some decrypted => Ok decrypted
            | None => Throw (Error "The operation failed for an operation-specific reason")
            end
        end
    end.
End Encrypt.

(** * Properties *)

Definition all_bytes : list Byte.byte :=
  omap (λ n, Byte.of_N (N.of_nat n)) (seq 0 256).

Lemma elem_of_all_bytes b : b ∈ all_bytes.
Proof.
  apply list_elem_of_omap. exists (N.to_nat (Byte.to_N b)). split.
  - apply elem_of_seq. pose proof (Byte.to_N_bounded b). lia.
  - rewrite N2Nat.id. apply Byte.of_to_N.
Qed.

Lemma check_bytes (P : Byte.byte → bool) : forallb P all_bytes = true → ∀ b, P b = true.
Proof. intros H b. rewrite forallb_forall in H. apply H, list_elem_of_In, elem_of_all_bytes. Qed.

Lemma xor_byte_twice a b : xor_byte (xor_byte a b) b = a.
Proof.
  assert (H : forallb (λ a, forallb (λ b, Byte.eqb (xor_byte (xor_byte a b) b) a) all_bytes) all_bytes
              = true) by (vm_compute; reflexivity).
  pose proof (check_bytes _ (check_bytes _ H a) b) as Hab. simpl in Hab. by apply Byte.byte_dec_bl.
Qed.

Lemma xor_byte_self a b : xor_byte a (xor_byte a b) = b.
Proof.
  assert (H : forallb (λ a, forallb (λ b, Byte.eqb (xor_byte a (xor_byte a b)) b) all_bytes) all_bytes
              = true) by (vm_compute; reflexivity).
  pose proof (check_bytes _ (check_bytes _ H a) b) as Hab. simpl in Hab. by apply Byte.byte_dec_bl.
Qed.

Lemma hex_byte_roundtrip b : Z_to_byte (default 0 (parseInt16 (byte_to_hex b))) = b.
Proof.
  assert (H : forallb (λ b, Byte.eqb (Z_to_byte (default 0 (parseInt16 (byte_to_hex b)))) b) all_bytes
              = true) by (vm_compute; reflexivity).
  apply Byte.byte_dec_bl. exact (check_bytes _ H b).
Qed.

Lemma join_empty_cons x xs : join "" (x :: xs) = x +:+ join "" xs.
Proof.
  destruct xs as [|y xs]; [|done]. change (x = x +:+ "").
  induction x as [|c x IH]; [done|]. change (String c x = String c (x +:+ "")). by rewrite <- IH.
Qed.

Lemma hexToArray_arrayToHex arr : hexToArray (arrayToHex arr) = arr.
Proof.
  unfold arrayToHex. induction arr as [|b arr IH]; [done|].
  cbn [map]. rewrite join_empty_cons.
  change (Z_to_byte (default 0 (parseInt16 (byte_to_hex b))) :: hexToArray (join "" (map byte_to_hex arr))
          = b :: arr).
  by rewrite hex_byte_roundtrip, IH.
Qed.

Lemma xor_with_length k r : length (xor_with k r) = length r.
Proof. unfold xor_with. by rewrite length_imap. Qed.

Lemma xor_with_twice k r : xor_with k (xor_with k r) = r.
Proof.
  apply list_eq. intros i. unfold xor_with. rewrite !list_lookup_imap.
  destruct (r !! i); [simpl; by rewrite xor_byte_twice|done].
Qed.

Section EncryptClaims.
  Context {crypto : WebCrypto} `{!WebCryptoLaws}.

Lemma encryptFile_opens rawKey iv file (w : wallet) signature :
    w WRAP_MESSAGE = Ok signature → length rawKey = 32%nat →
    ∃ e, encryptFile rawKey iv file w = Ok e ∧
         ∀ w' : wallet, w' WRAP_MESSAGE = Ok signature →
           decryptFile (ef_encryptedData e) (ef_encryptedKey e) (ef_iv e) (ef_authTag e) w' = Ok file.
Proof.
    intros Hsig Hlen. unfold encryptFile, decryptFile, unwrapKeyWithWallet, wrapKeyWithWallet, deriveWrappingKey.
    rewrite Hsig. eexists. split; [reflexivity|]. intros w' Hsig'. rewrite Hsig'.
    cbn [ef_encryptedData ef_encryptedKey ef_iv ef_authTag].
    rewrite !hexToArray_arrayToHex, xor_with_twice. unfold importKey.
    rewrite bool_decide_true by (rewrite Hlen; set_solver).
    by rewrite take_drop, aes_gcm_inverse.
  Qed.

(** Encryption round trip: a file encrypted in the dashboard, with its key wrapped
      by the wallet and everything passed on as hexadecimal text, decrypts to the
      same bytes with the same wallet. *)
Theorem encrypt_decrypt_roundtrip rawKey iv file (w : wallet) signature :
    w WRAP_MESSAGE = Ok signature → length rawKey = 32%nat →
    ∃ e, encryptFile rawKey iv file w = Ok e ∧
         decryptFile (ef_encryptedData e) (ef_encryptedKey e) (ef_iv e) (ef_authTag e) w = Ok file.
Proof.
    intros Hsig Hlen. destruct (encryptFile_opens rawKey iv file w signature Hsig Hlen) as (e & He & Hopen).
    exists e. split; [done|]. by apply Hopen.
  Qed.

(** Wrapping is not one-time: all files of a wallet are wrapped with the same pad,
      so whoever knows the AES key of one file (it was shared, say) recovers the AES key
      of every other file from the wrapped keys the API hands out, without the wallet. *)
Theorem wrapped_keys_share_a_pad rawKey1 rawKey2 wrapped1 wrapped2 (w : wallet) :
    wrapKeyWithWallet rawKey1 w = Ok wrapped1 → wrapKeyWithWallet rawKey2 w = Ok wrapped2 →
    length rawKey1 = 32%nat → length rawKey2 = 32%nat →
    xor_bytes wrapped2 (xor_bytes rawKey1 wrapped1) = rawKey2.
Proof.
    unfold wrapKeyWithWallet, deriveWrappingKey. destruct (w WRAP_MESSAGE) as [sig|]; [|done].
    set (pad := sha256 _). intros [= <-] [= <-] H1 H2.
    apply list_eq. intros i. unfold xor_bytes, xor_with.
    rewrite !lookup_zip_with, !list_lookup_imap.
    destruct (rawKey2 !! i) as [k2|] eqn:E2; [|done].
    apply lookup_lt_Some in E2 as Hi.
    destruct (lookup_lt_is_Some_2 rawKey1 i ltac:(lia)) as [k1 Hk1]. rewrite Hk1. simpl. f_equal.
    by rewrite xor_byte_self, xor_byte_twice.
  Qed.
End EncryptClaims.

(** A cipher and a digest that meet the laws, and a wallet. *)
Definition toy_crypto : WebCrypto := {|
  aes_gcm_encrypt := λ k iv data, data ++ replicate TAG_LENGTH Byte.x00;
  aes_gcm_decrypt := λ k iv data, Some (take (length data - TAG_LENGTH) data);
  sha256 := λ b, replicate 32 (default Byte.x07 (head b))
|}.

Lemma toy_crypto_laws : @WebCryptoLaws toy_crypto.
Proof.
  constructor; cbn [aes_gcm_encrypt aes_gcm_decrypt sha256 toy_crypto].
  - intros _ _ data. f_equal. rewrite length_app, length_replicate.
    replace (length data + TAG_LENGTH - TAG_LENGTH)%nat with (length data) by lia. apply take_app_length.
  - intros _ _ data. by rewrite length_app, length_replicate.
  - intros b. apply length_replicate.
Qed.

Definition toy_wallet : wallet := λ msg, Ok "0x5ig".

Lemma encrypt_decrypt_roundtrip_witness :
  ∃ e, @encryptFile toy_crypto (replicate 32 Byte.x2a) (replicate 12 Byte.x01) demo_file toy_wallet = Ok e ∧
       @decryptFile toy_crypto (ef_encryptedData e) (ef_encryptedKey e) (ef_iv e) (ef_authTag e) toy_wallet
       = Ok demo_file.
Proof.
  by apply (@encrypt_decrypt_roundtrip toy_crypto toy_crypto_laws (replicate 32 Byte.x2a)
              (replicate 12 Byte.x01) demo_file toy_wallet "0x5ig").
Defined.

Lemma wrapped_keys_share_a_pad_witness :
  ∃ wrapped1 wrapped2,
    @wrapKeyWithWallet toy_crypto (replicate 32 Byte.x2a) toy_wallet = Ok wrapped1 ∧
    @wrapKeyWithWallet toy_crypto (replicate 32 Byte.x11) toy_wallet = Ok wrapped2 ∧
    xor_bytes wrapped2 (xor_bytes (replicate 32 Byte.x2a) wrapped1) = replicate 32 Byte.x11.
Proof.
  eexists _, _. split; [reflexivity|]. split; [reflexivity|].
  by apply (@wrapped_keys_share_a_pad toy_crypto (replicate 32 Byte.x2a) (replicate 32 Byte.x11) _ _
              toy_wallet).
Defined.
