(* ===== verification/Auth.v ===== *)
(** The request-signing wrapper of the dashboard
    (src/incentive-layer/dashboard/kyneto-auth.js), and what it meets on both
    sides: the globals of app.js and the signature checks of the REST API.

    The wrapper replaces [window.fetch].  It reads [window.signer] and
    [window.userAddress]; app.js keeps these values in top-level [let] bindings.  A
    [let] at the top of a classic script lives in the global lexical environment,
    not on [window]; [realm] keeps the two apart. *)

From S2P Require Import Prelude JsNum World RestApi Encrypt.

Local Open Scope Z_scope.

(** * URL matching *)

(** The text up to and including the last slash, and what follows it. *)
Fixpoint last_slash (s : string) : option (string * string) :=
  match s with
  | EmptyString => None
  | String c s' =>
      match last_slash s' with
      | Some (p, q) => Some (String c p, q)
      | None => if bool_decide (c = Ascii.ascii_of_nat 47) then Some (String c EmptyString, s') else None
      end
  end.

Fixpoint ends_with (suffix s : string) : bool :=
  bool_decide (s = suffix) || match s with EmptyString => false | String _ s' => ends_with suffix s' end.

Fixpoint strip_suffix (suffix s : string) : option string :=
  if bool_decide (s = suffix) then Some EmptyString
  else match s with EmptyString => None | String c s' => String c <$> strip_suffix suffix s' end.

(** [url.match(/\/api\/deals\/([^/\?]+)$/)]: the segment holds no slash, so it is
    what follows the last one. *)
Definition cancelMatch (url : string) : option string :=
  match last_slash url with
  | Some (p, seg) =>
      if ends_with "/api/deals/" p && negb (bool_decide (seg = EmptyString)) && negb (includes "?" seg)
      then Some seg else None
  | None => None
  end.

(** [url.match(/\/api\/deals\/([^/\?]+)\/key$/)] *)
Definition keyMatch (url : string) : option string := strip_suffix "/key" url ≫= cancelMatch.

(** * Requests *)

Inductive raw_body : Type := RawJson (j : json) | RawText (s : string).

Record fetch_options : Type := Options {
  fo_method : option string;
  fo_headers : list (string * string);
  fo_body : option raw_body
}.

Definition upper_ascii (c : Ascii.ascii) : Ascii.ascii :=
  let n := Ascii.nat_of_ascii c in
  if (97 <=? n)%nat && (n <=? 122)%nat then Ascii.ascii_of_nat (n - 32) else c.
Fixpoint toUpperCase (s : string) : string :=
  match s with EmptyString => EmptyString | String c s' => String (upper_ascii c) (toUpperCase s') end.

(** Setting a property of an object literal: in place, or at the end. *)
Fixpoint set_field {A} (k : string) (v : A) (fields : list (string * A)) : list (string * A) :=
  match fields with
  | [] => [(k, v)]
  | (k', v') :: rest => if bool_decide (k' = k) then (k, v) :: rest else (k', v') :: set_field k v rest
  end.

Definition get_field {A} (k : string) (fields : list (string * A)) : option A :=
  snd <$> find_first (λ f, bool_decide (fst f = k)) fields.

(** The properties of [window] the wrapper reads. *)
Record window : Type := Window {
  win_signer : option wallet;
  win_userAddress : option string
}.

Definition getSignature (win : window) (message : string) : outcome string :=
  match win_signer win with
  | None => Throw (Error "Wallet not connected. Please connect your wallet first.")
  | Some signMessage => signMessage message
  end.

(** [bodyObj.signature = signature], in strict mode: an object takes the property,
    an array takes it but does not serialise it, a primitive throws. *)
Definition sign_body (bodyObj : json) (signature : string) : outcome json :=
  match bodyObj with
  | JObj fields => Ok (JObj (set_field "signature" (JStr signature) fields))
  | JArr xs => Ok (JArr xs)
  | _ => Throw (Error "Cannot create property 'signature'")
  end.

(** ** The wrapper: what reaches the original fetch, or the rejection *)
Definition signed_fetch (win : window) (url : string) (options : option fetch_options)
    : outcome (string * fetch_options) :=
  let options := default (Options None [] None) options in
  let method := toUpperCase (if truthy (fo_method options) then default "" (fo_method options) else "GET") in
  let json_headers := set_field "Content-Type" "application/json" (fo_headers options) in
  if bool_decide (method = "DELETE") && bool_decide (is_Some (cancelMatch url)) then
    let dealId := default "" (cancelMatch url) in
    match getSignature win ("cancel-deal-" +:+ dealId) with
    | Throw err => Throw err
    | Ok signature =>
        Ok (url, Options (fo_method options) json_headers
          (Some (RawJson (JObj [("client_address", JStr (default "" (win_userAddress win)));
                                ("signature", JStr signature)]))))
    end
  else if bool_decide (method = "POST") && bool_decide (is_Some (keyMatch url)) then
    let dealId := default "" (keyMatch url) in
    match getSignature win ("store-key-" +:+ dealId) with
    | Throw err => Throw err
    | Ok signature =>
        let bodyObj := match fo_body options with
                       | Some (RawJson j) => j
                       | _ => JObj []
                       end in
        match sign_body bodyObj signature with
        | Throw err => Throw err
        | Ok body => Ok (url, Options (fo_method options) json_headers (Some (RawJson body)))
        end
    end
  else Ok (url, options).

(** * Properties of the matcher *)

Lemma last_slash_app p seg :
  includes "/" seg = false → last_slash (p +:+ String (Ascii.ascii_of_nat 47) seg)
                             = Some (p +:+ "/", seg).
Proof.
  intros Hseg. assert (Hnone : last_slash seg = None).
  { induction seg as [|c seg IH]; [done|]. simpl in *.
    apply orb_false_iff in Hseg as [Hc Hseg]. rewrite (IH Hseg).
    rewrite bool_decide_false; [done|]. intros ->. simpl in Hc. by destruct seg. }
  induction p as [|c p IH]; [simpl; by rewrite Hnone|].
  change (match last_slash (p +:+ String (Ascii.ascii_of_nat 47) seg) with
          | Some (p0, q) => Some (String c p0, q)
          | None => if bool_decide (c = Ascii.ascii_of_nat 47)
                    then Some (String c EmptyString, p +:+ String (Ascii.ascii_of_nat 47) seg) else None
          end = Some (String c (p +:+ "/"), seg)).
  by rewrite IH.
Qed.

Lemma append_assoc (a b c : string) : (a +:+ b) +:+ c = a +:+ (b +:+ c).
Proof.
  induction a as [|x a IH]; [done|].
  change (String x ((a +:+ b) +:+ c) = String x (a +:+ (b +:+ c))). by rewrite IH.
Qed.

Lemma ends_with_app p suffix : ends_with suffix (p +:+ suffix) = true.
Proof.
  induction p as [|c p IH].
  - change ("" +:+ suffix) with suffix. destruct suffix as [|c s]; [done|].
    change (bool_decide (String c s = String c s) || ends_with (String c s) s = true).
    by rewrite bool_decide_true.
  - change (bool_decide (String c (p +:+ suffix) = suffix) || ends_with suffix (p +:+ suffix) = true).
    by rewrite IH, orb_true_r.
Qed.

(** A deal identifier that stays one path segment. *)
Definition plain_segment (id : string) : Prop :=
  id ≠ "" ∧ includes "/" id = false ∧ includes "?" id = false.

Lemma cancelMatch_url origin id : plain_segment id → cancelMatch (origin +:+ "/api/deals/" +:+ id) = Some id.
Proof.
  intros (Hne & Hs & Hq). unfold cancelMatch.
  change (origin +:+ "/api/deals/" +:+ id)
    with (origin +:+ ("/api/deals" +:+ String (Ascii.ascii_of_nat 47) id)).
  rewrite <- append_assoc, last_slash_app by done.
  rewrite append_assoc. change ("/api/deals" +:+ "/") with "/api/deals/".
  by rewrite ends_with_app, bool_decide_false, Hq.
Qed.

(** * The wrapper against the API *)

(** The fields of a JSON body the route reads. *)
Definition body_text (k : string) (o : fetch_options) : option string :=
  match fo_body o with
  | Some (RawJson (JObj fields)) => match get_field k fields with Some (JStr s) => Some s | _ => None end
  | _ => None
  end.

(** Wrapper and API agree: when [window.signer] is the wallet of the deal's client,
    a DELETE on the deal's URL goes out with a body whose signature the API accepts,
    and the API cancels the deal. *)
Theorem signed_cancel_is_accepted verifyMessage origin dealId (signMessage : wallet) userAddress
    sig signer deal rest w :
  plain_segment dealId → userAddress ≠ "" → sig ≠ "" →
  signMessage ("cancel-deal-" +:+ dealId) = Ok sig →
  verifyMessage ("cancel-deal-" +:+ dealId) sig = Some signer →
  toLowerCase signer = toLowerCase (d_client_address deal) →
  no_faults w → has_api_columns w →
  where_ (λ r, same_text (d_deal_id r) dealId) (deals (w_db w)) = deal :: rest →
  d_status deal = "active" →
  ∃ o, signed_fetch (Window (Some signMessage) (Some userAddress)) (origin +:+ "/api/deals/" +:+ dealId)
         (Some (Options (Some "DELETE") [] None))
       = Ok (origin +:+ "/api/deals/" +:+ dealId, o) ∧
  ∃ b w', deleteDeal verifyMessage dealId (body_text "client_address" o) (body_text "signature" o) w
          = (Ok (Resp 200 b), w') ∧
          ∀ s, s ∈ shards (w_db w') → s_deal_id s = dealId → s_active s = false.
Proof.
  intros Hid Hua Hsig Hsm Hv Hl Hw Hcol Hrows Hst. unfold signed_fetch.
  rewrite (cancelMatch_url origin dealId Hid). unfold getSignature. simpl. rewrite Hsm.
  eexists. split; [reflexivity|].
  change (body_text "client_address" _) with (Some userAddress).
  change (body_text "signature" _) with (Some sig).
  rewrite (deleteDeal_accepts _ _ _ _ signer deal rest w w);
    [|by rewrite select_ok, Hrows | rewrite Hst; set_solver | done | done | done | done].
  destruct (cancel_body_run dealId w (no_faults_answers w Hw) Hcol) as (b & w' & Hrun & _ & Hsh & _).
  exists b, w'. split; [unfold route, try_catch; by rewrite Hrun|].
  intros s. rewrite Hsh. simpl. rewrite elem_of_update_where. intros (s0 & _ & ->).
  unfold live_shard, same_text. destruct (bool_decide (s_deal_id s0 = dealId) && s_active s0) eqn:E;
    [done|]. intros Hs0. rewrite bool_decide_true in E by done. done.
Qed.

Lemma signed_cancel_is_accepted_witness :
  ∃ o, signed_fetch (Window (Some (λ _, Ok "0xC")) (Some "0xC")) "https://kyneto.app/api/deals/D1"
         (Some (Options (Some "DELETE") [] None)) = Ok ("https://kyneto.app/api/deals/D1", o) ∧
  ∃ b w', deleteDeal demo_verify "D1" (body_text "client_address" o) (body_text "signature" o) demo_api
          = (Ok (Resp 200 b), w') ∧
          ∀ s, s ∈ shards (w_db w') → s_deal_id s = "D1" → s_active s = false.
Proof.
  apply (signed_cancel_is_accepted demo_verify "https://kyneto.app" "D1" (λ _, Ok "0xC") "0xC" "0xC" "0xC"
           demo_deal [] demo_api); done.
Defined.

(** * The wrapper in the dashboard page *)

Inductive js_value : Type := VWallet (w : wallet) | VText (s : string) | VNull.

(** The two global environments of a page. *)
Record realm : Type := Realm {
  lexical : gmap string js_value;       (* top-level let and const *)
  on_window : gmap string js_value      (* properties of the global object *)
}.

(** [let x = v] at the top of a classic script. *)
Definition declare_let (x : string) (v : js_value) (r : realm) : realm :=
  Realm (<[x := v]> (lexical r)) (on_window r).

(** [x = v]: the lexical binding if there is one, else a property of [window]. *)
Definition assign (x : string) (v : js_value) (r : realm) : realm :=
  match lexical r !! x with
  | Some _ => Realm (<[x := v]> (lexical r)) (on_window r)
  | None => Realm (lexical r) (<[x := v]> (on_window r))
  end.

(** The declarations of app.js the wrapper is interested in. *)
Definition app_globals (r : realm) : realm :=
  declare_let "userAddress" VNull (declare_let "signer" VNull (declare_let "provider" VNull
    (declare_let "socket" VNull r))).

(** What [window.signer] and [window.userAddress] are. *)
Definition window_of (r : realm) : window :=
  Window (match on_window r !! "signer" with Some (VWallet w) => Some w | _ => None end)
         (match on_window r !! "userAddress" with Some (VText s) => Some s | _ => None end).

Definition assign_all (xs : list (string * js_value)) (r : realm) : realm :=
  foldl (λ r x, assign (fst x) (snd x) r) r xs.

Lemma assign_all_keeps xs : ∀ r,
  is_Some (lexical r !! "signer") → on_window r !! "signer" = None →
  on_window (assign_all xs r) !! "signer" = None.
Proof.
  induction xs as [|[x v] xs IH]; intros r Hl Hw; [done|]. simpl. unfold assign_all in IH.
  apply IH; unfold assign; destruct (lexical r !! x) eqn:E; simpl; try done.
  - destruct (decide (x = "signer")) as [->|]; [rewrite lookup_insert_eq|rewrite lookup_insert_ne by done];
      eauto.
  - rewrite lookup_insert_ne; [done|]. intros ->. rewrite E in Hl. by destruct Hl.
Qed.

(** In the dashboard page no protected request ever leaves: app.js declares [signer]
    with [let], so whatever app.js assigns to its globals, a connected wallet included,
    [window.signer] stays undefined and every DELETE of a deal is rejected by the wrapper
    with the message that the wallet is not connected. *)
Theorem page_rejects_cancellations assignments origin dealId options :
  plain_segment dealId → toUpperCase (default "" (fo_method options)) = "DELETE" →
  let page := assign_all assignments (app_globals (Realm ∅ ∅)) in
  signed_fetch (window_of page) (origin +:+ "/api/deals/" +:+ dealId) (Some options)
  = Throw (Error "Wallet not connected. Please connect your wallet first.").
Proof.
  intros Hid Hm page. unfold signed_fetch. rewrite (cancelMatch_url origin dealId Hid). cbn [from_option id].
  assert (Hmeth : (if truthy (fo_method options) then default "" (fo_method options) else "GET")
                  = default "" (fo_method options)).
  { destruct (fo_method options) as [[|c m]|]; simpl in *; done. }
  rewrite Hmeth, Hm. cbn. unfold getSignature, window_of.
  assert (Hnone : on_window page !! "signer" = None).
  { apply assign_all_keeps; [|done]. eexists. reflexivity. }
  by rewrite Hnone.
Qed.

Lemma page_rejects_cancellations_witness :
  signed_fetch (window_of (assign_all [("signer", VWallet (λ _, Ok "sig")); ("userAddress", VText "0xC")]
                             (app_globals (Realm ∅ ∅))))
    "https://kyneto.app/api/deals/D1" (Some (Options (Some "DELETE") [] None))
  = Throw (Error "Wallet not connected. Please connect your wallet first.").
Proof.
  apply (page_rejects_cancellations [("signer", VWallet (λ _, Ok "sig")); ("userAddress", VText "0xC")]
           "https://kyneto.app" "D1" (Options (Some "DELETE") [] None)); done.
Defined.
