(* ===== verification/Payments.v ===== *)
(** PaymentProcessor: the daily distribution of rewards
    (src/incentive-layer/services/payment-processor/src/index.ts).

    Each kind of reward selects what is due, sends one transaction per row and
    then records the payment; an exception on one row is logged and the loop goes
    on with the next. *)

From S2P Require Import Prelude JsNum World RestApi.

Local Open Scope Z_scope.

Definition DISTRIBUTION_INTERVAL : Z := 30 * 24 * 60 * 60 * 1000.
Definition DAY : Z := 24 * 60 * 60 * 1000.

(** ** processCapacityRewards *)
Definition due_pledges (t : Z) (d : db) : list pledge_row :=
  take 50 (where_ (λ r, pl_active r && match pl_last_payment_at r with
                                       | None => true
                                       | Some p => p <? t - DISTRIBUTION_INTERVAL
                                       end) (pledges d)).

Definition mark_pledge_paid (address : string) (pledgeId t : Z) (d : db) : db :=
  set_pledges (update_where (λ r, same_text (pl_provider_address r) address && (pl_pledge_id r =? pledgeId))
    (λ r, Pledge (pl_provider_address r) (pl_pledge_id r) (pl_capacity_gb r) (pl_duration_seconds r)
            (pl_collateral r) (pl_utilization_gb r) (pl_available_capacity r) (pl_active r)
            (pl_created_at r) (Some t)) (pledges d)) d.

Definition pay_pledge (row : pledge_row) : M world unit :=
  try_catch
    (send_tx "PaymentDistributor" "distributeCapacityRewards"
       [JStr (pl_provider_address row); JInt (pl_pledge_id row)] ;;
     t ← now;
     exec (mark_pledge_paid (pl_provider_address row) (pl_pledge_id row) t))
    (λ error, mret tt).

Definition processCapacityRewards : M world unit :=
  try_catch (t ← now; rows ← select (due_pledges t); for_each rows pay_pledge) (λ error, mret tt).

(** ** processUsageRewards *)
Definition unpaid (r : deal_row) : bool :=
  same_text (d_status r) "completed" && negb (same_text (d_status r) "cancelled")
  && negb (d_payment_processed r).

Definition due_deals (d : db) : list deal_row := take 50 (where_ unpaid (deals d)).

Definition mark_deal_paid (dealId : string) (d : db) : db :=
  set_deals (update_where (λ r, same_text (d_deal_id r) dealId)
    (λ r, Deal (d_deal_id r) (d_client_address r) (d_file_cid r) (d_file_size_gb r)
            (d_duration_days r) (d_price_per_gb_month r) (d_total_cost r) (d_protocol_fee r)
            (d_status r) (d_is_encrypted r) (d_encrypted_key r) (d_encryption_iv r)
            (d_encryption_auth_tag r) (d_created_at r) (d_completed_at r) (d_cancelled_at r) true)
    (deals d)) d.

Definition usage_tx (dealId : string) : chain_tx :=
  Tx "PaymentDistributor" "distributeUsageRewards" [JStr dealId].

Definition pay_deal (row : deal_row) : M world unit :=
  try_catch
    (send_tx "PaymentDistributor" "distributeUsageRewards" [JStr (d_deal_id row)] ;;
     exec (mark_deal_paid (d_deal_id row)))
    (λ error, mret tt).

Definition processUsageRewards : M world unit :=
  try_catch (rows ← select due_deals; for_each rows pay_deal) (λ error, mret tt).

(** ** processProofBonuses *)
Definition due_bonuses (t : Z) (d : db) : list string :=
  take 100 (distinct (map ps_provider_address
    (where_ (λ r, (t - DAY <? ps_submitted_at r) && negb (ps_bonus_paid r)) (submissions d)))).

Definition mark_bonus_paid (address : string) (t : Z) (d : db) : db :=
  set_submissions (update_where (λ r, same_text (ps_provider_address r) address && (t - DAY <? ps_submitted_at r))
    (λ r, Submission (ps_provider_address r) (ps_submitted_at r) true) (submissions d)) d.

Definition pay_bonus (address : string) : M world unit :=
  try_catch
    (send_tx "PaymentDistributor" "payProofBonus" [JStr address] ;;
     t ← now;
     exec (mark_bonus_paid address t))
    (λ error, mret tt).

Definition processProofBonuses : M world unit :=
  try_catch (t ← now; rows ← select (due_bonuses t); for_each rows pay_bonus) (λ error, mret tt).

(** ** processPayments *)
Definition processPayments : M world unit :=
  try_catch (processCapacityRewards ;; processUsageRewards ;; processProofBonuses) (λ error, mret tt).

(** * Properties *)

(** The usage payments of a deal in the log of transactions. *)
Definition is_usage_tx (dealId : string) (x : chain_tx) : bool :=
  match x with
  | Tx c m [JStr id] => same_text c "PaymentDistributor" && same_text m "distributeUsageRewards"
                        && same_text id dealId
  | _ => false
  end.

Definition usage_payments (dealId : string) (w : world) : nat := length (where_ (is_usage_tx dealId) (w_chain w)).

(** A deal is paid at most once, and not before it is marked as paid; a deal
    that is not completed is not paid. *)
Definition paid_once (w : world) : Prop :=
  no_faults w ∧
  ∀ id, (usage_payments id w ≤ 1)%nat ∧
        (usage_payments id w = 1%nat → ∀ r, r ∈ deals (w_db w) → d_deal_id r = id →
           d_payment_processed r = true).

Lemma paid_once_faults x fs w : w_faults w = x :: fs → paid_once w → paid_once (with_faults fs w).
Proof. intros Hf [Hn _]. unfold no_faults in Hn. congruence. Qed.

Lemma usage_payments_app id w x :
  usage_payments id (with_chain (w_chain w ++ [x]) w)
  = (usage_payments id w + if is_usage_tx id x then 1 else 0)%nat.
Proof.
  unfold usage_payments. simpl. rewrite where_app, length_app. f_equal. unfold where_. simpl.
  by destruct (is_usage_tx id x).
Qed.

Lemma is_usage_tx_other id c m args :
  m ≠ "distributeUsageRewards" → is_usage_tx id (Tx c m args) = false.
Proof.
  intros Hm. unfold is_usage_tx. destruct args as [|[] [|]]; try done.
  unfold same_text at 2. rewrite bool_decide_false by done. by rewrite andb_false_r.
Qed.

Lemma is_usage_tx_same id id' : is_usage_tx id (usage_tx id') = bool_decide (id' = id).
Proof. unfold is_usage_tx, usage_tx, same_text. by rewrite !(bool_decide_true (_ = _)) by done. Qed.

(** A successful transaction. *)
Lemma send_tx_ok c m args w :
  no_faults w → send_tx c m args w = (Ok tt, with_chain (w_chain w ++ [Tx c m args]) w).
Proof. intros Hw. destruct w; unfold no_faults in Hw; simpl in Hw; by subst. Qed.

(** Other payments do not touch deals or usage payments. *)
Lemma paid_once_other c m args (f : world → db → db) w :
  m ≠ "distributeUsageRewards" → (∀ w d, deals (f w d) = deals d) → paid_once w →
  ∃ w', try_catch (send_tx c m args ;; t ← gets (λ w, f w); exec t) (λ _, mret tt) w = (Ok tt, w')
        ∧ paid_once w'.
Proof.
  intros Hm Hf [Hn Hp]. unfold try_catch. rewrite (bind_ok _ _ _ _ _ (send_tx_ok c m args w Hn)).
  set (w1 := with_chain _ w). rewrite (bind_ok (gets _) _ w1 (f w1) w1 eq_refl).
  rewrite (exec_ok _ w1 Hn). eexists. split; [done|]. split; [done|]. intros id.
  specialize (Hp id). change (usage_payments id (with_db (f w1) w1)) with (usage_payments id w1).
  subst w1. rewrite usage_payments_app, is_usage_tx_other, Nat.add_0_r by done.
  split; [apply Hp|]. intros H1 r. simpl. rewrite Hf. by apply Hp.
Qed.

Lemma pay_pledge_paid_once row : preserves paid_once (pay_pledge row).
Proof.
  intros w Hw. destruct (paid_once_other "PaymentDistributor" "distributeCapacityRewards"
    [JStr (pl_provider_address row); JInt (pl_pledge_id row)]
    (λ w, mark_pledge_paid (pl_provider_address row) (pl_pledge_id row) (w_now w)) w) as (w' & Hr & Hw'); try done.
  unfold pay_pledge. rewrite (Hr : try_catch (send_tx _ _ _ ;; t ← now; exec (mark_pledge_paid _ _ t)) _ w = _).
  done.
Qed.

Lemma pay_bonus_paid_once a : preserves paid_once (pay_bonus a).
Proof.
  intros w Hw. destruct (paid_once_other "PaymentDistributor" "payProofBonus" [JStr a]
    (λ w, mark_bonus_paid a (w_now w)) w) as (w' & Hr & Hw'); try done.
  unfold pay_bonus. rewrite (Hr : try_catch (send_tx _ _ _ ;; t ← now; exec (mark_bonus_paid _ t)) _ w = _).
  done.
Qed.

(** One unpaid deal is paid and marked. *)
Lemma pay_deal_step row w :
  paid_once w → usage_payments (d_deal_id row) w = 0%nat →
  ∃ w', pay_deal row w = (Ok tt, w') ∧ paid_once w' ∧
    ∀ id, usage_payments id w' = (usage_payments id w + if bool_decide (d_deal_id row = id) then 1 else 0)%nat.
Proof.
  intros [Hn Hp] H0. unfold pay_deal, try_catch.
  rewrite (bind_ok _ _ _ _ _ (send_tx_ok _ _ _ w Hn)). set (w1 := with_chain _ w).
  rewrite (exec_ok _ w1 Hn).
  assert (Hu : ∀ id, usage_payments id (with_db (mark_deal_paid (d_deal_id row)) w1)
             = (usage_payments id w + if bool_decide (d_deal_id row = id) then 1 else 0)%nat).
  { intros id. change (usage_payments id (with_db _ w1)) with (usage_payments id w1). subst w1.
    rewrite usage_payments_app. fold (usage_tx (d_deal_id row)). by rewrite is_usage_tx_same. }
  eexists. split; [done|]. split; [|done]. split; [done|]. intros id. rewrite Hu.
  destruct (Hp id) as [Hle Hmark]. case_bool_decide as Hid.
  - subst id. rewrite H0. split; [lia|]. intros _ r. simpl. rewrite elem_of_update_where.
    intros (r0 & _ & ->). unfold same_text. by case_bool_decide.
  - rewrite Nat.add_0_r. split; [done|]. intros H1 r. simpl. rewrite elem_of_update_where.
    intros (r0 & Hr0 & ->) Hrid. unfold same_text in *.
    destruct (bool_decide (d_deal_id r0 = d_deal_id row)) eqn:E; [done|]. by apply Hmark.
Qed.

Lemma usage_paid_once w :
  NoDup (map d_deal_id (deals (w_db w))) → paid_once w → paid_once (snd (processUsageRewards w)).
Proof.
  intros Hnd Hw. unfold processUsageRewards, try_catch.
  rewrite (bind_ok _ _ _ _ _ (select_ok _ w (proj1 Hw))).
  assert (Hb : NoDup (map d_deal_id (due_deals (w_db w)))).
  { unfold due_deals. rewrite <- firstn_map. eapply sublist_NoDup; [|apply sublist_take].
    eapply sublist_NoDup; [exact Hnd|]. apply fmap_sublist, sublist_where. }
  assert (H0 : ∀ r, r ∈ due_deals (w_db w) → usage_payments (d_deal_id r) w = 0%nat).
  { intros r Hr. apply elem_of_take in Hr as (i & Hi & _). apply list_elem_of_lookup_2 in Hi.
    apply elem_of_where in Hi as [Hin Hun]. destruct (proj2 Hw (d_deal_id r)) as [Hle Hmark].
    destruct (usage_payments (d_deal_id r) w) as [|[|n]] eqn:E; [done| |lia].
    unfold unpaid in Hun. rewrite (Hmark eq_refl r Hin eq_refl) in Hun.
    by rewrite andb_false_r in Hun. }
  revert H0 Hb. generalize (due_deals (w_db w)) as batch. intros batch H0 Hb.
  destruct (for_each_done (λ done w', paid_once w' ∧
       ∀ id, id ∉ map d_deal_id done → usage_payments id w' = usage_payments id w)
     pay_deal batch [] w) as (w' & Hrun & Hw' & _).
  - intros done x rest w1 Heq [Hw1 Hsame]. simpl in Heq. subst batch.
    assert (Hx : d_deal_id x ∉ map d_deal_id done).
    { rewrite map_app in Hb. apply NoDup_app in Hb as (_ & Hdisj & _). intros Hin.
      apply (Hdisj _ Hin). simpl. set_solver. }
    destruct (pay_deal_step x w1 Hw1) as (w2 & H1 & H2 & H3).
    { rewrite Hsame by done. apply H0. set_solver. }
    exists w2. split; [done|]. split; [done|]. intros id. rewrite map_app, elem_of_app. simpl.
    intros Hni. rewrite H3, bool_decide_false by set_solver. rewrite Nat.add_0_r.
    apply Hsame. set_solver.
  - done.
  - by rewrite Hrun.
Qed.

(** The identifiers of the deals do not change. *)
Definition deal_ids (ids : list string) (w : world) : Prop := map d_deal_id (deals (w_db w)) = ids.

Lemma deal_ids_mark id ids w : deal_ids ids w → deal_ids ids (with_db (mark_deal_paid id) w).
Proof.
  unfold deal_ids. intros <-. simpl. unfold update_where. rewrite map_map. apply map_ext.
  intros r. by destruct (same_text _ _).
Qed.

Lemma processPayments_ids ids : preserves (deal_ids ids) processPayments.
Proof.
  unfold processPayments, processCapacityRewards, processUsageRewards, processProofBonuses, pay_pledge,
    pay_deal, pay_bonus, now. preserve; try done.
  apply preserves_exec; [done|]. intros w. apply deal_ids_mark.
Qed.

(** A sub-process that never throws. *)
Lemma never_throws (m : M world unit) w :
  ∃ w', try_catch m (λ _, mret tt) w = (Ok tt, w').
Proof. unfold try_catch. destruct (m w) as [[[]|e] w']; by eexists. Qed.

Lemma processPayments_paid_once w :
  NoDup (map d_deal_id (deals (w_db w))) → paid_once w → paid_once (snd (processPayments w)).
Proof.
  intros Hnd Hw. unfold processPayments, try_catch at 1.
  destruct (never_throws (t ← now; rows ← select (due_pledges t); for_each rows pay_pledge) w) as (w1 & H1).
  fold processCapacityRewards in H1. rewrite (bind_ok _ _ _ _ _ H1).
  assert (Hw1 : paid_once w1 ∧ NoDup (map d_deal_id (deals (w_db w1)))).
  { assert (Hc : preserves (λ w', paid_once w' ∧ deal_ids (map d_deal_id (deals (w_db w))) w')
                  processCapacityRewards).
    { unfold processCapacityRewards, now. preserve.
      - apply preserves_select. intros x fs w' Hf [Hp ?]. split; [by eapply paid_once_faults|done].
      - intros w' [Hp Hi]. split; [by apply pay_pledge_paid_once|].
        unfold pay_pledge, now. revert w' Hi Hp.
        intros w' Hi _. revert w' Hi. change (preserves (deal_ids (map d_deal_id (deals (w_db w))))
          (try_catch (send_tx "PaymentDistributor" "distributeCapacityRewards"
             [JStr (pl_provider_address x); JInt (pl_pledge_id x)] ;;
             t ← gets w_now; exec (mark_pledge_paid (pl_provider_address x) (pl_pledge_id x) t))
             (λ _, mret tt))). preserve. }
    specialize (Hc w (conj Hw eq_refl)). rewrite H1 in Hc. simpl in Hc. destruct Hc as [? Hi].
    unfold deal_ids in Hi. by rewrite Hi. }
  destruct Hw1 as [Hw1 Hnd1].
  destruct (never_throws (rows ← select due_deals; for_each rows pay_deal) w1) as (w2 & H2).
  fold processUsageRewards in H2. rewrite (bind_ok _ _ _ _ _ H2).
  assert (Hw2 : paid_once w2).
  { pose proof (usage_paid_once w1 Hnd1 Hw1) as H. by rewrite H2 in H. }
  destruct (never_throws (t ← now; rows ← select (due_bonuses t); for_each rows pay_bonus) w2) as (w3 & H3).
  fold processProofBonuses in H3. rewrite H3. simpl.
  assert (Hb : preserves paid_once processProofBonuses).
  { unfold processProofBonuses, now. preserve; [by apply preserves_select, paid_once_faults|].
    apply pay_bonus_paid_once. }
  specialize (Hb w2 Hw2). by rewrite H3 in Hb.
Qed.

(** The processor's runs at the times [ts]. *)
Fixpoint payment_runs (ts : list Z) (w : world) : world :=
  match ts with
  | [] => w
  | t :: ts' => payment_runs ts' (snd (processPayments (with_now t w)))
  end.

(** No deal is paid twice: from a state without usage payments and with distinct deal
    identifiers, any number of runs at any times, while the database and the chain
    answer, sends at most one usage payment per deal. *)
Theorem usage_rewards_paid_at_most_once ts w id :
  no_faults w → NoDup (map d_deal_id (deals (w_db w))) → (∀ i, usage_payments i w = 0%nat) →
  (usage_payments id (payment_runs ts w) ≤ 1)%nat.
Proof.
  intros Hn Hnd H0.
  assert (Hw : paid_once w) by (split; [done|]; intros i; rewrite H0; split; lia).
  clear H0 Hn. revert w Hnd Hw. induction ts as [|t ts IH]; intros w Hnd Hw; [apply Hw|].
  simpl. apply IH.
  - pose proof (processPayments_ids (map d_deal_id (deals (w_db w))) (with_now t w) eq_refl) as Hi.
    unfold deal_ids in Hi. by rewrite Hi.
  - by apply processPayments_paid_once.
Qed.

Definition demo_completed : deal_row :=
  Deal "D1" "0xc" "f" (num_of_Z 1) 30 (num_of_Z 1) (num_of_Z 1) (num_of_Z 0) "completed" true
       None None None 0 None None false.
Definition demo_payments : world :=
  World (Db [] [] [demo_completed] [] [] [] [] [] [] [] [] []) None ∅ 0 [] [] [] (true, true) true false committed_schema.

Lemma usage_rewards_paid_at_most_once_witness :
  (usage_payments "D1" (payment_runs [1; 2; 3]%Z demo_payments) ≤ 1)%nat ∧
  usage_payments "D1" (payment_runs [1]%Z demo_payments) = 1%nat.
Proof.
  split; [|by vm_compute].
  apply (usage_rewards_paid_at_most_once [1; 2; 3] demo_payments "D1").
  - reflexivity.
  - apply (bool_decide_unpack _). by vm_compute.
  - intros i. reflexivity.
Defined.

(** A payment is repeated when its bookkeeping fails: if the database fails right after
    the transaction was confirmed, the deal stays unpaid in the database and the next
    run pays it again. *)
Theorem usage_rewards_repeated_after_failure r e w :
  due_deals (w_db w) = [r] → w_faults w = [None; None; None; Some e] → w_db_up w = false →
  let w1 := snd (processUsageRewards w) in
  let w2 := snd (processUsageRewards w1) in
  usage_payments (d_deal_id r) w2 = (usage_payments (d_deal_id r) w + 2)%nat.
Proof.
  intros Hdue Hf Hup w1 w2.
  assert (Hrun : ∀ w', due_deals (w_db w') = [r] → no_faults w' →
            usage_payments (d_deal_id r) (snd (processUsageRewards w'))
            = (usage_payments (d_deal_id r) w' + 1)%nat).
  { intros w' Hd Hn. unfold processUsageRewards, try_catch.
    rewrite (bind_ok _ _ _ _ _ (select_ok _ w' Hn)), Hd. cbn [for_each]. unfold pay_deal, try_catch at 1.
    erewrite bind_ok; [|rewrite (bind_ok _ _ _ _ _ (send_tx_ok _ _ _ w' Hn)), exec_ok by done; reflexivity].
    simpl. change (usage_payments ?i (with_db ?f ?x)) with (usage_payments i x).
    rewrite usage_payments_app. fold (usage_tx (d_deal_id r)). rewrite is_usage_tx_same.
    by rewrite bool_decide_true. }
  assert (Hw1 : w1 = with_faults [] (with_chain (w_chain w ++ [usage_tx (d_deal_id r)]) w)).
  { subst w1. unfold processUsageRewards, try_catch, select, query, external. running. rewrite Hf, Hup. simpl.
    rewrite Hdue. cbn [for_each]. unfold pay_deal, try_catch, send_tx, exec, query, external. running. simpl.
    by rewrite Hup. }
  subst w2. rewrite Hrun; [|by rewrite Hw1|by rewrite Hw1]. rewrite Hw1.
  change (usage_payments ?i (with_faults ?f ?x)) with (usage_payments i x).
  rewrite usage_payments_app, is_usage_tx_same, bool_decide_true by done. lia.
Qed.

Lemma usage_rewards_repeated_after_failure_witness :
  let w := with_faults [None; None; None; Some (Error "connection lost")] demo_payments in
  usage_payments "D1" (snd (processUsageRewards (snd (processUsageRewards w)))) = 2%nat.
Proof.
  by apply (usage_rewards_repeated_after_failure demo_completed (Error "connection lost")
              (with_faults [None; None; None; Some (Error "connection lost")] demo_payments)).
Defined.
