(* ===== verification/Uptime.v ===== *)
(** The uptime monitor: slashing of providers that stay offline
    (src/incentive-layer/services/uptime-monitor/src/index.ts). *)

From S2P Require Import Prelude JsNum World RestApi Payments.

Local Open Scope Z_scope.

Definition CHECK_INTERVAL_MS : Z := 5 * 60 * 1000.
Definition OFFLINE_THRESHOLD_MINUTES : Z := 24 * 60.

(** [p.active = true AND p.last_heartbeat < NOW() - INTERVAL '1440 minutes']; a
    NULL heartbeat compares as unknown. *)
Definition offline (t : Z) (p : provider_row) : bool :=
  p_active p && match p_last_heartbeat p with
                | Some b => b <? t - OFFLINE_THRESHOLD_MINUTES * 60 * 1000
                | None => false
                end.

Definition total_collateral (address : string) (d : db) : Z :=
  foldr Z.add 0 (map pl_collateral
    (where_ (λ c, same_text (pl_provider_address c) address && pl_active c) (pledges d))).

(** One row per address ([GROUP BY p.address]; addresses are the primary key). *)
Definition offline_rows (t : Z) (d : db) : list (string * Z) :=
  map (λ a, (a, total_collateral a d)) (distinct (map p_address (where_ (offline t) (providers d)))).

Definition deactivate_provider (address : string) (d : db) : db :=
  set_providers (update_where (λ p, same_text (p_address p) address)
    (λ p, Provider (p_address p) (p_peer_id p) (p_endpoint p) (p_region p) (p_reputation_score p) false
            (p_last_heartbeat p) (p_last_proof_at p) (p_registered_at p) (p_pledged_capacity_gb p)
            (p_used_gb p)) (providers d)) d.

Definition slash_tx (address : string) (collateral : Z) : chain_tx :=
  Tx "SlashingManager" "slashMissedPost" [JStr address; JInt collateral].

Definition slash_provider (row : string * Z) : M world unit :=
  let '(providerAddress, collateral) := row in
  try_catch
    (send_tx "SlashingManager" "slashMissedPost" [JStr providerAddress; JInt collateral] ;;
     exec (deactivate_provider providerAddress))
    (λ slashErr, mret tt).

(** ** runCheck *)
Definition runCheck : M world unit :=
  try_catch
    (t ← now;
     rows ← select (offline_rows t);
     if (length rows =? 0)%nat then mret tt
     else for_each rows slash_provider)
    (λ err, mret tt).

(** * Properties *)

Lemma elem_of_offline_rows t d a c :
  (a, c) ∈ offline_rows t d ↔
  c = total_collateral a d ∧ ∃ p, p ∈ providers d ∧ p_address p = a ∧ offline t p = true.
Proof.
  unfold offline_rows. rewrite list_elem_of_fmap. setoid_rewrite elem_of_distinct.
  setoid_rewrite list_elem_of_fmap. setoid_rewrite elem_of_where. naive_solver.
Qed.

Section OneCheck.
  Context (w0 : world).

(** Every transaction of the check slashes a provider that was offline before it,
      by its pledged collateral. *)
Definition slashed_ok (w : world) : Prop :=
    ∃ txs, w_chain w = w_chain w0 ++ txs ∧
    ∀ x, x ∈ txs → ∃ p, p ∈ providers (w_db w0) ∧ offline (w_now w0) p = true ∧
                        x = slash_tx (p_address p) (total_collateral (p_address p) (w_db w0)).

Lemma slashed_ok_row a c :
    (a, c) ∈ offline_rows (w_now w0) (w_db w0) → preserves slashed_ok (slash_provider (a, c)).
Proof.
    intros Hin. unfold slash_provider. apply preserves_try_catch; [|intros; apply preserves_ret].
    apply preserves_bind; [|intros _; by apply preserves_exec].
    unfold send_tx. apply preserves_bind; [by apply preserves_external|intros _].
    apply preserves_bind; [|intros _; by apply preserves_external].
    apply preserves_modify. intros w (txs & Hc & Htx). exists (txs ++ [slash_tx a c]). split.
    - simpl. by rewrite Hc, <- app_assoc.
    - intros x. rewrite elem_of_app, list_elem_of_singleton. intros [Hx| ->]; [by apply Htx|].
      apply elem_of_offline_rows in Hin as [-> (p & Hp & <- & Ho)]. by exists p.
  Qed.

Lemma runCheck_slashed_ok : slashed_ok (snd (runCheck w0)).
Proof.
    assert (H0 : ∀ fs, slashed_ok (with_faults fs w0)).
    { intros fs. exists []. simpl. rewrite app_nil_r. split; [done|]. intros x Hx. by apply elem_of_nil in Hx. }
    unfold runCheck, try_catch. rewrite (bind_ok now _ w0 (w_now w0) w0 eq_refl).
    unfold select, mbind, M_bind, gets. destruct (query_cases w0) as (r & fs & ->). destruct r as [[]|e]; simpl; [|apply H0].
    destruct (_ =? _)%nat; [apply H0|].
    assert (Hall : preserves slashed_ok (for_each (offline_rows (w_now w0) (w_db w0)) slash_provider)).
    { assert (Hsub : ∀ x, x ∈ offline_rows (w_now w0) (w_db w0) → x ∈ offline_rows (w_now w0) (w_db w0)) by done.
      revert Hsub. generalize (offline_rows (w_now w0) (w_db w0)) at 1 3 as rows.
      induction rows as [|[a c] rows IH]; intros Hsub; [apply preserves_ret|]. simpl.
      apply preserves_bind; [apply slashed_ok_row, Hsub; set_solver|intros _; apply IH; set_solver]. }
    specialize (Hall _ (H0 fs)). by destruct (for_each _ _ _) as [[[]|e] w'].
  Qed.
End OneCheck.

(** Slashing is justified: whatever fails, a check only slashes providers that were
    active and whose last heartbeat was more than 24 hours old when it started, each by
    the sum of its active pledges. *)
Theorem only_offline_providers_slashed w :
  ∃ txs, w_chain (snd (runCheck w)) = w_chain w ++ txs ∧
  ∀ x, x ∈ txs → ∃ p b, p ∈ providers (w_db w) ∧ p_active p = true ∧ p_last_heartbeat p = Some b ∧
    b < w_now w - 24 * 60 * 60 * 1000 ∧
    x = slash_tx (p_address p) (total_collateral (p_address p) (w_db w)).
Proof.
  destruct (runCheck_slashed_ok w) as (txs & Hc & Htx). exists txs. split; [done|]. intros x Hx.
  destruct (Htx x Hx) as (p & Hp & Ho & ->). unfold offline in Ho. apply andb_true_iff in Ho as [Ha Hb].
  destruct (p_last_heartbeat p) as [b|] eqn:E; [|done]. exists p, b.
  split_and!; try done. unfold OFFLINE_THRESHOLD_MINUTES in Hb. lia.
Qed.

(** ** A slashed provider is taken out *)

Definition slashed_done (done : list (string * Z)) (w : world) : Prop :=
  no_faults w ∧ ∀ p, p ∈ providers (w_db w) → p_address p ∈ map fst done → p_active p = false.

Lemma slash_provider_done w0 done x w :
  slashed_done done w ∧ (∀ p, p ∈ providers (w_db w) → p_active p = true → p ∈ providers (w_db w0)) →
  ∃ w', slash_provider x w = (Ok tt, w') ∧ slashed_done (done ++ [x]) w' ∧
        w_now w' = w_now w ∧
        (∀ p, p ∈ providers (w_db w') → p_active p = true → p ∈ providers (w_db w0)).
Proof.
  intros [[Hn Hd] Hsub]. destruct x as [a c]. unfold slash_provider, try_catch.
  rewrite (bind_ok _ _ _ _ _ (send_tx_ok _ _ _ w Hn)). rewrite exec_ok by done.
  eexists. split; [done|]. split; [|split; [done|]].
  - split; [done|]. intros p. simpl. rewrite elem_of_update_where, map_app, elem_of_app.
    intros (p0 & Hp0 & ->). unfold same_text. case_bool_decide; [done|].
    simpl. rewrite list_elem_of_singleton. intros [?|?]; [by apply Hd|done].
  - intros p. simpl. rewrite elem_of_update_where. intros (p0 & Hp0 & ->). unfold same_text.
    case_bool_decide; [done|]. by apply Hsub.
Qed.

(** A provider is slashed once for one absence: while the database and the chain
    answer, a check leaves no offline provider active, so a second check right after it
    sends nothing. *)
Theorem slashed_providers_are_deactivated w :
  no_faults w →
  let w1 := snd (runCheck w) in
  offline_rows (w_now w1) (w_db w1) = [] ∧ w_chain (snd (runCheck w1)) = w_chain w1.
Proof.
  intros Hn w1.
  assert (H1 : no_faults w1 ∧ w_now w1 = w_now w ∧ offline_rows (w_now w) (w_db w1) = []).
  { subst w1. unfold runCheck, try_catch. rewrite (bind_ok now _ w (w_now w) w eq_refl).
    rewrite (bind_ok _ _ _ _ _ (select_ok _ w Hn)).
    destruct (length (offline_rows (w_now w) (w_db w)) =? 0)%nat eqn:E.
    { apply Nat.eqb_eq, length_zero_iff_nil in E. done. }
    set (rows := offline_rows (w_now w) (w_db w)).
    destruct (for_each_done (λ done w', slashed_done done w' ∧ w_now w' = w_now w ∧
        ∀ p, p ∈ providers (w_db w') → p_active p = true → p ∈ providers (w_db w))
      slash_provider rows [] w) as (w' & Hrun & [Hn' Hd] & Ht & Hsub).
    - intros done x rest w2 _ (Hd2 & Ht2 & Hs2).
      destruct (slash_provider_done w done x w2 (conj Hd2 Hs2)) as (w3 & ? & ? & Ht3 & ?).
      exists w3. split_and!; try done. congruence.
    - split; [split; [done|]|by split]. intros p _ Hin. by apply elem_of_nil in Hin.
    - rewrite Hrun. simpl. split_and!; [done|done|].
      destruct (offline_rows (w_now w) (w_db w')) as [|[a c] rest] eqn:Ero; [done|exfalso].
      assert (Hin : (a, c) ∈ offline_rows (w_now w) (w_db w')) by (rewrite Ero; set_solver).
      apply elem_of_offline_rows in Hin as [_ (p & Hp & Ha & Ho)].
      assert (Hact : p_active p = true) by (unfold offline in Ho; by apply andb_true_iff in Ho as [? _]).
      assert (Hf : p_active p = false); [|congruence].
      apply (Hd p Hp). simpl. apply list_elem_of_fmap. exists (a, total_collateral a (w_db w)).
      split; [done|]. apply elem_of_offline_rows. split; [done|]. exists p. auto. }
  destruct H1 as (Hn1 & Ht1 & Hr1). rewrite Ht1. split; [done|].
  unfold runCheck, try_catch. rewrite (bind_ok now _ w1 (w_now w1) w1 eq_refl).
  rewrite (bind_ok _ _ _ _ _ (select_ok _ w1 Hn1)). by rewrite Ht1, Hr1.
Qed.

Definition demo_offline : world :=
  World (Db [Provider "0xa" "peer" None "eu" 50 true (Some 0) None 0 (num_of_Z 0) (num_of_Z 0)]
            [Pledge "0xa" 1 100 0 500 0 0 true 0 None] [] [] [] [] [] [] [] [] [] [])
        None ∅ 100000000 [] [] [] (true, true) true false committed_schema.

Lemma slashed_providers_are_deactivated_witness :
  let w1 := snd (runCheck demo_offline) in
  w_chain w1 = [slash_tx "0xa" 500] ∧ w_chain (snd (runCheck w1)) = w_chain w1.
Proof.
  split; [by vm_compute|]. apply (slashed_providers_are_deactivated demo_offline). reflexivity.
Defined.
