(* ===== verification/Proofs.v ===== *)
(** ProofGenerator: Proof-of-Spacetime challenges and missed proofs
    (src/incentive-layer/services/proof-generator/src/index.ts). *)

From S2P Require Import Prelude JsNum World RestApi Payments.

Local Open Scope Z_scope.

Definition CHALLENGE_INTERVAL : Z := 24 * 60 * 60 * 1000.
Definition CHALLENGE_SECTORS : nat := 10.

(** [SELECT DISTINCT s.deal_id, s.provider_address, p.last_proof_at ... LIMIT 50] *)
Definition needs_challenge (t : Z) (d : db) : list (string * string * option Z) :=
  take 50 (distinct (
    s ← where_ s_active (shards d);
    p ← where_ (λ p, same_text (s_provider_address s) (p_address p)
                     && match p_last_proof_at p with
                        | None => true
                        | Some l => l <? t - CHALLENGE_INTERVAL
                        end) (providers d);
    [(s_deal_id s, s_provider_address s, p_last_proof_at p)])).

Section Proofs.
(** The draws of [randomInt(0, 100)] for a challenge. *)
  Context (randomInt : string → string → nat → Z).

Definition challenge_tx (dealId providerAddress : string) : chain_tx :=
    Tx "ProofVerifier" "createPoStChallenge"
      [JStr dealId; JStr providerAddress;
       JArr (map (λ i, JInt (randomInt dealId providerAddress i)) (seq 0 CHALLENGE_SECTORS))].

(** ** createChallenge *)
Definition createChallenge (dealId providerAddress : string) : M world unit :=
    try_catch
      (send_tx "ProofVerifier" "createPoStChallenge"
         [JStr dealId; JStr providerAddress;
          JArr (map (λ i, JInt (randomInt dealId providerAddress i)) (seq 0 CHALLENGE_SECTORS))])
      (λ error, mret tt).

(** ** generateChallenges *)
Definition generateChallenges : M world unit :=
    try_catch
      (t ← now;
       rows ← select (needs_challenge t);
       for_each rows (λ row, createChallenge (fst (fst row)) (snd (fst row))))
      (λ error, mret tt).
End Proofs.

(** ** reportMissedProof *)
Definition mark_checked (challengeId : string) (d : db) : db :=
  set_challenges (update_where (λ c, same_text (ch_challenge_id c) challengeId)
    (λ c, Challenge (ch_challenge_id c) (ch_provider_address c) (ch_deadline c) (ch_submitted c) true)
    (challenges d)) d.

Definition reportMissedProof (challengeId : string) : M world unit :=
  try_catch
    (send_tx "ProofVerifier" "checkMissedPoSt" [JStr challengeId] ;;
     exec (mark_checked challengeId))
    (λ error, mret tt).

(** ** checkMissedProofs *)
Definition missed_challenges (t : Z) (d : db) : list challenge_row :=
  take 100 (where_ (λ c, (ch_deadline c <? t) && negb (ch_submitted c) && negb (ch_checked c))
                   (challenges d)).

Definition checkMissedProofs : M world unit :=
  try_catch
    (t ← now;
     rows ← select (missed_challenges t);
     for_each rows (λ row, reportMissedProof (ch_challenge_id row)))
    (λ error, mret tt).

(** * Properties *)

Section Repeat.
  Context (randomInt : string → string → nat → Z).

Lemma createChallenge_run dealId p w :
    no_faults w →
    createChallenge randomInt dealId p w
    = (Ok tt, with_chain (w_chain w ++ [challenge_tx randomInt dealId p]) w).
Proof. intros Hn. unfold createChallenge, try_catch. by rewrite send_tx_ok. Qed.

Lemma generate_run w :
    no_faults w →
    generateChallenges randomInt w
    = (Ok tt, with_chain (w_chain w ++ map (λ r, challenge_tx randomInt (fst (fst r)) (snd (fst r)))
                                          (needs_challenge (w_now w) (w_db w))) w).
Proof.
    intros Hn. unfold generateChallenges, try_catch. rewrite (bind_ok now _ w (w_now w) w eq_refl).
    rewrite (bind_ok _ _ _ _ _ (select_ok _ w Hn)).
    assert (Hrun : ∀ rows w, no_faults w →
      for_each rows (λ row : string * string * option Z,
        createChallenge randomInt (fst (fst row)) (snd (fst row))) w
      = (Ok tt, with_chain (w_chain w ++ map (λ r, challenge_tx randomInt (fst (fst r)) (snd (fst r))) rows) w)).
    { induction rows as [|r rows IH]; intros w1 Hw1; simpl; [rewrite app_nil_r; by destruct w1|].
      rewrite (bind_ok _ _ _ _ _ (createChallenge_run _ _ w1 Hw1)), IH by done. simpl.
      by rewrite <- app_assoc. }
    by rewrite Hrun.
  Qed.

(** Without proofs the time does not matter. *)
Lemma needs_challenge_never_proved t t' d :
    (∀ p, p ∈ providers d → p_last_proof_at p = None) → needs_challenge t' d = needs_challenge t d.
Proof.
    intros Hnone. unfold needs_challenge. f_equal. f_equal. apply list_bind_ext; [|done]. intros s.
    assert (Hw : where_ (λ p, same_text (s_provider_address s) (p_address p)
                   && match p_last_proof_at p with None => true | Some l => l <? t' - CHALLENGE_INTERVAL end)
                   (providers d)
               = where_ (λ p, same_text (s_provider_address s) (p_address p)
                   && match p_last_proof_at p with None => true | Some l => l <? t - CHALLENGE_INTERVAL end)
                   (providers d)).
    { apply where_ext. intros p Hp. by rewrite (Hnone p Hp). }
    by rewrite Hw.
  Qed.

(** Challenges are not spaced by a day: nothing records that a challenge was sent, so
      while no proof arrives every hourly run sends the same challenges again. *)
Theorem challenges_repeat_until_proof t' w :
    no_faults w → (∀ p, p ∈ providers (w_db w) → p_last_proof_at p = None) →
    let sent := map (λ r, challenge_tx randomInt (fst (fst r)) (snd (fst r)))
                    (needs_challenge (w_now w) (w_db w)) in
    let w1 := snd (generateChallenges randomInt w) in
    w_chain (snd (generateChallenges randomInt (with_now t' w1))) = w_chain w ++ sent ++ sent.
Proof.
    intros Hn Hnone sent w1. subst w1. rewrite (generate_run w Hn). simpl.
    rewrite generate_run by done. simpl.
    rewrite (needs_challenge_never_proved (w_now w) t' (w_db w) Hnone). by rewrite <- app_assoc.
  Qed.
End Repeat.

Lemma challenges_repeat_until_proof_witness :
  let w1 := snd (generateChallenges (λ _ _ i, Z.of_nat i) demo_api) in
  length (w_chain (snd (generateChallenges (λ _ _ i, Z.of_nat i) (with_now 4600000 w1)))) = 4%nat.
Proof.
  intros w1. subst w1.
  rewrite (challenges_repeat_until_proof (λ _ _ i, Z.of_nat i) 4600000 demo_api).
  - by vm_compute.
  - reflexivity.
  - intros p Hp. apply list_elem_of_In in Hp. vm_compute in Hp. by destruct Hp as [<-|[<-|[]]].
Defined.
