(* ===== verification/Orchestrator.v ===== *)
(** DealOrchestrator: a deal from file to chain, its termination and its repair
    (src/incentive-layer/services/deal-orchestrator/src/index.ts). *)

From S2P Require Import Prelude JsNum World ShardManager Replication RestApi.

Local Open Scope Z_scope.

Definition GB : num := num_of_Z (1024 ^ 3).

Section Orchestrator.
  Context {ipfs : Ipfs} {codec : RSCodec} {random : Shuffle}.
  Context (reput_score : option (provider_row → Z)).
(** [ethers.parseEther(x.toString())] *)
  Context (parse_ether : num → outcome Z).

Definition lift {S A} (r : outcome A) : M S A :=
    match r with Ok a => mret a | Throw e => throw e end.

(** ** createDeal; [created] is the deal identifier in the receipt's event, if the
      receipt has one. *)
Definition createDeal (clientAddress fileCID : string) (durationDays : Z) (pricePerGBMonth : num)
      (created : option string) : M world string :=
    try_catch
      (shardInfos ← encodeFile fileCID;
       let fileSizeGB :=
         num_div (foldl (λ sum s, num_add sum (num_of_Z (Z.of_nat (sizeBytes s)))) (num_of_Z 0) shardInfos) GB in
       providers ← selectProvidersForDeal reput_score (num_div fileSizeGB (num_lit 15 1));
       let shardSizes := map (λ s, JNum (num_ceil_num (num_div (num_of_Z (Z.of_nat (sizeBytes s))) GB)))
                             shardInfos in
       price ← lift (parse_ether pricePerGBMonth);
       send_tx "StorageMarketplace" "createDeal"
         [JStr fileCID; JNum (num_ceil_num (num_div fileSizeGB (num_lit 15 1))); JInt durationDays;
          JInt price; json_strs (map sel_providerAddress providers);
          json_strs (map shardCID shardInfos); JArr shardSizes] ;;
       match created with
       | Some dealId => mret dealId
       | None => throw (Error "Cannot read properties of undefined (reading 'topics')")
       end)
      (λ error, throw error).

(** ** terminateDeal: the chain first, then the database *)
Definition terminateDeal (dealId : string) : M world unit :=
    try_catch
      (send_tx "StorageMarketplace" "cancelDeal" [JStr dealId] ;;
       t ← now;
       exec_api "cancelled_at" (cancel_deal dealId t) ;;
       t' ← now;
       exec (deactivate_shards dealId t') ;;
       insert_event "DEAL_TERMINATED" ("Deal #" +:+ dealId +:+ " terminated via orchestrator")
         (JObj [("dealId", JStr dealId)]) ;;
       mret tt)
      (λ error, throw error).

Definition reassign_shard (dealId newProvider newShardCID : string) (index : Z) (d : db) : db :=
    set_shards (update_where (λ s, same_text (s_deal_id s) dealId && (s_shard_index s =? index))
      (λ s, Shard (s_deal_id s) newProvider (s_shard_index s) newShardCID (s_shard_size_bytes s)
              (s_size_bytes s) (s_is_data_shard s) true (s_created_at s) (s_lost_at s) (s_deleted_at s))
      (shards d)) d.

(** The loop body of [repairDeal]: one missing shard. *)
Definition repair_missing (dealId : string) (availableShards : list (string * nat)) (missing : shard_row)
      : M world unit :=
    shardData ← reconstructShard availableShards (Z.to_nat (s_shard_index missing));
    external ;;
    match shardData with
    | None => throw (Error "Unexpected input: undefined")
    | Some data =>
        newShardCID ← ipfs_add data;
        newProviders ← selectProvidersForDeal reput_score (num_lit 1 1);
        match newProviders with
        | [] => throw (Error "Cannot read properties of undefined (reading 'providerAddress')")
        | p :: _ =>
            let newProvider := sel_providerAddress p in
            send_tx "StorageMarketplace" "repairShard"
              [JStr dealId; JStr (s_provider_address missing); JStr newProvider; JStr newShardCID] ;;
            exec (reassign_shard dealId newProvider newShardCID (s_shard_index missing))
        end
    end.

(** ** repairDeal *)
Definition repairDeal (dealId : string) (rows : list shard_row) : M world unit :=
    try_catch
      (let missingShards := where_ (λ s, negb (s_active s)) rows in
       let availableShards := map (λ s, (s_shard_cid s, Z.to_nat (s_shard_index s))) (where_ s_active rows) in
       if (length availableShards <? 10)%nat then
         throw (Error ("Cannot repair deal #" +:+ dealId +:+ ": insufficient shards available ("
                       +:+ pretty (length availableShards) +:+ "/10)"))
       else for_each missingShards (repair_missing dealId availableShards))
      (λ error, mret tt).

(** ** monitorDeal *)
Definition monitorDeal (dealId : string) : M world unit :=
    rows ← select (λ d, where_ (λ s, same_text (s_deal_id s) dealId) (shards d));
    let activeShards := length (where_ s_active rows) in
    if (activeShards <? 15)%nat then repairDeal dealId rows else mret tt.
End Orchestrator.

(** * The closed-deal invariant *)

Section Closed.
  Context {ipfs : Ipfs} {codec : RSCodec} {random : Shuffle}.
  Context (reput_score : option (provider_row → Z)).

(** The deal has an active shard, so it is not closed, and stays so while rows of
      the deal are switched on. *)
Definition open_deal (dealId : string) (w : world) : Prop :=
    settled_world w ∧ ∀ r, r ∈ deals (w_db w) → d_deal_id r = dealId → ¬ terminal (d_status r).

Lemma selectProviders_frame (I : world → Prop) gb :
    (∀ x fs w, w_faults w = x :: fs → I w → I (with_faults fs w)) →
    preserves I (selectProvidersForDeal reput_score gb).
Proof.
    intros HI. unfold selectProvidersForDeal. apply preserves_try_catch; [|intros; apply preserves_throw].
    apply preserves_bind.
    - destruct reput_score; [by apply preserves_select|].
      apply preserves_bind; [by apply preserves_external|intros _; apply preserves_throw].
    - intros rows. destruct (_ <? _)%nat; [apply preserves_throw | apply preserves_ret].
  Qed.

Lemma open_deal_reassign dealId p cid i w :
    open_deal dealId w → open_deal dealId (with_db (reassign_shard dealId p cid i) w).
Proof.
    intros [[Ht Hc] Ho]. split; [split; [done|]|done]. intros r s Hr Hter Hs Hid. simpl in *.
    apply elem_of_update_where in Hs as (s0 & Hs0 & ->).
    destruct (same_text (s_deal_id s0) dealId && _) eqn:E; [|by apply (Hc r s0)].
    exfalso. apply andb_true_iff in E as [E _]. apply bool_decide_eq_true in E. simpl in Hid.
    apply (Ho r Hr); [congruence|done].
  Qed.

Lemma repair_missing_open dealId avail missing :
    preserves (open_deal dealId) (repair_missing reput_score dealId avail missing).
Proof.
    unfold repair_missing. apply preserves_bind; [by apply preserves_reconstructShard|intros data].
    apply preserves_bind; [by apply preserves_external|intros _].
    destruct data as [data|]; [|apply preserves_throw].
    apply preserves_bind; [by apply preserves_ipfs_add|intros cid].
    apply preserves_bind; [by apply selectProviders_frame|intros [|p ps]]; [apply preserves_throw|].
    apply preserves_bind; [by apply preserves_send_tx|intros _].
    apply preserves_exec; [done|]. intros w. apply open_deal_reassign.
  Qed.

Lemma monitorDeal_closed dealId : preserves settled_world (monitorDeal reput_score dealId).
Proof.
    intros w Hw. unfold monitorDeal, select, mbind, M_bind, gets.
    destruct (query_cases w) as (r & fs & ->). destruct r as [[]|e]; simpl; [|done].
    set (rows := where_ _ (shards (w_db w))). destruct (_ <? 15)%nat; [|done].
    unfold repairDeal, try_catch.
    destruct (length _ <? 10)%nat eqn:Hlen; [done|]. apply Nat.ltb_ge in Hlen. rewrite length_map in Hlen.
    assert (Hopen : open_deal dealId (with_faults fs w)).
    { split; [done|]. intros r Hr Hid Hter.
      destruct (where_ s_active rows) as [|s rest] eqn:Ea; [simpl in Hlen; lia|].
      assert (Hs : s ∈ where_ s_active rows) by (rewrite Ea; set_solver).
      apply elem_of_where in Hs as [Hs Hact]. unfold rows in Hs. apply elem_of_where in Hs as [Hs Hd].
      apply bool_decide_eq_true in Hd. destruct Hw as [_ Hc].
      rewrite (Hc r s Hr Hter Hs) in Hact; [done|congruence]. }
    assert (Hp : preserves (open_deal dealId) (for_each (where_ (λ s, negb (s_active s)) rows)
       (repair_missing reput_score dealId
          (map (λ s, (s_shard_cid s, Z.to_nat (s_shard_index s))) (where_ s_active rows))))).
    { apply preserves_for_each. intros x. apply repair_missing_open. }
    specialize (Hp _ Hopen). by destruct (for_each _ _ _) as [[[]|e] w']; destruct Hp.
  Qed.

Lemma terminateDeal_closed dealId w :
    db_answers w → settled_world w → settled_world (snd (terminateDeal dealId w)).
Proof.
    intros Hn [Ht Hc]. unfold terminateDeal, send_tx, insert_event, exec, now. running.
    query_step; [|done]. apply external_answers in H; [|done]. query_step; [|done]. apply external_answers in H0; [|done].
    rewrite exec_api_run by done. cbn [w_schema with_chain with_faults]. destruct (sc_api_columns _); [|done].
    rewrite ?query_up by done. simpl. rewrite ?query_up by done. simpl. split; [done|].
    apply (closed_close_deal dealId); done.
  Qed.
End Closed.

(** Termination is chain-first: whatever fails, [terminateDeal] changes the database
    only after the cancellation was sent to the chain; and when everything answers and
    the database has the columns cancelled_at and deleted_at, which the committed schema
    lacks, it returns with the deal cancelled and none of its shards active. *)
Theorem terminate_chain_first dealId w :
  let '(r, w') := terminateDeal dealId w in
  (w_db w' ≠ w_db w → Tx "StorageMarketplace" "cancelDeal" [JStr dealId] ∈ w_chain w') ∧
  (no_faults w → has_api_columns w → r = Ok tt ∧
     (∀ d, d ∈ deals (w_db w') → d_deal_id d = dealId → d_status d = "cancelled") ∧
     (∀ s, s ∈ shards (w_db w') → s_deal_id s = dealId → s_active s = false)).
Proof.
  destruct (terminateDeal dealId w) as [r w'] eqn:Hrun. split.
  - revert Hrun. unfold terminateDeal, send_tx, insert_event, exec, exec_api, require_column, now. running.
    repeat ((query_step || destruct (sc_api_columns _));
            [|by intros [= <- <-]; simpl; rewrite ?elem_of_app, ?list_elem_of_singleton; auto]).
    intros [= <- <-] _. simpl. rewrite elem_of_app, list_elem_of_singleton. auto.
  - intros Hn Hcol. destruct w; unfold no_faults in Hn; unfold has_api_columns in Hcol; simpl in *; subst.
    revert Hrun. unfold terminateDeal, exec_api, require_column. running. rewrite Hcol. simpl. intros Hrun.
    injection Hrun as <- <-. split; [done|]. simpl. split.
    + intros d. rewrite elem_of_update_where. intros (d0 & _ & ->). unfold same_text. by case_bool_decide.
    + intros s. rewrite elem_of_update_where. intros (s0 & _ & ->). unfold live_shard, same_text.
      destruct (bool_decide (s_deal_id s0 = dealId) && s_active s0) eqn:E; [done|].
      intros Hs. rewrite bool_decide_true in E by done. done.
Qed.
