(* ===== verification/Backend.v ===== *)
(** The backend as a whole: the REST API, the expiration job, the health monitor,
    the repair service, the payment processor, the uptime monitor, the proof
    generator, the deal orchestrator and the chain listener interleaved over one
    database.

    [backend_step] is one run of one of their handlers, or a move of the
    environment (time passes, failures are scheduled, blocks come and go).  The
    invariant of the whole is that a deal in a terminal state has no active shard,
    so providers are never paid or monitored for storage nobody asks for. *)

From S2P Require Import Prelude JsNum World ShardManager HealthMonitor RepairService Replication RestApi.
From S2P Require Import Listener Payments Uptime Proofs Orchestrator.

Local Open Scope Z_scope.

(** * Frames: how the two services treat the invariant *)

(** Deactivating shards keeps the invariant. *)
Lemma settled_deactivate (p : shard_row → bool) (u : shard_row → shard_row) w :
  (∀ s, s_deal_id (u s) = s_deal_id s ∧ s_active (u s) = false) →
  settled_world w → settled_world (with_db (λ d, set_shards (update_where p u (shards d)) d) w).
Proof.
  intros Hu [Ht Hc]. split; [done|]. intros r s Hr Hter Hs Hid. simpl in *.
  apply elem_of_update_where in Hs as (s0 & Hs0 & ->). destruct (p s0); [apply Hu|]. by apply (Hc r s0).
Qed.

Lemma monitor_keeps_closed : preserves settled_world checkAllProviders.
Proof.
  unfold checkAllProviders, reportPotentialShardLoss, triggerRepair, now. preserve.
  all: try (apply preserves_select; done).
  all: apply preserves_exec; [done|]; intros w Hw.
  all: first [by apply (settled_deactivate _ (λ s, _)) | done].
Qed.

Lemma recordHeartbeat_keeps_closed p : preserves settled_world (recordHeartbeat p).
Proof. unfold recordHeartbeat, now. preserve. Qed.

(** Updating deals without touching identifier and status keeps the invariant. *)
Lemma settled_deal_update (p : deal_row → bool) (u : deal_row → deal_row) w :
  (∀ r, d_deal_id (u r) = d_deal_id r ∧ d_status (u r) = d_status r) →
  settled_world w → settled_world (with_db (λ d, set_deals (update_where p u (deals d)) d) w).
Proof.
  intros Hu [Ht Hc]. split; [done|]. intros r s Hr Hter Hs Hid. simpl in *.
  apply elem_of_update_where in Hr as (r0 & Hr0 & ->). destruct (Hu r0) as [Hi Hst].
  apply (Hc r0 s); [done| |done|]; destruct (p r0); congruence.
Qed.

Lemma processPayments_keeps_closed : preserves settled_world processPayments.
Proof.
  unfold processPayments, processCapacityRewards, processUsageRewards, processProofBonuses, pay_pledge,
    pay_deal, pay_bonus, now. preserve; try done.
  apply preserves_exec; [done|]. intros w Hw. by apply settled_deal_update.
Qed.

Lemma runCheck_keeps_closed : preserves settled_world runCheck.
Proof.
  unfold runCheck, now. preserve; try done. unfold slash_provider. destruct x. preserve.
Qed.

Lemma proofs_keep_closed randomInt :
  preserves settled_world (generateChallenges randomInt) ∧ preserves settled_world checkMissedProofs.
Proof.
  unfold generateChallenges, createChallenge, checkMissedProofs, reportMissedProof, now.
  split; preserve.
Qed.

(** An event that closes a deal is handled in three statements, so the database has to
    answer them; the marketplace assigns shards when it makes a deal, not to a closed
    one. *)
Definition admissible_event (e : chain_event) (w : world) : Prop :=
  match e with
  | DealCompleted _ => db_answers w ∧ has_api_columns w
  | DealCancelled _ _ => db_answers w
  | ShardAssigned id _ _ _ => ∀ r, r ∈ deals (w_db w) → d_deal_id r = show_Z id → ¬ terminal (d_status r)
  | _ => True
  end.

Lemma insert_provider_tables row d :
  deals (insert_provider row d) = deals d ∧ shards (insert_provider row d) = shards d.
Proof. unfold insert_provider. by destruct (existsb _ _). Qed.

Lemma settled_add_shard row w :
  (∀ r, r ∈ deals (w_db w) → d_deal_id r = s_deal_id row → ¬ terminal (d_status r)) →
  settled_world w → settled_world (with_db (λ d, set_shards (shards d ++ [row]) d) w).
Proof.
  intros Hopen [Ht Hc]. split; [done|]. intros r s Hr Hter. simpl. rewrite elem_of_app, list_elem_of_singleton.
  intros [Hs| ->] Hid; [by apply (Hc r s)|]. by destruct (Hopen r Hr).
Qed.

(** The events that neither close a deal nor add a shard. *)
Definition quiet_event (e : chain_event) : Prop :=
  match e with DealCompleted _ | DealCancelled _ _ | ShardAssigned _ _ _ _ => False | _ => True end.

Lemma quiet_keeps_closed e : quiet_event e → preserves settled_world (handle e).
Proof.
  intros He. destruct e; try done; simpl; clear He.
  all: unfold handleDealCreated, handleShardLost, handleProviderRegistered, handleReputationUpdated,
    handlePledgeCreated, handlePoStSubmitted, handlePoStMissed, handleProviderSlashed,
    handleRewardsWithdrawn, logged, now; preserve.
  all: try (by apply preserves_insert_checked).
  - apply preserves_exec; [done|]. intros w Hw. by apply settled_deactivate.
  - apply preserves_insert_checked; [done|]. intros w Hw _. apply settled_db; [..|done]; apply insert_provider_tables.
Qed.

Lemma listener_keeps_closed e w : admissible_event e w → settled_world w → settled_world (snd (handle e w)).
Proof.
  intros He Hw. destruct e; simpl in He; try (by apply quiet_keeps_closed).
  - unfold handle, handleShardAssigned, logged, try_catch, add_shard, insert_checked, now. running.
    query_step; [|done]. destruct (shard_refused _ _ _); simpl; [done|]. by apply (settled_add_shard _ (with_faults fs w)).
  - destruct He as [He Hcol]. rewrite handle_run by done. destruct Hw as [Ht Hc]. split; [done|].
    cbn [snd w_db with_db]. unfold handled. rewrite Hcol. cbn [negb].
    change (closed (deactivate_shards (show_Z dealId) (w_now w) (complete_deal (show_Z dealId) (w_now w) (w_db w)))).
    by apply closed_close_deal.
  - rewrite handle_run by done. destruct Hw as [Ht Hc]. split; [done|].
    cbn [snd w_db with_db]. unfold handled. destruct (sc_api_columns _); [|done]. cbn [negb].
    change (closed (deactivate_shards (show_Z dealId) (w_now w) (cancel_deal (show_Z dealId) (w_now w) (w_db w)))).
    by apply closed_close_deal.
Qed.

Section RepairClosed.
  Context {ipfs : Ipfs} {codec : RSCodec} {random : Shuffle} (chain_configured ethers6 : bool).

(** The deal under repair still has an active shard, so it is not closed. *)
Definition repairing (dealId : string) (w : world) : Prop :=
    settled_world w ∧ ∃ s, s ∈ shards (w_db w) ∧ s_deal_id s = dealId ∧ s_active s = true.

Lemma repairing_insert dealId row w :
    repairing dealId w → s_deal_id row = dealId → s_active row = true →
    repairing dealId (with_db (λ d, set_shards (shards d ++ [row]) d) w).
Proof.
    intros [[Ht Hc] (s & Hs & Hid & Hact)] Hrow Ha. split; [split; [done|]|].
    - intros r s' Hr Hter. simpl. rewrite elem_of_app, list_elem_of_singleton.
      intros [Hs'| ->] Heq; [by apply (Hc r s')|].
      rewrite (Hc r s Hr Hter Hs) in Hact; [done|congruence].
    - exists s. simpl. rewrite elem_of_app. auto.
  Qed.

Lemma repairing_queue dealId id f w :
    repairing dealId w → repairing dealId (with_db (update_repair id f) w).
Proof. done. Qed.

Lemma selectNewProvider_frame (I : world → Prop) dealId old :
    (∀ x fs w, w_faults w = x :: fs → I w → I (with_faults fs w)) →
    preserves I (selectNewProvider dealId old).
Proof. intros HI. unfold selectNewProvider. preserve. Qed.

(** Everything after the survivors were counted. *)
Lemma repair_commit_closed repairId dealId old index avail :
    preserves (repairing dealId)
      (reconstructed ← reconstructShard avail (Z.to_nat index);
       match reconstructed with
       | None => throw (Error "Cannot read properties of undefined (reading 'length')")
       | Some shard => place_shard chain_configured ethers6 repairId dealId old index shard
       end).
Proof.
    apply preserves_bind; [by apply preserves_reconstructShard|intros [shard|]]; [|apply preserves_throw].
    unfold place_shard. apply preserves_bind; [by apply selectNewProvider_frame|intros choice].
    destruct (negb _); [apply preserves_throw|].
    apply preserves_bind; [by apply preserves_ipfs_add|intros cid].
    apply preserves_bind; [apply preserves_now|intros t1].
    apply preserves_bind; [|intros _].
    { apply preserves_add_shard; [done|]. intros w Hw _. by apply repairing_insert. }
    apply preserves_bind; [unfold updateBlockchainShardAllocation; preserve|intros _].
    apply preserves_bind; [apply preserves_now|intros t2].
    apply preserves_exec; [done|]. intros w Hw. by apply repairing_queue.
  Qed.

Lemma repairShard_keeps_closed repairId dealId old index cid :
    preserves settled_world (repairShard chain_configured ethers6 repairId dealId old index cid).
Proof.
    unfold repairShard. apply preserves_try_catch; [|intros e; by apply preserves_exec].
    unfold repair_body. apply preserves_bind; [apply preserves_now|intros t0].
    apply preserves_bind; [by apply preserves_exec|intros _].
    intros w Hw. unfold select at 1, mbind, M_bind, gets.
    destruct (query_cases w) as (r & fs & ->). destruct r as [[]|e]; simpl; [|done].
    set (rows := order_by _ _). destruct (_ <? _)%nat eqn:Hlen; [done|]. simpl.
    apply Nat.ltb_ge in Hlen.
    destruct rows as [|s rows'] eqn:Hrows; [simpl in Hlen; lia|].
    assert (Hs : s ∈ rows) by (rewrite Hrows; set_solver). unfold rows in Hs.
    rewrite elem_of_order_by, elem_of_where in Hs. destruct Hs as [Hs Hact].
    unfold active_in_deal in Hact. rewrite andb_true_iff, bool_decide_eq_true in Hact.
    apply (repair_commit_closed repairId dealId old index _ (with_faults fs w)).
    split; [done|]. exists s. naive_solver.
  Qed.

Lemma processRepairQueue_keeps_closed : preserves settled_world (processRepairQueue chain_configured ethers6).
Proof.
    unfold processRepairQueue. apply preserves_try_catch; [|intros; apply preserves_ret].
    apply preserves_bind; [by apply preserves_select|intros rows].
    apply preserves_for_each. intros r. apply repairShard_keeps_closed.
  Qed.
End RepairClosed.

(** * The backend as a transition system *)

Inductive request : Type :=
| Heartbeat (address signature : option string) (storage : option (option num * option num))
| StoreKey (dealId : string) (key iv tag client signature : option string)
| CancelDeal (dealId : string) (client signature : option string)
| CreateDeal (nonce : string) (q : create_request)
| PostEvent (event_type description : string) (data : json)
| Upload (file : option (bytes * string))
| Download (dealId : string)
| ReadDeals (status client : option string)
| ReadDeal (dealId : string)
| ReadProviders (active min_reputation : option string)
| ReadProvider (address : string)
| ReadCleanup (address : string)
| ReadKey (dealId : string)
| ReadEvents
| ReadStats.

Section Backend.
  Context {ipfs : Ipfs} {codec : RSCodec} {random : Shuffle} (chain_configured ethers6 : bool).
  Context (verifyMessage : string → string → option string).
  Context (reput_score : option (provider_row → Z)) (randomInt : string → string → nat → Z).

Definition serve (q : request) : M world response :=
    match q with
    | Heartbeat a s st => postHeartbeat verifyMessage a s st
    | StoreKey d k i t c s => postKey verifyMessage d k i t c s
    | CancelDeal d c s => deleteDeal verifyMessage d c s
    | CreateDeal n q => RestApi.createDeal n q
    | PostEvent ty desc data => postEvent ty desc data
    | Upload f => postUpload f
    | Download d => downloadDeal d
    | ReadDeals s c => listDeals s c
    | ReadDeal d => getDeal d
    | ReadProviders a m => listProviders a m
    | ReadProvider a => getProvider a
    | ReadCleanup a => getCleanup a
    | ReadKey d => getKey d
    | ReadEvents => listEvents
    | ReadStats => getStats
    end.

(** Cancellation is not atomic (see [cancel_not_atomic]), so it is served while the
      database answers; a new deal's identifier, made of the clock and four random bytes,
      is not the identifier of a closed deal. *)
Definition admissible (q : request) (w : world) : Prop :=
    match q with
    | CancelDeal _ _ _ => db_answers w
    | CreateDeal nonce _ => ∀ r, r ∈ deals (w_db w) → d_deal_id r = created_id (w_now w) nonce →
                                 ¬ terminal (d_status r)
    | _ => True
    end.

Inductive backend_step : world → world → Prop :=
  | step_serve q w : admissible q w → backend_step w (snd (serve q w))
  | step_expire one_connection w : one_connection = true ∨ db_answers w →
      backend_step w (snd (expirationCheck one_connection w))
  | step_monitor w : backend_step w (snd (checkAllProviders w))
  | step_beat p w : backend_step w (snd (recordHeartbeat p w))
  | step_repair w : backend_step w (snd (processRepairQueue chain_configured ethers6 w))
  | step_payments w : backend_step w (snd (processPayments w))
  | step_uptime w : backend_step w (snd (runCheck w))
  | step_challenges w : backend_step w (snd (generateChallenges randomInt w))
  | step_missed_proofs w : backend_step w (snd (checkMissedProofs w))
  | step_monitor_deal dealId w : backend_step w (snd (monitorDeal reput_score dealId w))
  | step_terminate dealId w : db_answers w → backend_step w (snd (terminateDeal dealId w))
  | step_chain_event e w : admissible_event e w → backend_step w (snd (handle e w))
  | step_environment t fs up blocks w :
      backend_step w (with_now t (with_faults fs (with_db_up up (with_ipfs blocks w)))).

Lemma cancel_keeps_closed d c s w :
    db_answers w → settled_world w → settled_world (snd (deleteDeal verifyMessage d c s w)).
Proof.
    intros Hw [Ht Hc]. unfold deleteDeal, route, fail, try_catch.
    rewrite (bind_ok _ _ _ _ _ (select_up _ w Hw)).
    destruct (where_ _ _) as [|deal rest]; [done|].
    destruct (negb (same_text _ "active") && _); [done|]. destruct (_ || _); [done|].
    destruct (negb _); [done|].
    destruct (decide (has_api_columns w)) as [Hcol|Hcol];
      [|destruct (cancel_body_missing d w Hw Hcol) as [e He]; by rewrite He].
    destruct (cancel_body_run d w Hw Hcol) as (b & w' & Hrun & Hd & Hs & _ & Ht' & _).
    rewrite Hrun. simpl. split; [congruence|]. unfold closed. rewrite Hd, Hs.
    apply (closed_close_deal d); done.
  Qed.

(** Handlers that only read, or only touch the node. *)
Lemma readers_keep_closed q :
    match q with
    | Upload _ | Download _ | ReadDeals _ _ | ReadDeal _ | ReadProviders _ _ | ReadProvider _
    | ReadCleanup _ | ReadKey _ | ReadEvents | ReadStats => True
    | _ => False
    end → preserves settled_world (serve q).
Proof.
    intros Hq. destruct q; try done; simpl; clear Hq.
    all: unfold postUpload, downloadDeal, listDeals, getDeal, listProviders, getProvider, getCleanup,
           getKey, listEvents, getStats, route, getIpfs, cat_file, fail, send, now.
    all: preserve.
  Qed.

Lemma serve_keeps_closed q w :
    admissible q w → settled_world w → settled_world (snd (serve q w)).
Proof.
    intros Ha Hw. destruct q; try (by apply readers_keep_closed); simpl in Ha; simpl.
    - by apply postHeartbeat_closed.
    - by apply postKey_closed.
    - by apply cancel_keeps_closed.
    - by apply (createDeal_creating (w_now w) nonce).
    - by apply postEvent_closed.
  Qed.

End Backend.

(** A trace: a deal is created, cancelled by its client, and the monitor runs. *)
Definition trace_created : world :=
  snd (@serve raw_ipfs xor_codec demo_verify (CreateDeal "00ff" demo_request) demo_create).
Definition trace_cancelled : world :=
  snd (@serve raw_ipfs xor_codec demo_verify
         (CancelDeal (created_id 1000000 "00ff") (Some "0xC") (Some "0xC")) trace_created).

