(* ===== verification/Page.v ===== *)
(** The browser page of the dashboard
    (src/incentive-layer/dashboard/app.js, index.html): its document, its
    storage, its global variables, and the outside world the handlers await
    (the injected wallet, the contracts, the REST API).

    An element is found by the text the code looks it up with: the id passed to
    [getElementById], the selector passed to [querySelector]; a lookup of an absent
    element is [null].  A text in local storage that the code wrote with
    [JSON.stringify] is kept as the value it denotes. *)

From S2P Require Import Prelude JsNum JsFormat World.

Local Open Scope Z_scope.

(** * The document *)

Inductive content : Type := Text (s : string) | Html (s : string).

Record element : Type := Element {
  el_value : string;
  el_content : content;
  el_classes : gset string;
  el_disabled : bool;
  el_checked : bool;
  el_color : string;
  el_display : string;
  el_onclick : string;
  el_attrs : gmap string string
}.

Definition blank : element := Element "" (Text "") ∅ false false "" "" "" ∅.

Definition set_value v e := Element v (el_content e) (el_classes e) (el_disabled e) (el_checked e)
  (el_color e) (el_display e) (el_onclick e) (el_attrs e).
Definition set_content c e := Element (el_value e) c (el_classes e) (el_disabled e) (el_checked e)
  (el_color e) (el_display e) (el_onclick e) (el_attrs e).
Definition set_text s := set_content (Text s).
Definition set_html s := set_content (Html s).
Definition set_classes c e := Element (el_value e) (el_content e) c (el_disabled e) (el_checked e)
  (el_color e) (el_display e) (el_onclick e) (el_attrs e).
Definition class_add c e := set_classes ({[c]} ∪ el_classes e) e.
Definition class_remove c e := set_classes (el_classes e ∖ {[c]}) e.
Definition class_contains (c : string) (e : element) : bool := bool_decide (c ∈ el_classes e).
Definition class_toggle c e := if class_contains c e then class_remove c e else class_add c e.
Definition set_disabled b e := Element (el_value e) (el_content e) (el_classes e) b (el_checked e)
  (el_color e) (el_display e) (el_onclick e) (el_attrs e).
Definition set_checked b e := Element (el_value e) (el_content e) (el_classes e) (el_disabled e) b
  (el_color e) (el_display e) (el_onclick e) (el_attrs e).
Definition set_color c e := Element (el_value e) (el_content e) (el_classes e) (el_disabled e) (el_checked e)
  c (el_display e) (el_onclick e) (el_attrs e).
Definition set_display d e := Element (el_value e) (el_content e) (el_classes e) (el_disabled e) (el_checked e)
  (el_color e) d (el_onclick e) (el_attrs e).
Definition set_onclick f e := Element (el_value e) (el_content e) (el_classes e) (el_disabled e) (el_checked e)
  (el_color e) (el_display e) f (el_attrs e).
Definition setAttribute k v e := Element (el_value e) (el_content e) (el_classes e) (el_disabled e)
  (el_checked e) (el_color e) (el_display e) (el_onclick e) (<[k:=v]> (el_attrs e)).

(** [textContent] of markup: what is left when the tags are taken out. *)
Fixpoint strip_tags (inside : bool) (s : string) : string :=
  match s with
  | EmptyString => EmptyString
  | String c s' =>
      if inside then strip_tags (negb (char_is 62 c)) s'
      else if char_is 60 c then strip_tags true s' else String c (strip_tags false s')
  end.
Definition textContent (e : element) : string :=
  match el_content e with Text s => s | Html s => strip_tags false s end.
Definition innerHTML (e : element) : string :=
  match el_content e with Text s | Html s => s end.

(** * What the handlers ask of the outside *)

Record deal_params : Type := DealParams {
  dp_fileCID : string;
  dp_fileSizeGB : Z;
  dp_durationDays : Z;
  dp_pricePerGBMonthUSD : Z;
  dp_selectedProviders : list string;
  dp_shardCIDs : list string;
  dp_shardSizes : list Z;
  dp_alertDays : Z
}.

Inductive tx : Type :=
| Approve (spender : string) (amount : Z)
| RegisterProvider (peerId endpoint region : string) (minPriceUSD : Z)
| CreatePledge (capacityGB duration collateral : Z)
| ExitPledgeEarly (pledgeId : Z)
| CreateDeal (params : deal_params)
| SubmitPoRep (dealId : Z) (sealedCID unsealedCID proofData : string)
| RenewDeal (dealId additionalDays : Z)
| WithdrawEarnings
| SendVote (data : string).

Inductive call : Type :=
| EthRequest (method : string)
| SignMessage (text : string)
| ModalDisconnect
| GetGasPrice
| GetAllowance (owner spender : string)
| BalanceOf (owner : string)
| GetProviders (address : string)
| GetPledgeCount (address : string)
| GetPledge (address : string) (i : Z)
| KynPriceUSD
| DealCount
| GetDeals (i : Z)
| GetEligibleProviders (maxPrice minReputation : Z)
| GetAvailableEarnings (address : string)
| ReadUint (contract getter : string)     (* a view function without arguments *)
| GetDeal (i : Z)
| GetNetwork
| GetBalance (address : string)
| EstimateGas (t : tx)
| SendTx (t : tx) (gasPrice gasLimit : option Z)
| WaitTx (t : tx)
| Fetch (method url : string) (body : json)
| WindowOpen (url : string)
| Reload.

(** [registry.providers(a)], the fields the page reads. *)
Record chain_provider : Type := ChainProvider {
  cp_registered : bool;       (* [0] *)
  cp_reputation : Z;          (* [3] *)
  cp_dealsCompleted : Z;      (* [7] *)
  cp_dealsFailed : Z          (* [8] *)
}.

(** [capacityPledge.getPledge(a, i)] *)
Record chain_pledge : Type := ChainPledge {
  pl_capacity : Z;            (* [0] *)
  pl_collateral : Z;          (* [1] *)
  pl_active : bool            (* [6] *)
}.

(** [marketplace.deals(i)] *)
Record chain_deal : Type := ChainDeal {
  cd_client : string;
  cd_status : Z;
  cd_endTime : Z;
  cd_alertDays : Z;
  cd_fileSizeGB : Z;
  cd_pricePerGBMonth : Z
}.

Record http_response : Type := HttpResponse {
  http_ok : bool;
  http_status : Z;
  http_json : outcome json
}.

(** The answers: each may depend on everything asked so far, the current
    question first, and each may be a rejection. *)
Class Outside : Type := {
  API_URL : string;                      (* const API_URL = getApiUrl(), at load *)
  answer_Z : list call → outcome Z;
  answer_string : list call → outcome string;
  answer_strings : list call → outcome (list string);
  answer_unit : list call → outcome unit;
  answer_provider : list call → outcome chain_provider;
  answer_pledge : list call → outcome chain_pledge;
  answer_deal : list call → outcome chain_deal;
  answer_http : list call → outcome http_response;
  formatUnits : Z → string;              (* ethers.utils.formatUnits(x, 18) *)
  ethers_id : string → string;           (* ethers.utils.id *)
  random_text : list call → string;      (* Math.random().toString(36)..., randomBytes *)
  createRandom : list call → nat → string;   (* ethers.Wallet.createRandom().address *)
  toLocaleTime : Z → string
}.

(** * The page *)

Record notification : Type := Notification {
  n_id : Z;
  n_type : string;
  n_title : string;
  n_message : string;
  n_dealId : option string;
  n_time : string;
  n_read : bool
}.

Record settings_t : Type := Settings {
  set_deals : bool;
  set_slashing : bool;
  set_network : bool;
  set_currency : string;
  set_unit : string;
  set_autoRenew : bool;
  set_region : string;
  set_endpoint : string
}.

Record profile : Type := Profile {
  pr_username : string;
  pr_email : string;
  pr_bio : string;
  pr_avatar : option string;
  pr_twitter : string;
  pr_github : string
}.

(** [{ penalty, lastUpdated }] *)
Record penalty_data : Type := Penalty { pd_penalty : Z; pd_lastUpdated : Z }.

(** A text in local storage: plain, or the JSON text of a value. *)
Inductive stored : Type :=
| SText (s : string)
| SSettings (s : settings_t)
| SProfile (p : profile)
| SPenalty (p : penalty_data).

Definition stored_text (v : stored) : option string := match v with SText s => Some s | _ => None end.

Inductive vote : Type := For | Against.

Record proposal : Type := Proposal {
  prop_id : Z;
  prop_title : string;
  prop_description : string;
  prop_votesFor : Z;
  prop_votesAgainst : Z;
  prop_status : string;
  prop_userVote : option vote
}.

(** Async functions called without [await]: they run after the caller. *)
Inductive task : Type :=
| FinishInit (address source : string)
| TaskCheckProviderStatus
| TaskFetchEarnings
| TaskFetchDeals
| TaskFetchMyDeals (kind : string)
| TaskDetectRegion
| TaskRenderProfile
| TaskSwitchView (viewId : string)
| TaskReload.

(** The child nodes of #activity-feed: the white space of the page's source around its
    placeholder, the placeholder, and the entries (less the time they show). *)
Inductive feed_node : Type :=
| FeedSpace
| FeedWaiting
| FeedItem (user msg type : string).
Definition feed_markup : list feed_node := [FeedSpace; FeedWaiting; FeedSpace].

Record page : Type := Page {
  pg_dom : gmap string element;
  pg_storage : gmap string stored;
  pg_now : Z;
  pg_hostname : string;
  pg_origin : string;
  pg_port : string;
  pg_pathname : string;
  pg_ethereum : bool;                      (* typeof window.ethereum !== 'undefined' *)
  pg_modal : bool;                         (* the AppKit modal exists *)
  pg_modal_address : option string;        (* its address, when it is connected *)
  pg_listeners : bool;                     (* window._walletListenersRegistered *)
  pg_userAddress : option string;
  pg_provider : bool;
  pg_signer : bool;
  pg_isProvider : bool;
  pg_settings : settings_t;
  pg_notifications : list notification;
  pg_feed : list feed_node;                (* child nodes of #activity-feed *)
  pg_toast : option (string * string * string);     (* #custom-notification *)
  pg_alerts : list string;
  pg_proposals : list proposal;
  pg_tasks : list task;
  pg_calls : list call                     (* newest first *)
}.

(** ** Field updates *)

Section Updates.
  Context (p : page).
Definition with_dom d := Page d (pg_storage p) (pg_now p) (pg_hostname p) (pg_origin p) (pg_port p)
    (pg_pathname p) (pg_ethereum p) (pg_modal p) (pg_modal_address p) (pg_listeners p) (pg_userAddress p)
    (pg_provider p) (pg_signer p) (pg_isProvider p) (pg_settings p) (pg_notifications p) (pg_feed p)
    (pg_toast p) (pg_alerts p) (pg_proposals p) (pg_tasks p) (pg_calls p).
Definition with_storage s := Page (pg_dom p) s (pg_now p) (pg_hostname p) (pg_origin p) (pg_port p)
    (pg_pathname p) (pg_ethereum p) (pg_modal p) (pg_modal_address p) (pg_listeners p) (pg_userAddress p)
    (pg_provider p) (pg_signer p) (pg_isProvider p) (pg_settings p) (pg_notifications p) (pg_feed p)
    (pg_toast p) (pg_alerts p) (pg_proposals p) (pg_tasks p) (pg_calls p).
Definition with_listeners b := Page (pg_dom p) (pg_storage p) (pg_now p) (pg_hostname p) (pg_origin p)
    (pg_port p) (pg_pathname p) (pg_ethereum p) (pg_modal p) (pg_modal_address p) b (pg_userAddress p)
    (pg_provider p) (pg_signer p) (pg_isProvider p) (pg_settings p) (pg_notifications p) (pg_feed p)
    (pg_toast p) (pg_alerts p) (pg_proposals p) (pg_tasks p) (pg_calls p).
(** [userAddress = a; provider = pr; signer = sg] *)
Definition with_wallet a pr sg := Page (pg_dom p) (pg_storage p) (pg_now p) (pg_hostname p) (pg_origin p)
    (pg_port p) (pg_pathname p) (pg_ethereum p) (pg_modal p) (pg_modal_address p) (pg_listeners p) a
    pr sg (pg_isProvider p) (pg_settings p) (pg_notifications p) (pg_feed p)
    (pg_toast p) (pg_alerts p) (pg_proposals p) (pg_tasks p) (pg_calls p).
Definition with_isProvider b := Page (pg_dom p) (pg_storage p) (pg_now p) (pg_hostname p) (pg_origin p)
    (pg_port p) (pg_pathname p) (pg_ethereum p) (pg_modal p) (pg_modal_address p) (pg_listeners p)
    (pg_userAddress p) (pg_provider p) (pg_signer p) b (pg_settings p) (pg_notifications p) (pg_feed p)
    (pg_toast p) (pg_alerts p) (pg_proposals p) (pg_tasks p) (pg_calls p).
Definition with_settings s := Page (pg_dom p) (pg_storage p) (pg_now p) (pg_hostname p) (pg_origin p)
    (pg_port p) (pg_pathname p) (pg_ethereum p) (pg_modal p) (pg_modal_address p) (pg_listeners p)
    (pg_userAddress p) (pg_provider p) (pg_signer p) (pg_isProvider p) s (pg_notifications p) (pg_feed p)
    (pg_toast p) (pg_alerts p) (pg_proposals p) (pg_tasks p) (pg_calls p).
Definition with_notifications ns := Page (pg_dom p) (pg_storage p) (pg_now p) (pg_hostname p) (pg_origin p)
    (pg_port p) (pg_pathname p) (pg_ethereum p) (pg_modal p) (pg_modal_address p) (pg_listeners p)
    (pg_userAddress p) (pg_provider p) (pg_signer p) (pg_isProvider p) (pg_settings p) ns (pg_feed p)
    (pg_toast p) (pg_alerts p) (pg_proposals p) (pg_tasks p) (pg_calls p).
Definition with_feed f := Page (pg_dom p) (pg_storage p) (pg_now p) (pg_hostname p) (pg_origin p)
    (pg_port p) (pg_pathname p) (pg_ethereum p) (pg_modal p) (pg_modal_address p) (pg_listeners p)
    (pg_userAddress p) (pg_provider p) (pg_signer p) (pg_isProvider p) (pg_settings p) (pg_notifications p) f
    (pg_toast p) (pg_alerts p) (pg_proposals p) (pg_tasks p) (pg_calls p).
Definition with_toast t := Page (pg_dom p) (pg_storage p) (pg_now p) (pg_hostname p) (pg_origin p)
    (pg_port p) (pg_pathname p) (pg_ethereum p) (pg_modal p) (pg_modal_address p) (pg_listeners p)
    (pg_userAddress p) (pg_provider p) (pg_signer p) (pg_isProvider p) (pg_settings p) (pg_notifications p)
    (pg_feed p) t (pg_alerts p) (pg_proposals p) (pg_tasks p) (pg_calls p).
Definition with_alerts al := Page (pg_dom p) (pg_storage p) (pg_now p) (pg_hostname p) (pg_origin p)
    (pg_port p) (pg_pathname p) (pg_ethereum p) (pg_modal p) (pg_modal_address p) (pg_listeners p)
    (pg_userAddress p) (pg_provider p) (pg_signer p) (pg_isProvider p) (pg_settings p) (pg_notifications p)
    (pg_feed p) (pg_toast p) al (pg_proposals p) (pg_tasks p) (pg_calls p).
Definition with_proposals ps := Page (pg_dom p) (pg_storage p) (pg_now p) (pg_hostname p) (pg_origin p)
    (pg_port p) (pg_pathname p) (pg_ethereum p) (pg_modal p) (pg_modal_address p) (pg_listeners p)
    (pg_userAddress p) (pg_provider p) (pg_signer p) (pg_isProvider p) (pg_settings p) (pg_notifications p)
    (pg_feed p) (pg_toast p) (pg_alerts p) ps (pg_tasks p) (pg_calls p).
Definition with_tasks ts := Page (pg_dom p) (pg_storage p) (pg_now p) (pg_hostname p) (pg_origin p)
    (pg_port p) (pg_pathname p) (pg_ethereum p) (pg_modal p) (pg_modal_address p) (pg_listeners p)
    (pg_userAddress p) (pg_provider p) (pg_signer p) (pg_isProvider p) (pg_settings p) (pg_notifications p)
    (pg_feed p) (pg_toast p) (pg_alerts p) (pg_proposals p) ts (pg_calls p).
Definition with_calls cs := Page (pg_dom p) (pg_storage p) (pg_now p) (pg_hostname p) (pg_origin p)
    (pg_port p) (pg_pathname p) (pg_ethereum p) (pg_modal p) (pg_modal_address p) (pg_listeners p)
    (pg_userAddress p) (pg_provider p) (pg_signer p) (pg_isProvider p) (pg_settings p) (pg_notifications p)
    (pg_feed p) (pg_toast p) (pg_alerts p) (pg_proposals p) (pg_tasks p) cs.
End Updates.

(** * Primitive operations *)

(** [new TypeError(...)] from a property of [null]. *)
Definition null_error : js_error := Error "Cannot read properties of null".

(** [document.getElementById(id)] when the code then uses the element unguarded. *)
Definition element_ (id : string) : M page element :=
  d ← gets pg_dom;
  match d !! id with Some e => mret e | None => throw null_error end.

(** A write to an element the code holds a reference to; [if (el) ...] skips the
    write when there is none. *)
Definition when_el (id : string) (f : element → element) : M page unit :=
  modify (λ p, with_dom p (alter f id (pg_dom p))).

(** A write to an element used unguarded. *)
Definition on_el (id : string) (f : element → element) : M page unit :=
  element_ id ≫= λ _, when_el id f.

(** [document.querySelectorAll('.c').forEach(e => f e)] *)
Definition on_class (c : string) (f : element → element) : M page unit :=
  modify (λ p, with_dom p ((λ e, if class_contains c e then f e else e) <$> pg_dom p)).

Definition has_el (id : string) : M page bool := gets (λ p, bool_decide (is_Some (pg_dom p !! id))).

Definition getItem (key : string) : M page (option stored) := gets (λ p, pg_storage p !! key).
Definition setItem (key : string) (v : stored) : M page unit :=
  modify (λ p, with_storage p (<[key:=v]> (pg_storage p))).

Definition alert (msg : string) : M page unit := modify (λ p, with_alerts p (pg_alerts p ++ [msg])).

(** Call an async function without awaiting it. *)
Definition spawn (t : task) : M page unit := modify (λ p, with_tasks p (pg_tasks p ++ [t])).

Definition clock : M page Z := gets pg_now.

Section Asking.
  Context `{Outside}.

(** [await] of an outside call: it is recorded, then answered. *)
Definition ask {A} (answer : list call → outcome A) (c : call) : M page A := λ p,
    let p' := with_calls p (c :: pg_calls p) in (answer (pg_calls p'), p').

Definition ask_Z := ask answer_Z.
Definition ask_string := ask answer_string.
Definition ask_strings := ask answer_strings.
Definition ask_unit := ask answer_unit.
Definition ask_http := ask answer_http.
End Asking.

Lemma ask_ok {A} (answer : list call → outcome A) c p a :
  answer (c :: pg_calls p) = Ok a → ask answer c p = (Ok a, with_calls p (c :: pg_calls p)).
Proof. intros Ha. unfold ask. simpl. by rewrite Ha. Qed.
Lemma ask_throw {A} (answer : list call → outcome A) c p e :
  answer (c :: pg_calls p) = Throw e → ask answer c p = (Throw e, with_calls p (c :: pg_calls p)).
Proof. intros Ha. unfold ask. simpl. by rewrite Ha. Qed.

Definition json_field (k : string) (j : json) : json :=
  match j with
  | JObj fields => default JNull (snd <$> find_first (λ f, bool_decide (fst f = k)) fields)
  | _ => JNull
  end.

(** Truthiness of a JSON value. *)
Definition json_truthy (j : json) : bool :=
  match j with
  | JNull | JBool false | JStr EmptyString | JInt 0 => false
  | JNum x => negb (num_falsy x)
  | _ => true
  end.

(** * A concrete page, and an outside that rejects everything *)

Definition rejecting : Outside := {|
  API_URL := "http://localhost:3002";
  answer_Z := λ _, Throw (Error "rejected");
  answer_string := λ _, Throw (Error "rejected");
  answer_strings := λ _, Throw (Error "rejected");
  answer_unit := λ _, Throw (Error "rejected");
  answer_provider := λ _, Throw (Error "rejected");
  answer_pledge := λ _, Throw (Error "rejected");
  answer_deal := λ _, Throw (Error "rejected");
  answer_http := λ _, Throw (Error "rejected");
  formatUnits := λ _, "0.0";
  ethers_id := λ s, s;
  random_text := λ _, "random";
  createRandom := λ _ _, "0xdummy";
  toLocaleTime := λ _, "12:00"
|}.

Definition fresh_page : page :=
  Page ∅ ∅ 0 "localhost" "http://localhost" "" "/dashboard/" true false None false None false false false
    (Settings true true false "KYN" "GB" false "na" "") [] feed_markup None [] [] [] [].
