(* ===== verification/Notices.v ===== *)
(** What the dashboard shows and remembers (dashboard/app.js): the
    notification list, the activity feed, the toast, the settings, the theme, and
    the small helpers every handler uses. *)

From S2P Require Import Prelude JsNum JsFormat World Page.

Local Open Scope Z_scope.

(** * Where the API is *)

Definition getApiUrl (p : page) : string :=
  if bool_decide (pg_hostname p = "kyneto.app") || bool_decide (pg_hostname p = "www.kyneto.app")
  then pg_origin p
  else
    let hostname := if bool_decide (pg_hostname p = "") then "localhost" else pg_hostname p in
    if bool_decide (pg_port p = "3003") then "http://" +:+ hostname +:+ ":3002"
    else match pg_storage p !! "kyneto_api_url" ≫= stored_text with
         | Some (String c s) => String c s
         | _ => "http://" +:+ hostname +:+ ":3002"
         end.

(** * Notifications *)

Definition MAX_NOTIFICATIONS : nat := 10.

Definition toggleNotificationDropdown : M page unit :=
  when_el "notification-dropdown" (class_toggle "hidden").

(** [xs.unshift(x); if (xs.length > k) xs.pop()] *)
Definition push_bounded {A} (k : nat) (x : A) (xs : list A) : list A :=
  let xs' := x :: xs in if (k <? length xs')%nat then removelast xs' else xs'.

Section WithOutside.
  Context `{Outside}.

Definition notification_item (n : notification) : string :=
    "<div class=notification-item " +:+ n_type n +:+ " " +:+ (if n_read n then "read" else "") +:+
    " onclick=markAsRead(" +:+ show_Z (n_id n) +:+ ")><div class=icon><i class=fa-solid " +:+
    (if bool_decide (n_type n = "warning") then "fa-triangle-exclamation" else "fa-circle-info") +:+
    "></i></div><div class=content><div class=title>" +:+ n_title n +:+ "</div><div class=message>" +:+
    n_message n +:+ "</div><div class=time>" +:+ n_time n +:+ "</div>" +:+
    match n_dealId n with
    | Some (String c s) => "<button class=btn-renew-mini onclick=handleRenewDeal(" +:+ String c s +:+
                           ", 30)>Renew Now</button>"
    | _ => ""
    end +:+ "</div></div>".

Definition updateNotificationUI : M page unit :=
    haveList ← has_el "notification-list";
    haveBadge ← has_el "notification-badge";
    if negb haveList || negb haveBadge then mret tt else
    ns ← gets pg_notifications;
    match ns with
    | [] => when_el "notification-list" (set_html "<div class=empty-notifications>No new notifications</div>") ;;
            when_el "notification-badge" (class_add "hidden")
    | _ =>
        let unreadCount := length (where_ (λ n, negb (n_read n)) ns) in
        (if (0 <? unreadCount)%nat
         then when_el "notification-badge" (set_text (show_Z (Z.of_nat unreadCount))) ;;
              when_el "notification-badge" (class_remove "hidden")
         else when_el "notification-badge" (class_add "hidden")) ;;
        when_el "notification-list" (set_html (join "" (map notification_item ns)))
    end.

Definition addNotification (type title message : string) (dealId : option string) : M page unit :=
    now ← clock;
    modify (λ p, with_notifications p
      (push_bounded MAX_NOTIFICATIONS (Notification now type title message dealId (toLocaleTime now) false)
         (pg_notifications p))) ;;
    updateNotificationUI.

(** [n.read = true] on the first notification with the id. *)
Fixpoint mark_first (id : Z) (ns : list notification) : list notification :=
    match ns with
    | [] => []
    | n :: ns' => if n_id n =? id
                  then Notification (n_id n) (n_type n) (n_title n) (n_message n) (n_dealId n) (n_time n) true :: ns'
                  else n :: mark_first id ns'
    end.

Definition markAsRead (id : Z) : M page unit :=
    modify (λ p, with_notifications p (mark_first id (pg_notifications p))) ;; updateNotificationUI.

Definition clearNotifications : M page unit :=
    modify (λ p, with_notifications p []) ;; updateNotificationUI.

(** ** Expiration alerts *)

Definition check_deal (me : string) (now i : Z) (deal : chain_deal) : M page unit :=
    if bool_decide (toLowerCase (cd_client deal) = toLowerCase me)
       && ((cd_status deal =? 0) || (cd_status deal =? 4)) then
      let alertDays := if cd_alertDays deal =? 0 then 3 else cd_alertDays deal in
      let timeLeft := cd_endTime deal - now in
      if timeLeft <? 0 then
        addNotification "warning" "Deal Expired"
          ("Deal #" +:+ show_Z i +:+ " has expired and is in grace period.") (Some (show_Z i))
      else if timeLeft <? alertDays * 24 * 60 * 60 then
        addNotification "info" "Expiring Soon"
          ("Deal #" +:+ show_Z i +:+ " expires in " +:+ show_Z (ceil_div timeLeft (24 * 60 * 60)) +:+ " days.")
          (Some (show_Z i))
      else mret tt
    else mret tt.

Definition checkExpirations : M page unit :=
    me ← gets pg_userAddress;
    match me with
    | None | Some EmptyString => mret tt
    | Some me =>
        try_catch
          (count ← ask_Z DealCount;
           nowMs ← clock;
           let now := nowMs / 1000 in
           for_each (seqZ 0 count) (λ i,
             deal ← ask answer_deal (GetDeals i);
             check_deal me now i deal))
          (λ _, mret tt)
    end.

(** * Activity feed and toast *)

(** [feed.children]: the elements, without the text between them. *)
Definition is_element (n : feed_node) : bool := match n with FeedSpace => false | _ => true end.
Definition children (feed : list feed_node) : list feed_node := List.filter is_element feed.

(** [feed.prepend(item); if (feed.children.length > 50) feed.lastChild.remove()]: the
    elements are counted, but the last node goes, be it text. *)
Definition feed_prepend (item : feed_node) (feed : list feed_node) : list feed_node :=
    let feed' := item :: feed in if (50 <? length (children feed'))%nat then removelast feed' else feed'.

Definition addActivity (user msg type : string) : M page unit :=
    haveFeed ← has_el "activity-feed";
    if haveFeed : bool then modify (λ p, with_feed p (feed_prepend (FeedItem user msg type) (pg_feed p)))
    else mret tt.

(** The old toast is removed, the new one appended; it removes itself later. *)
Definition showNotification (type title message : string) : M page unit :=
    modify (λ p, with_toast p (Some (type, title, message))).

(** * Gas *)

Definition getGasFees : M page (option Z) :=
    try_catch
      (havePr ← gets pg_provider;
       if havePr : bool
       then gasPrice ← ask_Z GetGasPrice; mret (Some (Z.quot (gasPrice * 150) 100))
       else throw null_error)
      (λ _, mret None).

Definition getGasLimitWithBuffer (estimate : Z) : Z := Z.quot (estimate * 130) 100.

(** * Small page functions *)

Definition setOnlineStatus (online : bool) : M page unit :=
    have ← has_el "api-status";
    if have : bool then
      if online then
        when_el "api-status" (set_classes {["status-badge"; "online"]}) ;;
        on_el "#api-status .text" (set_text "Network Online")
      else
        when_el "api-status" (set_classes {["status-badge"]}) ;;
        on_el "#api-status .text" (set_text "API Offline (Demo Mode)")
    else mret tt.

Definition KYN_TOKEN_ADDRESS : string := "0x21dAc0c56263d2E53d5FdDc6c5235202F11ad6a1".
Definition CAPACITY_PLEDGE_ADDRESS : string := "0x4D5C119454FFf89b3De8C16473e204133942842b".
Definition STORAGE_MARKETPLACE_ADDRESS : string := "0x42Dd2D4Ae2b9d44620d150A272D618FD6A7E2B1E".
Definition AMOY_CHAIN_ID : string := "0x13882".

Definition updateProtocolInfo : M page unit := when_el "protocol-kyn-token" (set_text KYN_TOKEN_ADDRESS).

Definition toggleProfileDropdown : M page unit :=
    have ← has_el "profile-dropdown";
    if have : bool then
      when_el "profile-dropdown" (class_toggle "hidden") ;;
      when_el "sidebar-dropdown" (class_add "hidden")
    else mret tt.

Definition toggleSidebarDropdown : M page unit :=
    have ← has_el "sidebar-dropdown";
    if have : bool then
      when_el "sidebar-dropdown" (class_toggle "hidden") ;;
      when_el "profile-dropdown" (class_add "hidden")
    else mret tt.

Definition toggleSidebar : M page unit :=
    on_el ".app-container" (class_toggle "collapsed-sidebar") ;;
    container ← element_ ".app-container";
    if class_contains "collapsed-sidebar" container then
      when_el "#sidebar-toggle i" (λ e, class_add "fa-arrow-right" (class_remove "fa-bars" e))
    else
      when_el "#sidebar-toggle i" (λ e, class_add "fa-bars" (class_remove "fa-arrow-right" e)).

(** [parseFloat] of a number is that number. *)
Definition formatStorage (val : num) : string :=
    if num_le (num_of_Z 1000) val
    then drop_suffix ".00" (toFixed 2 (num_div val (num_of_Z 1000))) +:+ " TB"
    else show_num val +:+ " GB".

(** * Settings and theme *)

Definition default_settings : settings_t := Settings true true false "KYN" "GB" false "na" "".

Definition stored_truthy (v : stored) : bool :=
    match v with SText EmptyString => false | _ => true end.

(** [JSON.parse] of what is stored, where a settings object is expected. *)
Definition parse_settings (v : stored) : M page settings_t :=
    match v with SSettings s => mret s | _ => throw (Error "Unexpected token in JSON") end.

Definition loadSettings : M page unit :=
    saved ← getItem "kyneto_settings";
    match saved with
    | Some v => if stored_truthy v
                then s ← parse_settings v; modify (λ p, with_settings p s)
                else mret tt
    | None => mret tt
    end.

Definition applySettingsToUI : M page unit :=
    try_catch
      (s ← gets pg_settings;
       when_el "notify-deals" (set_checked (set_deals s)) ;;
       when_el "notify-slashing" (set_checked (set_slashing s)) ;;
       when_el "notify-network" (set_checked (set_network s)) ;;
       when_el "setting-currency" (set_value (set_currency s)) ;;
       when_el "setting-unit" (set_value (set_unit s)) ;;
       when_el "setting-auto-renew" (set_checked (set_autoRenew s)) ;;
       when_el "setting-pref-region" (set_value (set_region s)) ;;
       when_el "setting-node-endpoint" (set_value (set_endpoint s)))
      (λ _, mret tt).

Definition upd_settings (f : settings_t → settings_t) : M page unit :=
    modify (λ p, with_settings p (f (pg_settings p))).

(** The fields are assigned one by one: a missing control throws half way. *)
Definition saveSettings : M page unit :=
    e ← element_ "notify-deals";
    upd_settings (λ s, Settings (el_checked e) (set_slashing s) (set_network s) (set_currency s) (set_unit s)
                         (set_autoRenew s) (set_region s) (set_endpoint s)) ;;
    e ← element_ "notify-slashing";
    upd_settings (λ s, Settings (set_deals s) (el_checked e) (set_network s) (set_currency s) (set_unit s)
                         (set_autoRenew s) (set_region s) (set_endpoint s)) ;;
    e ← element_ "notify-network";
    upd_settings (λ s, Settings (set_deals s) (set_slashing s) (el_checked e) (set_currency s) (set_unit s)
                         (set_autoRenew s) (set_region s) (set_endpoint s)) ;;
    e ← element_ "setting-currency";
    upd_settings (λ s, Settings (set_deals s) (set_slashing s) (set_network s) (el_value e) (set_unit s)
                         (set_autoRenew s) (set_region s) (set_endpoint s)) ;;
    e ← element_ "setting-unit";
    upd_settings (λ s, Settings (set_deals s) (set_slashing s) (set_network s) (set_currency s) (el_value e)
                         (set_autoRenew s) (set_region s) (set_endpoint s)) ;;
    e ← element_ "setting-auto-renew";
    upd_settings (λ s, Settings (set_deals s) (set_slashing s) (set_network s) (set_currency s) (set_unit s)
                         (el_checked e) (set_region s) (set_endpoint s)) ;;
    e ← element_ "setting-pref-region";
    upd_settings (λ s, Settings (set_deals s) (set_slashing s) (set_network s) (set_currency s) (set_unit s)
                         (set_autoRenew s) (el_value e) (set_endpoint s)) ;;
    endpoint ← gets (λ p, pg_dom p !! "setting-node-endpoint");
    match endpoint with
    | Some e => upd_settings (λ s, Settings (set_deals s) (set_slashing s) (set_network s) (set_currency s)
                                     (set_unit s) (set_autoRenew s) (set_region s) (trim (el_value e)))
    | None => mret tt
    end ;;
    s ← gets pg_settings;
    setItem "kyneto_settings" (SSettings s) ;;
    showNotification "success" "Settings Saved" "Your preferences have been updated." ;;
    addActivity "System" "Updated user settings" "system".

Definition toggleTheme : M page unit :=
    element_ "theme-toggle" ;;
    body ← element_ "body";
    if class_contains "dark-theme" body then
      when_el "body" (λ e, class_add "light-theme" (class_remove "dark-theme" e)) ;;
      on_el "#theme-toggle i" (λ e, class_add "fa-sun" (class_remove "fa-moon" e)) ;;
      setItem "theme" (SText "light")
    else
      when_el "body" (λ e, class_add "dark-theme" (class_remove "light-theme" e)) ;;
      on_el "#theme-toggle i" (λ e, class_add "fa-moon" (class_remove "fa-sun" e)) ;;
      setItem "theme" (SText "dark").

Definition loadSavedTheme : M page unit :=
    saved ← getItem "theme";
    match saved with
    | Some (SText "light") =>
        on_el "body" (λ e, class_add "light-theme" (class_remove "dark-theme" e)) ;;
        have ← has_el "theme-toggle";
        if have : bool then on_el "#theme-toggle i" (λ e, class_add "fa-sun" (class_remove "fa-moon" e))
        else mret tt
    | _ => mret tt
    end.
End WithOutside.

(** * Bounds of the two lists *)

Lemma length_push_bounded {A} k (x : A) xs :
  (length xs ≤ k)%nat → (length (push_bounded k x xs) ≤ k)%nat.
Proof.
  intros Hk. unfold push_bounded. destruct (k <? length (x :: xs))%nat eqn:E; [|apply Nat.ltb_ge in E; done].
  rewrite removelast_firstn_len, length_firstn. simpl in *. lia.
Qed.

Lemma push_bounded_head {A} k (x : A) xs : (0 < k)%nat → head (push_bounded k x xs) = Some x.
Proof.
  intros Hk. unfold push_bounded. destruct (k <? length (x :: xs))%nat eqn:E; [|done].
  apply Nat.ltb_lt in E. simpl in E. destruct xs as [|y xs]; [simpl in E; lia|done].
Qed.

Lemma length_mark_first id ns : length (mark_first id ns) = length ns.
Proof. induction ns as [|n ns IH]; simpl; [done|]. destruct (_ =? _); simpl; by rewrite ?IH. Qed.

(** The text of the page's source in the feed. *)
Definition spaces (feed : list feed_node) : nat := length (List.filter (λ n, negb (is_element n)) feed).

Lemma children_spaces feed : (length (children feed) + spaces feed = length feed)%nat.
Proof. unfold children, spaces. induction feed as [|n feed IH]; simpl; [done|]. destruct n; simpl; lia. Qed.

Lemma spaces_removelast feed : (spaces (removelast feed) ≤ spaces feed)%nat.
Proof.
  unfold spaces. induction feed as [|n feed IH]; simpl; [done|].
  destruct feed as [|m feed]; simpl in *; [lia|]. destruct n; simpl in *; lia.
Qed.

(** Two pieces of text at most, and fifty-two nodes in all. *)
Definition feed_ok (feed : list feed_node) : Prop := (spaces feed ≤ 2 ∧ length feed ≤ 52)%nat.

Lemma feed_prepend_ok user msg type feed : feed_ok feed → feed_ok (feed_prepend (FeedItem user msg type) feed).
Proof.
  unfold feed_ok, feed_prepend. intros [Hs Hl]. set (feed' := FeedItem user msg type :: feed).
  assert (Hs' : spaces feed' = spaces feed) by done. assert (Hl' : length feed' = S (length feed)) by done.
  destruct (50 <? length (children feed'))%nat eqn:E.
  - pose proof (spaces_removelast feed') as Hr. assert (length (removelast feed') ≤ length feed)%nat.
    { rewrite removelast_firstn_len, length_firstn, Hl'. lia. }
    lia.
  - apply Nat.ltb_ge in E. pose proof (children_spaces feed'). lia.
Qed.

Lemma feed_ok_children feed : feed_ok feed → (length (children feed) ≤ 52)%nat.
Proof. intros [_ Hl]. pose proof (children_spaces feed). lia. Qed.

(** The bound is reached, and it is not fifty: sixty entries on the page as it is
    loaded leave fifty-two. *)
Example feed_settles :
  length (children (Nat.iter 60 (feed_prepend (FeedItem "Network" "New deal" "network")) feed_markup)) = 52%nat.
Proof. reflexivity. Qed.
Lemma feed_markup_ok : feed_ok feed_markup.
Proof. unfold feed_ok, spaces. simpl. lia. Qed.

(** The page never keeps more than ten notifications and fifty-two feed entries. *)
Definition bounded_lists (p : page) : Prop :=
  (length (pg_notifications p) ≤ MAX_NOTIFICATIONS)%nat ∧ feed_ok (pg_feed p).

(** * Invariants that showing things cannot break *)

(** A transaction that makes a contract pull tokens from the user. *)
Definition spends (t : tx) : bool :=
  match t with CreatePledge _ _ _ | CreateDeal _ | RenewDeal _ _ => true | _ => false end.
Definition moves_nothing (c : call) : bool := match c with SendTx t _ _ => negb (spends t) | _ => true end.

(** Calls that hand data to the API. *)
Definition posts (c : call) : bool := match c with Fetch m _ _ => bool_decide (m = "POST") | _ => false end.

Definition harmless (c : call) : bool := moves_nothing c && negb (posts c).

Lemma harmless_moves_nothing c : harmless c = true → moves_nothing c = true.
Proof. unfold harmless. by intros [? _]%andb_prop. Qed.

(** A wallet initialisation is started for an account, never for none. *)
Definition named (t : task) : bool := match t with FinishInit a _ => truthy (Some a) | _ => true end.

Class UiStable (I : page → Prop) : Prop := {
  ui_dom : ∀ p d, I p → I (with_dom p d);
  ui_storage : ∀ p s, I p → I (with_storage p s);
  ui_listeners : ∀ p b, I p → I (with_listeners p b);
  ui_isProvider : ∀ p b, I p → I (with_isProvider p b);
  ui_settings : ∀ p s, I p → I (with_settings p s);
  ui_toast : ∀ p t, I p → I (with_toast p t);
  ui_alerts : ∀ p l, I p → I (with_alerts p l);
  ui_spawn : ∀ p t, named t = true → I p → I (with_tasks p (pg_tasks p ++ [t]));
  ui_feed : ∀ p u m t, I p → I (with_feed p (feed_prepend (FeedItem u m t) (pg_feed p)));
  ui_push : ∀ p n, I p → I (with_notifications p (push_bounded MAX_NOTIFICATIONS n (pg_notifications p)));
  ui_mark : ∀ p id, I p → I (with_notifications p (mark_first id (pg_notifications p)));
  ui_clear : ∀ p, I p → I (with_notifications p []);
  ui_call : ∀ p c, harmless c = true → I p → I (with_calls p (c :: pg_calls p))
}.

Section UiFrame.
  Context `{Outside} (I : page → Prop) `{!UiStable I}.

Lemma preserves_element id : preserves I (element_ id).
Proof using. unfold element_. preserve. Qed.
Lemma preserves_when_el id f : preserves I (when_el id f).
Proof using UiStable0. apply preserves_modify. intros. by apply ui_dom. Qed.
Lemma preserves_on_el id f : preserves I (on_el id f).
Proof using UiStable0. unfold on_el. apply preserves_bind; [apply preserves_element|]. intros. apply preserves_when_el. Qed.
Lemma preserves_on_class c f : preserves I (on_class c f).
Proof using UiStable0. apply preserves_modify. intros. by apply ui_dom. Qed.
Lemma preserves_has_el id : preserves I (has_el id).
Proof using. apply preserves_gets. Qed.
Lemma preserves_getItem k : preserves I (getItem k).
Proof using. apply preserves_gets. Qed.
Lemma preserves_setItem k v : preserves I (setItem k v).
Proof using UiStable0. apply preserves_modify. intros. by apply ui_storage. Qed.
Lemma preserves_alert s : preserves I (alert s).
Proof using UiStable0. apply preserves_modify. intros. by apply ui_alerts. Qed.
Lemma preserves_spawn t : named t = true → preserves I (spawn t).
Proof using UiStable0. intros Ht. apply preserves_modify. intros. by apply ui_spawn. Qed.
Lemma preserves_clock : preserves I clock.
Proof using. apply preserves_gets. Qed.
Lemma preserves_ask {A} (answer : list call → outcome A) c : harmless c = true → preserves I (ask answer c).
Proof using UiStable0. intros Hc p Hp. by apply ui_call. Qed.
Lemma preserves_ask_Z c : harmless c = true → preserves I (ask_Z c).
Proof using UiStable0. apply preserves_ask. Qed.
Lemma preserves_ask_string c : harmless c = true → preserves I (ask_string c).
Proof using UiStable0. apply preserves_ask. Qed.
Lemma preserves_ask_strings c : harmless c = true → preserves I (ask_strings c).
Proof using UiStable0. apply preserves_ask. Qed.
Lemma preserves_ask_unit c : harmless c = true → preserves I (ask_unit c).
Proof using UiStable0. apply preserves_ask. Qed.
Lemma preserves_ask_http c : harmless c = true → preserves I (ask_http c).
Proof using UiStable0. apply preserves_ask. Qed.
Lemma preserves_set_isProvider b : preserves I (modify (λ p, with_isProvider p b)).
Proof using UiStable0. apply preserves_modify. intros. by apply ui_isProvider. Qed.
Lemma preserves_upd_settings f : preserves I (modify (λ p, with_settings p (f p))).
Proof using UiStable0. apply preserves_modify. intros. by apply ui_settings. Qed.
Lemma preserves_set_listeners b : preserves I (modify (λ p, with_listeners p b)).
Proof using UiStable0. apply preserves_modify. intros. by apply ui_listeners. Qed.
Lemma preserves_set_storage f : preserves I (modify (λ p, with_storage p (f p))).
Proof using UiStable0. apply preserves_modify. intros. by apply ui_storage. Qed.
Lemma preserves_showNotification a b c : preserves I (showNotification a b c).
Proof using UiStable0. apply preserves_modify. intros. by apply ui_toast. Qed.
End UiFrame.

Create HintDb page.
#[export] Hint Resolve preserves_element preserves_when_el preserves_on_el preserves_on_class
  preserves_has_el preserves_getItem preserves_setItem preserves_alert preserves_spawn preserves_clock
  preserves_ask preserves_ask_Z preserves_ask_string preserves_ask_strings preserves_ask_unit
  preserves_ask_http preserves_set_isProvider preserves_upd_settings preserves_set_listeners
  preserves_set_storage preserves_showNotification : page.

#[export] Hint Extern 1 (harmless _ = true) => reflexivity : page.
#[export] Hint Extern 1 (named _ = true) => reflexivity : page.
#[export] Hint Extern 0 (UiStable _) => typeclasses eauto : page.

(** [page_preserve]: walk through a handler, closing what the frame lemmas know. *)
Ltac page_step :=
  first [ solve [eauto 3 with page nocore]
        | preserve_step ].
Ltac page_preserve := repeat (page_step; cbv beta zeta).

Section UiHandlers.
  Context `{Outside} (I : page → Prop) `{!UiStable I}.

Lemma preserves_updateNotificationUI : preserves I updateNotificationUI.
Proof using UiStable0. unfold updateNotificationUI. page_preserve. Qed.
Lemma preserves_addActivity a b c : preserves I (addActivity a b c).
Proof using UiStable0. unfold addActivity. page_preserve. by apply ui_feed. Qed.
  Hint Resolve preserves_updateNotificationUI preserves_addActivity : page.
Lemma preserves_addNotification a b c d : preserves I (addNotification a b c d).
Proof using UiStable0. unfold addNotification. page_preserve. by apply ui_push. Qed.
Lemma preserves_markAsRead id : preserves I (markAsRead id).
Proof using UiStable0. unfold markAsRead. page_preserve. by apply ui_mark. Qed.
Lemma preserves_clearNotifications : preserves I clearNotifications.
Proof using UiStable0. unfold clearNotifications. page_preserve. by apply ui_clear. Qed.
  Hint Resolve preserves_addNotification : page.
Lemma preserves_checkExpirations : preserves I checkExpirations.
Proof using UiStable0. unfold checkExpirations, check_deal. page_preserve. Qed.
Lemma preserves_getGasFees : preserves I getGasFees.
Proof using UiStable0. unfold getGasFees. page_preserve. Qed.
Lemma preserves_loadSettings : preserves I loadSettings.
Proof using UiStable0. unfold loadSettings, parse_settings. page_preserve. Qed.
Lemma preserves_applySettingsToUI : preserves I applySettingsToUI.
Proof using UiStable0. unfold applySettingsToUI. page_preserve. Qed.
Lemma preserves_saveSettings : preserves I saveSettings.
Proof using UiStable0. unfold saveSettings, upd_settings. page_preserve. Qed.
Lemma preserves_toggleTheme : preserves I toggleTheme.
Proof using UiStable0. unfold toggleTheme. page_preserve. Qed.
Lemma preserves_loadSavedTheme : preserves I loadSavedTheme.
Proof using UiStable0. unfold loadSavedTheme. page_preserve. Qed.
Lemma preserves_setOnlineStatus b : preserves I (setOnlineStatus b).
Proof using UiStable0. unfold setOnlineStatus. page_preserve. Qed.
End UiHandlers.

#[export] Hint Resolve preserves_updateNotificationUI preserves_addActivity preserves_addNotification
  preserves_markAsRead preserves_clearNotifications preserves_checkExpirations preserves_getGasFees
  preserves_loadSettings preserves_applySettingsToUI preserves_saveSettings preserves_toggleTheme
  preserves_loadSavedTheme preserves_setOnlineStatus : page.
