(* ===== verification/NodeStatus.v ===== *)
(** The provider panel of the dashboard: [checkProviderStatus] of
    dashboard/app.js and what it computes — whether the node is online (relay
    first, heartbeat second), the reputation shown, with its penalty that grows
    while the node is offline and is paid back while it is online, and the pledges
    read from the chain.

    Timestamps in the API's answers are the instants they denote, in
    milliseconds.  In generated markup the attributes that only style the page are
    left out. *)

From S2P Require Import Prelude JsNum JsFormat World Page Notices.

Local Open Scope Z_scope.

(** * The reputation score *)

Definition HALF_HOUR : Z := 30 * 60 * 1000.
Definition msInDay : Z := 24 * 60 * 60 * 1000.

(** The penalty after [offlineMs] without a heartbeat. *)
Definition offline_penalty (offlineMs : Z) : Z :=
  let firstDayMs := Z.min offlineMs msInDay in
  let firstDayPenalty := Z.min 30 (firstDayMs / HALF_HOUR) in
  let extraDaysPenalty := if msInDay <? offlineMs then ((offlineMs - msInDay) * 2) / msInDay else 0 in
  firstDayPenalty + extraDaysPenalty.

(** The penalty to apply now, and what is written to local storage. *)
Definition recover (now : Z) (s : penalty_data) : Z * option penalty_data :=
  if 0 <? pd_penalty s then
    let recoveryAmount := (now - pd_lastUpdated s) / HALF_HOUR in
    if 0 <? recoveryAmount then
      let s' := Penalty (Z.max 0 (pd_penalty s - recoveryAmount))
                        (pd_lastUpdated s + recoveryAmount * 30 * 60 * 1000) in
      (pd_penalty s', Some s')
    else (pd_penalty s, None)
  else (0, Some (Penalty 0 now)).

Definition update_penalty (now : Z) (isNodeOnline : bool) (last_heartbeat : option Z) (s : penalty_data)
    : Z * option penalty_data :=
  match isNodeOnline, last_heartbeat with
  | false, Some t => let p := offline_penalty (now - t) in (p, Some (Penalty p now))
  | true, _ => recover now s
  | false, None => (0, None)
  end.

(** [Math.round((failed / total) * 50)] in doubles. *)
Definition deals_penalty (completed failed : Z) : Z :=
  let total := completed + failed in
  if 0 <? total
  then default 0 (num_round (num_mul (num_div (num_of_Z failed) (num_of_Z total)) (num_of_Z 50)))
  else 0.

Definition reputation_score (offlinePenalty completed failed : Z) : Z :=
  Z.max 0 (Z.min 100 (100 - offlinePenalty - deals_penalty completed failed)).

(** * The panel *)

Definition date_ms (j : json) : Z := match j with JInt z => z | _ => 0 end.

Definition json_to_num (j : json) : num :=
  match j with JInt z => num_of_Z z | JNum x => x | JStr s => parseFloat s | _ => num_of_Z 0 end.

Definition hide (id : string) : M page unit := when_el id (class_add "hidden").
Definition unhide (id : string) : M page unit := when_el id (class_remove "hidden").

(** The animation ends with the target on the gauge. *)
Definition animateReputation (target : Z) : M page unit :=
  gauge ← has_el "reputation-gauge";
  value ← has_el "reputation-value";
  status ← has_el "reputation-status";
  if gauge && value && status then
    for_each (seqZ 1 target) (λ current,
      when_el "reputation-value" (set_text (show_Z current)) ;;
      when_el "reputation-gauge" (setAttribute "background"
        ("conic-gradient(var(--primary-color) " +:+
         show_num (num_mul (num_of_Z current) (num_lit 36 1)) +:+ "deg, rgba(255, 255, 255, 0.05) 0deg)"))) ;;
    let '(word, color) := if 80 <=? target then ("Excellent", "var(--success)")
                          else if 50 <=? target then ("Good", "var(--warning)")
                          else ("Poor", "var(--danger)") in
    when_el "reputation-status" (λ e, set_color color (set_text word e))
  else mret tt.

Definition statusLabel (isNodeOnline : bool) : string :=
  if isNodeOnline then "<span><span></span><span>Online</span></span>"
  else "<span><span></span><span>Offline</span></span>".

Definition pledge_card (label : string) (i : Z) (capacity : num) (isNodeOnline : bool) : string :=
  "<div><div><i></i></div><div><span>" +:+ label +:+ " (ID: " +:+ show_Z i +:+ ")</span><span>" +:+
  formatStorage capacity +:+ " Pledged " +:+ statusLabel isNodeOnline +:+
  "</span></div><div><button onclick=submitProof(" +:+ show_Z i +:+
  ")><i></i> Submit Proof</button><button onclick=handleExitPledge(" +:+ show_Z i +:+
  ")><i></i> Delete</button></div></div>".

Definition fallback_card (capacity : num) (isNodeOnline : bool) : string :=
  "<div><div><i></i></div><div><span>Storage Pledge</span><span>" +:+ formatStorage capacity +:+
  " Pledged " +:+ statusLabel isNodeOnline +:+
  "</span></div><div><button onclick=switchView('upgrade-pledge')><i></i> Upgrade Pledge</button></div></div>".

(** The empty panel. *)
Definition show_no_nodes : M page unit :=
  unhide "no-nodes-state" ;; hide "active-nodes-list" ;; hide "storage-management" ;; hide "btn-upgrade-pledge".

Section Status.
  Context `{Outside}.

(** [await res.json()] *)
Definition body_of (res : http_response) : M page json := λ p, (http_json res, p).

(** Step 1: the relay knows a peer id for the node. *)
Definition relay_check (me : string) : M page bool :=
    try_catch
      (res ← ask_http (Fetch "GET" (API_URL +:+ "/api/providers/" +:+ me +:+ "/rpc/peer-id") JNull);
       if http_ok res
       then rpcData ← body_of res; mret (json_truthy (json_field "peerId" rpcData))
       else mret false)
      (λ _, mret false).

Definition fetch_provider (me : string) : M page json :=
    res ← ask_http (Fetch "GET" (API_URL +:+ "/api/providers/" +:+ me) JNull);
    if http_ok res then body_of res else mret JNull.

(** Step 2: the last heartbeat the backend has; 90 seconds are three beats. *)
Definition heartbeat_online (now : Z) (data : json) : bool :=
    let prov := json_field "provider" data in
    if json_truthy (json_field "registered_at" prov) then
      let lastHeartbeat := if json_truthy (json_field "last_heartbeat" prov)
                           then date_ms (json_field "last_heartbeat" prov)
                           else date_ms (json_field "registered_at" prov) in
      negb (90 * 1000 <? now - lastHeartbeat)
    else false.

Definition node_liveness (me : string) : M page (bool * json) :=
    directPingSuccess ← relay_check me;
    if directPingSuccess : bool then
      data ← try_catch (fetch_provider me) (λ _, mret JNull); mret (true, data)
    else
      try_catch (data ← fetch_provider me; now ← clock; mret (heartbeat_online now data, data))
                (λ _, mret (false, JNull)).

(** Step 3: the score, with its memory in local storage. *)
Definition update_reputation (me : string) (isNodeOnline : bool) (data : json) (completed failed : Z)
      : M page Z :=
    let PENALTY_STORAGE_KEY := "kyneto_rep_penalty_" +:+ me in
    now ← clock;
    saved ← getItem PENALTY_STORAGE_KEY;
    let storedPenaltyData := match saved with Some (SPenalty s) => s | _ => Penalty 0 now end in
    let hb := json_field "last_heartbeat" (json_field "provider" data) in
    let '(offlinePenalty, written) :=
      update_penalty now isNodeOnline (if json_truthy hb then Some (date_ms hb) else None) storedPenaltyData in
    match written with
    | Some s => setItem PENALTY_STORAGE_KEY (SPenalty s)
    | None => mret tt
    end ;;
    let dynamicReputation := reputation_score offlinePenalty completed failed in
    animateReputation dynamicReputation ;;
    mret dynamicReputation.

Record pledge_sum : Type := PledgeSum { ps_capacity : Z; ps_collateral : Z; ps_html : string }.

Fixpoint read_pledges (me : string) (online : bool) (idxs : list Z) (acc : pledge_sum) : M page pledge_sum :=
    match idxs with
    | [] => mret acc
    | i :: idxs' =>
        pledge ← ask answer_pledge (GetPledge me i);
        if pl_active pledge then
          let label := if i =? 0 then "Initial Pledge" else "Upgrade #" +:+ show_Z i in
          read_pledges me online idxs' (PledgeSum (ps_capacity acc + pl_capacity pledge)
            (ps_collateral acc + pl_collateral pledge)
            (ps_html acc +:+ pledge_card label i (num_of_Z (pl_capacity pledge)) online))
        else read_pledges me online idxs' acc
    end.

(** The capacity the backend knows, when the chain has no pledges. *)
Definition fallback_capacity (me : string) : M page num :=
    try_catch
      (data ← fetch_provider me;
       let cap := json_field "total_capacity_gb" (json_field "provider" data) in
       mret (if json_truthy cap then json_to_num cap else num_of_Z 10))
      (λ _, mret (num_of_Z 10)).

Definition show_pledges (me : string) (isNodeOnline : bool) : M page unit :=
    try_catch
      (numPledges ← ask_Z (GetPledgeCount me);
       sum ← read_pledges me isNodeOnline (seqZ 0 numPledges) (PledgeSum 0 0 "");
       let cap := formatStorage (num_of_Z (ps_capacity sum)) in
       let coll := toFixed 2 (parseFloat (formatUnits (ps_collateral sum))) +:+ " KYN" in
       (if 0 <? numPledges then
          when_el "pledged-value" (set_text cap) ;;
          when_el "collateral-value" (set_text coll) ;;
          when_el "remaining-value" (set_text cap) ;;
          when_el "current-capacity-display" (set_text cap) ;;
          when_el "current-stake-display" (set_text coll)
        else mret tt) ;;
       isProvider ← gets pg_isProvider;
       pledgesHtml ← (if (numPledges =? 0) && isProvider
                      then cap ← fallback_capacity me; mret (ps_html sum +:+ fallback_card cap isNodeOnline)
                      else mret (ps_html sum));
       if bool_decide (pledgesHtml = "") then show_no_nodes
       else
         hide "no-nodes-state" ;;
         when_el "active-nodes-list" (λ e, set_html pledgesHtml (class_remove "hidden" e)) ;;
         unhide "storage-management" ;; unhide "btn-upgrade-pledge")
      (λ pledgeErr,
         have ← has_el "no-nodes-state";
         if have : bool then
           unhide "no-nodes-state" ;;
           when_el "#no-nodes-state p"
             (set_html ("<strong>Fatal UI Rendering Error:</strong> " +:+ err_message pledgeErr))
         else mret tt).

Definition checkProviderStatus : M page unit :=
    me ← gets pg_userAddress;
    havePr ← gets pg_provider;
    match me, havePr with
    | Some (String c s), true =>
        let me := String c s in
        try_catch
          (providerData ← ask answer_provider (GetProviders me);
           modify (λ p, with_isProvider p (cp_registered providerData)) ;;
           if cp_registered providerData then
             '(isNodeOnline, data) ← node_liveness me;
             when_el "#provider-stat-uptime .value" (λ e,
               if isNodeOnline : bool then set_color "" (set_text "100.0%" e)
               else set_color "var(--error)" (set_text "Offline" e)) ;;
             when_el "#provider-stat-deals .value" (set_text (show_Z (cp_dealsCompleted providerData))) ;;
             update_reputation me isNodeOnline data (cp_dealsCompleted providerData) (cp_dealsFailed providerData) ;;
             show_pledges me isNodeOnline
           else show_no_nodes)
          (λ _, mret tt)
    | _, _ => mret tt
    end.
End Status.

(** * Frame *)

Section StatusFrame.
  Context `{Outside} (I : page → Prop) `{!UiStable I}.

Lemma preserves_body_of res : preserves I (body_of res).
Proof using. by intros p Hp. Qed.
Lemma preserves_hide id : preserves I (hide id).
Proof using UiStable0. unfold hide. page_preserve. Qed.
Lemma preserves_unhide id : preserves I (unhide id).
Proof using UiStable0. unfold unhide. page_preserve. Qed.
  Hint Resolve preserves_body_of preserves_hide preserves_unhide : page.
Lemma preserves_fetch_provider me : preserves I (fetch_provider me).
Proof using UiStable0. unfold fetch_provider. page_preserve. Qed.
Lemma preserves_animateReputation t : preserves I (animateReputation t).
Proof using UiStable0. unfold animateReputation. page_preserve. Qed.
Lemma preserves_show_no_nodes : preserves I show_no_nodes.
Proof using UiStable0. unfold show_no_nodes. page_preserve. Qed.
  Hint Resolve preserves_fetch_provider preserves_animateReputation preserves_show_no_nodes : page.
Lemma preserves_node_liveness me : preserves I (node_liveness me).
Proof using UiStable0. unfold node_liveness, relay_check. page_preserve. Qed.
Lemma preserves_update_reputation me b d c f : preserves I (update_reputation me b d c f).
Proof using UiStable0. unfold update_reputation. page_preserve. Qed.
Lemma preserves_read_pledges me b l acc : preserves I (read_pledges me b l acc).
Proof using UiStable0. revert acc. induction l as [|i l IH]; intros acc; simpl; page_preserve; apply IH. Qed.
  Hint Resolve preserves_node_liveness preserves_update_reputation preserves_read_pledges : page.
Lemma preserves_show_pledges me b : preserves I (show_pledges me b).
Proof using UiStable0. unfold show_pledges, fallback_capacity. page_preserve. Qed.
  Hint Resolve preserves_show_pledges : page.
Lemma preserves_checkProviderStatus : preserves I checkProviderStatus.
Proof using UiStable0. unfold checkProviderStatus. page_preserve. Qed.
End StatusFrame.

#[export] Hint Resolve preserves_hide preserves_unhide preserves_animateReputation
  preserves_show_no_nodes preserves_checkProviderStatus preserves_body_of : page.

(** * The score *)

(** The memory after the poll at [now], for a penalty [P] that was noted at [t0]. *)
Definition remembers (P t0 now : Z) (s : penalty_data) : Prop :=
  pd_penalty s = Z.max 0 (P - (now - t0) / HALF_HOUR) ∧
  (0 < pd_penalty s → pd_lastUpdated s = t0 + (now - t0) / HALF_HOUR * HALF_HOUR).

Lemma shift_div a k : (a - k * HALF_HOUR) / HALF_HOUR = a / HALF_HOUR - k.
Proof.
  replace (a - k * HALF_HOUR) with (a + (- k) * HALF_HOUR) by lia.
  rewrite Z.div_add by done. lia.
Qed.

Lemma remembers_step P t0 t t' s :
  t0 ≤ t → t ≤ t' → remembers P t0 t s →
  fst (recover t' s) = Z.max 0 (P - (t' - t0) / HALF_HOUR) ∧
  remembers P t0 t' (default s (snd (recover t' s))).
Proof.
  intros Ht Ht' [Hp Hl]. unfold recover, remembers.
  assert (Hmono : (t - t0) / HALF_HOUR ≤ (t' - t0) / HALF_HOUR) by (apply Z.div_le_mono; unfold HALF_HOUR; lia).
  destruct (0 <? pd_penalty s) eqn:E.
  - apply Z.ltb_lt in E. specialize (Hl E).
    assert (Hd : (t' - pd_lastUpdated s) / HALF_HOUR = (t' - t0) / HALF_HOUR - (t - t0) / HALF_HOUR).
    { rewrite Hl, <- shift_div. f_equal. lia. }
    rewrite Hd. clear Hd. set (q := (t - t0) / HALF_HOUR) in *. set (q' := (t' - t0) / HALF_HOUR) in *.
    clearbody q q'. destruct (0 <? q' - q) eqn:E'; cbn [fst snd default from_option id pd_penalty pd_lastUpdated].
    + apply Z.ltb_lt in E'. rewrite Hl. unfold HALF_HOUR. split; [lia|]. split; lia.
    + apply Z.ltb_ge in E'. assert (q' = q) as -> by lia.
      split; [lia|]. split; [done|]. intros _. done.
  - apply Z.ltb_ge in E. simpl. split; [lia|]. split; lia.
Qed.

Section Polls.
  Context (me : string) (data : json) (completed failed : Z).

Definition at_time (t : Z) : M page unit :=
    modify (λ p, Page (pg_dom p) (pg_storage p) t (pg_hostname p) (pg_origin p) (pg_port p)
      (pg_pathname p) (pg_ethereum p) (pg_modal p) (pg_modal_address p) (pg_listeners p) (pg_userAddress p)
      (pg_provider p) (pg_signer p) (pg_isProvider p) (pg_settings p) (pg_notifications p) (pg_feed p)
      (pg_toast p) (pg_alerts p) (pg_proposals p) (pg_tasks p) (pg_calls p)).

(** The panel is refreshed at each of the times, the node being online. *)
Definition online_polls (ts : list Z) : M page (list Z) :=
    map_each ts (λ t, at_time t ;; update_reputation me true data completed failed).

Definition remembered (P t0 t : Z) (p : page) : Prop :=
    ∃ s, pg_storage p !! ("kyneto_rep_penalty_" +:+ me) = Some (SPenalty s) ∧ remembers P t0 t s.

Lemma animate_runs t p :
    ∃ p', animateReputation t p = (Ok tt, p') ∧ pg_storage p' = pg_storage p.
Proof using.
    unfold animateReputation. running. destruct (_ && _); [|by eexists].
    match goal with |- context [for_each ?l ?f p] => set (body := f) end.
    assert (Hloop : ∀ l p0, ∃ p1, for_each l body p0 = (Ok tt, p1) ∧ pg_storage p1 = pg_storage p0).
    { induction l as [|x l IH]; intros p0; simpl; [by eexists|]. running.
      match goal with |- context [for_each l body ?q] => destruct (IH q) as (p1 & -> & Hs) end.
      by eexists. }
    destruct (Hloop (seqZ 1 t) p) as (p1 & -> & Hs).
    destruct (80 <=? t), (50 <=? t); simpl; by eexists.
  Qed.

Lemma poll_online P t0 t t' p :
    t0 ≤ t → t ≤ t' → remembered P t0 t p →
    ∃ p', (at_time t' ;; update_reputation me true data completed failed) p
          = (Ok (reputation_score (Z.max 0 (P - (t' - t0) / HALF_HOUR)) completed failed), p')
          ∧ remembered P t0 t' p'.
Proof using.
    intros Ht Ht' (s & Hs & Hr). destruct (remembers_step _ _ _ _ _ Ht Ht' Hr) as [Hfst Hrem].
    unfold update_reputation. running. rewrite Hs. simpl.
    destruct (recover t' s) as [pen written] eqn:E. simpl in *. subst pen.
    destruct written as [s'|]; simpl in *.
    - match goal with |- context [animateReputation ?a ?q] => destruct (animate_runs a q) as (p1 & -> & Hp1) end.
      eexists. split; [done|]. exists s'. split; [|done]. rewrite Hp1. simpl. apply lookup_insert_eq.
    - match goal with |- context [animateReputation ?a ?q] => destruct (animate_runs a q) as (p1 & -> & Hp1) end.
      eexists. split; [done|]. exists s. split; [|done]. by rewrite Hp1.
  Qed.

Lemma polls_online P t0 ts : ∀ t p,
    t0 ≤ t → StronglySorted Z.le (t :: ts) → remembered P t0 t p →
    ∃ p', online_polls ts p
          = (Ok (map (λ u, reputation_score (Z.max 0 (P - (u - t0) / HALF_HOUR)) completed failed) ts), p')
          ∧ remembered P t0 (List.last ts t) p'.
Proof using.
    unfold online_polls. induction ts as [|u ts IH]; intros t p Ht Hs Hr; [by eexists|].
    apply StronglySorted_inv in Hs as [Hs Hall].
    assert (Hu : t ≤ u) by (rewrite Forall_forall in Hall; apply Hall; set_solver).
    destruct (poll_online P t0 t u p Ht Hu Hr) as (p1 & H1 & Hr1).
    destruct (IH u p1 ltac:(lia) Hs Hr1) as (p2 & H2 & Hr2).
    exists p2. split.
    - cbn [map_each map]. rewrite (bind_ok _ _ _ _ _ H1), (bind_ok _ _ _ _ _ H2). done.
    - destruct ts as [|v ts]; [done|]. change (List.last (u :: v :: ts) t) with (List.last (v :: ts) t).
      replace (List.last (v :: ts) t) with (List.last (v :: ts) u); [done|].
      clear. revert v. induction ts as [|x ts IH]; intros v; [done|]. apply (IH x).
  Qed.
End Polls.

(** The penalty a node collected while it was offline is paid back while it is
    online at one point per half hour, however often the panel is refreshed: if a
    penalty [P] was noted at time [t0] and the panel is refreshed at the times
    [ts], every score shown is the one for the penalty [P] less one point per
    full half hour since [t0], and what local storage holds afterwards continues
    that schedule. *)
Theorem penalty_repaid_per_half_hour me data completed failed P t0 ts p
    (HP : 0 ≤ P) (Hts : StronglySorted Z.le (t0 :: ts))
    (Hmem : pg_storage p !! ("kyneto_rep_penalty_" +:+ me) = Some (SPenalty (Penalty P t0))) :
  ∃ p', online_polls me data completed failed ts p
        = (Ok (map (λ t, reputation_score (Z.max 0 (P - (t - t0) / HALF_HOUR)) completed failed) ts), p')
        ∧ remembered me P t0 (List.last ts t0) p'.
Proof.
  apply polls_online; [done|done|]. exists (Penalty P t0). split; [done|].
  unfold remembers. rewrite Z.sub_diag. change (0 / HALF_HOUR) with 0. simpl. split; lia.
Qed.

Lemma penalty_repaid_per_half_hour_witness :
  ∃ p', online_polls "0xme" JNull 3 1 [1800000; 1900000; 5400000]
          (with_storage fresh_page {["kyneto_rep_penalty_0xme" := SPenalty (Penalty 2 0)]})
        = (Ok [86; 86; 87], p')
        ∧ remembered "0xme" 2 0 5400000 p'.
Proof.
  exact (penalty_repaid_per_half_hour "0xme" JNull 3 1 2 0 [1800000; 1900000; 5400000]
    (with_storage fresh_page {["kyneto_rep_penalty_0xme" := SPenalty (Penalty 2 0)]})
    ltac:(lia) ltac:(repeat constructor; lia) eq_refl).
Defined.

(** The one case in which the penalty is forgotten: an outage of less than half an
    hour noted by the heartbeat check replaces it by zero. *)
Lemma short_outage_clears_penalty now t s :
  0 ≤ now - t < HALF_HOUR → update_penalty now false (Some t) s = (0, Some (Penalty 0 now)).
Proof.
  intros Ht. unfold update_penalty, offline_penalty.
  assert (Z.min (now - t) msInDay = now - t) as -> by (unfold msInDay, HALF_HOUR in *; lia).
  rewrite Z.div_small by done.
  destruct (msInDay <? now - t) eqn:E; [|done]. apply Z.ltb_lt in E. unfold msInDay, HALF_HOUR in *. lia.
Qed.
