(* ===== verification/Governance.v ===== *)
(** Governance proposals of the dashboard (dashboard/app.js): creating,
    showing and voting.

    [voteProposal] checks that the user has not voted, then awaits a transaction,
    then counts the vote; other handlers run while it waits.  [vote_begin] and
    [vote_end] are the two sides of the wait, and a [poll] is any sequence of
    clicks and confirmations.  The two buttons of a proposal are the elements
    [vote_button id v]; [renderProposals] creates them anew. *)

From S2P Require Import Prelude JsNum JsFormat World Page Notices.

Local Open Scope Z_scope.

#[global] Instance vote_eq_dec : EqDecision vote.
Proof. solve_decision. Defined.

Definition vote_text (v : vote) : string := match v with For => "for" | Against => "against" end.
Definition vote_label (v : vote) : string := match v with For => "Vote For" | Against => "Vote Against" end.

Definition initial_proposals : list proposal :=
  [Proposal 1 "Increase Storage Rewards by 5%"
     "Proposal to increase the base rewards for storage providers to incentivize network growth."
     1250 450 "active" None;
   Proposal 2 "Decrease Slashing Penalty"
     "Reduce the penalty for minor downtime to support smaller providers." 890 1200 "active" None].

Definition openProposalModal : M page unit := on_el "proposal-modal" (class_remove "hidden").

(** The form's [reset()] empties its two fields. *)
Definition closeProposalModal : M page unit :=
  on_el "proposal-modal" (class_add "hidden") ;;
  element_ "create-proposal-form" ;;
  when_el "proposal-title" (set_value "") ;;
  when_el "proposal-description" (set_value "").

(** * Rendering *)

Definition vote_button (id : Z) (v : vote) : string := "vote-btn/" +:+ show_Z id +:+ "/" +:+ vote_text v.

Definition vote_onclick (id : Z) (v : vote) : string :=
  "voteProposal(" +:+ show_Z id +:+ ", '" +:+ vote_text v +:+ "')".

Definition button_of (q : proposal) (v : vote) : element :=
  let voted := bool_decide (prop_userVote q = Some v) in
  Element "" (Html ("<i></i> " +:+ vote_label v))
    (if voted then {["vote-btn"; "voted-" +:+ vote_text v]} else {["vote-btn"]})
    (bool_decide (is_Some (prop_userVote q))) false "" "" (vote_onclick (prop_id q) v) ∅.

Definition percent (part total : Z) : num :=
  if total =? 0 then num_of_Z 50
  else num_mul (num_div (num_of_Z part) (num_of_Z total)) (num_of_Z 100).

Definition proposal_card (q : proposal) : string :=
  let totalVotes := prop_votesFor q + prop_votesAgainst q in
  "<div><div><h4>" +:+ prop_title q +:+ "</h4><span>" +:+ prop_status q +:+ "</span></div><p>" +:+
  prop_description q +:+ "</p><div><span>" +:+ show_Z (prop_votesFor q) +:+ " For</span><span>" +:+
  show_Z (prop_votesAgainst q) +:+ " Against</span></div><div style=width:" +:+
  show_num (percent (prop_votesFor q) totalVotes) +:+ "%></div><div style=width:" +:+
  show_num (percent (prop_votesAgainst q) totalVotes) +:+ "%></div></div>".

Definition put_el (id : string) (e : element) : M page unit :=
  modify (λ p, with_dom p (<[id:=e]> (pg_dom p))).

Definition renderProposals : M page unit :=
  have ← has_el "proposals-container";
  if have : bool then
    ps ← gets pg_proposals;
    match ps with
    | [] => when_el "proposals-container"
              (set_html "<h3>Active Proposals</h3><div><p>No active proposals at this time.</p></div>")
    | _ =>
        when_el "proposals-container"
          (set_html ("<h3>Active Proposals</h3>" +:+ join "" (map proposal_card ps))) ;;
        for_each ps (λ q, put_el (vote_button (prop_id q) For) (button_of q For) ;;
                          put_el (vote_button (prop_id q) Against) (button_of q Against)) ;;
        when_el "#governance-view .stat-card:last-child .value" (set_text (show_Z (Z.of_nat (length ps))))
    end
  else mret tt.

Section Voting.
  Context `{Outside}.

Definition handleCreateProposal : M page unit :=
    title ← element_ "proposal-title";
    description ← element_ "proposal-description";
    modify (λ p, with_proposals p
      (Proposal (Z.of_nat (length (pg_proposals p)) + 1) (el_value title) (el_value description) 0 0 "active" None
       :: pg_proposals p)) ;;
    renderProposals ;;
    closeProposalModal ;;
    addActivity "User" ("Created proposal: " +:+ el_value title) "user" ;;
    showNotification "success" "Proposal Created" "Your proposal has been submitted to the community.".

(** [proposals.find(p => p.id === id)] *)
Definition find_proposal (id : Z) (ps : list proposal) : option proposal :=
    find_first (λ q, prop_id q =? id) ps.

Definition count_vote (v : vote) (q : proposal) : proposal :=
    match v with
    | For => Proposal (prop_id q) (prop_title q) (prop_description q) (prop_votesFor q + 1)
               (prop_votesAgainst q) (prop_status q) (Some For)
    | Against => Proposal (prop_id q) (prop_title q) (prop_description q) (prop_votesFor q)
                   (prop_votesAgainst q + 1) (prop_status q) (Some Against)
    end.

(** The object found at the start of the handler is updated in place. *)
Fixpoint update_proposal (id : Z) (f : proposal → proposal) (ps : list proposal) : list proposal :=
    match ps with
    | [] => []
    | q :: ps' => if prop_id q =? id then f q :: ps' else q :: update_proposal id f ps'
    end.

(** The first [.vote-btn] in the document with the label whose [onclick] text
      contains the digits of the id. *)
Definition vote_target (d : gmap string element) (ps : list proposal) (id : Z) (v : vote) : option string :=
    find_first (λ k, match d !! k with
                     | Some e => includes (vote_label v) (textContent e) && includes (show_Z id) (el_onclick e)
                     | None => false
                     end)
      (ps ≫= λ q, [vote_button (prop_id q) For; vote_button (prop_id q) Against]).

Definition when_target (t : option string) (f : element → element) : M page unit :=
    match t with Some k => when_el k f | None => mret tt end.

(** Up to the first [await]: the transaction is requested from the wallet.
      [None]: the handler returned early. *)
Definition vote_begin (id : Z) (v : vote) : M page (option (option string * string)) :=
    ps ← gets pg_proposals;
    match find_proposal id ps with
    | Some q =>
        if bool_decide (is_Some (prop_userVote q)) then mret None else
        signer ← gets pg_signer;
        user ← gets pg_userAddress;
        if negb signer || negb (truthy user) then
          showNotification "warning" "Wallet Required" "Please connect your wallet to vote on proposals." ;;
          mret None
        else
          d ← gets pg_dom;
          let targetBtn := vote_target d ps id v in
          let originalContent := default "" (innerHTML <$> (targetBtn ≫= λ k, d !! k)) in
          when_target targetBtn (λ e, set_disabled true (set_html "<i></i> Signing..." e)) ;;
          mret (Some (targetBtn, originalContent))
    | None => mret None
    end.

Definition vote_tx (id : Z) (v : vote) : tx := SendVote ("vote_" +:+ show_Z id +:+ "_" +:+ vote_text v).

(** After the transaction was mined. *)
Definition vote_end (id : Z) (v : vote) : M page unit :=
    modify (λ p, with_proposals p (update_proposal id (count_vote v) (pg_proposals p))) ;;
    renderProposals ;;
    ps ← gets pg_proposals;
    let title := default "" (prop_title <$> find_proposal id ps) in
    addActivity "User" ("Voted " +:+ vote_text v +:+ " proposal: " +:+ title) "user" ;;
    showNotification "success" "Vote Confirmed" ("Your " +:+ vote_text v +:+ " vote has been recorded on-chain.").

Definition vote_failed (err : js_error) : M page unit :=
    if bool_decide (err_code_of err = Some (CodeNum 4001))
    then showNotification "error" "Vote Cancelled" "You rejected the governance transaction."
    else showNotification "error" "Voting Failed" "Failed to submit vote. Check your network or balance.".

(** The [finally] block: after a re-render the button it holds is no longer in
      the document. *)
Definition vote_cleanup (id : Z) (targetBtn : option string) (originalContent : string) : M page unit :=
    ps ← gets pg_proposals;
    let voted := bool_decide (is_Some (find_proposal id ps ≫= prop_userVote)) in
    if voted then mret tt
    else when_target targetBtn (λ e, set_disabled false (set_html originalContent e)).

Definition voteProposal (id : Z) (v : vote) : M page unit :=
    started ← vote_begin id v;
    match started with
    | Some (targetBtn, originalContent) =>
        try_finally
          (try_catch
             (ask_string (SendTx (vote_tx id v) None None) ;;
              addActivity "System" "Governance transaction submitted. Waiting for confirmation..." "system" ;;
              ask_unit (WaitTx (vote_tx id v)) ;;
              vote_end id v)
             vote_failed)
          (vote_cleanup id targetBtn originalContent)
    | None => mret tt
    end.
End Voting.

(** * Proposals keep distinct ids, and counts only grow *)

Definition ids (ps : list proposal) : list Z := map prop_id ps.

(** The ids are the numbers from one, in some order. *)
Definition numbered (ps : list proposal) : Prop := ids ps ≡ₚ seqZ 1 (Z.of_nat (length ps)).

Lemma ids_update_proposal id f ps :
  (∀ q, prop_id (f q) = prop_id q) → ids (update_proposal id f ps) = ids ps.
Proof.
  intros Hf. induction ps as [|q ps IH]; simpl; [done|].
  destruct (_ =? _); simpl; [by rewrite Hf|by rewrite IH].
Qed.

Lemma prop_id_count_vote v q : prop_id (count_vote v q) = prop_id q.
Proof. by destruct v. Qed.

Lemma find_update_proposal id f ps q :
  (∀ q, prop_id (f q) = prop_id q) → find_proposal id ps = Some q →
  find_proposal id (update_proposal id f ps) = Some (f q).
Proof.
  intros Hf. unfold find_proposal. induction ps as [|r ps IH]; simpl; [done|].
  destruct (prop_id r =? id) eqn:E; simpl; [intros [= ->]; by rewrite Hf, E|by rewrite E].
Qed.

(** * Frame *)

Section GovernanceFrame.
  Context `{Outside} (I : page → Prop) `{!UiStable I}.

Lemma preserves_put_el id e : preserves I (put_el id e).
Proof using UiStable0. apply preserves_modify. intros. by apply ui_dom. Qed.
  Hint Resolve preserves_put_el : page.
Lemma preserves_renderProposals : preserves I renderProposals.
Proof using UiStable0. unfold renderProposals. page_preserve. Qed.
Lemma preserves_when_target t f : preserves I (when_target t f).
Proof using UiStable0. unfold when_target. page_preserve. Qed.
  Hint Resolve preserves_renderProposals preserves_when_target : page.
Lemma preserves_vote_begin id v : preserves I (vote_begin id v).
Proof using UiStable0. unfold vote_begin. page_preserve. Qed.
Lemma preserves_vote_failed e : preserves I (vote_failed e).
Proof using UiStable0. unfold vote_failed. page_preserve. Qed.
Lemma preserves_vote_cleanup id t c : preserves I (vote_cleanup id t c).
Proof using UiStable0. unfold vote_cleanup. page_preserve. Qed.
Lemma preserves_closeProposalModal : preserves I closeProposalModal.
Proof using UiStable0. unfold closeProposalModal. page_preserve. Qed.
End GovernanceFrame.

#[export] Hint Resolve preserves_renderProposals preserves_vote_begin preserves_vote_failed
  preserves_vote_cleanup preserves_closeProposalModal : page.

(** What [vote_begin] reads, which showing things leaves alone. *)
Definition ballot (ps : list proposal) (sg : bool) (a : option string) (p : page) : Prop :=
  pg_proposals p = ps ∧ pg_signer p = sg ∧ pg_userAddress p = a.

#[global] Instance ballot_stable ps sg a : UiStable (ballot ps sg a).
Proof. by constructor; intros. Qed.

(** Showing the proposals never throws. *)
Lemma renderProposals_total : total renderProposals.
Proof. unfold renderProposals, has_el, when_el, put_el. totality. Qed.

Section Votes.
  Context `{Outside}.

Lemma vote_begin_passes id v q p ps c s :
    find_proposal id ps = Some q → prop_userVote q = None → ballot ps true (Some (String c s)) p →
    ∃ t p', vote_begin id v p = (Ok (Some t), p') ∧ ballot ps true (Some (String c s)) p'.
Proof using.
    intros Hq Hv Hb. pose proof (preserves_vote_begin _ id v p Hb) as Hb'.
    destruct Hb as (Hps & Hsg & Ha). revert Hb'.
    unfold vote_begin. running. rewrite Hps, Hq, Hv. simpl. rewrite Hsg, Ha. simpl.
    unfold when_target. destruct (vote_target _ _ _ _); intros Hb'; eexists _, _; split; [done|done|done|done].
  Qed.

Lemma vote_end_counts id v ps sg a p :
    ballot ps sg a p →
    ∃ p', vote_end id v p = (Ok tt, p') ∧ ballot (update_proposal id (count_vote v) ps) sg a p'.
Proof using.
    intros (Hps & Hsg & Ha).
    set (p1 := with_proposals p (update_proposal id (count_vote v) (pg_proposals p))).
    assert (Hb1 : ballot (update_proposal id (count_vote v) ps) sg a p1) by (subst p1; by rewrite Hps).
    destruct (total_unit _ p1 renderProposals_total) as [p2 H2].
    pose proof (preserves_renderProposals _ p1 Hb1) as Hb2. rewrite H2 in Hb2. simpl in Hb2.
    unfold vote_end. rewrite (bind_ok _ _ p tt p1) by done.
    rewrite (bind_ok _ _ _ _ _ H2). running. unfold addActivity, showNotification. running.
    case_bool_decide; eexists; split; done.
  Qed.

(** A vote that is alone on its proposal is counted once: a later one returns
      without effect. *)
Lemma second_vote_ignored id v q p :
    find_proposal id (pg_proposals p) = Some q → is_Some (prop_userVote q) →
    voteProposal id v p = (Ok tt, p).
Proof using.
    intros Hq Hv. unfold voteProposal, vote_begin. running. rewrite Hq.
    by rewrite bool_decide_true by done.
  Qed.
End Votes.

(** Voting twice: the guard of [voteProposal] is read before the transaction is
    awaited and the vote is recorded after it.  If the user clicks Vote For
    and, before that transaction is mined, Vote Against on the same proposal, both
    handlers pass the guard, and when both transactions are mined the proposal
    has one more vote on each side. *)
Theorem overlapping_votes_both_count id q p c s
    (Hq : find_proposal id (pg_proposals p) = Some q)
    (Hnot : prop_userVote q = None)
    (Hsigner : pg_signer p = true) (Huser : pg_userAddress p = Some (String c s)) :
  ∃ t1 p1 t2 p2 p3 p4,
    vote_begin id For p = (Ok (Some t1), p1) ∧ vote_begin id Against p1 = (Ok (Some t2), p2) ∧
    vote_end id For p2 = (Ok tt, p3) ∧ vote_end id Against p3 = (Ok tt, p4) ∧
    ∃ q', find_proposal id (pg_proposals p4) = Some q' ∧
      prop_votesFor q' = prop_votesFor q + 1 ∧ prop_votesAgainst q' = prop_votesAgainst q + 1.
Proof.
  assert (Hb : ballot (pg_proposals p) true (Some (String c s)) p) by done.
  destruct (vote_begin_passes id For q p _ c s Hq Hnot Hb) as (t1 & p1 & H1 & Hb1).
  destruct (vote_begin_passes id Against q p1 _ c s Hq Hnot Hb1) as (t2 & p2 & H2 & Hb2).
  destruct (vote_end_counts id For _ _ _ p2 Hb2) as (p3 & H3 & Hb3).
  destruct (vote_end_counts id Against _ _ _ p3 Hb3) as (p4 & H4 & Hb4).
  exists t1, p1, t2, p2, p3, p4. do 4 (split; [done|]).
  destruct Hb4 as (-> & _ & _). eexists. split.
  - do 2 (eapply find_update_proposal; [apply prop_id_count_vote|]). done.
  - done.
Qed.

Definition voting_page : page :=
  with_wallet (with_proposals fresh_page initial_proposals) (Some "0xvoter") true true.

Lemma overlapping_votes_both_count_witness :
  ∃ t1 p1 t2 p2 p3 p4,
    vote_begin 1 For voting_page = (Ok (Some t1), p1) ∧ vote_begin 1 Against p1 = (Ok (Some t2), p2) ∧
    vote_end 1 For p2 = (Ok tt, p3) ∧ vote_end 1 Against p3 = (Ok tt, p4) ∧
    ∃ q', find_proposal 1 (pg_proposals p4) = Some q' ∧
      prop_votesFor q' = 1251 ∧ prop_votesAgainst q' = 451.
Proof.
  exact (overlapping_votes_both_count 1 _ voting_page _ _ eq_refl eq_refl eq_refl eq_refl).
Defined.
