(* ===== verification/Wallet.v ===== *)
(** The wallet session of the dashboard (dashboard/app.js): connecting,
    recovering the signer, account changes, disconnecting, the profile kept in
    local storage, and switching between views.

    [initializeWallet] is called without [await] everywhere: its part before the
    signature request runs at once, the rest is the task [FinishInit], which runs
    when the user has answered. *)

From S2P Require Import Prelude JsNum JsFormat World Page Notices NodeStatus Governance.

Local Open Scope Z_scope.

Definition projectId : string := "YOUR_PROJECT_ID".

Definition parse_profile (v : option stored) : M page (option profile) :=
  match v with
  | None => mret None
  | Some (SProfile pr) => mret (Some pr)
  | Some _ => throw (Error "Unexpected token in JSON")
  end.

(** [`${a.substring(0, 8)}...${a.substring(a.length - 6)}`] *)
Definition truncated (a : string) : string :=
  substring 0 8 a +:+ "..." +:+ substring_from (String.length a - 6) a.

Definition avatar_html (avatar : option string) : string :=
  match avatar with
  | Some (String c s) => "<img src=" +:+ String c s +:+ ">"
  | _ => ""
  end.

(** * Earnings *)

Section Session.
  Context `{Outside}.

Definition updateEarningsUI (amount : string) : M page unit :=
    let shown := toFixed 2 (parseFloat amount) +:+ " KYN" in
    when_el "#provider-stat-earnings .value" (set_text shown) ;;
    when_el "earnings-available" (set_text shown) ;;
    when_el "earnings-total"
      (set_text (toFixed 2 (num_add (parseFloat amount) (num_of_Z 500)) +:+ " KYN")) ;;
    when_el "earnings-withdrawn" (set_text "500.00 KYN").

Definition fetchEarnings : M page unit :=
    me ← gets pg_userAddress;
    havePr ← gets pg_provider;
    match me, havePr with
    | Some (String c s), true =>
        try_catch
          (earnings ← ask_Z (GetAvailableEarnings (String c s));
           updateEarningsUI (formatUnits earnings))
          (λ _, updateEarningsUI "0")
    | _, _ => mret tt
    end.

Definition detectRegion : M page unit :=
    have ← has_el "provider-region";
    if have : bool then
      try_catch
        (when_el "provider-region" (set_disabled true) ;;
         when_el "region-label" (set_html "Region <i></i>") ;;
         res ← ask_http (Fetch "GET" (API_URL +:+ "/api/detect-region") JNull);
         data ← body_of res;
         match json_field "region" data with
         | JStr (String c s) =>
             when_el "provider-region" (set_value (String c s)) ;;
             when_el "region-label" (set_html ("Region <span>(Auto-detected: " +:+
               (if json_truthy (json_field "detected" data) then "Verified" else "Default") +:+ ")</span>"))
         | _ => mret tt
         end)
        (λ _, when_el "provider-region" (set_disabled false))
    else mret tt.

(** * Profile *)

Definition updateGlobalProfileUI : M page unit :=
    me ← gets pg_userAddress;
    match me with
    | Some (String c s) =>
        let a := String c s in
        saved ← getItem ("kyneto_profile_" +:+ a);
        parsed ← parse_profile saved;
        let profileData := default (Profile (truncated a) "" "" None "" "") parsed in
        when_el ".user-profile .avatar" (set_html (avatar_html (pr_avatar profileData))) ;;
        when_el ".sidebar-profile .name" (set_text (pr_username profileData)) ;;
        when_el ".sidebar-profile .avatar-mini" (set_html (avatar_html (pr_avatar profileData)))
    | _ => mret tt
    end.

Definition applyProfileToUI (profile : profile) : M page unit :=
    try_catch
      ((if bool_decide (pr_username profile = "") then mret tt
        else when_el "profile-username-display" (set_text (pr_username profile))) ;;
       (if bool_decide (pr_bio profile = "") then mret tt
        else when_el "profile-bio-display" (set_text (pr_bio profile))) ;;
       (if truthy (pr_avatar profile) then
          when_el "avatar-preview" (set_html (avatar_html (pr_avatar profile))) ;;
          when_el "profile-avatar-display" (set_html (avatar_html (pr_avatar profile)))
        else mret tt) ;;
       if bool_decide (pr_username profile = "") then mret tt
       else when_el ".sidebar-profile .name" (set_text (pr_username profile)))
      (λ _, mret tt).

Definition updateWalletUI (isConnected : bool) : M page unit :=
    me ← gets pg_userAddress;
    match isConnected, me with
    | true, Some (String c s) =>
        let a := String c s in
        when_el "connect-wallet-btn" (λ e, set_display "none" (class_add "hidden" e)) ;;
        when_el "user-profile" (λ e, set_display "flex" (class_remove "hidden" e)) ;;
        when_el "dropdown-address" (set_text a) ;;
        when_el "sidebar-node-id" (set_text a) ;;
        updateGlobalProfileUI ;;
        when_el ".sidebar-profile .status" (λ e, set_color "var(--success)" (set_text "Online" e)) ;;
        when_el "sidebar-auth-btn" (λ e, class_add "logout" (set_onclick "disconnectWallet"
          (set_html "<i></i><span>Disconnect</span>" e)))
    | _, _ =>
        when_el "connect-wallet-btn" (λ e, set_display "flex" (class_remove "hidden"
          (set_html "<i></i> Connect Wallet" e))) ;;
        when_el "user-profile" (λ e, set_display "none" (class_add "hidden" e)) ;;
        when_el "sidebar-node-id" (set_text "Not Connected") ;;
        when_el ".sidebar-profile .name" (set_text "Guest") ;;
        when_el ".sidebar-profile .status" (λ e, set_color "var(--text-secondary)" (set_text "Offline" e)) ;;
        when_el "sidebar-auth-btn" (λ e, class_remove "logout" (set_onclick "connectWallet"
          (set_html "<i></i><span>Connect Wallet</span>" e)))
    end.

Definition loadUserSettingsOnConnect : M page unit :=
    try_catch
      (savedSettings ← getItem "kyneto_settings";
       match savedSettings with
       | Some v => if stored_truthy v
                   then s ← parse_settings v; modify (λ p, with_settings p s) ;; applySettingsToUI
                   else mret tt
       | None => mret tt
       end ;;
       savedTheme ← getItem "theme";
       match savedTheme ≫= stored_text with
       | Some (String c s) => when_el "body" (setAttribute "data-theme" (String c s))
       | _ => mret tt
       end ;;
       savedProfile ← getItem "kyneto_user_profile";
       match savedProfile with
       | Some v => if stored_truthy v
                   then parsed ← parse_profile (Some v);
                        match parsed with Some pr => applyProfileToUI pr | None => mret tt end
                   else mret tt
       | None => mret tt
       end)
      (λ _, mret tt).

(** * Connecting *)

Definition set_wallet (a : option string) (b : bool) : M page unit :=
    modify (λ p, with_wallet p a b b).

Definition reset_wallet : M page unit := set_wallet None false ;; updateWalletUI false.

(** Up to the signature request. *)
Definition initializeWallet (address : option string) (rawProvider : bool) (source : string) : M page unit :=
    match address, rawProvider with
    | Some (String c s), true => spawn (FinishInit (String c s) source)
    | _, _ => reset_wallet
    end.

Definition WELCOME : string :=
    "Welcome to Kyneto!

Please sign this message to authenticate securely into the dashboard.".

(** From the user's answer on. *)
Definition finish_init (address source : string) : M page unit :=
    try_catch
      (signed ← try_catch (ask_string (SignMessage WELCOME) ;; mret true) (λ _, mret false);
       if signed : bool then
         set_wallet (Some address) true ;;
         updateWalletUI true ;;
         loadUserSettingsOnConnect ;;
         checkProviderStatus ;;
         spawn TaskFetchEarnings ;;
         if bool_decide (source = "Auto-Check") then mret tt
         else addActivity "System" ("Wallet connected (" +:+ source +:+ "): " +:+
                substring 0 6 address +:+ "..." +:+ substring_from 38 address) "system"
       else
         addActivity "System" "Wallet connection aborted (signature required)" "system" ;;
         reset_wallet)
      (λ _, reset_wallet).

Definition code_is (n : Z) (e : js_error) : bool := bool_decide (err_code_of e = Some (CodeNum n)).

(** [error.message || d] *)
Definition message_or (d : string) (e : js_error) : string :=
    if bool_decide (err_message e = "") then d else err_message e.

Definition switchNetwork : M page unit :=
    try_catch (ask_unit (EthRequest "wallet_switchEthereumChain"))
      (λ switchError,
         if code_is 4902 switchError
         then try_catch (ask_unit (EthRequest "wallet_addEthereumChain")) (λ _, mret tt)
         else mret tt).

(** The listener on [accountsChanged]. *)
Definition accountsChanged (newAccounts : list string) : M page unit :=
    match newAccounts with
    | a :: _ => initializeWallet (Some a) true "MetaMask"
    | [] => initializeWallet None false "Unknown"
    end.

Definition connectWallet : M page unit :=
    modal ← gets pg_modal;
    if modal && negb (bool_decide (projectId = "YOUR_PROJECT_ID")) then mret tt   (* modal.open() *)
    else
      ethereum ← gets pg_ethereum;
      if ethereum : bool then
        try_catch
          (accounts ← ask_strings (EthRequest "eth_requestAccounts");
           match accounts with
           | [] => mret tt
           | a :: _ =>
               chainId ← ask_string (EthRequest "eth_chainId");
               (if bool_decide (chainId = AMOY_CHAIN_ID) then mret tt else switchNetwork) ;;
               initializeWallet (Some a) true "MetaMask" ;;
               modify (λ p, with_listeners p true)
           end)
          (λ error,
             if code_is 4001 error
             then showNotification "error" "Connection Cancelled" "You rejected the wallet connection request."
             else showNotification "error" "Connection Failed" (message_or "Failed to connect wallet." error))
      else
        showNotification "error" "No Wallet Found"
          ("MetaMask not detected. Please:<br>1. Install MetaMask from metamask.io<br>" +:+
           "2. Refresh this page after installing<br>3. Make sure MetaMask is enabled in your browser").

(** The check at start-up; [Some n] says that a timer repeats it with [n] retries. *)
Definition checkWalletConnection (retries : nat) : M page (option nat) :=
    let not_found := me ← gets pg_userAddress;
                     (if truthy me then mret tt else updateWalletUI false) ;; mret None in
    ethereum ← gets pg_ethereum;
    if ethereum : bool then
      try_catch
        (accounts ← ask_strings (EthRequest "eth_accounts");
         match accounts with
         | a :: _ => initializeWallet (Some a) true "Auto-Check" ;; modify (λ p, with_listeners p true) ;; mret None
         | [] => match retries with O => not_found | S n => mret (Some n) end
         end)
        (λ _, not_found)
    else match retries with O => not_found | S n => mret (Some n) end.

(** The AppKit subscription; [selectedAddress] is [window.ethereum?.selectedAddress]. *)
Definition appkit_changed (address : option string) (isConnected hasProvider : bool)
      (selectedAddress : option string) : M page unit :=
    if isConnected && truthy address && hasProvider then initializeWallet address true "AppKit"
    else if negb isConnected then
      me ← gets pg_userAddress;
      if truthy me && negb (truthy selectedAddress) then initializeWallet None false "Unknown" else mret tt
    else mret tt.

Definition recoverSigner : M page bool :=
    signer ← gets pg_signer;
    me ← gets pg_userAddress;
    if signer && truthy me then mret true else
    ethereum ← gets pg_ethereum;
    recovered ← (if ethereum : bool then
        try_catch
          (accounts0 ← ask_strings (EthRequest "eth_accounts");
           accounts ← match accounts0 with
                      | [] => ask_strings (EthRequest "eth_requestAccounts")
                      | _ => mret accounts0
                      end;
           match accounts with
           | a :: _ => initializeWallet (Some a) true "Recovery" ;; s ← gets pg_signer; mret (Some s)
           | [] => mret None
           end)
          (λ e, (if code_is 4001 e
                 then showNotification "error" "Connection Cancelled" "You must connect your wallet to proceed."
                 else mret tt) ;; mret None)
      else mret None);
    match recovered with
    | Some s => mret s
    | None =>
        modal ← gets pg_modal;
        addr ← gets pg_modal_address;
        (if modal && truthy addr then modify (λ p, with_wallet p addr (pg_provider p) (pg_signer p))
         else mret tt) ;;
        mret false
    end.

(** * Disconnecting *)

Definition keep (key : string) (v : option stored) : M page unit :=
    match v with
    | Some s => if stored_truthy s then setItem key s else mret tt
    | None => mret tt
    end.

Definition disconnectWallet : M page unit :=
    preservedSettings ← getItem "kyneto_settings";
    preservedTheme ← getItem "theme";
    preservedProfile ← getItem "kyneto_user_profile";
    modal ← gets pg_modal;
    (if modal : bool then try_catch (ask_unit ModalDisconnect) (λ _, mret tt) else mret tt) ;;
    ethereum ← gets pg_ethereum;
    (if ethereum : bool then try_catch (ask_unit (EthRequest "wallet_revokePermissions")) (λ _, mret tt)
     else mret tt) ;;
    modify (λ p, with_storage p ∅) ;;
    keep "kyneto_settings" preservedSettings ;;
    keep "theme" preservedTheme ;;
    keep "kyneto_user_profile" preservedProfile ;;
    set_wallet None false ;;
    modify (λ p, with_isProvider p false) ;;
    showNotification "info" "Wallet Disconnected" "Redirecting to home page..." ;;
    spawn TaskReload.

(** * Views *)

Definition view_title (viewId : string) : string :=
    let titles := [("dashboard", "Network Dashboard"); ("marketplace", "Storage Marketplace");
      ("provider", "Provider Portal"); ("governance", "Protocol Governance"); ("files", "My Uploaded Files");
      ("create-deal", "Create Storage Deal"); ("deals-detail", "Active Deals Analytics");
      ("providers-detail", "Provider Network Stats"); ("capacity-detail", "Network Capacity");
      ("utilization-detail", "Storage Utilization"); ("revenue-detail", "Protocol Revenue");
      ("burned-detail", "Token Burn Analytics"); ("become-provider", "Become a Provider");
      ("upgrade-pledge", "Upgrade Storage Pledge"); ("earnings", "Earnings & Rewards");
      ("profile", "My Profile"); ("my-deals", "My Deals"); ("settings", "Protocol Settings")] in
    default "Dashboard" (snd <$> find_first (λ t, bool_decide (fst t = viewId)) titles).

(** [viewId.split('-')[0]] *)
Fixpoint before_dash (s : string) : string :=
    match s with
    | EmptyString => EmptyString
    | String c s' => if char_is 45 c then EmptyString else String c (before_dash s')
    end.

Definition nav_index (baseView : string) : option nat :=
    snd <$> find_first (λ t, bool_decide (fst t = baseView))
      [("dashboard", 0%nat); ("marketplace", 1%nat); ("provider", 2%nat); ("governance", 3%nat);
       ("files", 4%nat); ("settings", 5%nat)].

(** The [k]-th navigation button is the element [nav_item k]. *)
Definition nav_item (k : nat) : string := "nav-item/" +:+ show_Z (Z.of_nat k).

Definition settings_view : M page unit :=
    s ← gets pg_settings;
    on_el "notify-deals" (set_checked (set_deals s)) ;;
    on_el "notify-slashing" (set_checked (set_slashing s)) ;;
    on_el "notify-network" (set_checked (set_network s)) ;;
    on_el "setting-currency" (set_value (set_currency s)) ;;
    on_el "setting-unit" (set_value (set_unit s)) ;;
    on_el "setting-auto-renew" (set_checked (set_autoRenew s)) ;;
    on_el "setting-pref-region" (set_value (set_region s)) ;;
    when_el "setting-node-endpoint" (set_value (set_endpoint s)).

Definition become_provider_view : M page unit :=
    spawn TaskDetectRegion ;;
    isProvider ← gets pg_isProvider;
    if isProvider : bool then
      when_el "stake-btn" (set_text "Approved ✓") ;;
      when_el "step-register" (class_remove "disabled") ;;
      when_el "#become-provider-view h2" (set_text "Upgrade Storage Pledge") ;;
      when_el "#register-node-form button" (set_text "Upgrade Pledge") ;;
      addActivity "System" "Preparing pledge upgrade..." "system"
    else mret tt.

(** ** History of earnings *)

Record payout : Type := Payout {
  po_id : string; po_type : string; po_amount : string; po_date : string; po_status : string }.

(** An empty list shows its notice, otherwise a child per item. *)
Definition fill_list {A} (id notice : string) (item : A → string) (data : list A) : M page unit :=
    when_el id (λ e, match data with
                     | [] => set_html notice e
                     | _ => set_html (String.concat "" (map item data)) (set_html "" e)
                     end).

Definition renderRevenueBreakdown (data : list (string * string)) : M page unit :=
    fill_list "revenue-breakdown" "<div><span>No data available</span></div>"
      (λ it, "<span>" +:+ fst it +:+ "</span><div><div></div></div><span>" +:+ snd it +:+ "%</span>") data.

Definition renderPayouts (payouts : list payout) : M page unit :=
    fill_list "#payouts-table tbody" "<tr><td>No transaction history found</td></tr>"
      (λ t, "<td>" +:+ String.substring 0 10 (po_id t) +:+ "..." +:+
            String.substring 60 (String.length (po_id t)) (po_id t) +:+ "</td><td>" +:+ po_type t +:+
            "</td><td>+" +:+ po_amount t +:+ " KYN</td><td>" +:+ po_date t +:+ "</td><td><span>" +:+
            po_status t +:+ "</span></td>") payouts.

Definition chart_days : list string := ["Mon"; "Tue"; "Wed"; "Thu"; "Fri"; "Sat"; "Sun"].
Definition renderEarningsChart (data : list string) : M page unit :=
    when_el "earnings-chart" (λ e,
      match data with
      | [] => set_html "<div>No history available</div>" e
      | _ => set_html ("<div>" +:+ String.concat "" (imap (λ i h,
               "<div><div></div><span>" +:+ default "" (chart_days !! (i `mod` 7)%nat) +:+ "</span></div>") data) +:+ "</div>") e
      end).

Definition fetchEarningsHistory : M page unit :=
    renderPayouts [] ;; renderEarningsChart [] ;; renderRevenueBreakdown [].

(** The loaders of the views run as tasks; the charts of the detail views are not
      part of the page's state. *)
Definition view_loader (viewId : string) : M page unit :=
    if bool_decide (viewId = "settings") then settings_view
    else if bool_decide (viewId = "earnings") then spawn TaskFetchEarnings ;; fetchEarningsHistory
    else if bool_decide (viewId = "profile") then spawn TaskRenderProfile
    else if bool_decide (viewId = "dashboard") || bool_decide (viewId = "files") then spawn TaskFetchDeals
    else if bool_decide (viewId = "my-deals") then spawn (TaskFetchMyDeals "client")
    else if bool_decide (viewId = "governance") then renderProposals
    else mret tt.

Definition switchView (viewId : string) : M page unit :=
    on_class "view" (class_remove "active") ;;
    on_class "nav-item" (class_remove "active") ;;
    let target := viewId +:+ "-view" in
    have ← has_el target;
    if have : bool then
      when_el target (class_add "active") ;;
      match nav_index (before_dash viewId) with
      | Some k => on_el (nav_item k) (class_add "active")
      | None => mret tt
      end ;;
      (if bool_decide (viewId = "become-provider") then become_provider_view else mret tt) ;;
      on_el "view-title" (set_text (view_title viewId)) ;;
      view_loader viewId
    else mret tt.

(** * Editing the profile *)

Definition handleEditProfile : M page unit :=
    me ← gets pg_userAddress;
    match me with
    | Some (String c s) =>
        let a := String c s in
        saved ← getItem ("kyneto_profile_" +:+ a);
        parsed ← parse_profile saved;
        let d := default (Profile (truncated a) "" "" None "" "") parsed in
        on_el "edit-username" (set_value (pr_username d)) ;;
        on_el "edit-email" (set_value (pr_email d)) ;;
        on_el "edit-bio" (set_value (pr_bio d)) ;;
        on_el "edit-twitter" (set_value (pr_twitter d)) ;;
        on_el "edit-github" (set_value (pr_github d)) ;;
        on_el "avatar-preview" (λ e,
          match pr_avatar d with
          | Some (String c s) => setAttribute "img-src" (String c s) (set_html (avatar_html (pr_avatar d)) e)
          | _ => setAttribute "img-src" "" (set_html "<i></i>" e)
          end) ;;
        switchView "edit-profile"
    | _ => showNotification "error" "Wallet Not Connected" "Please connect your wallet first."
    end.

(** The chosen image ([data-avatar]), else the source of the image shown. *)
Definition preview_avatar (preview : element) : option string :=
    match el_attrs preview !! "data-avatar", el_attrs preview !! "img-src" with
    | Some (String c s), _ => Some (String c s)
    | _, Some (String c s) => Some (String c s)
    | _, _ => None
    end.

Definition handleSaveProfile : M page unit :=
    me ← gets pg_userAddress;
    match me with
    | Some (String c s) =>
        preview ← element_ "avatar-preview";
        username ← element_ "edit-username";
        email ← element_ "edit-email";
        bio ← element_ "edit-bio";
        twitter ← element_ "edit-twitter";
        github ← element_ "edit-github";
        setItem ("kyneto_profile_" +:+ String c s)
          (SProfile (Profile (el_value username) (el_value email) (el_value bio) (preview_avatar preview)
                       (el_value twitter) (el_value github))) ;;
        showNotification "success" "Profile Updated" "Your profile changes have been saved." ;;
        addActivity "User" "Updated profile information" "user" ;;
        spawn TaskRenderProfile ;;
        updateGlobalProfileUI ;;
        switchView "profile"
    | _ => mret tt
    end.
End Session.

(** * Frame: everything but setting the three wallet variables *)

Section WalletFrame.
  Context `{Outside} (I : page → Prop) `{!UiStable I}.

Lemma preserves_updateEarningsUI a : preserves I (updateEarningsUI a).
Proof using UiStable0. unfold updateEarningsUI. page_preserve. Qed.
  Hint Resolve preserves_updateEarningsUI : page.
Lemma preserves_fetchEarnings : preserves I fetchEarnings.
Proof using UiStable0. unfold fetchEarnings. page_preserve. Qed.
Lemma preserves_detectRegion : preserves I detectRegion.
Proof using UiStable0. unfold detectRegion. page_preserve. Qed.
Lemma preserves_updateGlobalProfileUI : preserves I updateGlobalProfileUI.
Proof using UiStable0. unfold updateGlobalProfileUI, parse_profile. page_preserve. Qed.
Lemma preserves_applyProfileToUI pr : preserves I (applyProfileToUI pr).
Proof using UiStable0. unfold applyProfileToUI. page_preserve. Qed.
  Hint Resolve preserves_updateGlobalProfileUI preserves_applyProfileToUI : page.
Lemma preserves_updateWalletUI b : preserves I (updateWalletUI b).
Proof using UiStable0. unfold updateWalletUI. page_preserve. Qed.
Lemma preserves_loadUserSettingsOnConnect : preserves I loadUserSettingsOnConnect.
Proof using UiStable0.
    unfold loadUserSettingsOnConnect, parse_settings, parse_profile. page_preserve.
  Qed.
Lemma preserves_switchNetwork : preserves I switchNetwork.
Proof using UiStable0. unfold switchNetwork. page_preserve. Qed.
Lemma preserves_keep k v : preserves I (keep k v).
Proof using UiStable0. unfold keep. page_preserve. Qed.
Lemma preserves_switchView v : preserves I (switchView v).
Proof using UiStable0.
    unfold switchView, view_loader, become_provider_view, settings_view, fetchEarningsHistory, renderPayouts,
      renderRevenueBreakdown, renderEarningsChart, fill_list. page_preserve.
  Qed.
  Hint Resolve preserves_switchView : page.
Lemma preserves_handleEditProfile : preserves I handleEditProfile.
Proof using UiStable0. unfold handleEditProfile, parse_profile. page_preserve. Qed.
Lemma preserves_handleSaveProfile : preserves I handleSaveProfile.
Proof using UiStable0. unfold handleSaveProfile. page_preserve. Qed.
End WalletFrame.

#[export] Hint Resolve preserves_fetchEarnings preserves_detectRegion preserves_updateGlobalProfileUI
  preserves_applyProfileToUI preserves_updateWalletUI preserves_loadUserSettingsOnConnect
  preserves_switchNetwork preserves_keep preserves_switchView preserves_handleEditProfile
  preserves_handleSaveProfile : page.

(** * The session *)

(** [signer] and [provider] are set together, and only with an address; an
    initialisation in progress has an address. *)
Definition session_ok (p : page) : Prop :=
  pg_signer p = pg_provider p ∧ (pg_signer p = true → truthy (pg_userAddress p) = true) ∧
  Forall (λ t, named t = true) (pg_tasks p).

#[global] Instance session_ok_stable : UiStable session_ok.
Proof.
  constructor; try done. intros p t Ht (? & ? & ?). split; [done|]. split; [done|].
  apply Forall_app. split; [done|]. by constructor.
Qed.

(** An invariant that also survives the wallet variables being set properly. *)
Class WalletStable (I : page → Prop) : Prop := {
  ws_ui :: UiStable I;
  ws_reset : ∀ p, I p → I (with_wallet p None false false);
  ws_set : ∀ p a, truthy (Some a) = true → I p → I (with_wallet p (Some a) true true);
  ws_address : ∀ p a, truthy a = true → I p → I (with_wallet p a (pg_provider p) (pg_signer p))
}.

#[global] Instance session_ok_wallet : WalletStable session_ok.
Proof.
  constructor; [apply _| | |].
  - intros p (? & ? & ?). by repeat split.
  - intros p a Ha (? & ? & ?). by repeat split.
  - intros p a Ha (? & ? & ?). by repeat split.
Qed.

#[export] Hint Extern 0 (WalletStable _) => typeclasses eauto : page.

Section SessionFrame.
  Context `{Outside} (I : page → Prop) `{!WalletStable I}.

Lemma preserves_reset_wallet : preserves I reset_wallet.
Proof using WalletStable0.
    unfold reset_wallet, set_wallet. page_preserve. by apply ws_reset.
  Qed.
  Hint Resolve preserves_reset_wallet : page.
Lemma preserves_initializeWallet a r s : preserves I (initializeWallet a r s).
Proof using WalletStable0. unfold initializeWallet. page_preserve. Qed.
Lemma preserves_finish_init a s : truthy (Some a) = true → preserves I (finish_init a s).
Proof using WalletStable0.
    intros Ha. unfold finish_init, set_wallet. page_preserve. by apply ws_set.
  Qed.
  Hint Resolve preserves_initializeWallet : page.
Lemma preserves_accountsChanged l : preserves I (accountsChanged l).
Proof using WalletStable0. unfold accountsChanged. page_preserve. Qed.
Lemma preserves_connectWallet : preserves I connectWallet.
Proof using WalletStable0. unfold connectWallet. page_preserve. Qed.
Lemma preserves_checkWalletConnection n : preserves I (checkWalletConnection n).
Proof using WalletStable0. unfold checkWalletConnection. page_preserve. Qed.
Lemma preserves_appkit_changed a b c d : preserves I (appkit_changed a b c d).
Proof using WalletStable0. unfold appkit_changed. page_preserve. Qed.
Lemma preserves_recoverSigner : preserves I recoverSigner.
Proof using WalletStable0.
    unfold recoverSigner. page_preserve.
    apply ws_address; [|done]. by match goal with Hb : _ && _ = true |- _ => apply andb_true_iff in Hb as [_ ?] end.
  Qed.
Lemma preserves_disconnectWallet : preserves I disconnectWallet.
Proof using WalletStable0.
    unfold disconnectWallet, set_wallet. page_preserve; first [by apply ws_reset | by apply ui_storage].
  Qed.
End SessionFrame.

#[export] Hint Resolve preserves_reset_wallet preserves_initializeWallet preserves_accountsChanged
  preserves_connectWallet preserves_checkWalletConnection preserves_appkit_changed preserves_recoverSigner
  preserves_disconnectWallet : page.

(** ** Recovery *)

Lemma initializeWallet_unsigned a r src p :
  pg_signer p = false →
  ∃ q, initializeWallet a r src p = (Ok tt, q) ∧ pg_signer q = false ∧
    (r = true → truthy a = true → FinishInit (default "" a) src ∈ pg_tasks q).
Proof.
  intros Hs. unfold initializeWallet.
  assert (Hreset : ∃ q, reset_wallet p = (Ok tt, q) ∧ pg_signer q = false).
  { unfold reset_wallet, set_wallet. rewrite (bind_ok _ _ p tt (with_wallet p None false false) eq_refl).
    eexists. split; reflexivity. }
  destruct a as [[|c s]|], r; try (destruct Hreset as (q & Hq & Hqs); exists q; done).
  eexists. split; [reflexivity|]. split; [done|]. intros _ _. simpl. set_solver.
Qed.

(** The part of [recoverSigner] that talks to the injected wallet. *)
Lemma recover_accounts_cases `{Outside} p :
  pg_signer p = false →
  ∃ r q, (if pg_ethereum p then
        try_catch
          (accounts0 ← ask_strings (EthRequest "eth_accounts");
           accounts ← match accounts0 with
                      | [] => ask_strings (EthRequest "eth_requestAccounts")
                      | _ => mret accounts0
                      end;
           match accounts with
           | a :: _ => initializeWallet (Some a) true "Recovery" ;; s ← gets pg_signer; mret (Some s)
           | [] => mret None
           end)
          (λ e, (if code_is 4001 e
                 then showNotification "error" "Connection Cancelled" "You must connect your wallet to proceed."
                 else mret tt) ;; mret None)
      else mret None) p = (Ok r, q) ∧ (r = Some false ∨ r = None) ∧ pg_signer q = false ∧
    ∀ a l, pg_ethereum p = true →
      answer_strings (EthRequest "eth_accounts" :: pg_calls p) = Ok (a :: l) → truthy (Some a) = true →
      FinishInit a "Recovery" ∈ pg_tasks q.
Proof.
  intros Hs. destruct (pg_ethereum p); [|by exists None, p; split; [reflexivity|]; split; [auto|]].
  set (p1 := with_calls p (EthRequest "eth_accounts" :: pg_calls p)).
  set (p2 := with_calls p1 (EthRequest "eth_requestAccounts" :: pg_calls p1)).
  assert (Hfail : ∀ e q, pg_signer q = false → ∃ r q',
    ((if code_is 4001 e
      then showNotification "error" "Connection Cancelled" "You must connect your wallet to proceed."
      else mret tt) ;; mret None) q = (Ok r, q') ∧ (r = Some false ∨ r = None) ∧ pg_signer q' = false).
  { intros e q Hq. destruct (code_is 4001 e); eexists (@None bool), _; (split; [reflexivity|]); auto. }
  assert (Hinit : ∀ a q, pg_signer q = false → ∃ q',
    (initializeWallet (Some a) true "Recovery" ;; s ← gets pg_signer; mret (Some s)) q = (Ok (Some false), q')
    ∧ pg_signer q' = false ∧ (truthy (Some a) = true → FinishInit a "Recovery" ∈ pg_tasks q')).
  { intros a q Hq. destruct (initializeWallet_unsigned (Some a) true "Recovery" q Hq) as (q' & Hi & Hq' & Ht).
    exists q'. rewrite (bind_ok _ _ _ _ _ Hi), (bind_ok (gets pg_signer) _ q' _ q' eq_refl), Hq'.
    split; [done|]. split; [done|]. intros Ha. by apply Ht. }
  subst p2; subst p1. unfold try_catch.
  destruct (answer_strings (EthRequest "eth_accounts" :: pg_calls p)) as [[|a l]|e] eqn:Ea.
  - rewrite (bind_ok _ _ _ _ _ (ask_ok answer_strings _ _ _ Ea)).
    destruct (answer_strings (EthRequest "eth_requestAccounts" :: pg_calls (with_calls p (EthRequest "eth_accounts" :: pg_calls p)))) as [[|b l]|e] eqn:Eb.
    + rewrite (bind_ok _ _ _ _ _ (ask_ok answer_strings _ _ _ Eb)).
      eexists _, _. split; [reflexivity|]. split; [by auto|]. split; [done|]. by intros ? ? _ [=].
    + rewrite (bind_ok _ _ _ _ _ (ask_ok answer_strings _ _ _ Eb)).
      destruct (Hinit b (with_calls (with_calls p (EthRequest "eth_accounts" :: pg_calls p)) (EthRequest "eth_requestAccounts" :: pg_calls (with_calls p (EthRequest "eth_accounts" :: pg_calls p)))) Hs) as (q' & Hi & Hq' & _).
      cbv beta iota. rewrite Hi. eexists _, _. split; [reflexivity|]. split; [by auto|]. split; [done|]. by intros ? ? _ [=].
    + rewrite (bind_throw _ _ _ _ _ (ask_throw answer_strings _ _ _ Eb)).
      destruct (Hfail e (with_calls (with_calls p (EthRequest "eth_accounts" :: pg_calls p)) (EthRequest "eth_requestAccounts" :: pg_calls (with_calls p (EthRequest "eth_accounts" :: pg_calls p)))) Hs) as (r & q' & Hi & Hr & Hq').
      cbv beta iota. rewrite Hi. eexists _, _. split; [reflexivity|]. split; [by auto|]. split; [done|]. by intros ? ? _ [=].
  - rewrite (bind_ok _ _ _ _ _ (ask_ok answer_strings _ _ _ Ea)).
    rewrite (bind_ok (mret _) _ (with_calls p (EthRequest "eth_accounts" :: pg_calls p)) (a :: l) _ eq_refl).
    destruct (Hinit a (with_calls p (EthRequest "eth_accounts" :: pg_calls p)) Hs) as (q' & Hi & Hq' & Ht).
    cbv beta iota. rewrite Hi. eexists _, _. split; [reflexivity|].
    split; [auto|]. split; [done|]. intros a' l' _ [= <- <-] Ha. by apply Ht.
  - rewrite (bind_throw _ _ _ _ _ (ask_throw answer_strings _ _ _ Ea)).
    destruct (Hfail e (with_calls p (EthRequest "eth_accounts" :: pg_calls p)) Hs) as (r & q' & Hi & Hr & Hq').
    cbv beta iota. rewrite Hi. eexists _, _. split; [reflexivity|]. split; [by auto|]. split; [done|]. by intros ? ? _ [=].
Qed.

Lemma recover_modal q :
  ∃ q', (modal ← gets pg_modal; addr ← gets pg_modal_address;
         (if modal && truthy addr then modify (λ p, with_wallet p addr (pg_provider p) (pg_signer p))
          else mret tt) ;; mret false) q = (Ok false, q')
        ∧ pg_signer q' = pg_signer q ∧ pg_tasks q' = pg_tasks q.
Proof.
  rewrite (bind_ok (gets pg_modal) _ q _ q eq_refl), (bind_ok (gets pg_modal_address) _ q _ q eq_refl).
  destruct (pg_modal q && truthy (pg_modal_address q)); eexists; (split; [reflexivity|]); done.
Qed.

(** [recoverSigner] does not wait for the wallet it starts to initialise: on a page
    without a signer it reports failure, whatever the wallet answers, so the handler
    that asked for it tells the user that no wallet is connected.  When accounts
    are available the initialisation is left running as a task. *)
Theorem recovery_reports_failure `{Outside} p (Hsigner : pg_signer p = false) :
  ∃ p', recoverSigner p = (Ok false, p') ∧ pg_signer p' = false ∧
    ∀ a l, pg_ethereum p = true →
      answer_strings (EthRequest "eth_accounts" :: pg_calls p) = Ok (a :: l) → truthy (Some a) = true →
      FinishInit a "Recovery" ∈ pg_tasks p'.
Proof.
  unfold recoverSigner.
  rewrite (bind_ok (gets pg_signer) _ p _ p eq_refl), (bind_ok (gets pg_userAddress) _ p _ p eq_refl).
  rewrite Hsigner. cbv beta iota delta [andb].
  rewrite (bind_ok (gets pg_ethereum) _ p _ p eq_refl).
  destruct (recover_accounts_cases p Hsigner) as (r & q & Hr & Hcases & Hs & Ht).
  rewrite (bind_ok _ _ _ _ _ Hr).
  destruct Hcases as [-> | ->]; [by exists q|].
  destruct (recover_modal q) as (q' & Hq' & Hs' & Ht').
  exists q'. rewrite Hs', Ht'. by split.
Qed.

Definition accounts_known : Outside := {|
  API_URL := "http://localhost:3002";
  answer_Z := λ _, Throw (Error "rejected");
  answer_string := λ _, Ok "0xsignature";
  answer_strings := λ _, Ok ["0xalice"];
  answer_unit := λ _, Ok tt;
  answer_provider := λ _, Throw (Error "rejected");
  answer_pledge := λ _, Throw (Error "rejected");
  answer_deal := λ _, Throw (Error "rejected");
  answer_http := λ _, Throw (Error "rejected");
  formatUnits := λ _, "0.0";
  ethers_id := λ s, s;
  random_text := λ _, "random";
  createRandom := λ _ _, "0xdummy";
  toLocaleTime := λ _, "12:00"
|}.

Lemma recovery_reports_failure_witness :
  ∃ p', @recoverSigner accounts_known fresh_page = (Ok false, p') ∧ pg_signer p' = false ∧
    FinishInit "0xalice" "Recovery" ∈ pg_tasks p'.
Proof.
  destruct (@recovery_reports_failure accounts_known fresh_page eq_refl) as (p' & H & Hs & Ht).
  exists p'. split; [exact H|]. split; [exact Hs|]. apply (Ht "0xalice" []); reflexivity.
Defined.

(** ** Disconnecting *)

Definition kept_keys : list string := ["kyneto_settings"; "theme"; "kyneto_user_profile"].

(** What [keep] restores of an item. *)
Definition kept (v : option stored) : option stored :=
  match v with Some s => if stored_truthy s then Some s else None | None => None end.

Definition restore (key : string) (v : option stored) (p : page) : page :=
  match kept v with Some s => with_storage p (<[key:=s]> (pg_storage p)) | None => p end.

Lemma keep_runs key v p : keep key v p = (Ok tt, restore key v p).
Proof. unfold keep, restore, kept. destruct v as [s|]; [|done]. by destruct (stored_truthy s). Qed.

Lemma restore_same key v p : pg_storage p !! key = None → pg_storage (restore key v p) !! key = kept v.
Proof. intros Hp. unfold restore. destruct (kept v); [apply lookup_insert_eq|done]. Qed.

Lemma restore_other key key' v p : key ≠ key' → pg_storage (restore key v p) !! key' = pg_storage p !! key'.
Proof. intros Hk. unfold restore. destruct (kept v); [by apply lookup_insert_ne|done]. Qed.

(** The calls made on the way change only the call log. *)
Lemma revoke_runs `{Outside} (b : bool) c p :
  ∃ q, (if b then try_catch (ask_unit c) (λ _, mret tt) else mret tt) p = (Ok tt, q).
Proof. destruct b; [|by eexists]. unfold ask_unit, ask, try_catch. destruct (answer_unit _) as [[]|e]; by eexists. Qed.

Lemma profile_key_not_kept a : ("kyneto_profile_" +:+ a) ∉ kept_keys.
Proof. unfold kept_keys. intros Ha. repeat (apply elem_of_cons in Ha as [?|Ha]; [done|]). set_solver. Qed.

(** The end of [disconnectWallet], from the emptied storage on. *)
Lemma disconnect_tail v1 v2 v3 q :
  ∃ p', (modify (λ p, with_storage p ∅) ;; keep "kyneto_settings" v1 ;; keep "theme" v2 ;;
         keep "kyneto_user_profile" v3 ;; set_wallet None false ;; modify (λ p, with_isProvider p false) ;;
         showNotification "info" "Wallet Disconnected" "Redirecting to home page..." ;; spawn TaskReload) q
        = (Ok tt, p') ∧
    pg_userAddress p' = None ∧ pg_signer p' = false ∧ pg_provider p' = false ∧
    pg_storage p' = pg_storage (restore "kyneto_user_profile" v3
                      (restore "theme" v2 (restore "kyneto_settings" v1 (with_storage q ∅)))).
Proof.
  rewrite (bind_ok _ _ q tt (with_storage q ∅) eq_refl), (bind_ok _ _ _ _ _ (keep_runs _ _ _)),
    (bind_ok _ _ _ _ _ (keep_runs _ _ _)), (bind_ok _ _ _ _ _ (keep_runs _ _ _)).
  generalize (restore "kyneto_user_profile" v3 (restore "theme" v2 (restore "kyneto_settings" v1 (with_storage q ∅)))).
  intros r. eexists. split; [reflexivity|]. done.
Qed.

(** Disconnecting clears the session and all of local storage except the items
    under the three keys kyneto_settings, theme and kyneto_user_profile.  Profiles
    are saved under kyneto_profile_ followed by the address, so a saved profile
    does not survive. *)
Theorem disconnect_keeps_three_keys `{Outside} p :
  ∃ p', disconnectWallet p = (Ok tt, p') ∧
    pg_userAddress p' = None ∧ pg_signer p' = false ∧ pg_provider p' = false ∧
    (∀ key, key ∈ kept_keys → pg_storage p' !! key = kept (pg_storage p !! key)) ∧
    (∀ key, (key ∉ kept_keys) → pg_storage p' !! key = None) ∧
    ∀ a, pg_storage p' !! ("kyneto_profile_" +:+ a) = None.
Proof.
  unfold disconnectWallet.
  rewrite (bind_ok (getItem _) _ p _ p eq_refl), (bind_ok (getItem _) _ p _ p eq_refl),
    (bind_ok (getItem _) _ p _ p eq_refl), (bind_ok (gets pg_modal) _ p _ p eq_refl).
  destruct (revoke_runs (pg_modal p) ModalDisconnect p) as (q & Hq).
  rewrite (bind_ok _ _ _ _ _ Hq), (bind_ok (gets pg_ethereum) _ q _ q eq_refl).
  destruct (revoke_runs (pg_ethereum q) (EthRequest "wallet_revokePermissions") q) as (q' & Hq').
  rewrite (bind_ok _ _ _ _ _ Hq').
  destruct (disconnect_tail (pg_storage p !! "kyneto_settings") (pg_storage p !! "theme")
              (pg_storage p !! "kyneto_user_profile") q') as (p' & -> & Hu & Hs & Hpr & Hst).
  exists p'. do 4 (split; [done|]). rewrite Hst.
  assert (Hout : ∀ key, (key ∉ kept_keys) → pg_storage p' !! key = None).
  { intros key Hkey. unfold kept_keys in Hkey. rewrite Hst.
    rewrite !restore_other by (intros <-; apply Hkey; set_solver). apply lookup_empty. }
  rewrite Hst in Hout. split; [|split; [done|intros a; apply Hout, profile_key_not_kept]].
  intros key [->|[->|[->|[]%elem_of_nil]%elem_of_cons]%elem_of_cons]%elem_of_cons.
  - rewrite !restore_other by done. apply restore_same, lookup_empty.
  - rewrite restore_other by done. apply restore_same. rewrite restore_other by done. apply lookup_empty.
  - apply restore_same. rewrite !restore_other by done. apply lookup_empty.
Qed.
