(* ===== verification/Transactions.v ===== *)
(** The handlers of the dashboard that move the user's tokens
    (dashboard/app.js): staking, registering a node, upgrading and exiting a
    pledge, creating and renewing a deal, withdrawing earnings, cancelling a deal.

    A handler runs to its end before the next one starts; what the wallet, the
    contracts and the API answer is arbitrary ([Outside]).  The contract addresses
    are constants, so the branches for missing addresses are left out. *)

From S2P Require Import Prelude JsNum JsFormat World Page Notices NodeStatus Governance Wallet.

Local Open Scope Z_scope.

Definition KYN (n : Z) : Z := n * 10 ^ 18.      (* parseUnits(n, 18) *)

Definition toUpper_ascii (c : Ascii.ascii) : Ascii.ascii :=
  let n := Ascii.nat_of_ascii c in
  if (97 <=? n)%nat && (n <=? 122)%nat then Ascii.ascii_of_nat (n - 32) else c.
Fixpoint toUpper (s : string) : string :=
  match s with EmptyString => EmptyString | String c s' => String (toUpper_ascii c) (toUpper s') end.

(** * Numbers as contract arguments *)

(** ethers encodes a JavaScript number as uint256 only if it is a safe integer
    that is not negative, and a BigInt only if it fits. *)
Definition uint_of_num (x : num) : M page Z :=
  match num_to_Z x with
  | Some z => if (0 <=? z) && (z <? 2 ^ 53) then mret z else throw (Error "value out-of-bounds")
  | None => throw (Error "invalid BigNumber value")
  end.
Definition uint256 (z : Z) : M page Z :=
  if (0 <=? z) && (z <? 2 ^ 256) then mret z else throw (Error "value out-of-bounds").

Definition round_num (x : num) : num := match num_round x with Some z => num_of_Z z | None => x end.

Definition of_outcome {A} (r : outcome A) : M page A := λ p, (r, p).

(** [x.toNumber()] of a BigNumber. *)
Definition toNumber (z : Z) : M page Z :=
  if z <? 2 ^ 53 then mret z else throw (Error "overflow").

(** ** What a deal costs *)

(** [totalCostKYN] of [handleCreateDeal]: the amount approved. *)
Definition deal_approval (size priceUSD months kynPrice : Z) : Z :=
  let providerPaymentUSD := size * priceUSD * months in
  let protocolFeeUSD := Z.quot (providerPaymentUSD * 300) 10000 in
  let totalCostUSD := providerPaymentUSD + protocolFeeUSD in
  Z.quot (totalCostUSD * 10 ^ 18) kynPrice.

(** [totalCost] of StorageMarketplace.createDeal: the amount the contract takes at
    its fee of the moment, [protocolFeeBasisPoints], which is 300 on deployment and
    which the owner sets with [setProtocolFee]. *)
Definition contract_charge (protocolFeeBasisPoints fileSizeGB pricePerGBMonthUSD durationDays kynPriceUSD : Z) : Z :=
  let pricePerGBMonth := (pricePerGBMonthUSD * 10 ^ 18) / kynPriceUSD in
  let totalMonths := (durationDays + 29) / 30 in
  let providerPayment := fileSizeGB * pricePerGBMonth * totalMonths in
  let protocolFee := (providerPayment * protocolFeeBasisPoints) / 10000 in
  providerPayment + protocolFee.

(** [totalCost] of [handleRenewDeal]. *)
Definition renewal_approval (fileSizeGB pricePerGBMonth additionalDays : Z) : Z :=
  let totalMonths := ceil_div additionalDays 30 in
  let renewalCost := fileSizeGB * pricePerGBMonth * totalMonths in
  renewalCost + Z.quot (renewalCost * 300) 10000.

(** [totalCost] of StorageMarketplace.renewDeal. *)
Definition renewal_charge (protocolFeeBasisPoints fileSizeGB pricePerGBMonth additionalDays : Z) : Z :=
  let totalMonths := (additionalDays + 29) / 30 in
  let renewalCost := fileSizeGB * pricePerGBMonth * totalMonths in
  renewalCost + (renewalCost * protocolFeeBasisPoints) / 10000.

(** CapacityPledge.calculateMinimumCollateral *)
Definition calculateMinimumCollateral (capacityGB : Z) : Z := capacityGB * 75 * 10 ^ 16.

Section Handlers.
  Context `{Outside}.

(** * Common parts *)

(** [if (!signer || !userAddress) { ... recoverSigner() ... }] *)
Definition require_wallet : M page bool :=
    signer ← gets pg_signer;
    me ← gets pg_userAddress;
    if signer && truthy me then mret true
    else
      recovered ← recoverSigner;
      (if recovered : bool then mret tt
       else showNotification "error" "Wallet Not Connected" "Please connect your wallet first.") ;;
      mret recovered.

(** Gas price, arguments, gas estimate, transaction; then the transaction and its hash. *)
Definition submit (encode : M page tx) : M page (tx * string) :=
    gasFees ← getGasFees;
    t ← encode;
    gasEstimate ← ask_Z (EstimateGas t);
    hash ← ask_string (SendTx t gasFees (Some (getGasLimitWithBuffer gasEstimate)));
    mret (t, hash).

Definition approve (spender : string) (amount : Z) : M page tx :=
    a ← uint256 amount; mret (Approve spender a).

Definition address_of : M page string := gets (λ p, default "" (pg_userAddress p)).

Definition includes_msg (sub : string) (e : js_error) : bool := includes sub (err_message e).

(** * Staking *)

Definition revert_reason (error : js_error) : string :=
    match err_data_message error, err_inner_message error with
    | Some (Some (String c s)), _ => String c s
    | _, Some (Some (String c s)) => String c s
    | _, _ => if truthy (err_reason error) then default "" (err_reason error)
              else message_or "Unknown error" error
    end.

Definition stake_failed (originalText : string) (error : js_error) : M page unit :=
    let revertReason := revert_reason error in
    (if code_is 4001 error || includes_msg "rejected" error then
       showNotification "error" "Transaction Cancelled" "You rejected the approval transaction."
     else if includes_msg "insufficient funds" error then
       showNotification "error" "Insufficient POL"
         "You need POL to pay for gas fees. Get testnet POL from https://faucet.polygon.technology"
     else if includes_msg "ERC20: insufficient allowance" error then
       showNotification "error" "Token Balance Low" "You do not have enough KYN tokens to stake."
     else if includes "execution reverted" revertReason then
       showNotification "error" "Transaction Failed" ("Contract Error: " +:+ revertReason +:+
         ". This might be a contract configuration issue. Check console for details.")
     else showNotification "error" "Transaction Failed"
            (revertReason +:+ ". Check browser console for full details.")) ;;
    when_el "stake-btn" (λ e, set_text originalText (set_disabled false e)).

(** [if (el && !el.value) el.value = v] *)
Definition fill_if_empty (id : string) (v : string) : M page unit :=
    when_el id (λ e, if bool_decide (el_value e = "") then set_value v e else e).

Definition handleStake : M page unit :=
    ready ← require_wallet;
    if negb ready then mret tt else
    stakeBtn ← element_ "stake-btn";
    let originalText := textContent stakeBtn in
    try_catch
      (when_el "stake-btn" (λ e, set_html "<i></i> Checking Status..." (set_disabled true e)) ;;
       let amount := KYN 1000 in
       me ← address_of;
       providerData ← ask answer_provider (GetProviders me);
       if cp_registered providerData then
         showNotification "info" "Already Registered" "You are already a registered provider." ;;
         modify (λ p, with_isProvider p true) ;;
         checkProviderStatus ;;
         switchView "provider"
       else
         allowance ← ask_Z (GetAllowance me CAPACITY_PLEDGE_ADDRESS);
         if amount <=? allowance then
           showNotification "success" "Already Approved"
             "You have already approved KYN tokens. Proceeding to registration..." ;;
           on_el "step-register" (class_remove "disabled") ;;
           when_el "stake-btn" (set_text "Approved ✓") ;;
           calls ← gets pg_calls;
           fill_if_empty "reg-peer-id" ("Qm" +:+ random_text calls)
         else
           balance ← ask_Z (BalanceOf me);
           if balance <? amount then
             showNotification "error" "Insufficient KYN Balance"
               ("You need at least 1,000 KYN to stake. Current balance: " +:+ formatUnits balance +:+ " KYN") ;;
             when_el "stake-btn" (λ e, set_text originalText (set_disabled false e))
           else
             when_el "stake-btn" (set_html "<i></i> Approving...") ;;
             addActivity "System" "Initiating KYN approval..." "system" ;;
             showNotification "info" "Confirm Transaction" "Please confirm the KYN approval in your wallet." ;;
             '(t, hash) ← submit (approve CAPACITY_PLEDGE_ADDRESS amount);
             showNotification "info" "Transaction Pending"
               "KYN approval transaction submitted. Waiting for confirmation..." ;;
             addActivity "System" ("Approval pending: " +:+ substring 0 10 hash +:+ "...") "system" ;;
             ask_unit (WaitTx t) ;;
             showNotification "success" "Approval Successful"
               "KYN tokens approved. You can now register your node." ;;
             addActivity "User" "Approved 1,000 KYN for staking" "user" ;;
             when_el "stake-btn" (set_text "Approved ✓") ;;
             on_el "step-register" (class_remove "disabled") ;;
             calls ← gets pg_calls;
             fill_if_empty "reg-peer-id" ("Qm" +:+ random_text calls +:+ random_text calls) ;;
             host ← gets pg_hostname;
             fill_if_empty "reg-endpoint" ("http://" +:+ host +:+ ":3002"))
      (stake_failed originalText).

(** * Registering a node *)

Definition register_failed (error : js_error) : M page unit :=
    let reason_has sub := truthy (err_reason error) && includes sub (default "" (err_reason error)) in
    let '(errorTitle, errorMessage) :=
      if code_is 4001 error then
        ("Transaction Cancelled", "You rejected the transaction in your wallet.")
      else if includes_msg "insufficient funds" error then
        ("Insufficient POL",
         "You don't have enough POL to pay for gas fees. Get testnet POL from https://faucet.polygon.technology")
      else if reason_has "Already registered" then
        ("Already Registered", "This wallet is already registered as a provider.")
      else if reason_has "Invalid peer ID" then
        ("Invalid Peer ID", "Please enter a valid IPFS Peer ID. Get it by running: ipfs id")
      else if includes_msg "ERC20: insufficient allowance" error
              || includes_msg "transfer amount exceeds allowance" error then
        ("Approval Required",
         "Please approve KYN tokens for the CapacityPledge contract first by clicking " +:+ dq +:+
         "Stake 1,000 KYN" +:+ dq +:+ " again.")
      else if includes_msg "ERC20: transfer amount exceeds balance" error then
        ("Insufficient KYN Balance", "You need at least 1,000 KYN tokens to register as a provider.")
      else if bool_decide (is_Some (err_data_message error)) then
        ("Registration Failed",
         "Contract error: " +:+ err_message error +:+ ". Check browser console for details.")
      else ("Registration Failed",
            message_or (if truthy (err_reason error) then default "" (err_reason error)
              else "An unexpected error occurred. Check browser console for details.") error) in
    showNotification "error" errorTitle errorMessage.

(** Allowance first; approve and wait if it is too small. *)
Definition ensure_allowance (btn me : string) (collateral : Z) (activity ask_title ask_text : string)
      (pending_text ok_title ok_text resume_html : string) : M page unit :=
    allowance ← ask_Z (GetAllowance me CAPACITY_PLEDGE_ADDRESS);
    if allowance <? collateral then
      when_el btn (set_html "<i></i> Approving KYN...") ;;
      addActivity "System" activity "system" ;;
      showNotification "info" ask_title ask_text ;;
      '(t, _) ← submit (approve CAPACITY_PLEDGE_ADDRESS collateral);
      showNotification "info" "Approval Pending" pending_text ;;
      ask_unit (WaitTx t) ;;
      showNotification "success" ok_title ok_text ;;
      when_el btn (set_html resume_html)
    else mret tt.

Definition register_button : string := "#register-node-form button".

Definition THIRTY_DAYS : Z := 30 * 24 * 60 * 60.

Definition register_in_registry (me peerId endpoint region : string) (minPrice : num) : M page unit :=
    providerData ← ask answer_provider (GetProviders me);
    if cp_registered providerData then
      addActivity "System" "Provider already registered, skipping registry step..." "system"
    else
      addActivity "System" "Registering provider in registry..." "system" ;;
      '(t, _) ← submit (minPriceUSD ← uint_of_num minPrice;
                        mret (RegisterProvider peerId endpoint region minPriceUSD));
      showNotification "info" "Registration Pending" "Provider registration transaction submitted." ;;
      ask_unit (WaitTx t) ;;
      addActivity "System" "Provider registered successfully" "system".

Definition pledge_node (me : string) (capacity : num) : M page unit :=
    when_el register_button (set_html "<i></i> Pledging...") ;;
    let collateral := KYN 1000 in
    ensure_allowance register_button me collateral "Re-approving KYN for capacity pledge..."
      "Approve KYN" "Please confirm the KYN approval in your wallet." "Waiting for KYN approval confirmation..."
      "Approval Confirmed" "KYN approved. Now creating capacity pledge..." "<i></i> Pledging..." ;;
    addActivity "System" "Creating capacity pledge..." "system" ;;
    '(t, _) ← submit (capacityGB ← uint_of_num capacity; mret (CreatePledge capacityGB THIRTY_DAYS collateral));
    showNotification "info" "Pledge Pending" "Pledge transaction submitted." ;;
    ask_unit (WaitTx t) ;;
    showNotification "success" "Node Fully Registered!"
      ("Successfully registered node with " +:+ show_num capacity +:+ " GB.").

(** The form's number field is #reg-capacity. *)
Definition handleRegisterNode : M page unit :=
    haveCapacity ← has_el "reg-capacity";
    haveRegion ← has_el "provider-region";
    if negb haveCapacity || negb haveRegion then
      showNotification "error" "Error" "Form elements not found. Please refresh the page."
    else
    capacityInput ← element_ "reg-capacity";
    regionSelect ← element_ "provider-region";
    let capacity := el_value capacityInput in
    let region := el_value regionSelect in
    if bool_decide (capacity = "") || bool_decide (region = "") then
      showNotification "error" "Error" "Please fill in all required fields."
    else
    ready ← require_wallet;
    if negb ready then mret tt else
    submitBtn ← element_ register_button;
    let originalText := textContent submitBtn in
    try_finally
      (try_catch
         (when_el register_button (set_disabled true) ;;
          when_el register_button (set_html "<i></i> Registering...") ;;
          peerId ← element_ "reg-peer-id";
          endpoint ← element_ "reg-endpoint";
          capacityInput ← element_ "reg-capacity";
          let capacityGB := num_ceil_num (Number (el_value capacityInput)) in
          minPrice ← element_ "reg-min-price";
          let minPriceUSD := round_num (num_mul (parseFloat (el_value minPrice)) (num_of_Z 1000000)) in
          me ← address_of;
          register_in_registry me (el_value peerId) (el_value endpoint) region minPriceUSD ;;
          pledge_node me capacityGB ;;
          addActivity "User" ("Registered node with " +:+ capacity +:+ " GB capacity in " +:+ toUpper region) "user" ;;
          checkProviderStatus ;;
          showNotification "success" "Node Registered!" ("Successfully registered node with " +:+
            formatStorage (parseFloat capacity) +:+ " capacity in " +:+ toUpper region +:+ ".") ;;
          spawn (TaskSwitchView "provider"))
         register_failed)
      (when_el register_button (λ e, set_text originalText (set_disabled false e))).

(** * Upgrading and exiting a pledge *)

Definition upgrade_button : string := "#upgrade-pledge-form button".

(** [parseInt] of the field: NaN makes parseUnits throw. *)
Definition upgrade_body (additional : option Z) : M page unit :=
    when_el upgrade_button (λ e, set_html "<i></i> Upgrading..." (set_disabled true e)) ;;
    additional ← match additional with
                 | Some a => mret a
                 | None => throw (Error "invalid decimal value")
                 end;
    let collateral := KYN (additional * 10) in
    me ← address_of;
    ensure_allowance upgrade_button me collateral "Initiating KYN approval for pledge upgrade..."
      "Confirm Transaction" ("Please approve " +:+ show_Z (additional * 10) +:+ " KYN in your wallet.")
      "Waiting for KYN approval transaction..." "Approval Successful"
      "KYN tokens successfully approved. Proceeding to upgrade pledge..." "<i></i> Upgrading..." ;;
    addActivity "System" ("Initiating upgrade pledge for " +:+ show_Z additional +:+ " GB...") "system" ;;
    '(t, _) ← submit (a ← uint256 additional; mret (CreatePledge a THIRTY_DAYS collateral));
    showNotification "info" "Upgrade Pending" "Pledge upgrade transaction submitted." ;;
    ask_unit (WaitTx t) ;;
    showNotification "success" "Upgrade Successful!"
      ("Added " +:+ formatStorage (num_of_Z additional) +:+ " to your pledge.") ;;
    addActivity "User" ("Upgraded pledge by " +:+ show_Z additional +:+ " GB") "user" ;;
    checkProviderStatus ;;
    switchView "provider".

Definition handleUpgradePledge : M page unit :=
    input ← gets (λ p, pg_dom p !! "additional-capacity");
    match input with
    | Some e =>
        if bool_decide (el_value e = "") then
          showNotification "error" "Error" "Please enter additional capacity."
        else
        ready ← require_wallet;
        if negb ready then mret tt else
        submitBtn ← element_ upgrade_button;
        let originalText := textContent submitBtn in
        try_finally
          (try_catch (upgrade_body (parseInt (el_value e)))
             (λ error, showNotification "error" "Upgrade Failed" (message_or "Failed to upgrade pledge." error)))
          (when_el upgrade_button (λ e, set_text originalText (set_disabled false e)))
    | None => showNotification "error" "Error" "Please enter additional capacity."
    end.

(** The callback is kept with the Yes button. *)
Definition showConfirmModal (title message onConfirm : string) : M page unit :=
    have ← has_el "confirm-modal";
    if have : bool then
      on_el "confirm-modal-title" (set_text title) ;;
      on_el "confirm-modal-message" (set_text message) ;;
      on_el "confirm-modal-yes" (set_onclick onConfirm) ;;
      when_el "confirm-modal" (class_remove "hidden")
    else mret tt.

Definition closeConfirmModal : M page unit := when_el "confirm-modal" (class_add "hidden").

Definition exit_failed (error : js_error) : M page unit :=
    let msg := message_or "Failed to exit pledge." error in
    let msg := if code_is 4001 error || bool_decide (err_code_of error = Some (CodeStr "ACTION_REJECTED"))
               then "Transaction was rejected in your wallet."
               else if includes "Pledge not active" msg then "This pledge is already inactive on-chain."
               else if includes "insufficient funds" msg
                    then "Insufficient POL for gas fees. Please add POL to your wallet."
               else msg in
    showNotification "error" "Exit Failed" msg.

(** The Yes button of the dialog. *)
Definition exit_confirmed (pledgeId : Z) : M page unit :=
    closeConfirmModal ;;
    try_catch
      (addActivity "System" ("Initiating early exit for Pledge #" +:+ show_Z pledgeId +:+ "...") "system" ;;
       showNotification "info" "Confirm Transaction" "Please confirm the early exit in your wallet." ;;
       gasFees ← getGasFees;
       ask_string (SendTx (ExitPledgeEarly pledgeId) gasFees (Some 300000)) ;;
       showNotification "info" "Transaction Pending" "Exit transaction submitted. Waiting for confirmation..." ;;
       ask_unit (WaitTx (ExitPledgeEarly pledgeId)) ;;
       showNotification "success" "Pledge Exited"
         "You have successfully exited the pledge. Your remaining collateral has been returned." ;;
       addActivity "User" ("Exited Pledge #" +:+ show_Z pledgeId +:+ " early") "user" ;;
       checkProviderStatus)
      exit_failed.

(** Returns whether the pledge had already been exited. *)
Definition exit_precheck (pledgeId : Z) : M page bool :=
    try_catch
      (me ← address_of;
       pledge ← ask answer_pledge (GetPledge me pledgeId);
       if pl_active pledge then mret false
       else
         showNotification "success" "Node Removed" ("Pledge #" +:+ show_Z pledgeId +:+
           " was already exited on-chain. Removing from dashboard.") ;;
         addActivity "System" ("Pledge #" +:+ show_Z pledgeId +:+ " is already inactive — removing from view.") "system" ;;
         when_el "active-nodes-list" (λ e, class_add "hidden" (set_html "" e)) ;;
         unhide "no-nodes-state" ;; hide "storage-management" ;; hide "btn-upgrade-pledge" ;;
         checkProviderStatus ;;
         mret true)
      (λ _, mret false).

Definition handleExitPledge (pledgeId : Z) : M page unit :=
    ready ← require_wallet;
    if negb ready then mret tt else
    gone ← exit_precheck pledgeId;
    if gone : bool then mret tt
    else showConfirmModal "Exit Network?"
           "WARNING: Exiting your pledge early will result in a 20% collateral penalty. Are you sure you want to leave the network?"
           ("exit_confirmed " +:+ show_Z pledgeId).

(** * Creating a deal *)

Definition deal_button : string := "#create-deal-form button".

(** Fill up with random addresses, or take the first fifteen. *)
Definition fifteen_providers (calls : list call) (eligible : list string) : list string :=
    if (length eligible <? 15)%nat
    then eligible ++ map (createRandom calls) (seq 0 (15 - length eligible))
    else take 15 eligible.

Definition select_providers (priceUSD : num) : M page (list string) :=
    eligible ← try_catch (price ← uint_of_num priceUSD; ask_strings (GetEligibleProviders price 0))
                 (λ _, mret []);
    calls ← gets pg_calls;
    mret (fifteen_providers calls eligible).

(** [parseInt] gave an integer or NaN. *)
Definition parsed_int (d : option Z) : M page Z :=
    match d with
    | Some z => mret z
    | None => throw (Error "The number NaN cannot be converted to a BigInt because it is not an integer")
    end.

(** Approve the cost of the deal and wait; the amount approved. *)
Definition approve_deal (roundedSize priceUSD : num) (durationDays : option Z) : M page Z :=
    kynPrice ← ask_Z KynPriceUSD;
    size ← of_outcome (BigInt roundedSize);
    price ← of_outcome (BigInt priceUSD);
    days ← parsed_int durationDays;
    let months := ceil_div days 30 in
    kyn ← toNumber kynPrice;
    (if kyn =? 0 then throw (Error "Division by zero") else mret tt) ;;
    let totalCostKYN := deal_approval size price months kyn in
    addActivity "System" "Approving KYN for deal..." "system" ;;
    '(t, _) ← submit (approve STORAGE_MARKETPLACE_ADDRESS totalCostKYN);
    ask_unit (WaitTx t) ;;
    mret totalCostKYN.

Definition shard_size_mb (roundedSize : num) : num :=
    num_ceil_num (num_div (num_mul roundedSize (num_of_Z 1024)) (num_of_Z 10)).

Definition encode_deal (cid : string) (roundedSize priceUSD : num) (durationDays : option Z)
      (selectedProviders : list string) (alertDays : Z) : M page tx :=
    size ← uint_of_num roundedSize;
    days0 ← parsed_int durationDays;
    days ← uint256 days0;
    price ← uint_of_num priceUSD;
    shardSize ← uint_of_num (shard_size_mb roundedSize);
    alert ← uint256 alertDays;
    mret (CreateDeal (DealParams cid size days price selectedProviders
            (replicate 15 (cid +:+ "_shard")) (replicate 15 shardSize) alert)).

(** The proof of replication, sent for the newest deal of the marketplace. *)
Definition submit_porep (cid : string) : M page unit :=
    addActivity "System" "Submitting Proof of Replication (PoRep)..." "system" ;;
    calls ← gets pg_calls;
    dealCount ← ask_Z DealCount;
    dealId ← toNumber dealCount;
    '(t, _) ← submit (mret (SubmitPoRep dealId (ethers_id (cid +:+ "_sealed")) (ethers_id cid) (random_text calls)));
    ask_unit (WaitTx t) ;;
    addActivity "System" "PoRep verified successfully" "system".

Definition create_deal_body (cid size price duration : string) : M page unit :=
    when_el deal_button (λ e, set_html "<i></i> Creating Deal..." (set_disabled true e)) ;;
    let durationDays := parseInt duration in
    let priceUSD := round_num (num_mul (parseFloat price) (num_of_Z 1000000)) in
    let roundedSize := num_ceil_num (Number size) in
    approve_deal roundedSize priceUSD durationDays ;;
    addActivity "System" "Finding eligible providers..." "system" ;;
    selectedProviders ← select_providers priceUSD;
    addActivity "System" "Initiating marketplace deal..." "system" ;;
    alertInput ← element_ "deal-alert-days";
    let alertDays := match parseInt (el_value alertInput) with Some 0 | None => 3 | Some d => d end in
    '(t, _) ← submit (encode_deal cid roundedSize priceUSD durationDays selectedProviders alertDays);
    showNotification "info" "Deal Pending" "Marketplace deal transaction submitted." ;;
    ask_unit (WaitTx t) ;;
    showNotification "success" "Deal Created!"
      ("Storage deal for " +:+ formatStorage (parseFloat size) +:+ " initiated successfully.") ;;
    submit_porep cid ;;
    switchView "marketplace".

(** The second declaration of [handleCreateDeal] in app.js, which replaces the first. *)
Definition handleCreateDeal : M page unit :=
    size ← element_ "deal-size";
    price ← element_ "deal-price";
    duration ← element_ "deal-duration";
    cidInput ← element_ "file-cid";
    calls ← gets pg_calls;
    let cid := if bool_decide (el_value cidInput = "") then "Qm" +:+ random_text calls else el_value cidInput in
    ready ← require_wallet;
    if negb ready then mret tt else
    submitBtn ← element_ deal_button;
    let originalText := textContent submitBtn in
    try_finally
      (try_catch (create_deal_body cid (el_value size) (el_value price) (el_value duration))
         (λ error, showNotification "error" "Transaction Failed" (message_or "Failed to create deal." error)))
      (when_el deal_button (λ e, set_text originalText (set_disabled false e))).

(** * Renewing, withdrawing, proving, cancelling *)

Definition handleRenewDeal (currentDealsTab : string) (dealId additionalDays : Z) : M page unit :=
    signer ← gets pg_signer;
    if negb signer then showNotification "error" "Wallet Not Connected" "Please connect your wallet first."
    else
      try_catch
        (addActivity "System" ("Initiating renewal for Deal #" +:+ show_Z dealId +:+ "...") "system" ;;
         deal ← ask answer_deal (GetDeals dealId);
         let totalCost := renewal_approval (cd_fileSizeGB deal) (cd_pricePerGBMonth deal) additionalDays in
         addActivity "System" "Approving KYN for renewal..." "system" ;;
         gasFees ← getGasFees;
         t ← approve STORAGE_MARKETPLACE_ADDRESS totalCost;
         ask_string (SendTx t gasFees None) ;;
         ask_unit (WaitTx t) ;;
         addActivity "System" "Executing renewal..." "system" ;;
         ask_string (SendTx (RenewDeal dealId additionalDays) gasFees None) ;;
         ask_unit (WaitTx (RenewDeal dealId additionalDays)) ;;
         showNotification "success" "Deal Renewed!"
           ("Deal #" +:+ show_Z dealId +:+ " extended by " +:+ show_Z additionalDays +:+ " days.") ;;
         addActivity "User" ("Renewed Deal #" +:+ show_Z dealId) "user" ;;
         checkExpirations ;;
         spawn (TaskFetchMyDeals currentDealsTab))
        (λ error, showNotification "error" "Renewal Failed" (message_or "Failed to renew deal." error)).

Definition withdraw_failed (error : js_error) : M page unit :=
    addActivity "System" ("Withdrawal failed: " +:+ err_message error) "error" ;;
    if code_is 4001 error || includes_msg "rejected" error then
      showNotification "error" "Transaction Cancelled" "You rejected the transaction."
    else if includes_msg "insufficient funds" error then
      showNotification "error" "Insufficient Gas" "You need more POL to pay for gas fees."
    else showNotification "error" "Withdrawal Failed"
           (if truthy (err_reason error) then default "" (err_reason error)
            else message_or "An error occurred. Please try again." error).

Definition withdrawEarnings : M page unit :=
    ready ← require_wallet;
    if negb ready then mret tt else
    inPortal ← has_el "#provider-stat-earnings button";
    let btn := if inPortal : bool then "#provider-stat-earnings button" else "#earnings-view .btn-primary" in
    found ← gets (λ p, pg_dom p !! btn);
    let originalText := match found with Some e => innerHTML e | None => "" end in
    try_finally
      (try_catch
         (when_el btn (λ e, set_disabled true (set_html "<i></i> Processing..." e)) ;;
          me ← address_of;
          available ← ask_Z (GetAvailableEarnings me);
          if available =? 0 then
            showNotification "info" "No Earnings" "You have no earnings available to withdraw."
          else
            addActivity "System" "Initiating withdrawal..." "system" ;;
            showNotification "info" "Transaction Pending" "Please confirm the transaction in your wallet." ;;
            '(t, hash) ← submit (mret WithdrawEarnings);
            addActivity "System" ("Withdrawal transaction sent: " +:+ substring 0 10 hash +:+ "...") "system" ;;
            showNotification "info" "Withdrawal Pending" "Transaction submitted. Waiting for confirmation..." ;;
            ask_unit (WaitTx t) ;;
            let amount := toFixed 4 (parseFloat (formatUnits available)) in
            addActivity "User" ("Successfully withdrew " +:+ amount +:+ " KYN") "user" ;;
            showNotification "success" "Withdrawal Successful"
              (amount +:+ " KYN has been transferred to your wallet.") ;;
            spawn TaskFetchEarnings)
         withdraw_failed)
      (when_el btn (λ e, set_disabled false (set_html originalText e))).

Definition submitProof (dealId : Z) : M page unit :=
    signer ← gets pg_signer;
    me ← gets pg_userAddress;
    ready ← (if signer && truthy me then mret true else recoverSigner);
    if negb ready then mret tt else
    addActivity "System" ("Submitting Proof of Spacetime (PoSt) for Deal #" +:+ show_Z dealId +:+ "...") "system" ;;
    showNotification "info" "Proof Pending" "PoSt submission transaction submitted." ;;
    showNotification "success" "Proof Verified" "Your storage proof has been verified by the network." ;;
    addActivity "System" ("PoSt verified for Deal #" +:+ show_Z dealId) "system".

(** [btn] is the clicked button; the last call names a function that does not exist. *)
Definition cancelDeal (confirmed : bool) (dealId btn : string) : M page unit :=
    if negb confirmed then mret tt else
    try_catch
      (when_el btn (λ e, set_disabled true (set_html "<i></i> Canceling..." e)) ;;
       response ← ask_http (Fetch "DELETE" (API_URL +:+ "/api/deals/" +:+ dealId) JNull);
       (if http_ok response then mret tt
        else
          errData ← body_of response;
          throw (Error match json_field "error" errData with
                       | JStr (String c s) => String c s
                       | _ => "Failed to cancel deal"
                       end)) ;;
       addActivity "User" ("Deal " +:+ dealId +:+ " cancelled successfully") "user" ;;
       addNotification "deal" "Deal Cancelled"
         ("Storage deal " +:+ dealId +:+ " has been cancelled and shards are being deleted.") (Some dealId) ;;
       signer ← gets pg_signer;
       (if signer : bool then addActivity "System" "Attempting to cancel deal on-chain..." "system"
        else mret tt) ;;
       throw (Error "fetchDashboardStats is not defined"))
      (λ error,
         alert ("Failed to cancel deal: " +:+ err_message error) ;;
         when_el btn (λ e, set_disabled false (set_html "<i></i> Cancel" e))).
End Handlers.

(** * The arithmetic of page and contract *)

Lemma months_agree d : ceil_div d 30 = (d + 29) / 30.
Proof.
  apply ceil_div_unique; [lia|..]; pose proof (Z.div_mod (d + 29) 30 ltac:(lia));
    pose proof (Z.mod_pos_bound (d + 29) 30 ltac:(lia)); lia.
Qed.

(** The approval of a renewal is what the contract takes while its fee is the three
    per cent the dashboard computes with. *)
Lemma renewal_approval_exact size price days :
  0 ≤ size → 0 ≤ price → 0 ≤ days → renewal_approval size price days = renewal_charge 300 size price days.
Proof.
  intros Hs Hp Hd. unfold renewal_approval, renewal_charge. rewrite months_agree.
  assert (0 ≤ (days + 29) / 30) by (apply Z.div_pos; lia).
  rewrite Z.quot_div_nonneg by nia. done.
Qed.

(** The charge grows with the fee. *)
Lemma contract_charge_mono bps bps' size price days kyn :
  0 ≤ size → 0 ≤ price → 0 ≤ days → 0 < kyn → bps ≤ bps' →
  contract_charge bps size price days kyn ≤ contract_charge bps' size price days kyn.
Proof.
  intros Hs Hp Hd Hk Hb. unfold contract_charge. cbv zeta.
  assert (0 ≤ (days + 29) / 30) by (apply Z.div_pos; lia).
  assert (0 ≤ price * 10 ^ 18 / kyn) by (apply Z.div_pos; nia).
  apply Z.add_le_mono_l, Z.div_le_mono; [done|]. apply Z.mul_le_mono_nonneg_l; [nia|done].
Qed.

Lemma approval_covers_default_charge size price days kyn :
  0 ≤ size → 0 ≤ price → 0 ≤ days → 0 < kyn → (100 | price) →
  contract_charge 300 size price days kyn ≤ deal_approval size price (ceil_div days 30) kyn.
Proof.
  intros Hs Hp Hd Hk [c ->]. unfold contract_charge, deal_approval. rewrite months_agree.
  assert (Hm : 0 ≤ (days + 29) / 30) by (apply Z.div_pos; lia).
  set (m := (days + 29) / 30) in *. clearbody m.
  assert (Hc : 0 ≤ c) by lia. set (E := 10 ^ 18). assert (HE : 0 < E) by done. clearbody E.
  pose proof (Z.mul_div_le (c * 100 * E) kyn Hk) as Hdiv.
  assert (Hpk : 0 ≤ c * 100 * E / kyn) by (apply Z.div_pos; nia).
  set (pk := c * 100 * E / kyn) in *. clearbody pk.
  rewrite (Z.quot_div_nonneg (size * (c * 100) * m * 300)) by nia.
  replace (size * (c * 100) * m * 300) with (3 * (size * c * m) * 10000) by lia.
  rewrite Z.div_mul by done. rewrite Z.quot_div_nonneg by nia.
  apply Z.div_le_lower_bound; [done|].
  pose proof (Z.mul_div_le (size * pk * m * 300) 10000 ltac:(lia)) as Hfee.
  set (fee := size * pk * m * 300 / 10000) in *. clearbody fee.
  assert (Hx : 0 ≤ size * m) by nia.
  assert (Hpay : kyn * (size * pk * m) ≤ size * m * (c * 100 * E)) by nia.
  nia.
Qed.

Lemma approval_covers_charge bps size price days kyn :
  0 ≤ size → 0 ≤ price → 0 ≤ days → 0 < kyn → (100 | price) → bps ≤ 300 →
  contract_charge bps size price days kyn ≤ deal_approval size price (ceil_div days 30) kyn.
Proof.
  intros. etrans; [by apply (contract_charge_mono bps 300)|by apply approval_covers_default_charge].
Qed.

(** A fee the owner has raised is not covered: at four per cent (setProtocolFee
    accepts up to ten) the contract takes more than the dashboard approves. *)
Example raised_fee_falls_short :
  deal_approval 10 10000 1 100000 = 1030000000000000000 ∧
  contract_charge 400 10 10000 30 100000 = 1040000000000000000.
Proof. done. Qed.

(** Finer prices can leave the approval short of the charge: at 0.00505 USD per GB
    and month (above the contract's minimum) the fee is rounded down before it is
    converted to tokens. *)
Example approval_falls_short :
  deal_approval 1 5050 1 100000 = 52010000000000000 ∧
  contract_charge 300 1 5050 30 100000 = 52015000000000000.
Proof. done. Qed.

(** The fixed collateral of a registration is enough up to 1333 GB, the collateral
    of an upgrade always. *)
Lemma registration_collateral capacity :
  calculateMinimumCollateral capacity ≤ KYN 1000 ↔ capacity ≤ 1333.
Proof. unfold calculateMinimumCollateral, KYN. lia. Qed.

Lemma upgrade_collateral additional :
  0 ≤ additional → calculateMinimumCollateral additional ≤ KYN (additional * 10).
Proof. unfold calculateMinimumCollateral, KYN. lia. Qed.

(** * Nothing is spent that was not approved *)

Section Funding.
  Context `{Outside} (old : list call).

(** Facts about the calls [new] made after [old], newest first. *)
Definition mined (t : tx) (new : list call) : Prop :=
    ∃ later earlier, new = later ++ WaitTx t :: earlier ∧
      answer_unit (WaitTx t :: earlier ++ old) = Ok tt.
Definition allowed (spender : string) (amount : Z) (new : list call) : Prop :=
    ∃ later earlier me a, new = later ++ GetAllowance me spender :: earlier ∧
      answer_Z (GetAllowance me spender :: earlier ++ old) = Ok a ∧ amount ≤ a.
Definition priced (kyn : Z) (new : list call) : Prop :=
    ∃ later earlier, new = later ++ KynPriceUSD :: earlier ∧
      answer_Z (KynPriceUSD :: earlier ++ old) = Ok kyn.
Definition read_deal (i : Z) (deal : chain_deal) (new : list call) : Prop :=
    ∃ later earlier, new = later ++ GetDeals i :: earlier ∧
      answer_deal (GetDeals i :: earlier ++ old) = Ok deal.

Definition pledge_backed (collateral : Z) (new : list call) : Prop :=
    mined (Approve CAPACITY_PLEDGE_ADDRESS collateral) new ∨ allowed CAPACITY_PLEDGE_ADDRESS collateral new.
Definition deal_backed (size price days : Z) (new : list call) : Prop :=
    ∃ kyn, priced kyn new ∧ kyn ≠ 0 ∧
      mined (Approve STORAGE_MARKETPLACE_ADDRESS (deal_approval size price (ceil_div days 30) kyn)) new.
Definition renewal_backed (i days : Z) (new : list call) : Prop :=
    ∃ deal, read_deal i deal new ∧
      mined (Approve STORAGE_MARKETPLACE_ADDRESS
               (renewal_approval (cd_fileSizeGB deal) (cd_pricePerGBMonth deal) days)) new.

(** What must be in the log before a spending transaction. *)
Definition backing (t : tx) : list call → Prop :=
    match t with
    | CreatePledge _ _ collateral => pledge_backed collateral
    | CreateDeal params => λ l,
        deal_backed (dp_fileSizeGB params) (dp_pricePerGBMonthUSD params) (dp_durationDays params) l ∧
        0 ≤ dp_fileSizeGB params ∧ 0 ≤ dp_pricePerGBMonthUSD params ∧ 0 ≤ dp_durationDays params
    | RenewDeal i days => renewal_backed i days
    | _ => λ _, True
    end.

Inductive funded : list call → Prop :=
  | funded_nil : funded []
  | funded_tx t gp gl l : backing t l → funded l → funded (SendTx t gp gl :: l)
  | funded_call c l : moves_nothing c = true → funded l → funded (c :: l).

Definition lasting (P : list call → Prop) : Prop := ∀ c l, P l → P (c :: l).
Existing Class lasting.

Lemma lasting_mined t : lasting (mined t).
Proof using. intros c l (a & b & -> & Hb). by exists (c :: a), b. Qed.
Lemma lasting_priced k : lasting (priced k).
Proof using. intros c l (a & b & -> & Hb). by exists (c :: a), b. Qed.
Lemma lasting_read_deal i d : lasting (read_deal i d).
Proof using. intros c l (a & b & -> & Hb). by exists (c :: a), b. Qed.
Lemma lasting_pledge_backed k : lasting (pledge_backed k).
Proof using.
    intros c l [Hm|(a & b & me & x & -> & Hb)]; [left; by apply lasting_mined|].
    right. by exists (c :: a), b, me, x.
  Qed.
Lemma lasting_deal_backed s p d : lasting (deal_backed s p d).
Proof using.
    intros c l (k & Hp & Hk & Hm). exists k.
    split; [by apply lasting_priced|]. split; [done|by apply lasting_mined].
  Qed.
Lemma lasting_renewal_backed i d : lasting (renewal_backed i d).
Proof using.
    intros c l (deal & Hr & Hm). exists deal. split; [by apply lasting_read_deal|by apply lasting_mined].
  Qed.
Lemma lasting_and P Q `{HP : !lasting P, HQ : !lasting Q} : lasting (λ l, P l ∧ Q l).
Proof using. intros c l [? ?]. split; [by apply HP|by apply HQ]. Qed.
Lemma lasting_const (X : Prop) : lasting (λ _, X).
Proof using. by intros c l. Qed.

(** The calls since [old] are funded and establish [P]. *)
Definition since (P : list call → Prop) (p : page) : Prop :=
    ∃ new, pg_calls p = new ++ old ∧ funded new ∧ P new.

Lemma since_call P c p :
    lasting P → harmless c = true → since P p → since P (with_calls p (c :: pg_calls p)).
Proof using.
    intros HP Hc (new & Hn & Hf & Hnew). exists (c :: new). simpl. rewrite Hn.
    split; [done|]. split; [constructor 3; auto using harmless_moves_nothing|by apply HP].
  Qed.

Lemma since_tx P t gp gl p :
    lasting P → (∀ l, P l → backing t l) → since P p →
    since P (with_calls p (SendTx t gp gl :: pg_calls p)).
Proof using.
    intros HP Ht (new & Hn & Hf & Hnew). exists (SendTx t gp gl :: new). simpl. rewrite Hn.
    split; [done|]. split; [constructor 2; auto|by apply HP].
  Qed.

Lemma since_weaken P p : since P p → since (λ _, True) p.
Proof using. intros (new & ? & ? & ?). by exists new. Qed.

Lemma since_stable P `{HP : !lasting P} : WalletStable (since P).
Proof using.
    constructor; [constructor|..]; try done. intros p c Hc. by apply since_call.
  Qed.

(** ** Asking, with what the answer establishes *)

Lemma ask_establishes {A} (answer : list call → outcome A) c P (Q : A → list call → Prop) p :
    lasting P → harmless c = true →
    (∀ new a, pg_calls p = new ++ old → answer (c :: new ++ old) = Ok a → P new → Q a (c :: new)) →
    since P p →
    match ask answer c p with
    | (Ok a, p') => since (λ l, P l ∧ Q a l) p'
    | (Throw _, p') => since P p'
    end.
Proof using.
    intros HP Hc HQ Hp. pose proof (since_call P c p HP Hc Hp) as Hp'.
    destruct Hp as (new & Hn & Hf & Hnew). unfold ask. cbn [pg_calls with_calls].
    destruct (answer (c :: pg_calls p)) as [a|e] eqn:Ea; [|done].
    exists (c :: new). cbn [pg_calls with_calls]. rewrite Hn in *.
    split; [done|]. split; [constructor 3; auto using harmless_moves_nothing|]. split; [by apply HP|by apply HQ].
  Qed.

Lemma wait_establishes t P p :
    lasting P → since P p →
    match ask_unit (WaitTx t) p with
    | (Ok _, p') => since (λ l, P l ∧ mined t l) p'
    | (Throw _, p') => since P p'
    end.
Proof using.
    intros HP Hp. refine (ask_establishes answer_unit (WaitTx t) P (λ _, mined t) p HP eq_refl _ Hp).
    intros new [] _ Ha _. by exists [], new.
  Qed.
End Funding.

#[export] Existing Instances lasting_mined lasting_priced lasting_read_deal lasting_pledge_backed
  lasting_deal_backed lasting_renewal_backed lasting_and lasting_const since_stable.
#[export] Hint Extern 0 (lasting _) => typeclasses eauto : page.

Section PreservesSubmit.
  Context `{Outside} (I : page → Prop) `{!WalletStable I}.

Lemma preserves_uint256 z : preserves I (uint256 z).
Proof using. unfold uint256. preserve. Qed.
Lemma preserves_uint_of_num x : preserves I (uint_of_num x).
Proof using. unfold uint_of_num. preserve. Qed.
Lemma preserves_of_outcome {A} (r : outcome A) : preserves I (of_outcome r).
Proof using. by intros p Hp. Qed.
Lemma preserves_toNumber z : preserves I (toNumber z).
Proof using. unfold toNumber. preserve. Qed.
Lemma preserves_parsed_int d : preserves I (parsed_int d).
Proof using. unfold parsed_int. preserve. Qed.
Lemma preserves_address_of : preserves I address_of.
Proof using. apply preserves_gets. Qed.
Lemma preserves_require_wallet : preserves I require_wallet.
Proof using WalletStable0. unfold require_wallet. page_preserve. Qed.
Lemma preserves_fill_if_empty id v : preserves I (fill_if_empty id v).
Proof using WalletStable0. unfold fill_if_empty. page_preserve. Qed.
  Hint Resolve preserves_uint256 : page.
Lemma preserves_approve sp a : preserves I (approve sp a).
Proof using. unfold approve. page_preserve. Qed.

(** A transaction whose kind is known not to spend, or to be backed. *)
Lemma preserves_submit encode :
    preserves I encode →
    (∀ p t p', encode p = (Ok t, p') →
       ∀ q gp gl, I q → I (with_calls q (SendTx t gp gl :: pg_calls q))) →
    preserves I (submit encode).
Proof using WalletStable0.
    intros He Ht. unfold submit. apply preserves_bind; [eauto with page|]. intros gp.
    apply (preserves_bind_post _ _ _ (λ t q, I q ∧ ∀ q gp gl, I q → I (with_calls q (SendTx t gp gl :: pg_calls q)))).
    - intros p Hp. specialize (He p Hp). specialize (Ht p).
      destruct (encode p) as [[t|e] p'] eqn:E; [|done]. split; [done|]. by apply (Ht t p').
    - intros t q [Hq Hsend]. revert q Hq. fold (preserves I (gasEstimate ← ask_Z (EstimateGas t);
        hash ← ask_string (SendTx t gp (Some (getGasLimitWithBuffer gasEstimate))); mret (t, hash))).
      apply preserves_bind; [eauto with page|]. intros est. apply preserves_bind; [|intros; apply preserves_ret].
      intros q Hq. by apply Hsend.
  Qed.
End PreservesSubmit.

#[export] Hint Resolve preserves_uint256 preserves_uint_of_num preserves_of_outcome preserves_toNumber
  preserves_parsed_int preserves_address_of preserves_require_wallet preserves_fill_if_empty
  preserves_approve : page.

(** ** A small logic of what a run establishes in the log *)

Section Yields.
  Context `{Outside} (old : list call).

(** From a log with [P], [m] returns with [Q], or throws with a funded log. *)
Definition yields {A} (P : list call → Prop) (m : M page A) (Q : A → list call → Prop) : Prop :=
    ∀ p, since old P p → match m p with
                         | (Ok a, p') => since old (Q a) p'
                         | (Throw _, p') => since old (λ _, True) p'
                         end.

Lemma yields_bind {A B} P (m : M page A) (k : A → M page B) Q R :
    yields P m Q → (∀ a, yields (Q a) (k a) R) → yields P (m ≫= k) R.
Proof using.
    intros Hm Hk p Hp. specialize (Hm p Hp). unfold mbind, M_bind.
    destruct (m p) as [[a|e] p']; [by apply Hk|done].
  Qed.

Lemma yields_keep {A} P (m : M page A) : preserves (since old P) m → yields P m (λ _, P).
Proof using.
    intros Hm p Hp. specialize (Hm p Hp). destruct (m p) as [[a|e] p']; [done|by eapply since_weaken].
  Qed.

Lemma yields_seq {A B} P (m : M page A) (k : A → M page B) R :
    preserves (since old P) m → (∀ a, yields P (k a) R) → yields P (m ≫= k) R.
Proof using. intros Hm Hk. apply (yields_bind _ _ _ (λ _, P)); [by apply yields_keep|done]. Qed.

Lemma yields_post {A} P (m : M page A) (Q Q' : A → list call → Prop) :
    yields P m Q → (∀ a l, Q a l → Q' a l) → yields P m Q'.
Proof using.
    intros Hm HQ p Hp. specialize (Hm p Hp). destruct (m p) as [[a|e] p']; [|done].
    destruct Hm as (new & ? & ? & ?). exists new. auto.
  Qed.

Lemma yields_pre {A} (P P' : list call → Prop) (m : M page A) Q :
    yields P m Q → (∀ l, P' l → P l) → yields P' m Q.
Proof using. intros Hm HP p (new & ? & ? & ?). apply Hm. exists new. auto. Qed.

Lemma yields_try {A} P (m : M page A) h :
    yields P m (λ _ _, True) → (∀ e, yields (λ _, True) (h e) (λ _ _, True)) →
    yields P (try_catch m h) (λ _ _, True).
Proof using.
    intros Hm Hh p Hp. specialize (Hm p Hp). unfold try_catch.
    destruct (m p) as [[a|e] p']; [done|by apply Hh].
  Qed.

Lemma yields_finally {A} P (m : M page A) f :
    yields P m (λ _ _, True) → yields (λ _, True) f (λ _ _, True) →
    yields P (try_finally m f) (λ _ _, True).
Proof using.
    intros Hm Hf p Hp. specialize (Hm p Hp). unfold try_finally.
    destruct (m p) as [r p']. assert (Hp' : since old (λ _, True) p') by (by destruct r).
    specialize (Hf p' Hp'). destruct (f p') as [[[]|e] p''], r; done.
  Qed.

Lemma yields_done {A} P (m : M page A) : preserves (since old P) m → yields P m (λ _ _, True).
Proof using. intros Hm. eapply yields_post; [by apply yields_keep|done]. Qed.

Lemma yields_throw {A} P e Q : yields P (throw e : M page A) Q.
Proof using. intros p Hp. by eapply since_weaken. Qed.

Lemma yields_ret {A} P (a : A) (Q : A → list call → Prop) : (∀ l, P l → Q a l) → yields P (mret a) Q.
Proof using. intros HP p (new & ? & ? & ?). exists new. auto. Qed.

(** Running a computation that only reads, and knowing its result. *)
Lemma yields_pure {A} P (m : M page A) (Q : A → Prop) :
    (∀ p, match m p with (Ok a, p') => p' = p ∧ Q a | (Throw _, p') => p' = p end) →
    yields P m (λ a l, P l ∧ Q a).
Proof using.
    intros Hm p Hp. specialize (Hm p). destruct (m p) as [[a|e] p'].
    - destruct Hm as [-> Ha]. destruct Hp as (new & ? & ? & ?). by exists new.
    - subst p'. by eapply since_weaken.
  Qed.

Lemma yields_ask {A} (answer : list call → outcome A) c P (Q : A → list call → Prop) :
    lasting P → harmless c = true →
    (∀ new a, answer (c :: new ++ old) = Ok a → P new → Q a (c :: new)) →
    yields P (ask answer c) (λ a l, P l ∧ Q a l).
Proof using.
    intros HP Hc HQ p Hp.
    pose proof (ask_establishes old answer c P Q p HP Hc (λ new a _, HQ new a) Hp) as Hask.
    destruct (ask answer c p) as [[a|e] p']; [done|by eapply since_weaken].
  Qed.

Lemma yields_wait t P : lasting P → yields P (ask_unit (WaitTx t)) (λ _ l, P l ∧ mined old t l).
Proof using. intros HP. apply yields_ask; [done|done|]. intros new [] Ha _. by exists [], new. Qed.

(** Submitting a transaction whose arguments are known. *)
Lemma yields_submit P encode (R : tx → Prop) :
    lasting P →
    (∀ p, match encode p with (Ok t, p') => p' = p ∧ R t | (Throw _, p') => p' = p end) →
    (∀ t l, R t → P l → backing old t l) →
    yields P (submit encode) (λ r l, P l ∧ R (fst r)).
Proof using.
    intros HP Hpure Hb. pose proof (since_stable old P) as Hst. unfold submit.
    apply yields_seq; [eauto with page|]. intros gp.
    eapply yields_bind; [by apply (yields_pure _ _ R)|]. intros t. simpl.
    eapply (yields_bind _ _ _ (λ _ l, P l ∧ R t)).
    { apply yields_keep.
      pose proof (since_stable old (λ l, P l ∧ R t)) as Hst'. eauto with page. }
    intros est. eapply (yields_bind _ _ _ (λ _ l, P l ∧ R t)).
    { apply yields_keep. intros p Hp. apply since_tx; [apply _| |done].
      intros l [Hl Ht]. by apply Hb. }
    intros hash. by apply yields_ret.
  Qed.
End Yields.


(** [keeping]: steps that leave the established facts alone. *)
Ltac keeping := apply yields_seq; [solve [page_preserve] | intros ?; cbv beta zeta].
Ltac finishing := apply yields_done; solve [page_preserve].

(** ** The handlers *)

Section Funded.
  Context `{Outside} (old : list call).

Lemma approve_pure sp a p :
    match approve sp a p with (Ok t, p') => p' = p ∧ t = Approve sp a | (Throw _, p') => p' = p end.
Proof using. unfold approve, uint256. running. by destruct (_ && _). Qed.

Lemma yields_approve sp a P :
    lasting P → yields old P (submit (approve sp a)) (λ r l, P l ∧ fst r = Approve sp a).
Proof using. intros HP. apply (yields_submit old P _ (λ t, t = Approve sp a)); [done|apply approve_pure|]. by intros t l ->. Qed.

(** Approve an amount and wait until it is mined. *)
Lemma yields_approved {B} sp a P (k : tx * string → M page B) R :
    lasting P →
    (∀ h, yields old P (k (Approve sp a, h)) R) → yields old P (submit (approve sp a) ≫= k) R.
Proof using.
    intros HP Hk. eapply yields_bind; [by apply yields_approve|]. intros [t h]. simpl.
    intros p (new & Hn & Hf & Hl & ->). apply Hk. by exists new.
  Qed.

Lemma yields_waited {B} t P (k : unit → M page B) R :
    lasting P → (∀ u, yields old (λ l, P l ∧ mined old t l) (k u) R) →
    yields old P (ask_unit (WaitTx t) ≫= k) R.
Proof using. intros HP Hk. eapply yields_bind; [by apply yields_wait|]. done. Qed.

Lemma ensure_allowance_backs btn me coll a b c d e f g :
    yields old (λ _, True) (ensure_allowance btn me coll a b c d e f g) (λ _, pledge_backed old coll).
Proof using.
    unfold ensure_allowance.
    eapply (yields_bind _ _ _ _ (λ x l, True ∧ allowed old CAPACITY_PLEDGE_ADDRESS x l)).
    { apply yields_ask; [eauto with page|done|]. intros new x Hx _. exists [], new, me, x. split; [done|]. done. }
    intros x. cbv beta. destruct (x <? coll) eqn:E.
    - apply (yields_pre _ (λ _, True)); [|done]. do 3 keeping.
      apply yields_approved; [eauto with page|]. intros h. cbv beta iota. keeping.
      apply yields_waited; [eauto with page|]. intros _. cbv beta. keeping.
      eapply yields_post; [apply yields_keep; page_preserve|].
      intros u l [_ Hm]. by left.
    - apply Z.ltb_ge in E. apply yields_ret. intros l [_ (x1 & x2 & m & y & -> & Hy & Hle)].
      right. exists x1, x2, m, y. split; [done|]. split; [done|lia].
  Qed.

(** Pledging with an argument that only reads. *)
Lemma yields_pledge coll P encode :
    lasting P → (∀ l, P l → pledge_backed old coll l) →
    (∀ p, match encode p with
          | (Ok t, p') => p' = p ∧ ∃ c d, t = CreatePledge c d coll
          | (Throw _, p') => p' = p
          end) →
    yields old P (submit encode) (λ _, P).
Proof using.
    intros HP Hb Henc. eapply yields_post; [apply (yields_submit old P encode (λ t, ∃ c d, t = CreatePledge c d coll)); [done|exact Henc|]|by intros ? ? []].
    intros t l (c & d & ->) Hl. by apply Hb.
  Qed.

Lemma preserves_register_in_registry me a b c d :
    preserves (since old (λ _, True)) (register_in_registry me a b c d).
Proof using.
    unfold register_in_registry. page_preserve. apply preserves_submit; [eauto with page|page_preserve|].
    unfold uint_of_num. intros p t p' Ht q gp gl Hq. apply since_tx; [eauto with page| |done].
    running. destruct (num_to_Z d) as [z|]; [|done]. destruct (_ && _); [|done]. by inversion Ht.
  Qed.

Lemma pledge_node_funded me capacity :
    yields old (λ _, True) (pledge_node me capacity) (λ _ _, True).
Proof using.
    unfold pledge_node. keeping. eapply yields_bind; [apply ensure_allowance_backs|]. intros ?. cbv beta.
    keeping. eapply yields_bind.
    { apply (yields_pledge (KYN 1000)); [eauto with page|done|]. intros p. unfold uint_of_num. running.
      destruct (num_to_Z capacity) as [z|]; [|done]. destruct (_ && _); [|done]. eauto. }
    intros [t h]. cbv beta iota. finishing.
  Qed.

Lemma upgrade_body_funded additional : yields old (λ _, True) (upgrade_body additional) (λ _ _, True).
Proof using.
    unfold upgrade_body. keeping. destruct additional as [n|]; [|apply yields_throw].
    apply yields_seq; [apply preserves_ret|]. intros n'. cbv beta zeta. keeping.
    eapply yields_bind; [apply ensure_allowance_backs|]. intros ?. cbv beta. keeping.
    eapply yields_bind.
    { apply (yields_pledge (KYN (n' * 10))); [eauto with page|done|]. intros p. unfold uint256. running.
      destruct (_ && _); [eauto|done]. }
    intros [t h]. cbv beta iota. finishing.
  Qed.

(** *** Deals *)

Definition parsed (rs pr : num) (dd : option Z) (s p d : Z) : Prop :=
    num_to_Z rs = Some s ∧ num_to_Z pr = Some p ∧ dd = Some d.

Lemma yields_BigInt {B} x P (k : Z → M page B) R :
    (∀ z, num_to_Z x = Some z → yields old P (k z) R) → yields old P (of_outcome (BigInt x) ≫= k) R.
Proof using.
    intros Hk p Hp. unfold mbind, M_bind, of_outcome, BigInt.
    destruct (num_to_Z x) as [z|]; [by apply Hk|by eapply since_weaken].
  Qed.

Lemma yields_ret_bind {A B} (a : A) P (k : A → M page B) R :
    yields old P (k a) R → yields old P (mret a ≫= k) R.
Proof using. done. Qed.

Lemma yields_toNumber {B} z P (k : Z → M page B) R :
    yields old P (k z) R → yields old P (toNumber z ≫= k) R.
Proof using.
    intros Hk p Hp. unfold toNumber, mbind, M_bind. destruct (z <? 2 ^ 53); [by apply Hk|by eapply since_weaken].
  Qed.

Lemma approve_deal_backs rs pr dd :
    yields old (λ _, True) (approve_deal rs pr dd)
      (λ _ l, ∃ s p d, parsed rs pr dd s p d ∧ deal_backed old s p d l).
Proof using.
    unfold approve_deal.
    eapply (yields_bind _ _ _ _ (λ kyn l, True ∧ priced old kyn l)).
    { apply yields_ask; [eauto with page|done|]. intros new x Hx _. by exists [], new. }
    intros kyn. cbv beta. apply yields_BigInt. intros s Hs. apply yields_BigInt. intros pz Hpz.
    destruct dd as [d|]; [|apply yields_throw]. apply yields_ret_bind. cbv zeta.
    apply yields_toNumber. destruct (kyn =? 0) eqn:E; [apply yields_throw|]. apply Z.eqb_neq in E.
    apply yields_ret_bind. keeping. apply yields_approved; [eauto with page|]. intros h. cbv beta iota.
    apply yields_waited; [eauto with page|]. intros u. apply yields_ret. intros l [[_ Hp] Hm].
    exists s, pz, d. split; [done|]. by exists kyn.
  Qed.

Lemma encode_deal_pure cid rs pr dd sel al p :
    match encode_deal cid rs pr dd sel al p with
    | (Ok t, p') => p' = p ∧ ∃ params, t = CreateDeal params ∧
        parsed rs pr dd (dp_fileSizeGB params) (dp_pricePerGBMonthUSD params) (dp_durationDays params) ∧
        0 ≤ dp_fileSizeGB params ∧ 0 ≤ dp_pricePerGBMonthUSD params ∧ 0 ≤ dp_durationDays params
    | (Throw _, p') => p' = p
    end.
Proof using.
    unfold encode_deal, uint_of_num, parsed_int, uint256, parsed. running.
    destruct (num_to_Z rs) as [s|]; [|done]. destruct ((0 <=? s) && _) eqn:E1; [|done].
    destruct dd as [d|]; [|done]. destruct ((0 <=? d) && _) eqn:E2; [|done].
    destruct (num_to_Z pr) as [z|]; [|done]. destruct ((0 <=? z) && _) eqn:E3; [|done].
    destruct (num_to_Z (shard_size_mb rs)) as [z'|]; [|done]. destruct ((0 <=? z') && _); [|done].
    destruct ((0 <=? al) && _); [|done]. split; [done|]. eexists. split; [reflexivity|]. simpl.
    split; [done|]. lia.
  Qed.

Lemma preserves_select_providers I x : WalletStable I → preserves I (select_providers x).
Proof using. intros HI. unfold select_providers. page_preserve. Qed.

Lemma preserves_submit_porep I cid : WalletStable I → preserves I (submit_porep cid).
Proof using.
    intros HI. unfold submit_porep. page_preserve. apply preserves_submit; [done|page_preserve|].
    intros p t p' [= <- _] q gp gl Hq. by apply ui_call.
  Qed.

Lemma create_deal_funded cid size price duration :
    yields old (λ _, True) (create_deal_body cid size price duration) (λ _ _, True).
Proof using.
    unfold create_deal_body. keeping.
    set (rs := num_ceil_num _). set (pr := round_num _). set (dd := parseInt _).
    eapply yields_bind; [apply approve_deal_backs|]. intros u. cbv beta.
    intros p (new & Hn & Hf & s & z & d & Hpar & Hback). revert p Hn.
    cut (yields old (deal_backed old s z d)
      (addActivity "System" "Finding eligible providers..." "system" ;;
       selectedProviders ← select_providers pr;
       addActivity "System" "Initiating marketplace deal..." "system" ;;
       alertInput ← element_ "deal-alert-days";
       let alertDays := match parseInt (el_value alertInput) with Some 0 | None => 3 | Some d => d end in
       '(t, _) ← submit (encode_deal cid rs pr dd selectedProviders alertDays);
       showNotification "info" "Deal Pending" "Marketplace deal transaction submitted." ;;
       ask_unit (WaitTx t) ;;
       showNotification "success" "Deal Created!"
         ("Storage deal for " +:+ formatStorage (parseFloat size) +:+ " initiated successfully.") ;;
       submit_porep cid ;;
       switchView "marketplace") (λ _ _, True)).
    { intros Hrest p Hn. apply Hrest. by exists new. }
    keeping. apply yields_seq; [apply preserves_select_providers, _|]. intros sel. keeping. keeping.
    eapply yields_bind.
    { apply (yields_submit old _ _ (λ t, ∃ params, t = CreateDeal params ∧
        parsed rs pr dd (dp_fileSizeGB params) (dp_pricePerGBMonthUSD params) (dp_durationDays params) ∧
        0 ≤ dp_fileSizeGB params ∧ 0 ≤ dp_pricePerGBMonthUSD params ∧ 0 ≤ dp_durationDays params));
        [eauto with page|apply encode_deal_pure|].
      intros t l (params & -> & (Hs' & Hz' & Hd') & Hnn) Hl. destruct Hpar as (Hs & Hz & Hd).
      simpl. by simplify_eq. }
    intros [t h]. cbv beta iota. keeping. keeping. keeping.
    apply yields_seq; [apply preserves_submit_porep, _|]. intros u'. finishing.
  Qed.

(** *** Every handler *)


Lemma preserves_handleStake I : WalletStable I → preserves I handleStake.
Proof using.
    intros HI. unfold handleStake, stake_failed. page_preserve.
    apply preserves_submit; [done|page_preserve|].
    intros p t p' Ht q gp gl Hq. pose proof (approve_pure CAPACITY_PLEDGE_ADDRESS (KYN 1000) p) as Hp.
    rewrite Ht in Hp. destruct Hp as [_ ->]. by apply ui_call.
  Qed.

(** The guard that asks for a wallet. *)
Lemma yields_ready (m : M page unit) :
    yields old (λ _, True) m (λ _ _, True) → yields old (λ _, True) (ready ← require_wallet; if negb ready then mret tt else m) (λ _ _, True).
Proof using. intros Hm. keeping. destruct (negb _); [finishing|done]. Qed.

Lemma handleRegisterNode_funded : yields old (λ _, True) handleRegisterNode (λ _ _, True).
Proof using.
    unfold handleRegisterNode. keeping. keeping. destruct (_ || _); [finishing|]. keeping. keeping.
    destruct (_ || _); [finishing|]. apply yields_ready. keeping.
    apply yields_finally; [apply yields_try|finishing].
    - do 6 keeping. keeping. apply yields_seq; [apply preserves_register_in_registry|]. intros ?.
      eapply yields_bind; [apply pledge_node_funded|]. intros ?. finishing.
    - intros e. unfold register_failed. finishing.
  Qed.

Lemma handleUpgradePledge_funded : yields old (λ _, True) handleUpgradePledge (λ _ _, True).
Proof using.
    unfold handleUpgradePledge. keeping.
    match goal with |- yields _ _ (match ?x with _ => _ end) _ => destruct x as [e|] end; [|finishing].
    destruct (bool_decide _); [finishing|]. apply yields_ready. keeping.
    apply yields_finally; [apply yields_try|finishing]; [apply upgrade_body_funded|]. intros err. finishing.
  Qed.

Lemma preserves_exit_confirmed I i : WalletStable I → preserves I (exit_confirmed i).
Proof using. intros HI. unfold exit_confirmed, exit_failed, closeConfirmModal. page_preserve. Qed.

Lemma preserves_handleExitPledge I i : WalletStable I → preserves I (handleExitPledge i).
Proof using. intros HI. unfold handleExitPledge, exit_precheck, showConfirmModal. page_preserve. Qed.

Lemma handleCreateDeal_funded : yields old (λ _, True) handleCreateDeal (λ _ _, True).
Proof using.
    unfold handleCreateDeal. do 5 keeping. apply yields_ready. keeping.
    apply yields_finally; [apply yields_try|finishing]; [apply create_deal_funded|]. intros err. finishing.
  Qed.

Lemma handleRenewDeal_funded tab i days : yields old (λ _, True) (handleRenewDeal tab i days) (λ _ _, True).
Proof using.
    unfold handleRenewDeal. keeping. destruct (negb _); [finishing|]. apply yields_try; [|intros e; finishing].
    keeping. eapply (yields_bind _ _ _ _ (λ d l, True ∧ read_deal old i d l)).
    { apply yields_ask; [eauto with page|done|]. intros new x Hx _. by exists [], new. }
    intros deal. cbv beta zeta. keeping. keeping.
    set (cost := renewal_approval _ _ _).
    eapply yields_bind; [apply (yields_pure _ _ _ (λ t, t = Approve STORAGE_MARKETPLACE_ADDRESS cost)), approve_pure|].
    intros t. cbv beta. intros p (new & Hn & Hf & Hread & ->). revert p Hn.
    cut (∀ gp, yields old (λ l, True ∧ read_deal old i deal l)
      (ask_string (SendTx (Approve STORAGE_MARKETPLACE_ADDRESS cost) gp None) ;;
       ask_unit (WaitTx (Approve STORAGE_MARKETPLACE_ADDRESS cost)) ;;
       addActivity "System" "Executing renewal..." "system" ;;
       ask_string (SendTx (RenewDeal i days) gp None) ;;
       ask_unit (WaitTx (RenewDeal i days)) ;;
       showNotification "success" "Deal Renewed!"
         ("Deal #" +:+ show_Z i +:+ " extended by " +:+ show_Z days +:+ " days.") ;;
       addActivity "User" ("Renewed Deal #" +:+ show_Z i) "user" ;;
       checkExpirations ;;
       spawn (TaskFetchMyDeals tab)) (λ _ _, True)).
    { intros Hrest p Hn. apply Hrest. by exists new. }
    intros gp. keeping. apply yields_waited; [eauto with page|]. intros ?. cbv beta. keeping.
    apply yields_seq; [|intros ?; finishing].
    intros p Hp. apply since_tx; [eauto with page| |done]. intros l [[_ Hd] Hm]. by exists deal.
  Qed.

Lemma preserves_withdrawEarnings I : WalletStable I → preserves I withdrawEarnings.
Proof using.
    intros HI. unfold withdrawEarnings, withdraw_failed. page_preserve.
    apply preserves_submit; [done|page_preserve|]. intros p t p' [= <- _] q gp gl Hq. by apply ui_call.
  Qed.

Lemma preserves_submitProof I i : WalletStable I → preserves I (submitProof i).
Proof using. intros HI. unfold submitProof. page_preserve. Qed.

Lemma preserves_cancelDeal I b d e : WalletStable I → preserves I (cancelDeal b d e).
Proof using. intros HI. unfold cancelDeal. page_preserve. Qed.
End Funded.
