(* ===== verification/Dashboard.v ===== *)
(** The dashboard as a whole (dashboard/app.js): the events a user, a timer, the
    wallet or a socket can cause, the handler each one runs, and what every sequence
    of them keeps true. *)

From S2P Require Import Prelude JsNum JsFormat World Page Notices NodeStatus Governance Wallet Transactions.

Local Open Scope Z_scope.

Inductive event : Type :=
| Load | ToggleNotifications | MarkRead (id : Z) | ClearAll | ExpirationTimer
| SaveSettings | ToggleTheme | ToggleSidebar | ToggleProfileMenu | ToggleSidebarMenu | RefreshStatus
| SetOnline (b : bool)
| Connect | WalletCheck (retries : nat) | AccountsChanged (accounts : list string)
| AppKitChanged (address : option string) (isConnected hasProvider : bool) (selected : option string)
| Disconnect | RunTask (k : nat)
| SwitchView (viewId : string) | EditProfile | SaveProfile
| Stake | RegisterNode | UpgradePledge | ExitPledge (i : Z) | ConfirmExit (i : Z)
| SubmitDeal | Renew (tab : string) (i days : Z) | Withdraw | SubmitProof (i : Z)
| Cancel (confirmed : bool) (dealId btn : string)
| OpenProposal | CloseProposal | NewProposal | VoteClick (id : Z) (v : vote)
| VoteMined (id : Z) (v : vote) | VoteRejected (id : Z) (e : js_error) (btn : option string) (html : string).

Section Events.
  Context `{Outside}.

(** The redirect after disconnecting leaves the page. *)
Definition redirect : M page unit :=
    path ← gets pg_pathname;
    origin ← gets pg_origin;
    if includes "/dashboard" path then ask_unit (WindowOpen (origin +:+ "/")) else ask_unit Reload.

(** The tables of deals and the profile page are in [Tables]; [Views] runs them
      together with the events of this file. *)
Definition run_task (t : task) : M page unit :=
    match t with
    | FinishInit a s => finish_init a s
    | TaskCheckProviderStatus => checkProviderStatus
    | TaskFetchEarnings => fetchEarnings
    | TaskDetectRegion => detectRegion
    | TaskSwitchView v => switchView v
    | TaskReload => redirect
    | TaskFetchDeals | TaskFetchMyDeals _ | TaskRenderProfile => mret tt
    end.

(** The [k]-th waiting task runs, in whatever order answers arrive. *)
Definition run_nth_task (k : nat) : M page unit :=
    ts ← gets pg_tasks;
    match ts !! k with
    | Some t => modify (λ p, with_tasks p (delete k (pg_tasks p))) ;; run_task t
    | None => mret tt
    end.

Definition handle (ev : event) : M page unit :=
    match ev with
    | Load => loadSavedTheme ;; loadSettings ;; updateProtocolInfo
    | ToggleNotifications => toggleNotificationDropdown
    | MarkRead id => markAsRead id
    | ClearAll => clearNotifications
    | ExpirationTimer => checkExpirations
    | SaveSettings => saveSettings
    | ToggleTheme => toggleTheme
    | ToggleSidebar => toggleSidebar
    | ToggleProfileMenu => toggleProfileDropdown
    | ToggleSidebarMenu => toggleSidebarDropdown
    | RefreshStatus => checkProviderStatus
    | SetOnline b => setOnlineStatus b
    | Connect => connectWallet
    | WalletCheck n => checkWalletConnection n ;; mret tt
    | AccountsChanged l => accountsChanged l
    | AppKitChanged a b c d => appkit_changed a b c d
    | Disconnect => disconnectWallet
    | RunTask k => run_nth_task k
    | SwitchView v => switchView v
    | EditProfile => handleEditProfile
    | SaveProfile => handleSaveProfile
    | Stake => handleStake
    | RegisterNode => handleRegisterNode
    | UpgradePledge => handleUpgradePledge
    | ExitPledge i => handleExitPledge i
    | ConfirmExit i => exit_confirmed i
    | SubmitDeal => handleCreateDeal
    | Renew tab i d => handleRenewDeal tab i d
    | Withdraw => withdrawEarnings
    | SubmitProof i => submitProof i
    | Cancel b d e => cancelDeal b d e
    | OpenProposal => openProposalModal
    | CloseProposal => closeProposalModal
    | NewProposal => handleCreateProposal
    | VoteClick id v => vote_begin id v ;; mret tt
    | VoteMined id v => vote_end id v
    | VoteRejected id e btn html => vote_failed e ;; vote_cleanup id btn html
    end.

(** A rejected promise ends its handler, not the page. *)
Fixpoint run_events (evs : list event) (p : page) : page :=
    match evs with
    | [] => p
    | ev :: evs' => run_events evs' (snd (handle ev p))
    end.
End Events.

(** * Funding, event by event *)

(** Handlers other than the four that spend keep any invariant of the page that
    tolerates changes of proposals and removal of tasks. *)
Class PageStable (I : page → Prop) : Prop := {
  ps_wallet :: WalletStable I;
  ps_delete : ∀ p k, I p → I (with_tasks p (delete k (pg_tasks p)));
  ps_proposal : ∀ p a b, I p → I (with_proposals p
    (Proposal (Z.of_nat (length (pg_proposals p)) + 1) a b 0 0 "active" None :: pg_proposals p));
  ps_vote : ∀ p id v, I p → I (with_proposals p (update_proposal id (count_vote v) (pg_proposals p)))
}.

Definition spending (ev : event) : bool :=
  match ev with RegisterNode | UpgradePledge | SubmitDeal | Renew _ _ _ => true | _ => false end.

(** An initialisation in the queue has an account. *)
Definition named_tasks (p : page) : Prop := Forall (λ t, named t = true) (pg_tasks p).

Section EventFrame.
  Context `{Outside} (I : page → Prop) `{!PageStable I}.

Lemma preserves_handleCreateProposal : preserves I handleCreateProposal.
Proof using PageStable0. unfold handleCreateProposal. page_preserve. by apply ps_proposal. Qed.
Lemma preserves_vote_end id v : preserves I (vote_end id v).
Proof using PageStable0. unfold vote_end. page_preserve. by apply ps_vote. Qed.
Lemma preserves_run_task t : named t = true → preserves I (run_task t).
Proof using PageStable0.
    intros Ht. unfold run_task, redirect. destruct t; page_preserve. apply preserves_finish_init; [apply _|done].
  Qed.

Lemma preserves_run_nth_task k p : named_tasks p → I p → I (snd (run_nth_task k p)).
Proof using PageStable0.
    intros Hn Hp. unfold run_nth_task. rewrite (bind_ok (gets pg_tasks) _ p _ p eq_refl).
    destruct (pg_tasks p !! k) as [t|] eqn:E; [|done].
    rewrite (bind_ok _ _ p tt (with_tasks p (delete k (pg_tasks p))) eq_refl).
    apply preserves_run_task; [|by apply ps_delete]. unfold named_tasks in Hn. rewrite Forall_forall in Hn.
    apply Hn. by eapply list_elem_of_lookup_2.
  Qed.

  Hint Resolve preserves_handleCreateProposal preserves_vote_end : page.
Lemma preserves_handle ev p : spending ev = false → named_tasks p → I p → I (snd (handle ev p)).
Proof using PageStable0.
    intros Hs Hn. destruct ev; try discriminate Hs; simpl handle;
      try (apply preserves_run_nth_task; exact Hn); revert p Hn; intros p _; revert p.
    all: match goal with |- ∀ p, I p → I (snd (?m p)) => change (preserves I m) end.
    all: unfold toggleNotificationDropdown, updateProtocolInfo, toggleProfileDropdown, toggleSidebarDropdown,
      toggleSidebar, openProposalModal.
    all: first [ solve [page_preserve]
               | apply preserves_handleStake, _ | apply preserves_handleExitPledge, _
               | apply preserves_exit_confirmed, _ | apply preserves_withdrawEarnings, _
               | apply preserves_submitProof, _ | apply preserves_cancelDeal, _ ].
  Qed.
End EventFrame.

(** ** The handlers that spend, for invariants that ignore all calls but posts *)

Class CallStable (I : page → Prop) : Prop := 
  cs_call : ∀ p c, posts c = false → I p → I (with_calls p (c :: pg_calls p)).

Section SpendingFrame.
  Context `{Outside} (I : page → Prop) `{!PageStable I, !CallStable I}.

Lemma preserves_any_submit encode : preserves I encode → preserves I (submit encode).
Proof using PageStable0 CallStable0.
    intros He. apply preserves_submit; [apply _|done|]. intros. by apply cs_call.
  Qed.
Lemma preserves_any_call {A} (answer : list call → outcome A) c : posts c = false → preserves I (ask answer c).
Proof using CallStable0. intros Hc p Hp. by apply cs_call. Qed.
Lemma preserves_any_send c : posts c = false → preserves I (ask_string c).
Proof using CallStable0. apply preserves_any_call. Qed.
  Hint Extern 1 (posts _ = false) => reflexivity : page.
  Hint Resolve preserves_any_submit preserves_any_send : page.
  Hint Extern 5 (preserves _ (submit _)) => apply preserves_any_submit : page.

Lemma preserves_ensure_allowance a b c d e f g h i j : preserves I (ensure_allowance a b c d e f g h i j).
Proof using PageStable0 CallStable0.
    unfold ensure_allowance. page_preserve; apply preserves_any_submit; page_preserve.
  Qed.
  Hint Resolve preserves_ensure_allowance : page.

Lemma preserves_spending ev : spending ev = true → preserves I (handle ev).
Proof using PageStable0 CallStable0.
    intros Hs. destruct ev; try discriminate Hs; simpl handle.
    - unfold handleRegisterNode, register_in_registry, pledge_node, register_failed.
      page_preserve; apply preserves_any_submit; page_preserve.
    - unfold handleUpgradePledge, upgrade_body. page_preserve; apply preserves_any_submit; page_preserve.
    - unfold handleCreateDeal, create_deal_body, approve_deal, select_providers, encode_deal, submit_porep.
      page_preserve; apply preserves_any_submit; page_preserve.
    - unfold handleRenewDeal. page_preserve.
  Qed.

Lemma preserves_event ev p : named_tasks p → I p → I (snd (handle ev p)).
Proof using PageStable0 CallStable0.
    intros Hn Hp. destruct (spending ev) eqn:E; [by apply preserves_spending|by apply preserves_handle].
  Qed.
End SpendingFrame.

(** * What every sequence of events keeps *)

Definition page_ok (p : page) : Prop :=
  session_ok p ∧ bounded_lists p ∧ numbered (pg_proposals p).

Lemma numbered_cons ps a b :
  numbered ps → numbered (Proposal (Z.of_nat (length ps) + 1) a b 0 0 "active" None :: ps).
Proof.
  unfold numbered, ids. intros Hn. cbn [map length prop_id]. rewrite Hn.
  replace (Z.of_nat (S (length ps))) with (Z.of_nat (length ps) + 1) by lia.
  rewrite (seqZ_app 1 (Z.of_nat (length ps)) 1) by lia.
  change (seqZ (1 + Z.of_nat (length ps)) 1) with [0 + (1 + Z.of_nat (length ps))].
  replace (0 + (1 + Z.of_nat (length ps))) with (Z.of_nat (length ps) + 1) by lia.
  apply Permutation_cons_append.
Qed.

Lemma length_update_proposal id f ps : length (update_proposal id f ps) = length ps.
Proof. induction ps as [|q ps IH]; simpl; [done|]. destruct (_ =? _); simpl; by rewrite ?IH. Qed.

Lemma numbered_update id v ps : numbered ps → numbered (update_proposal id (count_vote v) ps).
Proof.
  unfold numbered. rewrite ids_update_proposal by apply prop_id_count_vote. by rewrite length_update_proposal.
Qed.

#[global] Instance bounded_lists_stable : WalletStable bounded_lists.
Proof.
  constructor; [constructor|..]; try done; unfold bounded_lists; simpl.
  - intros p u m t [? ?]. split; [done|by apply feed_prepend_ok].
  - intros p n [? ?]. split; [by apply length_push_bounded|done].
  - intros p id [? ?]. by rewrite length_mark_first.
  - intros p [? ?]. split; [unfold MAX_NOTIFICATIONS; lia|done].
Qed.

#[global] Instance numbered_stable : WalletStable (λ p, numbered (pg_proposals p)).
Proof. by constructor; [constructor|..]. Qed.

(** Stability of a conjunction. *)
#[global] Instance wallet_stable_and I J :
  WalletStable I → WalletStable J → WalletStable (λ p, I p ∧ J p).
Proof.
  intros HI HJ. constructor; [constructor|..]; intros; destruct_and?; split;
    first [by apply ui_dom | by apply ui_storage | by apply ui_listeners | by apply ui_isProvider
          | by apply ui_settings | by apply ui_toast | by apply ui_alerts | by apply ui_spawn
          | by apply ui_feed | by apply ui_push | by apply ui_mark | by apply ui_clear
          | by apply ui_call | by apply ws_reset | by apply ws_set | by apply ws_address].
Qed.

#[global] Instance page_ok_stable : PageStable page_ok.
Proof.
  unfold page_ok. constructor.
  - apply _.
  - intros p k ((? & ? & Ht) & Hb & Hn). split; [|done]. split; [done|]. split; [done|].
    simpl. by apply Forall_delete.
  - intros p a b (Hs & Hb & Hn). split; [done|]. split; [done|]. by apply numbered_cons.
  - intros p id v (Hs & Hb & Hn). split; [done|]. split; [done|]. by apply numbered_update.
Qed.

#[global] Instance page_ok_calls : CallStable page_ok.
Proof. by intros p c _ (? & ? & ?). Qed.

(** Whatever the user, the timers, the wallet, the contracts and the API do: the
    signer and the provider are set together and only with an account, every
    wallet initialisation in progress has an account, there are at most ten
    notifications and fifty-two feed entries, and the proposals carry the ids one to
    their number, each once. *)
Theorem dashboard_invariant `{Outside} evs p (Hp : page_ok p) : page_ok (run_events evs p).
Proof.
  revert p Hp. induction evs as [|ev evs IH]; intros p Hp; simpl; [done|]. apply IH.
  apply preserves_event; [apply _|apply _| |done]. by destruct Hp as ((_ & _ & Ht) & _).
Qed.

Lemma dashboard_invariant_witness :
  page_ok (@run_events accounts_known
    [Connect; RunTask 0; VoteClick 1 For; VoteClick 1 Against; VoteMined 1 For; VoteMined 1 Against; Disconnect]
    (with_proposals fresh_page initial_proposals)).
Proof.
  apply (@dashboard_invariant accounts_known). split; [|split].
  - split; [reflexivity|]. split; [discriminate|constructor].
  - split; [simpl; unfold MAX_NOTIFICATIONS; lia|exact feed_markup_ok].
  - exact (Permutation_refl [1; 2]).
Defined.

(** * Spending *)

#[global] Instance since_page_stable `{Outside} old : PageStable (since old (λ _, True)).
Proof. by constructor; [apply _|..]. Qed.

Lemma handle_funded `{Outside} ev p :
  named_tasks p → since (pg_calls p) (λ _, True) (snd (handle ev p)).
Proof.
  intros Hn. assert (Hp : since (pg_calls p) (λ _, True) p) by (exists []; split; [done|]; split; [constructor|done]).
  destruct (spending ev) eqn:E; [|by apply preserves_handle; [apply _|..]].
  assert (Hy : yields (pg_calls p) (λ _, True) (handle ev) (λ _ _, True)).
  { destruct ev; try discriminate E; simpl handle; [apply handleRegisterNode_funded|
      apply handleUpgradePledge_funded|apply handleCreateDeal_funded|apply handleRenewDeal_funded]. }
  specialize (Hy p Hp). by destruct (handle ev p) as [[[]|e] p'].
Qed.

(** C5. No handler sends a transaction that lets a contract take the user's tokens
    unless, in the same run of the handler, the page has seen an allowance that
    covers it or an approval of exactly the computed amount has been mined: a
    pledge is sent after its collateral, a deal after its cost at the price the
    marketplace reported, a renewal after the cost of the deal read from the
    chain. *)
Theorem nothing_spent_unapproved `{Outside} ev p (Hp : named_tasks p) :
  ∃ new, pg_calls (snd (handle ev p)) = new ++ pg_calls p ∧ funded (pg_calls p) new.
Proof. destruct (handle_funded ev p Hp) as (new & ? & ? & _). by exists new. Qed.

Lemma funded_backing `{Outside} old t gp gl later earlier :
  spends t = true → funded old (later ++ SendTx t gp gl :: earlier) → backing old t earlier.
Proof.
  intros Ht. induction later as [|c later IH]; simpl; intros Hf; inversion Hf; subst; auto.
  simpl in *. by rewrite Ht in *.
Qed.

(** C22. When the dashboard sends a createDeal transaction, an approval has been mined
    in the same run that covers what the contract will take at the price it
    reported, provided the price is a multiple of a hundredth of a cent (the step of
    the form's price field is a tenth of a cent) and the contract's fee, which its
    owner can set, is at most the 300 basis points the dashboard computes with. *)
Theorem created_deal_is_covered `{Outside} p params gp gl later earlier bps
    (Hkyn : ∀ l k, answer_Z (KynPriceUSD :: l) = Ok k → 0 ≤ k)
    (Hsent : pg_calls (snd (handle SubmitDeal p))
             = later ++ SendTx (CreateDeal params) gp gl :: earlier ++ pg_calls p)
    (Hstep : (100 | dp_pricePerGBMonthUSD params)) (Hfee : bps ≤ 300) :
  ∃ kyn amount, priced (pg_calls p) kyn earlier ∧
    mined (pg_calls p) (Approve STORAGE_MARKETPLACE_ADDRESS amount) earlier ∧
    contract_charge bps (dp_fileSizeGB params) (dp_pricePerGBMonthUSD params) (dp_durationDays params) kyn ≤ amount.
Proof.
  change (handle SubmitDeal p) with (handleCreateDeal p) in Hsent.
  assert (Hy := handleCreateDeal_funded (pg_calls p) p).
  assert (Hs : since (pg_calls p) (λ _, True) (snd (handleCreateDeal p))).
  { assert (Hp : since (pg_calls p) (λ _, True) p) by (exists []; split; [done|]; split; [constructor|done]).
    specialize (Hy Hp). by destruct (handleCreateDeal p) as [[[]|e] p']. }
  destruct Hs as (new & Hn & Hf & _). rewrite Hsent in Hn.
  change (later ++ SendTx (CreateDeal params) gp gl :: earlier ++ pg_calls p)
    with (later ++ (SendTx (CreateDeal params) gp gl :: earlier) ++ pg_calls p) in Hn.
  rewrite app_assoc in Hn. apply app_inv_tail in Hn. subst new.
  apply funded_backing in Hf as ((kyn & Hpr & Hk & Hm) & Hsz & Hp & Hd); [|done].
  exists kyn. eexists. split; [done|]. split; [done|].
  apply approval_covers_charge; [done|done|done| |done|done].
  destruct Hpr as (l1 & l2 & _ & Ha). specialize (Hkyn _ _ Ha). lia.
Qed.

(** A chain on which everything succeeds. *)
Definition answers (calls : list call) : outcome Z :=
  match calls with
  | KynPriceUSD :: _ => Ok 100000
  | DealCount :: _ => Ok 7
  | EstimateGas _ :: _ => Ok 200000
  | _ => Ok 30
  end.

Definition working_chain : Outside := {|
  API_URL := "http://localhost:3002";
  answer_Z := answers;
  answer_string := λ _, Ok "0xhash";
  answer_strings := λ _, Ok ["0xa"; "0xb"];
  answer_unit := λ _, Ok tt;
  answer_provider := λ _, Throw (Error "rejected");
  answer_pledge := λ _, Throw (Error "rejected");
  answer_deal := λ _, Throw (Error "rejected");
  answer_http := λ _, Throw (Error "rejected");
  formatUnits := λ _, "0.0";
  ethers_id := λ s, s;
  random_text := λ _, "random";
  createRandom := λ _ n, "0xdummy" +:+ show_Z (Z.of_nat n);
  toLocaleTime := λ _, "12:00"
|}.

Definition deal_form : page :=
  with_wallet (with_dom fresh_page (list_to_map
    [("deal-size", set_value "2.5" blank); ("deal-price", set_value "0.01" blank);
     ("deal-duration", set_value "45" blank); ("file-cid", set_value "QmFile" blank);
     ("deal-alert-days", set_value "" blank); ("#create-deal-form button", set_text "Initiate Deal" blank)]))
    (Some "0xclient") true true.

Definition deal_log : list call := pg_calls (snd (@handleCreateDeal working_chain deal_form)).

Definition sent_deal : deal_params :=
  DealParams "QmFile" 3 45 10000
    ["0xa"; "0xb"; "0xdummy0"; "0xdummy1"; "0xdummy2"; "0xdummy3"; "0xdummy4"; "0xdummy5"; "0xdummy6";
     "0xdummy7"; "0xdummy8"; "0xdummy9"; "0xdummy10"; "0xdummy11"; "0xdummy12"]
    (replicate 15 "QmFile_shard") (replicate 15 308) 3.

Lemma created_deal_is_covered_witness :
  ∃ kyn amount, @priced working_chain [] kyn (drop 7 deal_log) ∧
    @mined working_chain [] (Approve STORAGE_MARKETPLACE_ADDRESS amount) (drop 7 deal_log) ∧
    contract_charge 300 3 10000 45 kyn ≤ amount.
Proof.
  refine (@created_deal_is_covered working_chain deal_form sent_deal (Some 45) (Some 260000)
            (take 6 deal_log) (drop 7 deal_log) 300 _ _ _ _).
  - intros l k [= <-]. lia.
  - vm_compute. reflexivity.
  - exists 100. reflexivity.
  - lia.
Defined.

Lemma nothing_spent_unapproved_witness :
  ∃ new, pg_calls (snd (@handle working_chain SubmitDeal deal_form)) = new ++ [] ∧ @funded working_chain [] new.
Proof. exact (@nothing_spent_unapproved working_chain SubmitDeal deal_form (List.Forall_nil _)). Defined.

(** ** Cancelling *)

(** What runs after the API accepted. *)
Definition after_cancel `{Outside} (dealId : string) : M page unit :=
  addActivity "User" ("Deal " +:+ dealId +:+ " cancelled successfully") "user" ;;
  addNotification "deal" "Deal Cancelled"
    ("Storage deal " +:+ dealId +:+ " has been cancelled and shards are being deleted.") (Some dealId) ;;
  signer ← gets pg_signer;
  (if signer : bool then addActivity "System" "Attempting to cancel deal on-chain..." "system" else mret tt) ;;
  throw (Error "fetchDashboardStats is not defined").

Lemma addActivity_total `{Outside} a b c : total (addActivity a b c).
Proof. unfold addActivity, has_el. totality. Qed.
Lemma addNotification_total `{Outside} a b c d : total (addNotification a b c d).
Proof. unfold addNotification, updateNotificationUI, has_el, when_el, clock. totality. Qed.

Lemma after_cancel_throws `{Outside} dealId q :
  ∃ q', after_cancel dealId q = (Throw (Error "fetchDashboardStats is not defined"), q') ∧
    pg_alerts q' = pg_alerts q.
Proof.
  assert (Hal : preserves (λ r, pg_alerts r = pg_alerts q) (after_cancel dealId)).
  { unfold after_cancel, addActivity, addNotification, updateNotificationUI, has_el, when_el. page_preserve. }
  specialize (Hal q eq_refl). revert Hal. unfold after_cancel.
  destruct (total_unit _ q (addActivity_total "User" ("Deal " +:+ dealId +:+ " cancelled successfully") "user"))
    as [q1 H1]. rewrite (bind_ok _ _ _ _ _ H1).
  match goal with |- context [addNotification ?a ?b ?c ?d] =>
    destruct (total_unit _ q1 (addNotification_total a b c d)) as [q2 H2] end.
  rewrite (bind_ok _ _ _ _ _ H2), (bind_ok (gets pg_signer) _ q2 _ q2 eq_refl).
  destruct (pg_signer q2).
  - destruct (total_unit _ q2 (addActivity_total "System" "Attempting to cancel deal on-chain..." "system"))
      as [q3 H3]. rewrite (bind_ok _ _ _ _ _ H3). intros Hal. eexists. by split.
  - rewrite (bind_ok (mret tt) _ q2 tt q2 eq_refl). intros Hal. eexists. by split.
Qed.

(** A cancellation the API accepts still ends with an alert that it failed: the
    handler's last statement calls fetchDashboardStats, which no script defines. *)
Theorem accepted_cancel_alerts_failure `{Outside} p dealId btn res
    (Hres : answer_http (Fetch "DELETE" (API_URL +:+ "/api/deals/" +:+ dealId) JNull :: pg_calls p) = Ok res)
    (Hok : http_ok res = true) :
  ∃ p', cancelDeal true dealId btn p = (Ok tt, p') ∧
    pg_alerts p' = pg_alerts p ++ ["Failed to cancel deal: fetchDashboardStats is not defined"].
Proof.
  unfold cancelDeal, try_catch. cbv beta iota delta [negb].
  set (p1 := with_dom p (alter (λ e, set_disabled true (set_html "<i></i> Canceling..." e)) btn (pg_dom p))).
  rewrite (bind_ok (when_el _ _) _ p tt p1 eq_refl), (bind_ok _ _ p1 _ _ (ask_ok answer_http _ p1 res Hres)), Hok.
  set (p2 := with_calls p1 _). rewrite (bind_ok (mret tt) _ p2 tt p2 eq_refl).
  destruct (after_cancel_throws dealId p2) as (q' & Hq & Hal). unfold after_cancel in Hq. rewrite Hq.
  eexists. split; [reflexivity|]. simpl. by rewrite Hal.
Qed.

Definition accepting_api : Outside := {|
  API_URL := "http://localhost:3002";
  answer_Z := λ _, Throw (Error "rejected");
  answer_string := λ _, Throw (Error "rejected");
  answer_strings := λ _, Throw (Error "rejected");
  answer_unit := λ _, Throw (Error "rejected");
  answer_provider := λ _, Throw (Error "rejected");
  answer_pledge := λ _, Throw (Error "rejected");
  answer_deal := λ _, Throw (Error "rejected");
  answer_http := λ _, Ok (HttpResponse true 200 (Ok JNull));
  formatUnits := λ _, "0.0";
  ethers_id := λ s, s;
  random_text := λ _, "random";
  createRandom := λ _ _, "0xdummy";
  toLocaleTime := λ _, "12:00"
|}.

Lemma accepted_cancel_alerts_failure_witness :
  ∃ p', @cancelDeal accepting_api true "D-1" "btn" fresh_page = (Ok tt, p') ∧
    pg_alerts p' = ["Failed to cancel deal: fetchDashboardStats is not defined"].
Proof.
  exact (@accepted_cancel_alerts_failure accepting_api fresh_page "D-1" "btn"
           (HttpResponse true 200 (Ok JNull)) eq_refl eq_refl).
Defined.
