(* ===== verification/Vault.v ===== *)
(** The storage vault of a provider
    (src/incentive-layer/provider-stack/public-repo/src/storage-vault.ts).

    The state is the part of the file system the manager touches: the vault
    directory, the image file with its size, the IPFS data directory, the metadata
    file and the open descriptors.  Every system call may fail, on a schedule, like
    the calls of the services; the answers of [df], [du] and [statfs] are the
    host's. *)

From S2P Require Import Prelude JsNum JsFormat.

Local Open Scope Z_scope.

(** * State *)

Record disk : Type := Disk {
  dk_dir : bool;                        (* vaultPath exists *)
  dk_img : option Z;                    (* size in bytes of vault.img *)
  dk_data : bool;                       (* ipfs-data exists *)
  dk_metadata : option (option Z);      (* capacityGB in vault-metadata.json; null for NaN *)
  dk_fds : nat;                         (* open descriptors *)
  dk_faults : list (option js_error)    (* outcome of the next system calls; [] = all succeed *)
}.

Definition with_dir b d := Disk b (dk_img d) (dk_data d) (dk_metadata d) (dk_fds d) (dk_faults d).
Definition with_img s d := Disk (dk_dir d) s (dk_data d) (dk_metadata d) (dk_fds d) (dk_faults d).
Definition with_data b d := Disk (dk_dir d) (dk_img d) b (dk_metadata d) (dk_fds d) (dk_faults d).
Definition with_metadata m d := Disk (dk_dir d) (dk_img d) (dk_data d) m (dk_fds d) (dk_faults d).
Definition with_fds n d := Disk (dk_dir d) (dk_img d) (dk_data d) (dk_metadata d) n (dk_faults d).
Definition with_dk_faults fs d := Disk (dk_dir d) (dk_img d) (dk_data d) (dk_metadata d) (dk_fds d) fs.

(** An entry of a directory; [None] where [readdirSync] or [statSync] fails. *)
Inductive dir_entry : Type :=
| EDirectory (entries : option (list dir_entry))
| EFile (blocks : option Z)
| EOther.

(** What the host answers: the output of the two shell pipelines, [statfs] as
    (bavail, bsize), and the contents of the data directory. *)
Class Host : Type := {
  df_output : disk → outcome string;
  du_output : disk → outcome string;
  statfs : disk → outcome (Z * Z);
  data_entries : disk → option (list dir_entry)
}.

(** One system call. *)
Definition sys : M disk unit := λ d,
  match dk_faults d with
  | Some e :: fs => (Throw e, with_dk_faults fs d)
  | None :: fs => (Ok tt, with_dk_faults fs d)
  | [] => (Ok tt, d)
  end.

Definition answered {A} (q : disk → outcome A) : M disk A := λ d, (q d, d).

(** 1024 * 1024 * 1024 *)
Definition GIB : Z := 1073741824.

(** [Math.round(bytes / GIB)]: dividing a double by a power of two is exact, so
    this is the rounding of the exact quotient (sizes stay below 2^53). *)
Definition round_gb (bytes : Z) : Z := (2 * bytes + GIB) / (2 * GIB).

(** * StorageVaultManager *)

Record VaultConfig : Type := Config {
  capacityGB : option Z;      (* the result of parseInt; [None] is NaN *)
  vaultPath : string
}.

Record VaultStatus : Type := Status {
  vs_exists : bool;
  vs_capacityGB : num;
  vs_usedGB : num;
  vs_availableGB : num;
  vs_percentUsed : num;
  vs_vaultPath : string
}.

(** Comparisons with NaN are false. *)
Definition gt_gb (a : option Z) (b : Z) : bool := match a with Some z => b <? z | None => false end.
Definition lt_gb (a : option Z) (b : Z) : bool := match a with Some z => z <? b | None => false end.

Definition num_of_int (x : option Z) : num := match x with Some z => num_of_Z z | None => num_nan end.

(** [s.replace('G', '')]: the first occurrence. *)
Fixpoint remove_first_G (s : string) : string :=
  match s with
  | EmptyString => EmptyString
  | String c s' => if char_is 71 c then s' else String c (remove_first_G s')
  end.

Definition MAX_SAFE_INTEGER : Z := 2 ^ 53 - 1.

Section Manager.
  Context `{Host} (config : VaultConfig).

(** [BigInt(this.capacityGB) * BigInt(GIB)] *)
Definition size_bytes : M disk Z :=
  match capacityGB config with
  | Some gb => mret (gb * GIB)
  | None => throw (Error "The number NaN cannot be converted to a BigInt because it is not an integer")
  end.

Definition extendVaultFile : M disk unit :=
  size ← size_bytes;
  sys ;; modify (with_img (Some size)).

(** [openSync(file, 'w')] empties the file; writing one byte at [pos] extends it. *)
Definition open_w : M disk unit :=
  sys ;; modify (λ d, with_fds (S (dk_fds d)) (with_img (Some 0) d)).
Definition write_byte (pos : Z) : M disk unit :=
  sys ;; modify (λ d, with_img (Some (Z.max (default 0 (dk_img d)) (pos + 1))) d).
Definition close_fd : M disk unit :=
  modify (λ d, with_fds (pred (dk_fds d)) d) ;; sys.

Definition createSparseFile : M disk unit :=
  size ← size_bytes;
  open_w ;;
  try_finally (write_byte (size - 1)) close_fd.

Definition getAvailableDiskSpace : M disk Z :=
  try_catch
    (out ← answered df_output;
     mret (default 0 (parseInt (remove_first_G (trim out)))))
    (λ error,
       try_catch
         ('(bavail, bsize) ← answered statfs; mret (bavail * bsize / GIB))
         (λ _, mret MAX_SAFE_INTEGER)).

Definition writeMetadata : M disk unit :=
  sys ;; modify (with_metadata (Some (capacityGB config))).

Definition ensureVaultExists : M disk bool :=
  try_catch
    (dir ← gets dk_dir;
     (if dir : bool then mret tt else sys ;; modify (with_dir true)) ;;
     img ← gets dk_img;
     ready ← match img with
             | Some size =>
                 sys ;;
                 (if gt_gb (capacityGB config) (round_gb size) then extendVaultFile else mret tt) ;;
                 mret true
             | None =>
                 available ← getAvailableDiskSpace;
                 if gt_gb (capacityGB config) available then mret false
                 else createSparseFile ;; mret true
             end;
     if negb ready then mret false else
     data ← gets dk_data;
     (if data : bool then mret tt else sys ;; modify (with_data true)) ;;
     writeMetadata ;;
     mret true)
    (λ error, mret false).

(** The fallback of the usage report: the sizes of the entries, in bytes, and the
    result of the recursive calls, summed and divided by [GIB]. *)
Fixpoint entry_size (e : dir_entry) : num :=
  let directory_size (es : option (list dir_entry)) : num :=
    let total := match es with
                 | Some es => foldl num_add (num_of_Z 0) (map entry_size es)
                 | None => num_of_Z 0
                 end in
    num_div total (num_of_Z GIB) in
  match e with
  | EDirectory es => directory_size es
  | EFile (Some blocks) => num_mul (num_of_Z blocks) (num_of_Z 512)
  | EFile None | EOther => num_of_Z 0
  end.
Definition calculateDirectorySize (es : option (list dir_entry)) : num := entry_size (EDirectory es).

(** [Math.round(x)] as a double *)
Definition math_round (x : num) : num := match num_round x with Some z => num_of_Z z | None => x end.

Definition getVaultStatus : M disk VaultStatus :=
  let capacity := num_of_int (capacityGB config) in
  data ← gets dk_data;
  if negb data then mret (Status false capacity (num_of_Z 0) capacity (num_of_Z 0) (vaultPath config))
  else
    try_catch
      (out ← answered du_output;
       let usedKB := num_of_int (parseInt (trim out)) in
       let hundred := num_of_Z 100 in
       let usedGB := num_div (math_round (num_mul (num_div usedKB (num_of_Z (1024 * 1024))) hundred)) hundred in
       let availableGB := num_div (math_round (num_mul (num_sub capacity usedGB) hundred)) hundred in
       let percent := num_div (math_round (num_mul (num_mul (num_div usedGB capacity) hundred) (num_of_Z 10)))
                              (num_of_Z 10) in
       mret (Status true capacity usedGB availableGB percent (vaultPath config)))
      (λ error,
         es ← gets data_entries;
         let usedGB := calculateDirectorySize es in
         mret (Status true capacity usedGB (num_sub capacity usedGB)
                      (num_mul (num_div usedGB capacity) (num_of_Z 100)) (vaultPath config))).

Definition validateAgainstOnChainPledge (onChainCapacityGB : Z) : bool :=
  negb (lt_gb (capacityGB config) onChainCapacityGB).

Definition hasCapacityFor (fileSizeBytes : Z) : M disk bool :=
  status ← getVaultStatus;
  mret (num_le (num_div (num_of_Z fileSizeBytes) (num_of_Z GIB)) (vs_availableGB status)).
End Manager.

(** [text || dflt] for an environment variable. *)
Definition env_or (v : option string) (dflt : string) : string :=
  if truthy v then default "" v else dflt.

Definition createVaultManagerFromEnv (PLEDGED_CAPACITY_GB KYNETO_VAULT_PATH : option string)
    : option VaultConfig :=
  let capacity := parseInt (env_or PLEDGED_CAPACITY_GB "0") in
  match capacity with
  | Some z => if z <=? 0 then None else Some (Config capacity (env_or KYNETO_VAULT_PATH "/data/kyneto-vault"))
  | None => Some (Config None (env_or KYNETO_VAULT_PATH "/data/kyneto-vault"))
  end.

(** * Correctness *)

Lemma sys_cases d : ∃ r fs, sys d = (r, with_dk_faults fs d).
Proof.
  unfold sys. destruct d as [? ? ? ? ? [|[e|] fs]]; simpl; [|by eexists _, _..].
  by exists (Ok tt), [].
Qed.

Lemma round_gb_exact gb : round_gb (gb * GIB) = gb.
Proof. unfold round_gb, GIB. symmetry. apply Z.div_unique with (r := 1073741824); lia. Qed.

Lemma round_gb_below size gb : round_gb size < gb → size ≤ gb * GIB.
Proof.
  unfold round_gb, GIB. intros Hr. pose proof (Z.div_mod (2 * size + 1073741824) (2 * 1073741824) ltac:(lia)).
  pose proof (Z.mod_pos_bound (2 * size + 1073741824) (2 * 1073741824) ltac:(lia)). lia.
Qed.

(** What a system-call step leaves of the disk, whatever the schedule. *)
Ltac sys_step :=
  match goal with
  | |- context [sys ?d] =>
      let r := fresh "r" in let fs := fresh "fs" in let H := fresh "Hsys" in
      destruct (sys_cases d) as (r & fs & H); rewrite H; clear H; destruct r as [[]|?]; simpl
  end.

Section VaultFacts.
  Context `{Host} (config : VaultConfig).

(** Asking for free space never fails and changes nothing. *)
Lemma available_total d : ∃ a, getAvailableDiskSpace d = (Ok a, d).
Proof.
  unfold getAvailableDiskSpace, answered. running.
  destruct (df_output d) as [out|e]; [by eexists|].
  destruct (statfs d) as [[bavail bsize]|e']; by eexists.
Qed.

(** The image after a run: nothing lost, descriptors closed. *)
Definition kept (d d' : disk) : Prop :=
  dk_fds d' = dk_fds d ∧
  ∀ size, dk_img d = Some size → ∃ size', dk_img d' = Some size' ∧ size ≤ size'.

(** The vault is ready for [gb]: the image has the size, the directory and the
    metadata are in place. *)
Definition vault_ready (gb : Z) (d : disk) : Prop :=
  dk_data d = true ∧ dk_metadata d = Some (Some gb) ∧
  ∃ size, dk_img d = Some size ∧ gb ≤ round_gb size.

Lemma kept_refl d d' : dk_fds d' = dk_fds d → dk_img d' = dk_img d → kept d d'.
Proof. intros Hf Hi. split; [done|]. intros size Hs. exists size. rewrite Hi. split; [done|lia]. Qed.

(** The end of a run, once the image is there. *)
Definition finish_vault : M disk bool :=
  data ← gets dk_data;
  (if data : bool then mret tt else sys ;; modify (with_data true)) ;;
  writeMetadata config ;; mret true.

Lemma finish_vault_run d :
  dk_fds (snd (finish_vault d)) = dk_fds d ∧ dk_img (snd (finish_vault d)) = dk_img d ∧
  (∀ b, fst (finish_vault d) = Ok b →
     b = true ∧ dk_data (snd (finish_vault d)) = true ∧
     dk_metadata (snd (finish_vault d)) = Some (capacityGB config)).
Proof.
  unfold finish_vault, writeMetadata. running.
  destruct d as [dir img [] meta fds faults]; simpl; repeat (sys_step; try done);
    (split; [done|]; split; [done|]); by intros b [= <-].
Qed.

(** Creating the image. *)
Lemma createSparseFile_run d gb :
  capacityGB config = Some gb →
  dk_fds (snd (createSparseFile config d)) = dk_fds d ∧
  (fst (createSparseFile config d) = Ok tt →
     ∃ size, dk_img (snd (createSparseFile config d)) = Some size ∧ gb * GIB ≤ size).
Proof.
  intros Hgb. unfold createSparseFile, size_bytes, open_w, write_byte, close_fd. rewrite Hgb.
  destruct d as [dir img data meta fds faults]. running. sys_step; [|done].
  repeat (sys_step; try done); (split; [done|]); intros _; eexists; split; try done; lia.
Qed.
End VaultFacts.

Section VaultReady.
  Context `{Host} (config : VaultConfig).

(** The step that checks, extends or creates the image. *)
Definition image_step : M disk bool :=
  img ← gets dk_img;
  match img with
  | Some size =>
      sys ;; (if gt_gb (capacityGB config) (round_gb size) then extendVaultFile config else mret tt) ;;
      mret true
  | None =>
      available ← getAvailableDiskSpace;
      if gt_gb (capacityGB config) available then mret false
      else createSparseFile config ;; mret true
  end.

Lemma ensureVaultExists_split d :
  ensureVaultExists config d =
  try_catch
    ((dir ← gets dk_dir; if dir : bool then mret tt else sys ;; modify (with_dir true)) ;;
     ready ← image_step;
     if negb ready then mret false else finish_vault config) (λ _, mret false) d.
Proof. reflexivity. Qed.

Lemma image_step_run d gb :
  capacityGB config = Some gb →
  kept d (snd (image_step d)) ∧
  (fst (image_step d) = Ok true →
     (∃ size, dk_img (snd (image_step d)) = Some size ∧ gb ≤ round_gb size) ∧
     (dk_img d = None → ∃ a, getAvailableDiskSpace d = (Ok a, d) ∧ gb ≤ a)).
Proof.
  intros Hgb. unfold image_step. rewrite (bind_ok (gets dk_img) _ d _ d eq_refl).
  destruct (dk_img d) as [size|] eqn:Himg.
  - rewrite Hgb. simpl. unfold extendVaultFile, size_bytes. rewrite Hgb.
    destruct (round_gb size <? gb) eqn:Hlt; running; repeat (sys_step; try done).
    + apply Z.ltb_lt in Hlt. split; [split; [done|]|].
      * simpl. rewrite Himg. intros s [= <-]. eexists. split; [done|]. by apply round_gb_below.
      * intros _. split; [|done]. eexists. split; [done|]. rewrite round_gb_exact. lia.
    + split; [by apply kept_refl|done].
    + split; [by apply kept_refl|done].
    + apply Z.ltb_ge in Hlt. split; [by apply kept_refl|]. intros _. split; [|done]. by exists size.
    + split; [by apply kept_refl|done].
  - destruct (available_total d) as [a Ha]. rewrite (bind_ok _ _ _ _ _ Ha), Hgb. simpl.
    destruct (a <? gb) eqn:Hlt; [split; [by apply kept_refl|done]|]. apply Z.ltb_ge in Hlt.
    destruct (createSparseFile_run config d gb Hgb) as [Hf Hs]. running.
    destruct (createSparseFile config d) as [[[]|e] d']; simpl in *;
      (split; [split; [done|]; by rewrite Himg|]); [|done].
    intros _. split; [|by exists a]. destruct (Hs eq_refl) as (size & Hi & Hge). exists size. split; [done|].
    unfold round_gb, GIB in *. apply Z.div_le_lower_bound; lia.
Qed.

(** C38. Setting up the vault never throws, and under every schedule of failing
    system calls it closes its descriptors and never shrinks an existing image; when
    it reports success for [gb] gigabytes the image has at least that size (to the
    nearest gigabyte), the data directory and the metadata are in place, and a new
    image was made only where the host reported enough free space. *)
Theorem vault_setup_correct d gb :
  capacityGB config = Some gb →
  ∃ b, fst (ensureVaultExists config d) = Ok b ∧
    kept d (snd (ensureVaultExists config d)) ∧
    (b = true → vault_ready gb (snd (ensureVaultExists config d)) ∧
       (dk_img d = None → ∃ d1 a, getAvailableDiskSpace d1 = (Ok a, d1) ∧ dk_img d1 = None ∧ gb ≤ a)).
Proof.
  intros Hgb. rewrite ensureVaultExists_split.
  set (mkdir := (dir ← gets dk_dir; _)).
  assert (Hmk : dk_fds (snd (mkdir d)) = dk_fds d ∧ dk_img (snd (mkdir d)) = dk_img d).
  { unfold mkdir. running. destruct (dk_dir d); [done|]. by repeat sys_step. }
  unfold try_catch. destruct (mkdir d) as [[[]|e] d1] eqn:E1; simpl in Hmk; destruct Hmk as [Hf1 Hi1].
  2: { rewrite (bind_throw _ _ _ _ _ E1). exists false. split; [done|]. split; [by apply kept_refl|done]. }
  rewrite (bind_ok _ _ _ _ _ E1). destruct (image_step_run d1 gb Hgb) as [[Hf2 Hk2] Hok].
  rewrite Hf1 in Hf2. rewrite Hi1 in Hk2, Hok.
  destruct (image_step d1) as [[[]|e] d2] eqn:E2; simpl in *.
  2: { rewrite (bind_ok _ _ _ _ _ E2). by exists false. }
  2: { rewrite (bind_throw _ _ _ _ _ E2). by exists false. }
  rewrite (bind_ok _ _ _ _ _ E2). simpl. destruct (Hok eq_refl) as [Hsize Hsp].
  destruct (finish_vault_run config d2) as (Hf3 & Hi3 & Hfin).
  assert (Hkept : kept d (snd (finish_vault config d2))).
  { split; [congruence|]. intros s Hs. rewrite Hi3. by apply Hk2. }
  destruct (finish_vault config d2) as [[b|e] d3]; simpl in *; [|by exists false].
  exists b. split; [done|]. split; [done|]. intros _. destruct (Hfin b eq_refl) as (_ & Hd & Hm). split.
  - split; [done|]. rewrite Hm, Hgb. split; [done|]. by rewrite Hi3.
  - intros Hnone. destruct (Hsp Hnone) as (a & Ha & Hle). exists d1, a. split; [done|]. split; [congruence|done].
Qed.

(** An existing image is extended without asking for free space: a provider whose
    host has [free] gigabytes left can raise its pledge beyond that. *)
Theorem extension_ignores_free_space d size gb :
  dk_faults d = [] → dk_dir d = true → dk_img d = Some size →
  capacityGB config = Some gb → round_gb size < gb →
  fst (ensureVaultExists config d) = Ok true ∧ dk_img (snd (ensureVaultExists config d)) = Some (gb * GIB).
Proof.
  intros Hfs Hdir Himg Hgb Hlt. apply Z.ltb_lt in Hlt. destruct d as [dir img data meta fds faults].
  simpl in *. subst. unfold ensureVaultExists, extendVaultFile, size_bytes, writeMetadata, sys. running.
  rewrite Hgb. simpl. rewrite Hlt. simpl. by destruct data.
Qed.
End VaultReady.

(** ** A host with 40 gigabytes left *)

Definition demo_host : Host := {|
  df_output := λ _, Ok "40G"; du_output := λ _, Ok "5242880"; statfs := λ _, Throw (Error "ENOSYS");
  data_entries := λ _, Some [] |}.
Definition new_disk : disk := Disk false None false None 0 [].
Definition small_vault : VaultConfig := Config (Some 10) "/data".
Definition large_vault : VaultConfig := Config (Some 4000) "/data".

Lemma vault_setup_correct_witness :
  vault_ready 10 (snd (@ensureVaultExists demo_host small_vault new_disk)).
Proof.
  destruct (@vault_setup_correct demo_host small_vault new_disk 10 eq_refl) as (b & Hb & _ & Hr).
  apply Hr. vm_compute in Hb. by injection Hb.
Defined.

(** Asked for 4000 gigabytes at once the manager refuses; asked for 10 first, it
    then grants 4000. *)
Lemma extension_ignores_free_space_witness :
  fst (@ensureVaultExists demo_host large_vault new_disk) = Ok false ∧
  fst (@ensureVaultExists demo_host large_vault
         (snd (@ensureVaultExists demo_host small_vault new_disk))) = Ok true.
Proof.
  split; [vm_compute; reflexivity|].
  refine (proj1 (@extension_ignores_free_space demo_host large_vault _ (10 * GIB) 4000 _ _ _ _ _)).
  all: vm_compute; reflexivity.
Defined.

(** A capacity that is not a number passes the guard of the environment. *)
Example not_a_number_enables_vault :
  createVaultManagerFromEnv (Some "ten") None = Some (Config None "/data/kyneto-vault").
Proof. reflexivity. Qed.

(** Half a gigabyte in a subdirectory counts as half a byte: the recursive call
    already returns gigabytes. *)
Example nested_files_vanish :
  num_eqb (calculateDirectorySize (Some [EFile (Some 1048576)])) (num_lit 5 1) = true ∧
  num_eqb (num_mul (calculateDirectorySize (Some [EDirectory (Some [EFile (Some 1048576)])])) (num_of_Z GIB))
          (num_lit 5 1) = true.
Proof. split; vm_compute; reflexivity. Qed.
