(* ===== verification/Daemon.v ===== *)
(** The provider daemon
    (src/incentive-layer/provider-stack/public-repo/src/index.ts; EarlierDaemon.v has the
    copy under services/provider-daemon).

    The daemon runs beside a Kubo node and talks to the REST API over HTTP and to
    its relay over a WebSocket.  Its state holds the shared world (the API it calls
    is the model of RestApi.v), the disk of the vault, the pins of its node, and its
    own fields.  Kubo, the API server, the chain and the wallet may fail on every
    call.  A handler that throws out of a socket callback ends the process, since
    nothing handles the rejected promise. *)

From stdpp Require Import gmap.
From S2P Require Import Prelude JsNum World ShardManager RestApi Vault.

Local Open Scope Z_scope.

(** * State *)

(** merkletreejs and keccak256, and the rendering of bytes by ethers. *)
Class Merkle : Type := {
  tree : Type;
  keccak256 : bytes → bytes;
  merkle_tree : list bytes → tree;
  getHexProof : tree → bytes → list string;
  hexlify : bytes → string
}.

(** An event PoStChallengeCreated with the block it is in. *)
Record challenge_event : Type := ChallengeCreated {
  ce_block : Z; ce_challengeId : Z; ce_dealId : Z; ce_provider : string }.

Section DaemonState.
  Context `{Merkle}.

Record daemon : Type := Daemon {
  dm_world : world;                       (* the API server, the network, the chain log *)
  dm_disk : disk;
  dm_pins : gset string;                  (* recursive pins of the Kubo node *)
  merkleTrees : gmap string tree;
  shardData : gmap string (list bytes);
  vaultManager : option VaultConfig;
  vaultStatus : option VaultStatus;
  lastPolledBlock : Z;
  dm_head : Z;                            (* the chain: its head, events and challenge indices *)
  dm_events : list challenge_event;
  dm_indices : Z → list Z;
  relay_out : list (string * json)        (* messages emitted on the relay socket *)
}.

Definition with_world w d := Daemon w (dm_disk d) (dm_pins d) (merkleTrees d) (shardData d) (vaultManager d) (vaultStatus d) (lastPolledBlock d) (dm_head d) (dm_events d) (dm_indices d) (relay_out d).
Definition with_disk x d := Daemon (dm_world d) x (dm_pins d) (merkleTrees d) (shardData d) (vaultManager d) (vaultStatus d) (lastPolledBlock d) (dm_head d) (dm_events d) (dm_indices d) (relay_out d).
Definition with_pins x d := Daemon (dm_world d) (dm_disk d) x (merkleTrees d) (shardData d) (vaultManager d) (vaultStatus d) (lastPolledBlock d) (dm_head d) (dm_events d) (dm_indices d) (relay_out d).
Definition with_trees x d := Daemon (dm_world d) (dm_disk d) (dm_pins d) x (shardData d) (vaultManager d) (vaultStatus d) (lastPolledBlock d) (dm_head d) (dm_events d) (dm_indices d) (relay_out d).
Definition with_sectors x d := Daemon (dm_world d) (dm_disk d) (dm_pins d) (merkleTrees d) x (vaultManager d) (vaultStatus d) (lastPolledBlock d) (dm_head d) (dm_events d) (dm_indices d) (relay_out d).
Definition with_manager x d := Daemon (dm_world d) (dm_disk d) (dm_pins d) (merkleTrees d) (shardData d) x (vaultStatus d) (lastPolledBlock d) (dm_head d) (dm_events d) (dm_indices d) (relay_out d).
Definition with_status x d := Daemon (dm_world d) (dm_disk d) (dm_pins d) (merkleTrees d) (shardData d) (vaultManager d) x (lastPolledBlock d) (dm_head d) (dm_events d) (dm_indices d) (relay_out d).
Definition with_polled x d := Daemon (dm_world d) (dm_disk d) (dm_pins d) (merkleTrees d) (shardData d) (vaultManager d) (vaultStatus d) x (dm_head d) (dm_events d) (dm_indices d) (relay_out d).
Definition with_out x d := Daemon (dm_world d) (dm_disk d) (dm_pins d) (merkleTrees d) (shardData d) (vaultManager d) (vaultStatus d) (lastPolledBlock d) (dm_head d) (dm_events d) (dm_indices d) x.

(** Running a computation on the world, and on the disk. *)
Definition on_world {A} (m : M world A) : M daemon A := λ d,
  match m (dm_world d) with (r, w) => (r, with_world w d) end.
Definition on_disk {A} (m : M disk A) : M daemon A := λ d,
  match m (dm_disk d) with (r, x) => (r, with_disk x d) end.

(** One call to Kubo, the RPC node or the network. *)
Definition call_out : M daemon unit := on_world external.

(** [await axios.get(url)]: axios throws on a status that is not 2xx. *)
Definition http (handler : M world response) : M daemon body :=
  call_out ;;
  r ← on_world handler;
  if (200 <=? r_code r) && (r_code r <? 300) then mret (r_body r)
  else throw (Error ("Request failed with status code " +:+ show_Z (r_code r))).

(** * Sectors and Merkle trees *)

Definition SECTOR_SIZE : nat := 1024.
Definition CHALLENGE_SECTORS : nat := 10.
Definition zero_sector : bytes := buf_alloc SECTOR_SIZE.

(** [for (let i = 0; i < data.length; i += SECTOR_SIZE) sectors.push(data.subarray(...))] *)
Fixpoint sector_loop (fuel : nat) (data : bytes) (i : nat) : list bytes :=
  match fuel with
  | O => []
  | S fuel' =>
      if (i <? length data)%nat then
        subarray data i (Nat.min (i + SECTOR_SIZE) (length data)) :: sector_loop fuel' data (i + SECTOR_SIZE)
      else []
  end.
Definition split_sectors (data : bytes) : list bytes := sector_loop (S (length data)) data 0.

(** The last sector is copied into a zeroed buffer when it is short. *)
Definition pad_last (sectors : list bytes) : list bytes :=
  match last sectors with
  | Some lastSector =>
      if (length lastSector <? SECTOR_SIZE)%nat then
        take (length sectors - 1) sectors ++ [buf_copy lastSector zero_sector 0]
      else sectors
  | None => sectors
  end.

(** [while (sectors.length < 10) sectors.push(Buffer.alloc(SECTOR_SIZE, 0))] *)
Definition fill_sectors (sectors : list bytes) : list bytes :=
  sectors ++ replicate (CHALLENGE_SECTORS - length sectors) zero_sector.

Definition sectors_of (data : bytes) : list bytes := fill_sectors (pad_last (split_sectors data)).

Section Node.
  Context {ipfs : Ipfs}.

Definition buildMerkleTree (cid : string) : M daemon unit :=
  try_catch
    (chunks ← on_world (ipfs_cat cid);
     let sectors := sectors_of (concat chunks) in
     let leaves := map keccak256 sectors in
     modify (λ d, with_trees (<[cid := merkle_tree leaves]> (merkleTrees d)) d) ;;
     modify (λ d, with_sectors (<[cid := sectors]> (shardData d)) d))
    (λ error, mret tt).

(** * Pinning *)

(** Kubo lists the pin of a path, or answers that the path is not pinned. *)
Definition pin_ls (cid : string) : M daemon (list string) :=
  call_out ;;
  pins ← gets dm_pins;
  if bool_decide (cid ∈ pins) then mret [cid]
  else throw (Error ("path '" +:+ cid +:+ "' is not pinned")).

(** Pinning fetches the content. *)
Definition pin_add (cid : string) : M daemon unit :=
  call_out ;;
  blocks ← gets (λ d, w_ipfs (dm_world d));
  match blocks !! cid with
  | Some _ => modify (λ d, with_pins ({[cid]} ∪ dm_pins d) d)
  | None => throw (Error ("pin: " +:+ cid +:+ " not found"))
  end.

Definition pin_rm (cid : string) : M daemon unit :=
  call_out ;;
  pins ← gets dm_pins;
  if bool_decide (cid ∈ pins) then modify (λ d, with_pins (dm_pins d ∖ {[cid]}) d)
  else throw (Error "not pinned or pinned indirectly").

Definition ensurePinned (cid : string) : M daemon unit :=
  try_catch
    (pins ← pin_ls cid;
     (if existsb (λ pin, bool_decide (pin = cid)) pins then mret tt else pin_add cid) ;;
     built ← gets (λ d, bool_decide (is_Some (merkleTrees d !! cid)));
     if built : bool then mret tt else buildMerkleTree cid)
    (λ e, try_catch (pin_add cid ;; buildMerkleTree cid) (λ pinError, mret tt)).

(** Calling the method [decreaseUsedGB], which StorageVaultManager does not have. *)
Definition decreaseUsedGB : M daemon unit :=
  throw (Error "this.vaultManager.decreaseUsedGB is not a function").

Definition refresh_status `{Host} (config : VaultConfig) : M daemon unit :=
  status ← on_disk (getVaultStatus config);
  modify (with_status (Some status)).

Definition unpinAndCleanup `{Host} (cid : string) : M daemon unit :=
  try_catch
    (try_catch (pin_rm cid) (λ unpinErr, mret tt) ;;
     modify (λ d, with_trees (delete cid (merkleTrees d)) d) ;;
     modify (λ d, with_sectors (delete cid (shardData d)) d) ;;
     manager ← gets vaultManager;
     (match manager with
      | Some config => decreaseUsedGB ;; refresh_status config
      | None => mret tt
      end) ;;
     try_catch call_out (λ gcErr, mret tt))
    (λ error, mret tt).
End Node.

(** * Talking to the API *)

Section Api.
  Context {ipfs : Ipfs} `{Host}.
  Context (wallet_address : string) (signMessage : string → string).
  Context (verifyMessage : string → string → option string).

(** [response.data.shards]; [.filter] or [.find] of [undefined] throws. *)
Definition shards_in (b : body) (method : string) : M daemon (list shard_row) :=
  match b with
  | BDeal _ rows => mret (map fst rows)
  | _ => throw (Error ("Cannot read properties of undefined (reading '" +:+ method +:+ "')"))
  end.

Definition mine (s : shard_row) : bool := same_text (s_provider_address s) wallet_address.

Definition cleanupDeletedShards : M daemon unit :=
  try_catch
    (b ← http (getCleanup wallet_address);
     match b with
     | BCleanup _ cleanup_count rows =>
         if (cleanup_count =? 0)%nat then mret tt
         else for_each rows (λ shard, unpinAndCleanup (cl_shard_cid shard))
     | _ => throw (Error "shards is not iterable")
     end)
    (λ error, mret tt).

Definition checkAssignments : M daemon unit :=
  try_catch
    (b ← http (getProvider wallet_address);
     let deals := match b with BProvider _ _ rows => rows | _ => [] end in
     for_each deals (λ deal,
       dealDetail ← http (getDeal (d_deal_id deal));
       all ← shards_in dealDetail "filter";
       for_each (where_ mine all) (λ shard,
         if s_active shard then ensurePinned (s_shard_cid shard) else mret tt)) ;;
     cleanupDeletedShards)
    (λ error, mret tt).

(** The body of the heartbeat request: [storage] only with a vault status. *)
Definition heartbeat_storage (status : option VaultStatus) : option (option num * option num) :=
  (λ s, (Some (vs_capacityGB s), Some (vs_usedGB s))) <$> status.

Definition sendHeartbeat : M daemon unit :=
  try_catch
    (manager ← gets vaultManager;
     (match manager with Some config => refresh_status config | None => mret tt end) ;;
     let signature := signMessage "Kyneto Provider Heartbeat" in
     status ← gets vaultStatus;
     http (postHeartbeat verifyMessage (Some wallet_address) (Some signature) (heartbeat_storage status)) ;;
     mret tt)
    (λ error, mret tt).

(** * Relay events *)

(** A field of a message object; [None] is [undefined]. *)
Definition field (k : string) (j : json) : option json :=
  match j with JObj fields => snd <$> find_first (λ f, bool_decide (fst f = k)) fields | _ => None end.

Definition texts (j : option json) (what : string) : M daemon (list string) :=
  match j with
  | Some (JArr xs) => mret (omap (λ x, match x with JStr s => Some s | _ => None end) xs)
  | _ => throw (Error ("Cannot read properties of undefined (reading '" +:+ what +:+ "')"))
  end.

(** 'connect' *)
Definition onConnect : M daemon unit :=
  modify (λ d, with_out (relay_out d ++ [("register:provider", JObj [("address", JStr wallet_address)])]) d).

(** 'deal:cancelled' *)
Definition onDealCancelled (data : json) : M daemon unit :=
  providerAddresses ← texts (field "providerAddresses" data) "some";
  if existsb (λ addr, same_lower addr wallet_address) providerAddresses then
    shardCIDs ← texts (field "shardCIDs" data) "length";
    for_each shardCIDs unpinAndCleanup
  else mret tt.

(** 'rpc:get-peer-id': the value passed to the callback. *)
Definition onGetPeerId (peerId : string) : M daemon json :=
  try_catch (call_out ;; mret (JObj [("peerId", JStr peerId)]))
            (λ e, mret (JObj [("error", JStr "Failed to get peer ID")])).

(** * Proofs of space-time *)

Context (prover_configured : bool).

(** [index % sectors.length]: ethers 6 returns uint256 values as BigInt, and
    JavaScript refuses to mix a BigInt with a number. *)
Definition big_mod (index : Z) (n : nat) : M daemon nat :=
  throw (Error "Cannot mix BigInt and other types, use explicit conversions").

Definition loaded (cid : string) : M daemon (option (tree * list bytes)) :=
  t ← gets (λ d, merkleTrees d !! cid);
  s ← gets (λ d, shardData d !! cid);
  mret (match t, s with Some t, Some s => Some (t, s) | _, _ => None end).

Definition handlePoStChallenge (challengeId dealId : Z) : M daemon unit :=
  try_catch
    (if negb prover_configured then mret tt else
     response ← http (getDeal (show_Z dealId));
     all ← shards_in response "find";
     match find_first mine all with
     | None => throw (Error ("No shard found for deal " +:+ show_Z dealId +:+ " assigned to this provider"))
     | Some shard =>
         let cid := s_shard_cid shard in
         first ← loaded cid;
         (match first with Some _ => mret tt | None => ensurePinned cid end) ;;
         second ← loaded cid;
         match second with
         | None => throw (Error ("Failed to load Merkle tree for shard " +:+ cid))
         | Some (t, sectors) =>
             call_out ;;
             indices ← gets (λ d, dm_indices d challengeId);
             answers ← map_each indices (λ index,
               k ← big_mod index (length sectors);
               let sector := default [] (sectors !! k) in
               mret (hexlify sector, getHexProof t (keccak256 sector)));
             on_world (send_tx "ProofVerifier" "submitPoSt"
               [JInt challengeId; json_strs (map fst answers); JArr (map (λ a, json_strs (snd a)) answers)])
         end
     end)
    (λ error, mret tt).

Definition pollPoStChallenges : M daemon unit :=
  try_catch
    (if negb prover_configured then mret tt else
     call_out ;;
     currentBlock ← gets dm_head;
     polled ← gets lastPolledBlock;
     if currentBlock <=? polled then mret tt else
     let fromBlock := polled + 1 in
     let toBlock := currentBlock in
     call_out ;;
     events ← gets (λ d, where_ (λ e, (fromBlock <=? ce_block e) && (ce_block e <=? toBlock)) (dm_events d));
     for_each events (λ event,
       if same_lower (ce_provider event) wallet_address
       then handlePoStChallenge (ce_challengeId event) (ce_dealId event)
       else mret tt) ;;
     modify (with_polled toBlock))
    (λ error, mret tt).

(** * Start *)

(** [for (let i = 0; i < 5; i++) try { await ipfs.id(); connected = true; break }] *)
Fixpoint connect_kubo (tries : nat) : M daemon bool :=
  match tries with
  | O => mret false
  | S tries' => try_catch (call_out ;; mret true) (λ e, connect_kubo tries')
  end.

(** [true] when the daemon is up, [false] for [process.exit(1)].  The first runs of
    the three periodic tasks follow in the order they are started; the relay socket
    reports its connection later, with [onConnect]. *)
Definition start (PLEDGED_CAPACITY_GB KYNETO_VAULT_PATH : option string) : M daemon bool :=
  let manager := createVaultManagerFromEnv PLEDGED_CAPACITY_GB KYNETO_VAULT_PATH in
  modify (with_manager manager) ;;
  vault ← match manager with
          | Some config =>
              success ← on_disk (ensureVaultExists config);
              if success : bool then refresh_status config ;; mret true else mret false
          | None => mret true
          end;
  if negb vault then mret false else
  connected ← connect_kubo 5;
  if negb connected then mret false else
  (if prover_configured then
     call_out ;; modify (λ d, with_polled (dm_head d) d) ;; pollPoStChallenges
   else mret tt) ;;
  sendHeartbeat ;;
  checkAssignments ;;
  mret true.
End Api.
End DaemonState.

(** * A daemon to run *)

(** Hashes and trees that keep what they are given. *)
Definition plain_merkle : Merkle := {|
  tree := list bytes; keccak256 := λ b, b; merkle_tree := λ leaves, leaves;
  getHexProof := λ _ _, []; hexlify := String.string_of_list_byte |}.

Definition fresh_daemon (w : world) : @daemon plain_merkle :=
  @Daemon plain_merkle w new_disk ∅ ∅ ∅ None None 0 0 [] (λ _, []) [].
