(* ===== verification/Sectors.v ===== *)
(** What the provider daemon keeps of a shard: the theorems about its sectors and
    its in-memory tables, under every schedule of failures. *)

From stdpp Require Import gmap.
From S2P Require Import Prelude JsNum World ShardManager RestApi Vault Daemon.

Local Open Scope nat_scope.

(** * Cutting a shard into sectors *)

(** All pieces are full sectors but the last, which is not empty. *)
Definition cut (ss : list bytes) : Prop :=
  ss = [] ∨ ∃ full rest, ss = full ++ [rest] ∧ Forall (λ s, length s = SECTOR_SIZE) full ∧
                         0 < length rest ≤ SECTOR_SIZE.

Lemma cut_cons s ss : length s = SECTOR_SIZE → cut ss → cut (s :: ss).
Proof.
  intros Hs [->|(full & rest & -> & Hf & Hr)].
  - right. exists [], s. split; [done|]. split; [constructor|]. rewrite Hs. unfold SECTOR_SIZE. lia.
  - right. exists (s :: full), rest. split; [done|]. split; [by constructor|done].
Qed.

(** With fuel for the bytes that are left, the loop runs to its end: its pieces
    are all of [data] from [i] on. *)
Lemma sector_loop_spec fuel data : ∀ i,
  length data - i < fuel →
  concat (sector_loop fuel data i) = drop i data ∧ cut (sector_loop fuel data i).
Proof.
  induction fuel as [|fuel IH]; intros i Hf; [lia|]. simpl.
  destruct (i <? length data) eqn:Hi.
  2: { apply Nat.ltb_ge in Hi. split; [by rewrite drop_ge|by left]. }
  apply Nat.ltb_lt in Hi. unfold SECTOR_SIZE in *.
  destruct (IH (i + 1024)) as [Hc Hcut]; [lia|]. set (e := Nat.min _ _).
  assert (Hlen : length (subarray data i e) = e - i) by (apply length_subarray; lia).
  split.
  - simpl. rewrite Hc. unfold subarray. destruct (Nat.le_gt_cases (i + 1024) (length data)) as [Hle|Hgt].
    + replace (e - i) with 1024 by lia. rewrite <- drop_drop. apply take_drop.
    + rewrite (drop_ge data (i + 1024)), app_nil_r by lia. apply take_ge. rewrite length_drop. lia.
  - destruct (Nat.le_gt_cases (i + 1024) (length data)) as [Hle|Hgt].
    + apply cut_cons; [unfold SECTOR_SIZE; lia|done].
    + assert (Hnil : sector_loop fuel data (i + 1024) = []).
      { destruct fuel; [done|]. simpl. by rewrite (proj2 (Nat.ltb_ge _ _)) by lia. }
      rewrite Hnil. right. exists [], (subarray data i e). split; [done|]. split; [constructor|].
      unfold SECTOR_SIZE. lia.
Qed.

Lemma pad_last_spec ss :
  cut ss → Forall (λ s, length s = SECTOR_SIZE) (pad_last ss) ∧
  length (pad_last ss) = length ss ∧ ∃ k, concat (pad_last ss) = concat ss ++ buf_alloc k.
Proof.
  intros [->|(full & rest & -> & Hf & Hr)]; unfold pad_last.
  { simpl. split_and!; [constructor|done|by exists 0]. }
  rewrite last_snoc. destruct (length rest <? SECTOR_SIZE) eqn:E.
  - rewrite length_app. replace (length full + length [rest] - 1) with (length full) by (simpl; lia).
    rewrite take_app_length. unfold zero_sector. rewrite buf_copy_prefix by lia. split_and!.
    + apply Forall_app. split; [done|]. constructor; [|constructor].
      unfold buf_alloc. rewrite length_app, length_replicate. lia.
    + rewrite !length_app. done.
    + eexists. rewrite !concat_app. simpl. rewrite !app_nil_r, <- app_assoc. done.
  - apply Nat.ltb_ge in E. split_and!; [|done|exists 0; by rewrite app_nil_r].
    apply Forall_app. split; [done|]. constructor; [lia|constructor].
Qed.

Lemma concat_zero_sectors n : concat (replicate n zero_sector) = buf_alloc (n * SECTOR_SIZE).
Proof.
  induction n as [|n IH]; [done|].
  change (concat (replicate (S n) zero_sector)) with (zero_sector ++ concat (replicate n zero_sector)).
  rewrite IH. unfold zero_sector, buf_alloc. by rewrite <- replicate_add.
Qed.

(** Enough sectors, all full, that hold the data and zeros after it. *)
Definition cover (data : bytes) (ss : list bytes) : Prop :=
  CHALLENGE_SECTORS ≤ length ss ∧ Forall (λ s, length s = SECTOR_SIZE) ss ∧
  (∃ k, concat ss = data ++ buf_alloc k) ∧ length data ≤ length ss * SECTOR_SIZE.

Lemma sectors_of_spec (data : bytes) : cover data (sectors_of data).
Proof.
  destruct (sector_loop_spec (S (length data)) data 0 ltac:(lia)) as [Hc Hcut].
  destruct (pad_last_spec _ Hcut) as (Hall & Hlen & k & Hk).
  rewrite drop_0 in Hc. fold (split_sectors data) in *.
  assert (H1 : Forall (λ s, length s = SECTOR_SIZE) (sectors_of data)).
  { unfold sectors_of, fill_sectors. apply Forall_app. split; [done|]. apply Forall_replicate.
    unfold zero_sector, buf_alloc. by rewrite length_replicate. }
  assert (H2 : ∃ k, concat (sectors_of data) = data ++ buf_alloc k).
  { eexists. unfold sectors_of, fill_sectors. rewrite concat_app, Hk, Hc, concat_zero_sectors, <- app_assoc.
    unfold buf_alloc. rewrite <- replicate_add. done. }
  split_and!; [|done|done|].
  - unfold sectors_of, fill_sectors. rewrite length_app, length_replicate. lia.
  - destruct H2 as [k' Hk']. apply (f_equal length) in Hk'. rewrite length_app in Hk'.
    assert (Hn : length (concat (sectors_of data)) = length (sectors_of data) * SECTOR_SIZE).
    { clear -H1. induction H1 as [|s ss Hs _ IH]; [done|].
      change (length (s ++ concat ss) = S (length ss) * SECTOR_SIZE).
      rewrite length_app, IH, Hs, Nat.mul_succ_l. apply Nat.add_comm. }
    lia.
Qed.

(** Cutting a shard into sectors loses nothing and ends: the sectors are at
    least ten, each of 1024 bytes, and concatenated they are the shard followed by
    zeros. *)
Theorem sectors_cover_shard (data : bytes) : cover data (sectors_of data).
Proof. apply sectors_of_spec. Qed.

(** * The tables of the daemon *)

Section Tables.
  Context `{Merkle} {ipfs : Ipfs} `{Host}.
  Context (wallet_address : string) (signMessage : string → string).
  Context (verifyMessage : string → string → option string) (prover_configured : bool).

(** Invariants that speak of the daemon's own fields only. *)
Class OwnFields (I : daemon → Prop) : Prop := {
  own_world : ∀ w d, I d → I (with_world w d);
  own_disk : ∀ x d, I d → I (with_disk x d);
  own_pins : ∀ x d, I d → I (with_pins x d);
  own_status : ∀ x d, I d → I (with_status x d)
}.

Section Frames.
  Context (I : daemon → Prop) `{!OwnFields I}.

Lemma preserves_on_world {A} (m : M world A) : preserves I (on_world m).
Proof.
  intros d Hd. unfold on_world. destruct (m (dm_world d)) as [r w]. by apply own_world.
Qed.

Lemma preserves_on_disk {A} (m : M disk A) : preserves I (on_disk m).
Proof.
  intros d Hd. unfold on_disk. destruct (m (dm_disk d)) as [r x]. by apply own_disk.
Qed.

Lemma preserves_http m : preserves I (http m).
Proof. unfold http, call_out. preserve; apply preserves_on_world. Qed.

Lemma preserves_pins cid : preserves I (pin_ls cid) ∧ preserves I (pin_add cid) ∧ preserves I (pin_rm cid).
Proof.
  unfold pin_ls, pin_add, pin_rm, call_out.
  split_and!; preserve; try apply preserves_on_world; by apply own_pins.
Qed.

Lemma preserves_shards_in b method : preserves I (shards_in b method).
Proof. unfold shards_in. preserve. Qed.

Lemma preserves_texts j what : preserves I (texts j what).
Proof. unfold texts. preserve. Qed.

Lemma preserves_refresh config : preserves I (refresh_status config).
Proof. unfold refresh_status. preserve; [apply preserves_on_disk|by apply own_status]. Qed.

Lemma preserves_sendHeartbeat :
  preserves I (sendHeartbeat wallet_address signMessage verifyMessage).
Proof. unfold sendHeartbeat. preserve; auto using preserves_refresh, preserves_http. Qed.
End Frames.

(** Both tables have the same shards; the sectors are those of some content, and
    the tree is the tree over their hashes. *)
Definition tables_ok (d : daemon) : Prop :=
  ∀ cid, match merkleTrees d !! cid, shardData d !! cid with
         | Some t, Some ss => t = merkle_tree (map keccak256 ss) ∧ ∃ data, ss = sectors_of data
         | None, None => True
         | _, _ => False
         end.

#[local] Instance tables_own : OwnFields tables_ok.
Proof. by constructor. Qed.

Lemma tables_store cid data :
  preserves tables_ok
    (modify (λ d, with_trees (<[cid := merkle_tree (map keccak256 (sectors_of data))]> (merkleTrees d)) d) ;;
     modify (λ d, with_sectors (<[cid := sectors_of data]> (shardData d)) d)).
Proof.
  intros d Hd c. simpl. destruct (decide (cid = c)) as [->|Hne].
  - rewrite !lookup_insert_eq. split; [done|by eexists].
  - rewrite !lookup_insert_ne by done. apply Hd.
Qed.

Lemma tables_drop {A} cid (k : M daemon A) :
  preserves tables_ok k →
  preserves tables_ok
    (modify (λ d, with_trees (delete cid (merkleTrees d)) d) ;;
     modify (λ d, with_sectors (delete cid (shardData d)) d) ;; k).
Proof.
  intros Hk d Hd. running. apply Hk. intros c. simpl. destruct (decide (cid = c)) as [->|Hne].
  - by rewrite !lookup_delete_eq.
  - rewrite !lookup_delete_ne by done. apply Hd.
Qed.

Lemma tables_build cid : preserves tables_ok (buildMerkleTree cid).
Proof.
  unfold buildMerkleTree. preserve_step; [|preserve]. preserve_step; [apply (preserves_on_world _)|].
  apply tables_store.
Qed.

Lemma tables_ensurePinned cid : preserves tables_ok (ensurePinned cid).
Proof.
  destruct (preserves_pins tables_ok cid) as (Hl & Ha & _).
  unfold ensurePinned. preserve; auto using tables_build.
Qed.

Lemma tables_unpin cid : preserves tables_ok (unpinAndCleanup cid).
Proof.
  destruct (preserves_pins tables_ok cid) as (_ & _ & Hr).
  unfold unpinAndCleanup. preserve_step; [|preserve]. preserve_step; [preserve; auto|].
  apply tables_drop. unfold decreaseUsedGB, call_out.
  preserve; auto using preserves_refresh, preserves_on_world, tables_own.
Qed.

Lemma tables_checkAssignments : preserves tables_ok (checkAssignments wallet_address).
Proof.
  unfold checkAssignments, cleanupDeletedShards.
  preserve; auto using preserves_http, preserves_shards_in, tables_ensurePinned, tables_unpin, tables_own.
Qed.

Lemma tables_poll b : preserves tables_ok (pollPoStChallenges wallet_address b).
Proof.
  unfold pollPoStChallenges, handlePoStChallenge, loaded, big_mod, call_out.
  preserve; auto using preserves_http, preserves_shards_in, tables_ensurePinned, tables_own, preserves_on_world.
Qed.

(** ** The daemon as a transition system *)

Inductive daemon_event : Type :=
| Start (PLEDGED_CAPACITY_GB KYNETO_VAULT_PATH : option string)
| HeartbeatTick | AssignmentsTick | PollTick
| Connected | DealCancelledMessage (data : json) | PeerIdRequest (peerId : string).

Definition dispatch (ev : daemon_event) : M daemon unit :=
  match ev with
  | Start gb path => start wallet_address signMessage verifyMessage prover_configured gb path ;; mret tt
  | HeartbeatTick => sendHeartbeat wallet_address signMessage verifyMessage
  | AssignmentsTick => checkAssignments wallet_address
  | PollTick => pollPoStChallenges wallet_address prover_configured
  | Connected => onConnect wallet_address
  | DealCancelledMessage data => onDealCancelled wallet_address data
  | PeerIdRequest peerId => onGetPeerId peerId ;; mret tt
  end.

(** The environment moves the world, the disk, the node and the chain, never the
    memory of the process. *)
Inductive daemon_step : daemon → daemon → Prop :=
| daemon_dispatch ev d : daemon_step d (snd (dispatch ev d))
| daemon_environment w x pins head events indices d :
    daemon_step d (Daemon w x pins (merkleTrees d) (shardData d) (vaultManager d) (vaultStatus d)
                          (lastPolledBlock d) head events indices (relay_out d)).

Lemma connect_kubo_preserves (I : daemon → Prop) `{!OwnFields I} n : preserves I (connect_kubo n).
Proof.
  induction n as [|n IH]; simpl; [preserve|]. unfold call_out. preserve; auto. by apply preserves_on_world.
Qed.

Lemma tables_start gb path :
  preserves tables_ok (start wallet_address signMessage verifyMessage prover_configured gb path).
Proof.
  unfold start, call_out.
  preserve; auto using tables_poll, tables_checkAssignments, preserves_sendHeartbeat, connect_kubo_preserves,
    preserves_refresh, preserves_on_disk, preserves_on_world, tables_own.
  all: apply (preserves_on_world _).
Qed.

Lemma tables_step d d' : daemon_step d d' → tables_ok d → tables_ok d'.
Proof.
  intros [ev d0|] Hd; [|done]. revert d0 Hd. change (preserves tables_ok (dispatch ev)).
  destruct ev; simpl; auto using preserves_sendHeartbeat, tables_checkAssignments, tables_poll, tables_own.
  - preserve. apply tables_start.
  - unfold onConnect. preserve.
  - unfold onDealCancelled. preserve; auto using preserves_texts, tables_own, tables_unpin.
  - unfold onGetPeerId, call_out. preserve. apply (preserves_on_world _).
Qed.

(** C37. Whatever the daemon receives and whatever fails, the tree it holds for a
    shard is the tree over its sectors, which are at least ten of 1024 bytes each,
    and it never holds one without the other. *)
Theorem daemon_tables_well_formed d d' cid :
  merkleTrees d = ∅ → shardData d = ∅ → rtc daemon_step d d' →
  match merkleTrees d' !! cid, shardData d' !! cid with
  | Some t, Some ss => t = merkle_tree (map keccak256 ss) ∧ CHALLENGE_SECTORS ≤ length ss ∧
                       Forall (λ s, length s = SECTOR_SIZE) ss
  | None, None => True
  | _, _ => False
  end.
Proof.
  intros Ht Hs Hsteps. cut (tables_ok d').
  { intros Hok. specialize (Hok cid). destruct (merkleTrees d' !! cid), (shardData d' !! cid) as [ss|]; try done.
    destruct Hok as (-> & data & ->). destruct (sectors_of_spec data) as (H1 & H2 & _). done. }
  assert (Hd : tables_ok d) by (intros c; rewrite Ht, Hs, !lookup_empty; done).
  clear Ht Hs. induction Hsteps as [|d d1 d2 Hstep _ IH]; [done|]. apply IH. by eapply tables_step.
Qed.
End Tables.

(** A heartbeat and a run of the assignments task, after which the daemon holds the
    sectors and the tree of its shard c0. *)
Definition beaten : daemon :=
  snd (@dispatch plain_merkle raw_ipfs demo_host "0xa" (λ m, m) (λ _ s, Some s) true HeartbeatTick (fresh_daemon demo_api)).
Definition assigned : daemon :=
  snd (@dispatch plain_merkle raw_ipfs demo_host "0xa" (λ m, m) (λ _ s, Some s) true AssignmentsTick beaten).

Lemma daemon_tables_well_formed_witness :
  ∃ t ss, @merkleTrees plain_merkle assigned !! "c0" = Some t ∧ @shardData plain_merkle assigned !! "c0" = Some ss ∧
    t = @merkle_tree plain_merkle (map (@keccak256 plain_merkle) ss) ∧ CHALLENGE_SECTORS ≤ length ss ∧
    Forall (λ s, length s = SECTOR_SIZE) ss.
Proof.
  assert (H := @daemon_tables_well_formed plain_merkle raw_ipfs demo_host "0xa" (λ m, m) (λ _ s, Some s) true
    (fresh_daemon demo_api) assigned "c0" eq_refl eq_refl
    (rtc_l _ _ _ _ (@daemon_dispatch plain_merkle raw_ipfs demo_host "0xa" (λ m, m) (λ _ s, Some s) true HeartbeatTick
                      (fresh_daemon demo_api))
       (rtc_once _ _ (@daemon_dispatch plain_merkle raw_ipfs demo_host "0xa" (λ m, m) (λ _ s, Some s) true
                        AssignmentsTick beaten)))).
  destruct (@merkleTrees plain_merkle assigned !! "c0") as [t|] eqn:Ht; [|by vm_compute in Ht].
  destruct (@shardData plain_merkle assigned !! "c0") as [ss|] eqn:Hs; [|by vm_compute in Hs].
  exists t, ss. split; [reflexivity|]. split; [reflexivity|exact H].
Defined.
