(* ===== verification/DaemonSync.v ===== *)
(** The provider daemon against the REST API: what a run of each task of the
    daemon does to the pins of its node and to the database, stated over the state
    of both. *)

From stdpp Require Import gmap.
From S2P Require Import Prelude JsNum World ShardManager HealthMonitor RestApi Vault Daemon.

Local Open Scope Z_scope.

(** * The abstract specification: pins as a set *)

(** Whose shard it is: addresses are the same whatever the case they are written in. *)
Definition held_by (address : string) (s : shard_row) : bool := same_lower (s_provider_address s) address.

(** The deals a provider holds shards of, and the twenty newest of them. *)
Definition deals_held (address : string) (d : db) : list deal_row :=
  distinct (r ← deals d;
            s ← where_ (λ s, same_text (d_deal_id r) (s_deal_id s) && held_by address s) (shards d);
            [r]).
Definition provider_deals (address : string) (d : db) : list deal_row :=
  take 20 (order_by (λ r, - d_created_at r) (deals_held address d)).

(** The content a provider has to keep: its active shards in those deals; and the
    content it may drop: its inactive shards of closed deals. *)
Definition wanted (address : string) (d : db) : gset string :=
  list_to_set (map s_shard_cid (where_ (λ s, s_active s && held_by address s
    && bool_decide (s_deal_id s ∈ map d_deal_id (provider_deals address d))) (shards d))).
Definition released (address : string) (d : db) : gset string :=
  list_to_set (map s_shard_cid (where_ (λ s, negb (s_active s) && held_by address s
    && existsb (λ r, same_text (s_deal_id s) (d_deal_id r)
                     && bool_decide (d_status r ∈ ["cancelled"; "completed"; "failed"])) (deals d)) (shards d))).

(** One round of synchronisation: pin what is wanted, then drop what is released. *)
Definition sync (want release pins : gset string) : gset string := (pins ∪ want) ∖ release.

(** The keys of the shards table, and the spelling the daemon expects: every row that
    belongs to the wallet up to case is written exactly like the wallet. *)
Definition keyed (d : db) : Prop :=
  ∀ s, s ∈ shards d → known_deal (s_deal_id s) d = true ∧ known_provider (s_provider_address s) d = true.
Definition spelled_alike (address : string) (d : db) : Prop :=
  ∀ s, s ∈ shards d → held_by address s = true → s_provider_address s = address.

(** ** What the daemon finds *)

(** The shards of a deal as the API joins them with their providers, and those the
    daemon's filter leaves, which compares addresses letter by letter. *)

Definition deal_shards (dealId : string) (d : db) : list (shard_row * provider_row) :=
  order_by (λ r, s_shard_index (fst r))
    (s ← where_ (λ s, same_text (s_deal_id s) dealId) (shards d);
     p ← where_ (λ p, same_text (s_provider_address s) (p_address p)) (providers d);
     [(s, p)]).

Definition matched_in (address dealId : string) (d : db) : list string :=
  map s_shard_cid (where_ s_active (where_ (mine address) (map fst (deal_shards dealId d)))).

Definition matched (address : string) (d : db) : gset string :=
  list_to_set (deal ← provider_deals address d; matched_in address (d_deal_id deal) d).

Lemma elem_of_deal_shards dealId s p d :
  (s, p) ∈ deal_shards dealId d ↔
  s ∈ shards d ∧ s_deal_id s = dealId ∧ p ∈ providers d ∧ s_provider_address s = p_address p.
Proof.
  unfold deal_shards. rewrite elem_of_order_by, list_elem_of_bind.
  setoid_rewrite list_elem_of_bind. setoid_rewrite list_elem_of_singleton. setoid_rewrite elem_of_where.
  unfold same_text. setoid_rewrite bool_decide_eq_true. naive_solver.
Qed.

Lemma elem_of_matched address cid d :
  cid ∈ matched address d ↔
  ∃ s, s ∈ shards d ∧ s_shard_cid s = cid ∧ s_active s = true ∧ s_provider_address s = address ∧
       s_deal_id s ∈ map d_deal_id (provider_deals address d) ∧ known_provider (s_provider_address s) d = true.
Proof.
  unfold matched, matched_in, mine, same_text, known_provider.
  rewrite elem_of_list_to_set, list_elem_of_bind. setoid_rewrite list_elem_of_fmap.
  setoid_rewrite elem_of_where. setoid_rewrite elem_of_where. setoid_rewrite bool_decide_eq_true.
  setoid_rewrite existsb_exists. setoid_rewrite bool_decide_eq_true. split.
  - intros (deal & (s & -> & [Hs Ha] & Hact) & Hd). apply list_elem_of_fmap in Hs as ([s' p] & -> & Hs).
    apply elem_of_deal_shards in Hs as (Hs & Hid & Hp & Hpa). exists s'. simpl in *. split_and!; [done..| |].
    + by exists deal.
    + exists p. by rewrite <- list_elem_of_In.
  - intros (s & Hs & <- & Hact & Ha & (deal & Hid & Hd) & (p & Hp & Hpa)). exists deal. split; [|done].
    exists s. split_and!; [done| |done|done]. apply list_elem_of_fmap. exists (s, p). split; [done|].
    apply elem_of_deal_shards. apply list_elem_of_In in Hp. by split_and!.
Qed.

Lemma elem_of_wanted address cid d :
  cid ∈ wanted address d ↔
  ∃ s, s ∈ shards d ∧ s_shard_cid s = cid ∧ s_active s = true ∧ held_by address s = true ∧
       s_deal_id s ∈ map d_deal_id (provider_deals address d).
Proof.
  unfold wanted. rewrite elem_of_list_to_set, list_elem_of_fmap. setoid_rewrite elem_of_where.
  setoid_rewrite andb_true_iff. setoid_rewrite andb_true_iff. setoid_rewrite bool_decide_eq_true. naive_solver.
Qed.

(** The filter finds what is wanted when the rows are spelled like the wallet. *)
Lemma matched_wanted address d :
  keyed d → spelled_alike address d → matched address d = wanted address d.
Proof.
  intros Hk Hs. apply set_eq. intros cid. rewrite elem_of_matched, elem_of_wanted. split.
  - intros (s & Hin & Hc & Ha & Hp & Hd & _). exists s. split_and!; [done..| |done].
    unfold held_by, same_lower. by rewrite Hp, bool_decide_true.
  - intros (s & Hin & Hc & Ha & Hh & Hd). exists s. destruct (Hk s Hin). split_and!; auto.
Qed.

Lemma released_rows address d :
  (list_to_set (map cl_shard_cid (cleanup_rows address d)) : gset string) = released address d.
Proof.
  apply set_eq. intros cid. unfold released, held_by, same_text.
  rewrite !elem_of_list_to_set, !list_elem_of_fmap. setoid_rewrite elem_of_cleanup.
  setoid_rewrite elem_of_where. setoid_rewrite andb_true_iff. setoid_rewrite andb_true_iff.
  setoid_rewrite negb_true_iff. setoid_rewrite same_lower_spec. setoid_rewrite existsb_exists.
  setoid_rewrite andb_true_iff. setoid_rewrite bool_decide_eq_true. setoid_rewrite <- list_elem_of_In.
  unfold terminal. split.
  - intros (c & -> & s & r & ? & ? & ? & ? & ? & ? & ->). exists s. naive_solver.
  - intros (s & -> & ? & [? ?] & r & ? & ? & ?). eexists. split; [|by exists s, r]. done.
Qed.

Lemma elem_of_deals_held address r d :
  r ∈ deals_held address d ↔ r ∈ deals d ∧ ∃ s, s ∈ shards d ∧ s_deal_id s = d_deal_id r ∧ held_by address s = true.
Proof.
  unfold deals_held. rewrite elem_of_distinct, list_elem_of_bind.
  setoid_rewrite list_elem_of_bind. setoid_rewrite list_elem_of_singleton. setoid_rewrite elem_of_where.
  setoid_rewrite andb_true_iff. unfold same_text. setoid_rewrite bool_decide_eq_true. naive_solver.
Qed.

(** A provider of at most twenty deals has to keep all of its active shards. *)
Lemma few_deals_wanted address d :
  keyed d → (length (deals_held address d) ≤ 20)%nat →
  ∀ s, s ∈ shards d → s_active s = true → held_by address s = true → s_shard_cid s ∈ wanted address d.
Proof.
  intros Hk Hlen s Hs Ha Hh. apply elem_of_wanted. exists s. split_and!; [done..|].
  destruct (Hk s Hs) as [Hd _]. unfold known_deal in Hd. apply existsb_exists in Hd as (r & Hr & Hid).
  apply bool_decide_eq_true in Hid. apply list_elem_of_In in Hr.
  apply list_elem_of_fmap. exists r. split; [done|]. unfold provider_deals.
  rewrite take_ge by (by rewrite order_by_Permutation). apply elem_of_order_by, elem_of_deals_held. eauto.
Qed.

Section Sync.
  Context `{Merkle} {ipfs : Ipfs} `{Host} (wallet_address : string).

(** ** Calls that succeed *)

Lemma call_out_ok d : no_faults (dm_world d) → call_out d = (Ok tt, d).
Proof. intros Hw. unfold call_out, on_world. rewrite external_ok by done. by destruct d. Qed.

Lemma http_ok handler d b :
  no_faults (dm_world d) → handler (dm_world d) = (Ok (Resp 200 b), dm_world d) →
  http handler d = (Ok b, d).
Proof.
  intros Hw Hh. unfold http. rewrite (bind_ok _ _ _ _ _ (call_out_ok d Hw)).
  assert (Hon : on_world handler d = (Ok (Resp 200 b), d)).
  { unfold on_world. rewrite Hh. by destruct d. }
  by rewrite (bind_ok _ _ _ _ _ Hon).
Qed.

Lemma getDeal_ok dealId w :
  no_faults w → (∃ r, r ∈ deals (w_db w) ∧ d_deal_id r = dealId) →
  ∃ deal, getDeal dealId w = (Ok (Resp 200 (BDeal deal (deal_shards dealId (w_db w)))), w).
Proof.
  intros Hw (r & Hr & Hid). unfold getDeal, route, try_catch, send.
  rewrite (bind_ok _ _ _ _ _ (select_ok _ w Hw)).
  destruct (where_ _ (deals (w_db w))) as [|deal rest] eqn:Hrows.
  - exfalso. assert (Hin : r ∈ where_ (λ r, same_text (d_deal_id r) dealId) (deals (w_db w))).
    { apply elem_of_where. split; [done|]. by apply bool_decide_eq_true. }
    rewrite Hrows in Hin. by apply elem_of_nil in Hin.
  - exists deal. by rewrite (bind_ok _ _ _ _ _ (select_ok _ w Hw)).
Qed.

Lemma getProvider_ok address w :
  no_faults w → (∃ p, p ∈ providers (w_db w) ∧ toLowerCase (p_address p) = toLowerCase address) →
  ∃ p pl, getProvider address w = (Ok (Resp 200 (BProvider p pl (provider_deals address (w_db w)))), w).
Proof.
  intros Hw (p & Hp & Hl). unfold getProvider, route, try_catch, send.
  rewrite (bind_ok _ _ _ _ _ (select_ok _ w Hw)).
  destruct (take 1 _) as [|q rest] eqn:Hrows.
  - exfalso. set (rows := desc_nulls_last _ _) in Hrows.
    assert (Hin : p ∈ rows).
    { unfold rows, desc_nulls_last. rewrite !elem_of_order_by, elem_of_where. split; [done|].
      by apply bool_decide_eq_true. }
    destruct rows; [by apply elem_of_nil in Hin|done].
  - rewrite (bind_ok _ _ _ _ _ (select_ok _ w Hw)), (bind_ok _ _ _ _ _ (select_ok _ w Hw)).
    by eexists _, _.
Qed.

Lemma getCleanup_ok address w :
  no_faults w → has_api_columns w →
  getCleanup address w = (Ok (Resp 200 (BCleanup address (length (cleanup_rows address (w_db w)))
                                                 (cleanup_rows address (w_db w)))), w).
Proof.
  intros Hw Hcol. unfold getCleanup, route, try_catch.
  by rewrite (bind_ok _ _ _ _ _ (select_api_up _ _ w (no_faults_answers w Hw) Hcol)).
Qed.

(** ** Pinning and unpinning one shard *)

Lemma buildMerkleTree_run cid d :
  no_faults (dm_world d) →
  ∃ d', buildMerkleTree cid d = (Ok tt, d') ∧ dm_world d' = dm_world d ∧ dm_pins d' = dm_pins d.
Proof.
  intros Hw. unfold buildMerkleTree, try_catch, ipfs_cat.
  destruct (w_ipfs (dm_world d) !! cid) as [b|] eqn:Hb.
  - assert (Hcat : on_world (ipfs_cat cid) d = (Ok (chunks_of b), d)).
    { unfold on_world, ipfs_cat. rewrite (bind_ok _ _ _ _ _ (external_ok _ Hw)). running. rewrite Hb.
      by destruct d. }
    rewrite (bind_ok _ _ _ _ _ Hcat). by eexists.
  - assert (Hcat : on_world (ipfs_cat cid) d = (Throw (Error "block was not found locally (offline)"), d)).
    { unfold on_world, ipfs_cat. rewrite (bind_ok _ _ _ _ _ (external_ok _ Hw)). running. rewrite Hb.
      by destruct d. }
    rewrite (bind_throw _ _ _ _ _ Hcat). by eexists.
Qed.

Lemma pin_add_run cid b d :
  no_faults (dm_world d) → w_ipfs (dm_world d) !! cid = Some b →
  pin_add cid d = (Ok tt, with_pins ({[cid]} ∪ dm_pins d) d).
Proof.
  intros Hw Hb. unfold pin_add. rewrite (bind_ok _ _ _ _ _ (call_out_ok d Hw)). running. by rewrite Hb.
Qed.

Lemma ensurePinned_run cid b d :
  no_faults (dm_world d) → w_ipfs (dm_world d) !! cid = Some b →
  ∃ d', ensurePinned cid d = (Ok tt, d') ∧ dm_world d' = dm_world d ∧ dm_pins d' = dm_pins d ∪ {[cid]}.
Proof.
  intros Hw Hb. unfold ensurePinned, try_catch at 1. unfold pin_ls.
  destruct (decide (cid ∈ dm_pins d)) as [Hin|Hin].
  - assert (Hls : pin_ls cid d = (Ok [cid], d)).
    { unfold pin_ls. rewrite (bind_ok _ _ _ _ _ (call_out_ok d Hw)). running. by rewrite bool_decide_true. }
    unfold pin_ls in Hls. rewrite (bind_ok _ _ _ _ _ Hls). simpl. rewrite bool_decide_true by done. simpl.
    rewrite (bind_ok (mret tt) _ d tt d eq_refl).
    destruct (buildMerkleTree_run cid d Hw) as (d' & Hd' & Hw' & Hp').
    assert (Hunion : dm_pins d = dm_pins d ∪ {[cid]}) by set_solver.
    rewrite (bind_ok (gets _) _ d _ d eq_refl). destruct (bool_decide _).
    + exists d. by split_and!.
    + exists d'. rewrite Hd'. split_and!; congruence.
  - assert (Hls : pin_ls cid d = (Throw (Error ("path '" +:+ cid +:+ "' is not pinned")), d)).
    { unfold pin_ls. rewrite (bind_ok _ _ _ _ _ (call_out_ok d Hw)). running. by rewrite bool_decide_false. }
    unfold pin_ls in Hls. rewrite (bind_throw _ _ _ _ _ Hls). simpl. unfold try_catch.
    rewrite (bind_ok _ _ _ _ _ (pin_add_run cid b d Hw Hb)).
    destruct (buildMerkleTree_run cid (with_pins ({[cid]} ∪ dm_pins d) d) Hw) as (d' & Hd' & Hw' & Hp').
    exists d'. rewrite Hd'. split_and!; [done|done|]. rewrite Hp'. simpl. set_solver.
Qed.

Lemma unpinAndCleanup_run cid d :
  no_faults (dm_world d) →
  ∃ d', unpinAndCleanup cid d = (Ok tt, d') ∧ dm_world d' = dm_world d ∧ dm_pins d' = dm_pins d ∖ {[cid]}.
Proof.
  intros Hw. unfold unpinAndCleanup, try_catch at 1.
  assert (Hrm : try_catch (pin_rm cid) (λ _, mret tt) d = (Ok tt, with_pins (dm_pins d ∖ {[cid]}) d)).
  { unfold try_catch, pin_rm. rewrite (bind_ok _ _ _ _ _ (call_out_ok d Hw)). running.
    case_bool_decide as Hin; [done|]. f_equal. destruct d; simpl in *. unfold with_pins. f_equal. set_solver. }
  rewrite (bind_ok _ _ _ _ _ Hrm). running.
  destruct (vaultManager d) as [config|]; simpl; [by eexists|].
  rewrite call_out_ok by done. by eexists.
Qed.

(** ** Loops over shards *)

(** A loop whose steps keep the world and change the pins by [f] changes them by
    the composition. *)
Lemma pin_loop {A} (body : A → M daemon unit) (f : A → gset string → gset string) w xs : ∀ d,
  dm_world d = w →
  (∀ x d, x ∈ xs → dm_world d = w →
     ∃ d', body x d = (Ok tt, d') ∧ dm_world d' = w ∧ dm_pins d' = f x (dm_pins d)) →
  ∃ d', for_each xs body d = (Ok tt, d') ∧ dm_world d' = w ∧ dm_pins d' = foldl (λ ps x, f x ps) (dm_pins d) xs.
Proof.
  induction xs as [|x xs IH]; intros d Hd Hb; simpl; [by exists d|].
  destruct (Hb x d ltac:(set_solver) Hd) as (d1 & H1 & Hw1 & Hp1).
  rewrite (bind_ok _ _ _ _ _ H1).
  destruct (IH d1 Hw1) as (d2 & H2 & Hw2 & Hp2); [intros; apply Hb; set_solver|].
  exists d2. split_and!; [done|done|]. by rewrite Hp2, Hp1.
Qed.

Lemma foldl_union {A} (g : A → gset string) xs ps :
  foldl (λ ps x, ps ∪ g x) ps xs = ps ∪ ⋃ (map g xs).
Proof.
  revert ps. induction xs as [|x xs IH]; intros ps; simpl; [set_solver|]. rewrite IH. set_solver.
Qed.

Lemma foldl_difference {A} (g : A → string) xs (ps : gset string) :
  foldl (λ ps x, ps ∖ {[g x]}) ps xs = ps ∖ list_to_set (map g xs).
Proof.
  revert ps. induction xs as [|x xs IH]; intros ps; simpl; [set_solver|]. rewrite IH. set_solver.
Qed.

(** The content of a shard is still somewhere in the network. *)
Definition fetchable (cids : gset string) (w : world) : Prop :=
  ∀ cid, cid ∈ cids → is_Some (w_ipfs w !! cid).

(** The active shards among the provider's own are pinned. *)
Lemma pin_active_run rows d :
  no_faults (dm_world d) →
  fetchable (list_to_set (map s_shard_cid (where_ s_active rows))) (dm_world d) →
  ∃ d', for_each rows (λ shard, if s_active shard then ensurePinned (s_shard_cid shard) else mret tt) d
        = (Ok tt, d') ∧ dm_world d' = dm_world d ∧
        dm_pins d' = dm_pins d ∪ list_to_set (map s_shard_cid (where_ s_active rows)).
Proof.
  intros Hw Hf.
  destruct (pin_loop (λ shard, if s_active shard then ensurePinned (s_shard_cid shard) else mret tt)
    (λ s ps, ps ∪ if s_active s then {[s_shard_cid s]} else ∅) (dm_world d) rows d eq_refl) as (d' & H1 & H2 & H3).
  - intros s d0 Hs Hd0. destruct (s_active s) eqn:Ha.
    + assert (Hc : s_shard_cid s ∈ (list_to_set (map s_shard_cid (where_ s_active rows)) : gset string)).
      { apply elem_of_list_to_set, list_elem_of_fmap. exists s. split; [done|]. by apply elem_of_where. }
      destruct (Hf _ Hc) as [b Hb]. rewrite <- Hd0 in Hw, Hb |- *. by apply (ensurePinned_run _ b).
    + exists d0. split_and!; [done|done|]. set_solver.
  - exists d'. split_and!; [done|done|]. rewrite H3.
    rewrite (foldl_union (λ s, if s_active s then {[s_shard_cid s]} else ∅)). f_equal.
    clear. induction rows as [|s rows IH]; simpl; [done|]. unfold where_ in *. simpl.
    destruct (s_active s); simpl; rewrite <- IH; set_solver.
Qed.

(** One deal of the assignments loop. *)
Definition assign_deal (deal : deal_row) : M daemon unit :=
  dealDetail ← http (getDeal (d_deal_id deal));
  all ← shards_in dealDetail "filter";
  for_each (where_ (mine wallet_address) all) (λ shard,
    if s_active shard then ensurePinned (s_shard_cid shard) else mret tt).

Lemma assign_deal_run deal d :
  no_faults (dm_world d) → deal ∈ deals (w_db (dm_world d)) →
  fetchable (list_to_set (matched_in wallet_address (d_deal_id deal) (w_db (dm_world d)))) (dm_world d) →
  ∃ d', assign_deal deal d = (Ok tt, d') ∧ dm_world d' = dm_world d ∧
        dm_pins d' = dm_pins d ∪ list_to_set (matched_in wallet_address (d_deal_id deal) (w_db (dm_world d))).
Proof.
  intros Hw Hin Hf. unfold assign_deal.
  destruct (getDeal_ok (d_deal_id deal) (dm_world d) Hw ltac:(by exists deal)) as [deal0 Hget].
  rewrite (bind_ok _ _ _ _ _ (http_ok _ _ _ Hw Hget)).
  rewrite (bind_ok (shards_in (BDeal _ _) _) _ d _ d eq_refl). by apply pin_active_run.
Qed.

Lemma provider_deals_stored deal address d : deal ∈ provider_deals address d → deal ∈ deals d.
Proof.
  unfold provider_deals. intros (i & Hd%list_elem_of_lookup_2 & _)%elem_of_take.
  by apply elem_of_order_by, elem_of_deals_held in Hd as [Hd _].
Qed.

Lemma cleanup_run d :
  no_faults (dm_world d) → has_api_columns (dm_world d) →
  ∃ d', cleanupDeletedShards wallet_address d = (Ok tt, d') ∧ dm_world d' = dm_world d ∧
        dm_pins d' = dm_pins d ∖ released wallet_address (w_db (dm_world d)).
Proof.
  intros Hw Hcol. unfold cleanupDeletedShards, try_catch.
  rewrite (bind_ok _ _ _ _ _ (http_ok _ _ _ Hw (getCleanup_ok wallet_address _ Hw Hcol))).
  rewrite <- released_rows. set (rows := cleanup_rows _ _).
  destruct (length rows =? 0)%nat eqn:Hlen.
  { apply Nat.eqb_eq, length_zero_iff_nil in Hlen. rewrite Hlen. exists d. split_and!; [done|done|]. set_solver. }
  destruct (pin_loop (λ shard, unpinAndCleanup (cl_shard_cid shard))
    (λ c ps, ps ∖ {[cl_shard_cid c]}) (dm_world d) rows d eq_refl) as (d' & H1 & H2 & H3).
  { intros c d0 _ Hd0. rewrite <- Hd0 in Hw |- *. by apply unpinAndCleanup_run. }
  rewrite H1. exists d'. split_and!; [done|done|]. rewrite H3. apply foldl_difference.
Qed.

Lemma matched_union ds d :
  list_to_set (deal ← ds; matched_in wallet_address (d_deal_id deal) d) =
  (⋃ (map (λ deal, list_to_set (matched_in wallet_address (d_deal_id deal) d)) ds) : gset string).
Proof.
  induction ds as [|deal ds IH]; simpl; [done|]. rewrite <- IH, <- list_to_set_app_L. done.
Qed.

(** The run of the task in full. *)
Lemma checkAssignments_run d :
  no_faults (dm_world d) → has_api_columns (dm_world d) →
  (∃ p, p ∈ providers (w_db (dm_world d)) ∧ toLowerCase (p_address p) = toLowerCase wallet_address) →
  fetchable (matched wallet_address (w_db (dm_world d))) (dm_world d) →
  ∃ d', checkAssignments wallet_address d = (Ok tt, d') ∧ dm_world d' = dm_world d ∧
    dm_pins d' = sync (matched wallet_address (w_db (dm_world d))) (released wallet_address (w_db (dm_world d)))
                      (dm_pins d).
Proof.
  intros Hw Hcol Hp Hf. unfold checkAssignments, try_catch.
  destruct (getProvider_ok wallet_address (dm_world d) Hw Hp) as (p & pl & Hget).
  rewrite (bind_ok _ _ _ _ _ (http_ok _ _ _ Hw Hget)). cbv beta iota.
  set (ds := provider_deals _ _). set (w := dm_world d) in *.
  destruct (pin_loop assign_deal
    (λ deal ps, ps ∪ list_to_set (matched_in wallet_address (d_deal_id deal) (w_db w))) w ds d eq_refl)
    as (d1 & H1 & Hw1 & Hp1).
  { intros deal d0 Hdeal Hd0. rewrite <- Hd0. apply assign_deal_run; rewrite Hd0; [done|..].
    - by apply (provider_deals_stored _ wallet_address).
    - intros cid Hcid. apply Hf. unfold matched. fold ds. rewrite elem_of_list_to_set in Hcid |- *.
      apply list_elem_of_bind. by exists deal. }
  unfold assign_deal in H1. rewrite (bind_ok _ _ _ _ _ H1).
  destruct (cleanup_run d1) as (d2 & H2 & Hw2 & Hp2); [by rewrite Hw1..|].
  rewrite H2. exists d2. split_and!; [done|congruence|]. rewrite Hp2, Hp1, Hw1. unfold sync. f_equal.
  rewrite (foldl_union (λ deal, list_to_set (matched_in wallet_address (d_deal_id deal) (w_db w)))).
  f_equal. symmetry. apply matched_union.
Qed.

(** C7. A run of the assignments task refines one round of synchronisation on the
    set of pins. When no call fails, shards has the column deleted_at (which the
    committed schema lacks), the provider is registered under some spelling of
    its address, the rows of the shards refer to stored deals and providers, and every
    row of this provider spells its address exactly as the wallet does, then, provided
    the content that is to be kept can still be fetched, the pins become what they
    were, plus the active shards of the provider in its twenty newest deals, minus its
    inactive shards of closed deals. For a provider of at most twenty deals the former
    are all of its active shards. *)
Theorem checkAssignments_refines_sync d :
  let rows := w_db (dm_world d) in
  no_faults (dm_world d) → has_api_columns (dm_world d) →
  (∃ p, p ∈ providers rows ∧ toLowerCase (p_address p) = toLowerCase wallet_address) →
  keyed rows → spelled_alike wallet_address rows →
  fetchable (wanted wallet_address rows) (dm_world d) →
  (∃ d', checkAssignments wallet_address d = (Ok tt, d') ∧ dm_world d' = dm_world d ∧
    dm_pins d' = sync (wanted wallet_address rows) (released wallet_address rows) (dm_pins d)) ∧
  ((length (deals_held wallet_address rows) ≤ 20)%nat →
   ∀ s, s ∈ shards rows → s_active s = true → held_by wallet_address s = true →
        s_shard_cid s ∈ wanted wallet_address rows).
Proof.
  intros rows Hw Hcol Hp Hk Hs Hf. split; [|by apply few_deals_wanted].
  rewrite <- (matched_wanted _ _ Hk Hs) in Hf |- *. by apply checkAssignments_run.
Qed.
End Sync.

(** ** Two deals on one file, the older one cancelled *)

Definition shared_deal (dealId status : string) : deal_row :=
  Deal dealId "0xc" "file" (num_of_Z 1) 30 (num_of_Z 1) (num_of_Z 1) (num_of_Z 0) status true None None None
       0 None None false.
Definition shared_shard (dealId : string) (active : bool) : shard_row :=
  Shard dealId "0xa" 0 "shard" (Some 4) None (Some true) active 0 None None.
Definition shared_world (older : bool) : world :=
  World (Db [demo_online "0xa"] [] [shared_deal "D1" (if older then "active" else "cancelled");
                                    shared_deal "D2" "active"]
            [shared_shard "D1" older; shared_shard "D2" true] [] [] [] [] [] [] [] [])
        None {[ "shard" := [Byte.x01] ]} 1000000 [] [] [] (true, true) true false (Schema true false true true).

Lemma shared_known older :
  ∃ p, p ∈ providers (w_db (shared_world older)) ∧ toLowerCase (p_address p) = toLowerCase "0xa".
Proof. exists (demo_online "0xa"). split; [by left|done]. Qed.

Lemma shared_keyed older : keyed (w_db (shared_world older)).
Proof. intros s Hs. destruct older; simpl in Hs; set_unfold in Hs; naive_solver. Qed.

Lemma shared_spelled older : spelled_alike "0xa" (w_db (shared_world older)).
Proof. intros s Hs _. simpl in Hs. set_unfold in Hs. destruct Hs as [-> | [-> | []]]; reflexivity. Qed.

Lemma shared_fetchable older : fetchable (wanted "0xa" (w_db (shared_world older))) (shared_world older).
Proof.
  assert (Hs : wanted "0xa" (w_db (shared_world older)) = {[ "shard" ]}) by (destruct older; vm_compute; reflexivity).
  rewrite Hs. intros cid ->%elem_of_singleton. by eexists.
Qed.

Lemma checkAssignments_refines_sync_witness :
  ∃ d', @checkAssignments plain_merkle raw_ipfs demo_host "0xa" (fresh_daemon (shared_world true)) = (Ok tt, d') ∧
        @dm_pins plain_merkle d' = {[ "shard" ]}.
Proof.
  destruct (@checkAssignments_refines_sync plain_merkle raw_ipfs demo_host "0xa" (fresh_daemon (shared_world true)))
    as [(d' & Hrun & _ & Hp) _].
  - reflexivity.
  - reflexivity.
  - apply shared_known.
  - apply shared_keyed.
  - apply shared_spelled.
  - apply shared_fetchable.
  - exists d'. split; [exact Hrun|]. rewrite Hp. vm_compute. reflexivity.
Defined.
