(* ===== verification/DaemonFaults.v ===== *)
(** The provider daemon in trouble: what the synchronisation, the relay messages,
    the proofs and the heartbeats of DaemonSync.v mean for the storage network. *)

From stdpp Require Import gmap.
From S2P Require Import Prelude JsNum World ShardManager HealthMonitor RestApi Backend Vault Daemon DaemonSync.

Local Open Scope Z_scope.

Section Pins.
  Context `{Merkle} {ipfs : Ipfs} `{Host} (wallet_address : string).

(** A row of a closed deal, at this provider, for the same content. *)
Definition closed_copy (cid : string) (d : db) : Prop :=
  ∃ s deal, s ∈ shards d ∧ s_active s = false ∧ s_shard_cid s = cid ∧
    toLowerCase (s_provider_address s) = toLowerCase wallet_address ∧
    deal ∈ deals d ∧ terminal (d_status deal) ∧ s_deal_id s = d_deal_id deal.

(** Shards are identified by their content, so two deals on one file share
    them: when one deal is closed, the next run of the assignments task unpins the
    shard although the other deal still pays for it. *)
Theorem shared_shard_is_unpinned d cid :
  no_faults (dm_world d) → has_api_columns (dm_world d) →
  (∃ p, p ∈ providers (w_db (dm_world d)) ∧ toLowerCase (p_address p) = toLowerCase wallet_address) →
  fetchable (matched wallet_address (w_db (dm_world d))) (dm_world d) →
  cid ∈ matched wallet_address (w_db (dm_world d)) → closed_copy cid (w_db (dm_world d)) →
  cid ∉ dm_pins (snd (checkAssignments wallet_address d)).
Proof.
  intros Hw Hcol Hp Hf Hs (s & deal & Hc & Hact & <- & Hl & Hd & Ht & Hid).
  destruct (checkAssignments_run wallet_address d Hw Hcol Hp Hf) as (d' & -> & _ & Hpins). simpl.
  rewrite Hpins. unfold sync. rewrite elem_of_difference. intros [_ Hnr]. apply Hnr.
  rewrite <- released_rows. apply elem_of_list_to_set, list_elem_of_fmap.
  exists (Cleanup (s_shard_cid s) (s_deal_id s) (d_status deal) (s_deleted_at s)).
  split; [done|]. apply elem_of_cleanup. by exists s, deal.
Qed.

(** The API writes provider addresses in lower case. *)
Definition lower_case_rows (d : db) : Prop :=
  ∀ s, s ∈ shards d → s_provider_address s = toLowerCase (s_provider_address s).

Lemma matched_checksummed d :
  lower_case_rows d → toLowerCase wallet_address ≠ wallet_address → matched wallet_address d = ∅.
Proof.
  intros Hrows Hne. apply set_eq. intros cid. rewrite elem_of_empty. split; [|done]. unfold matched, matched_in.
  rewrite elem_of_list_to_set, list_elem_of_bind. intros (deal & Hcid & _).
  apply list_elem_of_fmap in Hcid as (s & _ & Hs). rewrite !elem_of_where in Hs.
  destruct Hs as [[Hs Hmine] _]. apply list_elem_of_fmap in Hs as ([s0 p] & -> & Hs).
  apply elem_of_deal_shards in Hs as [Hs%Hrows _]. apply bool_decide_eq_true in Hmine. simpl in *. congruence.
Qed.

(** The daemon compares the addresses of the API, which are in lower case, with
    the address of its wallet, which ethers writes with its checksum: a provider whose
    address has a capital letter pins none of its shards. *)
Theorem checksummed_wallet_pins_nothing d :
  no_faults (dm_world d) → has_api_columns (dm_world d) →
  (∃ p, p ∈ providers (w_db (dm_world d)) ∧ toLowerCase (p_address p) = toLowerCase wallet_address) →
  lower_case_rows (w_db (dm_world d)) → toLowerCase wallet_address ≠ wallet_address →
  dm_pins (snd (checkAssignments wallet_address d)) ⊆ dm_pins d.
Proof.
  intros Hw Hcol Hp Hrows Hne. pose proof (matched_checksummed _ Hrows Hne) as Hwant.
  destruct (checkAssignments_run wallet_address d Hw Hcol Hp) as (d' & -> & _ & Hpins).
  { intros cid. rewrite Hwant. set_solver. }
  simpl. rewrite Hpins, Hwant. unfold sync. set_solver.
Qed.
End Pins.

(** * Relay messages *)

(** The messages added since [old] about closed deals lack the provider list. *)
Definition no_provider_list (old : list emitted) (w : world) : Prop :=
  ∀ e, e ∈ w_emits w → e ∉ old → em_event e = "deal:cancelled" →
       field "providerAddresses" (em_payload e) = None.

Lemma no_provider_list_emit old t ev p :
  (ev = "deal:cancelled" → field "providerAddresses" p = None) →
  preserves (no_provider_list old) (io_emit t ev p).
Proof.
  intros Hp w Hw e. simpl. rewrite elem_of_app, list_elem_of_singleton.
  intros [He| ->]; [by apply Hw|]. intros _. apply Hp.
Qed.

Lemma insert_event_emits old ty desc data : preserves (no_provider_list old) (insert_event ty desc data).
Proof. unfold insert_event, now. preserve. Qed.

Section Messages.
  Context {ipfs : Ipfs} {codec : RSCodec} (verifyMessage : string → string → option string).

Lemma serve_messages old q : preserves (no_provider_list old) (serve verifyMessage q).
Proof.
  destruct q; simpl;
    unfold postHeartbeat, postKey, deleteDeal, cancel_body, RestApi.createDeal, make_shards, select_online,
      insert_shard, int_param, postEvent, postUpload, downloadDeal, cat_file, listDeals, getDeal,
      listProviders, getProvider, getCleanup, getKey, listEvents, getStats, route, getIpfs, ipfs_add, ipfs_cat,
      fail, send, now;
    preserve; auto using insert_event_emits; by apply no_provider_list_emit.
Qed.

Lemma expiration_messages old one_connection : preserves (no_provider_list old) (expirationCheck one_connection).
Proof.
  unfold expirationCheck, expire_deal, begin_txn, commit_txn, rollback_txn, now. destruct one_connection.
  all: preserve; auto using insert_event_emits; try (by apply no_provider_list_emit).
  by destruct (w_txn s).
Qed.

Context `{Merkle} `{Host} (wallet_address : string).

(** A message about a closed deal sent between two states of the backend. *)
Definition cancel_message (w w' : world) (e : emitted) : Prop :=
  e ∈ w_emits w' ∧ e ∉ w_emits w ∧ em_event e = "deal:cancelled".

(** C39. Every message about a closed deal that the API sends, to whatever request
    and under whatever failures, makes the callback of the daemon throw before it
    unpins anything, because the message carries no list of providers; nothing
    catches the exception, so the process ends. *)
Theorem cancellation_message_kills_daemon q one_connection w e d :
  cancel_message w (snd (serve verifyMessage q w)) e ∨ cancel_message w (snd (expirationCheck one_connection w)) e →
  onDealCancelled wallet_address (em_payload e) d
  = (Throw (Error "Cannot read properties of undefined (reading 'some')"), d).
Proof.
  intros He. assert (Hold : no_provider_list (w_emits w) w) by (by intros x).
  assert (Hf : field "providerAddresses" (em_payload e) = None).
  { destruct He as [(He & Hnew & Hev)|(He & Hnew & Hev)].
    - by apply (serve_messages (w_emits w) q w Hold).
    - by apply (expiration_messages (w_emits w) one_connection w Hold). }
  unfold onDealCancelled. by rewrite Hf.
Qed.
End Messages.

(** * Proofs of space-time *)

Section PoSt.
  Context `{Merkle} {ipfs : Ipfs} `{Host} (wallet_address : string) (prover_configured : bool).

(** The chain log, the challenges and the block of the last poll are as before. *)
Definition chain_as (d0 d : daemon) : Prop :=
  w_chain (dm_world d) = w_chain (dm_world d0) ∧ dm_indices d = dm_indices d0 ∧
  dm_head d = dm_head d0 ∧ dm_events d = dm_events d0 ∧ lastPolledBlock d = lastPolledBlock d0.

Lemma chain_on_world {A} d0 (m : M world A) :
  preserves (λ w, w_chain w = w_chain (dm_world d0)) m → preserves (chain_as d0) (on_world m).
Proof.
  intros Hm d (Hc & Hrest). unfold on_world. specialize (Hm (dm_world d) Hc).
  destruct (m (dm_world d)) as [r w]. done.
Qed.

Lemma chain_call_out d0 : preserves (chain_as d0) call_out.
Proof. apply chain_on_world, preserves_external. done. Qed.

Lemma chain_http_deal d0 id : preserves (chain_as d0) (http (getDeal id)).
Proof.
  unfold http. preserve; [apply chain_call_out|]. apply chain_on_world.
  unfold getDeal, route, fail, send. preserve.
Qed.

Lemma chain_ensurePinned d0 cid : preserves (chain_as d0) (ensurePinned cid).
Proof.
  unfold ensurePinned, pin_ls, pin_add, buildMerkleTree, ipfs_cat.
  preserve; auto using chain_call_out; try done.
  all: apply chain_on_world; unfold ipfs_cat; preserve.
Qed.

(** A challenge that names sectors stops at the first of them. *)
Lemma answers_throw {B} indices n (k : nat → M daemon B) d :
  indices ≠ [] →
  ∃ e, map_each indices (λ index, i ← big_mod index n; k i) d = (Throw e, d).
Proof. intros Hne. destruct indices; [done|]. by eexists. Qed.

(** The end of the handler, once the sectors are loaded. *)
Lemma answer_silent d0 challengeId (t : tree) (sectors : list bytes) :
  dm_indices d0 challengeId ≠ [] →
  preserves (chain_as d0)
    (call_out ;;
     indices ← gets (λ d, dm_indices d challengeId);
     answers ← map_each indices (λ index,
       k ← big_mod index (length sectors);
       let sector := default [] (sectors !! k) in
       mret (hexlify sector, getHexProof t (keccak256 sector)));
     on_world (send_tx "ProofVerifier" "submitPoSt"
       [JInt challengeId; json_strs (map fst answers); JArr (map (λ a, json_strs (snd a)) answers)])).
Proof.
  intros Hne. apply preserves_bind; [apply chain_call_out|]. intros _ d Hd.
  rewrite (bind_ok (gets _) _ d _ d eq_refl).
  destruct (answers_throw (dm_indices d challengeId) (length sectors)
    (λ k, let sector := default [] (sectors !! k) in mret (hexlify sector, getHexProof t (keccak256 sector))) d)
    as [e He].
  { destruct Hd as (_ & -> & _). done. }
  rewrite (bind_throw _ _ d e d He). done.
Qed.

Lemma handlePoSt_silent d0 challengeId dealId :
  dm_indices d0 challengeId ≠ [] →
  preserves (chain_as d0) (handlePoStChallenge wallet_address prover_configured challengeId dealId).
Proof.
  intros Hne. unfold handlePoStChallenge, loaded, shards_in.
  repeat first [by apply answer_silent | apply chain_http_deal | apply chain_ensurePinned | preserve_step; simpl].
Qed.

(** The whole loop of a poll. *)
Lemma poll_loop_silent d0 events :
  (∀ e, e ∈ events → dm_indices d0 (ce_challengeId e) ≠ []) →
  preserves (chain_as d0) (for_each events (λ event,
    if same_lower (ce_provider event) wallet_address
    then handlePoStChallenge wallet_address prover_configured (ce_challengeId event) (ce_dealId event)
    else mret tt)).
Proof.
  induction events as [|ev events IH]; intros Hne; simpl; [apply preserves_ret|].
  apply preserves_bind; [|intros _; apply IH; set_solver].
  destruct (same_lower _ _); [apply handlePoSt_silent; set_solver|apply preserves_ret].
Qed.

(** The chain log is as before and the poll did not go back. *)
Definition polled_from (d0 d : daemon) : Prop :=
  w_chain (dm_world d) = w_chain (dm_world d0) ∧ lastPolledBlock d0 ≤ lastPolledBlock d.

Lemma chain_as_polled d0 d : chain_as d0 d → polled_from d0 d.
Proof. intros (Hc & _ & _ & _ & Hl). split; [done|lia]. Qed.

Lemma poll_silent d d1 :
  (∀ e, e ∈ dm_events d → dm_indices d (ce_challengeId e) ≠ []) → chain_as d d1 →
  polled_from d (snd (pollPoStChallenges wallet_address prover_configured d1)).
Proof.
  intros Hne H1. unfold pollPoStChallenges, try_catch.
  destruct (negb prover_configured); [exact (chain_as_polled d d1 H1)|].
  pose proof (chain_call_out d d1 H1) as H2. unfold mbind at 1, M_bind.
  destruct (call_out d1) as [[[]|e] d2]; [|exact (chain_as_polled d d2 H2)]. simpl in H2.
  rewrite (bind_ok (gets _) _ d2 _ d2 eq_refl), (bind_ok (gets _) _ d2 _ d2 eq_refl).
  destruct (dm_head d2 <=? lastPolledBlock d2) eqn:Hle;
    [exact (chain_as_polled d d2 H2)|]. apply Z.leb_gt in Hle.
  pose proof (chain_call_out d d2 H2) as H3. unfold mbind at 1, M_bind.
  destruct (call_out d2) as [[[]|e] d3]; [|exact (chain_as_polled d d3 H3)]. simpl in H3.
  rewrite (bind_ok (gets _) _ d3 _ d3 eq_refl).
  set (events := where_ _ _). unfold mbind at 1, M_bind.
  assert (Hev : ∀ e, e ∈ events → dm_indices d (ce_challengeId e) ≠ []).
  { intros e [He _]%elem_of_where. apply Hne. destruct H3 as (_ & _ & _ & <- & _). done. }
  pose proof (poll_loop_silent d events Hev d3 H3) as Hloop.
  destruct (for_each events _ d3) as [[[]|e] d4]; simpl in *; [|exact (chain_as_polled d d4 Hloop)].
  destruct Hloop as (Hc & _). destruct H2 as (_ & _ & _ & _ & Hl). split; [done|]. simpl. lia.
Qed.
(** No proof of space-time reaches the chain: whatever the node, the API and
    the RPC endpoint answer, polling for challenges that name sectors sends no
    transaction, because the sector index is a BigInt and the code takes it modulo a
    number; the last polled block still moves on, so the challenge is not tried again. *)
Theorem posts_never_submitted d :
  (∀ e, e ∈ dm_events d → dm_indices d (ce_challengeId e) ≠ []) →
  polled_from d (snd (pollPoStChallenges wallet_address prover_configured d)).
Proof. intros Hne. by apply poll_silent. Qed.
End PoSt.

(** * Heartbeats *)

Section Heartbeats.
  Context `{Merkle} {ipfs : Ipfs} `{Host} (wallet_address : string) (signMessage : string → string).
  Context (verifyMessage : string → string → option string).

Lemma report_storage_rows address storage d p :
  p ∈ providers (report_storage address storage d) →
  ∃ p0, p0 ∈ providers d ∧ p_address p = p_address p0 ∧ p_active p = p_active p0 ∧
        p_last_heartbeat p = p_last_heartbeat p0.
Proof.
  unfold report_storage, set_storage.
  destruct storage as [[[pledged|] used]|]; simpl; [|intros Hp; by exists p..].
  rewrite elem_of_update_where. intros (p0 & Hp0 & ->). exists p0. by destruct (same_lower _ _).
Qed.

Lemma report_storage_known address storage d p0 :
  p0 ∈ providers d → ∃ p, p ∈ providers (report_storage address storage d) ∧ p_address p = p_address p0.
Proof.
  intros Hp0. unfold report_storage, set_storage.
  destruct storage as [[[pledged|] used]|]; simpl; [|by exists p0..].
  setoid_rewrite elem_of_update_where. eexists. split; [by exists p0|]. by destruct (same_lower _ _).
Qed.

Lemma heartbeat_loss_reports address t storage d :
  loss_reports (report_storage address storage (heartbeat_upsert address t d)) = loss_reports d.
Proof.
  unfold report_storage, set_storage, heartbeat_upsert.
  destruct storage as [[[pledged|] used]|]; simpl; by destruct (existsb _ _).
Qed.

Lemma refresh_status_ok config d : ∃ d', refresh_status config d = (Ok tt, d') ∧ dm_world d' = dm_world d.
Proof.
  unfold refresh_status, on_disk, getVaultStatus, answered. running.
  destruct (dk_data (dm_disk d)); simpl; [|by eexists].
  destruct (du_output (dm_disk d)); simpl; by eexists.
Qed.

(** The heartbeat task of a daemon whose wallet signs for its own address keeps
    the provider online: the API accepts it with or without a vault, and the row of
    the provider is active with the current time.  The loss reports against the
    provider stay: the method that withdraws them is called by no service. *)
Theorem heartbeat_task_keeps_online d :
  no_faults (dm_world d) → wallet_address ≠ "" → signMessage "Kyneto Provider Heartbeat" ≠ "" →
  verifyMessage "Kyneto Provider Heartbeat" (signMessage "Kyneto Provider Heartbeat") = Some wallet_address →
  ∃ d', sendHeartbeat wallet_address signMessage verifyMessage d = (Ok tt, d') ∧
    (∃ p, p ∈ providers (w_db (dm_world d')) ∧ p_address p = toLowerCase wallet_address) ∧
    (∀ p, p ∈ providers (w_db (dm_world d')) → p_address p = toLowerCase wallet_address →
          p_active p = true ∧ p_last_heartbeat p = Some (w_now (dm_world d))) ∧
    loss_reports (w_db (dm_world d')) = loss_reports (w_db (dm_world d)).
Proof.
  intros Hw Ha Hs Hv. unfold sendHeartbeat, try_catch. rewrite (bind_ok (gets _) _ d _ d eq_refl).
  assert (Hst : ∃ d1, (match vaultManager d with Some config => refresh_status config | None => mret tt end) d
                      = (Ok tt, d1) ∧ dm_world d1 = dm_world d).
  { destruct (vaultManager d) as [config|]; [apply refresh_status_ok|by exists d]. }
  destruct Hst as (d1 & Hd1 & Hw1). rewrite (bind_ok _ _ _ _ _ Hd1).
  rewrite (bind_ok (gets _) _ d1 _ d1 eq_refl). set (storage := heartbeat_storage _).
  rewrite <- Hw1 in Hw.
  destruct (postHeartbeat_run verifyMessage wallet_address _ wallet_address storage (dm_world d1) Hw Ha Hs Hv eq_refl)
    as (b & w' & Hrun & Hdb & _ & _).
  assert (Hh : http (postHeartbeat verifyMessage (Some wallet_address)
                       (Some (signMessage "Kyneto Provider Heartbeat")) storage) d1 = (Ok b, with_world w' d1)).
  { unfold http. rewrite (bind_ok _ _ _ _ _ (call_out_ok d1 Hw)). unfold on_world at 1, mbind at 1, M_bind.
    by rewrite Hrun. }
  rewrite (bind_ok _ _ _ _ _ Hh). eexists. split; [reflexivity|]. simpl. rewrite Hdb, Hw1. split_and!.
  - destruct (heartbeat_upsert_known wallet_address (w_now (dm_world d)) (w_db (dm_world d))) as (p0 & Hp0 & He).
    destruct (report_storage_known wallet_address storage _ p0 Hp0) as (p & Hp & Hpe). exists p. by rewrite Hpe.
  - intros p Hp He. apply report_storage_rows in Hp as (p0 & Hp0 & Hpa & -> & ->).
    destruct (heartbeat_upsert_rows _ _ _ _ Hp0) as [(_ & ? & ? & _)|[? _]]; [done|congruence].
  - apply heartbeat_loss_reports.
Qed.
End Heartbeats.

(** ** Witnesses *)

Lemma shared_shard_is_unpinned_witness :
  "shard" ∉ @dm_pins plain_merkle (snd (@checkAssignments plain_merkle raw_ipfs demo_host "0xa"
                                          (fresh_daemon (shared_world false)))).
Proof.
  refine (@shared_shard_is_unpinned plain_merkle raw_ipfs demo_host "0xa" (fresh_daemon (shared_world false))
            "shard" _ _ _ _ _ _).
  - reflexivity.
  - reflexivity.
  - apply shared_known.
  - intros cid Hc. apply (shared_fetchable false). by rewrite <- (matched_wanted _ _ (shared_keyed false) (shared_spelled false)).
  - apply elem_of_list_to_set. by left.
  - exists (shared_shard "D1" false), (shared_deal "D1" "cancelled").
    split_and!; try reflexivity; by left.
Defined.

Lemma checksummed_wallet_pins_nothing_witness :
  @dm_pins plain_merkle (snd (@checkAssignments plain_merkle raw_ipfs demo_host "0xA"
                                (fresh_daemon (shared_world true)))) ⊆ (∅ : gset string).
Proof.
  refine (@checksummed_wallet_pins_nothing plain_merkle raw_ipfs demo_host "0xA" (fresh_daemon (shared_world true))
            _ _ _ _ _).
  - reflexivity.
  - reflexivity.
  - exists (demo_online "0xa"). split; [by left|reflexivity].
  - intros s Hs. simpl in Hs. set_unfold in Hs. destruct Hs as [-> | [-> | []]]; reflexivity.
  - discriminate.
Defined.

Lemma cancellation_message_kills_daemon_witness :
  let w' := snd (@serve raw_ipfs xor_codec demo_verify (CancelDeal "D1" (Some "0xC") (Some "0xC")) demo_api) in
  let e := default (Emit ToAll "" JNull) (last (w_emits w')) in
  @onDealCancelled plain_merkle demo_host "0xa" (em_payload e) (fresh_daemon w')
  = (Throw (Error "Cannot read properties of undefined (reading 'some')"), fresh_daemon w').
Proof.
  intros w' e.
  apply (@cancellation_message_kills_daemon raw_ipfs xor_codec demo_verify plain_merkle demo_host "0xa"
           (CancelDeal "D1" (Some "0xC") (Some "0xC")) true demo_api e).
  left. split_and!.
  - apply (list_elem_of_lookup_2 _ (length (w_emits w') - 1)). vm_compute. reflexivity.
  - vm_compute. intros Hin. by apply elem_of_nil in Hin.
  - vm_compute. reflexivity.
Defined.

Definition challenged : @daemon plain_merkle :=
  @Daemon plain_merkle (shared_world true) new_disk ∅ ∅ ∅ None None 4 9
    [ChallengeCreated 5 1 2 "0xa"] (λ _, [0; 1; 2; 3; 4; 5; 6; 7; 8; 9]) [].

Lemma posts_never_submitted_witness :
  polled_from challenged (snd (@pollPoStChallenges plain_merkle raw_ipfs "0xa" true challenged)) ∧
  @lastPolledBlock plain_merkle (snd (@pollPoStChallenges plain_merkle raw_ipfs "0xa" true challenged)) = 9.
Proof.
  split; [|vm_compute; reflexivity].
  refine (@posts_never_submitted plain_merkle raw_ipfs "0xa" true challenged _). intros e _. discriminate.
Defined.

Lemma heartbeat_task_keeps_online_witness :
  ∃ d', @sendHeartbeat plain_merkle demo_host "0xA" (λ _, "0xA") demo_verify (fresh_daemon demo_silent)
        = (Ok tt, d') ∧
    loss_reports (w_db (dm_world d')) = loss_reports (w_db demo_silent).
Proof.
  destruct (@heartbeat_task_keeps_online plain_merkle demo_host "0xA" (λ _, "0xA") demo_verify
              (fresh_daemon demo_silent)) as (d' & Hrun & _ & _ & Hl); try reflexivity; try discriminate.
  exists d'. split; [exact Hrun | exact Hl].
Defined.

(** A provider reported once loses its shards at the first missed check after its
    return, without a new cooldown: reported at 990 s, back at 1229 s, and silent
    again for a little over a minute at 1291 s. *)
Definition flapping : world :=
  World (Db [demo_provider "0xa" 0] [] [] [demo_shard "D1" "0xa" 0]
            [LossReport "D1" "0xa" 0 "cid" 990000] [] [] [] [] [] [] [])
        None ∅ 1229000 [] [] [] (true, true) true false committed_schema.
Example report_outlives_return :
  let back := @dm_world plain_merkle (snd (@sendHeartbeat plain_merkle demo_host "0xA" (λ _, "0xA") demo_verify
                                            (fresh_daemon flapping))) in
  map r_status (repair_queue (w_db (snd (checkAllProviders (with_now 1291000 back))))) = ["pending"].
Proof. vm_compute. reflexivity. Qed.
