(* ===== verification/EarlierDaemon.v ===== *)
(** The earlier copy of the provider daemon
    (src/incentive-layer/services/provider-daemon/src/index.ts), and how it relates to
    the one in provider-stack/public-repo (Daemon.v): it has no vault, reports a fixed
    storage figure, tries Kubo once, and subscribes to challenges instead of polling.

    Apart from the heartbeat the newer daemon without a vault is this one: a simulation
    relates the two programs task by task, and polling is shown to hand over the
    challenges the subscription would. *)

From stdpp Require Import gmap.
From S2P Require Import Prelude JsNum World ShardManager HealthMonitor RestApi Vault Daemon DaemonSync DaemonFaults.

Local Open Scope Z_scope.

Section Earlier.
  Context `{Merkle}.

(** * State *)

Record node : Type := Node {
  nd_world : world;
  nd_pins : gset string;
  nd_merkleTrees : gmap string tree;
  nd_shardData : gmap string (list bytes);
  nd_indices : Z → list Z;
  nd_listening : bool;                    (* proverContract.on('PoStChallengeCreated', ...) is set *)
  nd_out : list (string * json)
}.

Definition nd_with_world w n := Node w (nd_pins n) (nd_merkleTrees n) (nd_shardData n) (nd_indices n) (nd_listening n) (nd_out n).
Definition nd_with_pins x n := Node (nd_world n) x (nd_merkleTrees n) (nd_shardData n) (nd_indices n) (nd_listening n) (nd_out n).
Definition nd_with_trees x n := Node (nd_world n) (nd_pins n) x (nd_shardData n) (nd_indices n) (nd_listening n) (nd_out n).
Definition nd_with_sectors x n := Node (nd_world n) (nd_pins n) (nd_merkleTrees n) x (nd_indices n) (nd_listening n) (nd_out n).
Definition nd_with_listening x n := Node (nd_world n) (nd_pins n) (nd_merkleTrees n) (nd_shardData n) (nd_indices n) x (nd_out n).
Definition nd_with_out x n := Node (nd_world n) (nd_pins n) (nd_merkleTrees n) (nd_shardData n) (nd_indices n) (nd_listening n) x.

Definition on_world {A} (m : M world A) : M node A := λ n,
  match m (nd_world n) with (r, w) => (r, nd_with_world w n) end.
Definition call_out : M node unit := on_world external.
Definition http (handler : M world response) : M node body :=
  call_out ;;
  r ← on_world handler;
  if (200 <=? r_code r) && (r_code r <? 300) then mret (r_body r)
  else throw (Error ("Request failed with status code " +:+ show_Z (r_code r))).

(** * Sectors and pins *)

Context {ipfs : Ipfs}.

(** The sectors are cut, padded and filled up by the same statements as in the
    newer daemon. *)
Definition buildMerkleTree (cid : string) : M node unit :=
  try_catch
    (chunks ← on_world (ipfs_cat cid);
     let sectors := sectors_of (concat chunks) in
     let leaves := map keccak256 sectors in
     modify (λ n, nd_with_trees (<[cid := merkle_tree leaves]> (nd_merkleTrees n)) n) ;;
     modify (λ n, nd_with_sectors (<[cid := sectors]> (nd_shardData n)) n))
    (λ error, mret tt).

Definition pin_ls (cid : string) : M node (list string) :=
  call_out ;;
  pins ← gets nd_pins;
  if bool_decide (cid ∈ pins) then mret [cid]
  else throw (Error ("path '" +:+ cid +:+ "' is not pinned")).
Definition pin_add (cid : string) : M node unit :=
  call_out ;;
  blocks ← gets (λ n, w_ipfs (nd_world n));
  match blocks !! cid with
  | Some _ => modify (λ n, nd_with_pins ({[cid]} ∪ nd_pins n) n)
  | None => throw (Error ("pin: " +:+ cid +:+ " not found"))
  end.
Definition pin_rm (cid : string) : M node unit :=
  call_out ;;
  pins ← gets nd_pins;
  if bool_decide (cid ∈ pins) then modify (λ n, nd_with_pins (nd_pins n ∖ {[cid]}) n)
  else throw (Error "not pinned or pinned indirectly").

Definition ensurePinned (cid : string) : M node unit :=
  try_catch
    (pins ← pin_ls cid;
     (if existsb (λ pin, bool_decide (pin = cid)) pins then mret tt else pin_add cid) ;;
     built ← gets (λ n, bool_decide (is_Some (nd_merkleTrees n !! cid)));
     if built : bool then mret tt else buildMerkleTree cid)
    (λ e, try_catch (pin_add cid ;; buildMerkleTree cid) (λ pinError, mret tt)).

Definition unpinAndCleanup (cid : string) : M node unit :=
  try_catch
    (try_catch (pin_rm cid) (λ unpinErr, mret tt) ;;
     modify (λ n, nd_with_trees (delete cid (nd_merkleTrees n)) n) ;;
     modify (λ n, nd_with_sectors (delete cid (nd_shardData n)) n) ;;
     try_catch call_out (λ gcErr, mret tt))
    (λ error, mret tt).

(** * Tasks *)

Context (wallet_address : string) (signMessage : string → string).
Context (verifyMessage : string → string → option string) (prover_configured : bool).

Definition shards_in (b : body) (method : string) : M node (list shard_row) :=
  match b with
  | BDeal _ rows => mret (map fst rows)
  | _ => throw (Error ("Cannot read properties of undefined (reading '" +:+ method +:+ "')"))
  end.

Definition cleanupDeletedShards : M node unit :=
  try_catch
    (b ← http (getCleanup wallet_address);
     match b with
     | BCleanup _ cleanup_count rows =>
         if (cleanup_count =? 0)%nat then mret tt
         else for_each rows (λ shard, unpinAndCleanup (cl_shard_cid shard))
     | _ => throw (Error "shards is not iterable")
     end)
    (λ error, mret tt).

Definition checkAssignments : M node unit :=
  try_catch
    (b ← http (getProvider wallet_address);
     let deals := match b with BProvider _ _ rows => rows | _ => [] end in
     for_each deals (λ deal,
       dealDetail ← http (getDeal (d_deal_id deal));
       all ← shards_in dealDetail "filter";
       for_each (where_ (mine wallet_address) all) (λ shard,
         if s_active shard then ensurePinned (s_shard_cid shard) else mret tt)) ;;
     cleanupDeletedShards)
    (λ error, mret tt).

(** [storage: { pledged_capacity_gb: parseInt(process.env.PLEDGED_CAPACITY_GB || '10'), used_gb: 0 }] *)
Definition fixed_storage (PLEDGED_CAPACITY_GB : option string) : option (option num * option num) :=
  Some (Some (num_of_int (parseInt (env_or PLEDGED_CAPACITY_GB "10"))), Some (num_of_Z 0)).

Definition sendHeartbeat (PLEDGED_CAPACITY_GB : option string) : M node unit :=
  try_catch
    (let signature := signMessage "Kyneto Provider Heartbeat" in
     http (postHeartbeat verifyMessage (Some wallet_address) (Some signature) (fixed_storage PLEDGED_CAPACITY_GB)) ;;
     mret tt)
    (λ error, mret tt).

(** * Relay events *)

Definition texts (j : option json) (what : string) : M node (list string) :=
  match j with
  | Some (JArr xs) => mret (omap (λ x, match x with JStr s => Some s | _ => None end) xs)
  | _ => throw (Error ("Cannot read properties of undefined (reading '" +:+ what +:+ "')"))
  end.

Definition onConnect : M node unit :=
  modify (λ n, nd_with_out (nd_out n ++ [("register:provider", JObj [("address", JStr wallet_address)])]) n).

Definition onDealCancelled (data : json) : M node unit :=
  providerAddresses ← texts (field "providerAddresses" data) "some";
  if existsb (λ addr, same_lower addr wallet_address) providerAddresses then
    shardCIDs ← texts (field "shardCIDs" data) "length";
    for_each shardCIDs unpinAndCleanup
  else mret tt.

Definition onGetPeerId (peerId : string) : M node json :=
  try_catch (call_out ;; mret (JObj [("peerId", JStr peerId)]))
            (λ e, mret (JObj [("error", JStr "Failed to get peer ID")])).

(** * Challenges *)

(** [index % sectors.length] with a BigInt on the left. *)
Definition big_mod (index : Z) (n : nat) : M node nat :=
  throw (Error "Cannot mix BigInt and other types, use explicit conversions").

Definition loaded (cid : string) : M node (option (tree * list bytes)) :=
  t ← gets (λ n, nd_merkleTrees n !! cid);
  s ← gets (λ n, nd_shardData n !! cid);
  mret (match t, s with Some t, Some s => Some (t, s) | _, _ => None end).

Definition handlePoStChallenge (challengeId dealId : Z) : M node unit :=
  try_catch
    (if negb prover_configured then mret tt else
     response ← http (getDeal (show_Z dealId));
     all ← shards_in response "find";
     match find_first (mine wallet_address) all with
     | None => throw (Error ("No shard found for deal " +:+ show_Z dealId +:+ " assigned to this provider"))
     | Some shard =>
         let cid := s_shard_cid shard in
         first ← loaded cid;
         (match first with Some _ => mret tt | None => ensurePinned cid end) ;;
         second ← loaded cid;
         match second with
         | None => throw (Error ("Failed to load Merkle tree for shard " +:+ cid))
         | Some (t, sectors) =>
             call_out ;;
             indices ← gets (λ n, nd_indices n challengeId);
             answers ← map_each indices (λ index,
               k ← big_mod index (length sectors);
               let sector := default [] (sectors !! k) in
               mret (hexlify sector, getHexProof t (keccak256 sector)));
             on_world (send_tx "ProofVerifier" "submitPoSt"
               [JInt challengeId; json_strs (map fst answers); JArr (map (λ a, json_strs (snd a)) answers)])
         end
     end)
    (λ error, mret tt).

(** The listener of PoStChallengeCreated. *)
Definition onChallenge (event : challenge_event) : M node unit :=
  if same_lower (ce_provider event) wallet_address
  then handlePoStChallenge (ce_challengeId event) (ce_dealId event)
  else mret tt.

(** * Start and stop *)

(** [true] when the daemon is up, [false] for [process.exit(1)]. *)
Definition start (PLEDGED_CAPACITY_GB : option string) : M node bool :=
  connected ← try_catch (call_out ;; mret true) (λ e, mret false);
  if negb connected then mret false else
  (if prover_configured then modify (nd_with_listening true) else mret tt) ;;
  sendHeartbeat PLEDGED_CAPACITY_GB ;;
  checkAssignments ;;
  mret true.

(** [removeAllListeners]; the timers and the socket are gone with the session. *)
Definition stop : M node unit := if prover_configured then modify (nd_with_listening false) else mret tt.
End Earlier.

(** * The newer daemon without a vault is the earlier one *)

Section Simulation.
  Context `{Merkle} {ipfs : Ipfs} `{Host}.

(** The earlier daemon inside a newer one. *)
Definition view (l : bool) (d : daemon) : node :=
  Node (dm_world d) (dm_pins d) (merkleTrees d) (shardData d) (dm_indices d) l (relay_out d).

(** What no task but polling changes. *)
Definition frame (d d' : daemon) : Prop :=
  vaultManager d' = vaultManager d ∧ lastPolledBlock d' = lastPolledBlock d ∧
  dm_head d' = dm_head d ∧ dm_events d' = dm_events d.

#[local] Instance frame_preorder : PreOrder frame.
Proof. split; [done|]. intros d1 d2 d3 (? & ? & ? & ?) (? & ? & ? & ?). unfold frame. by split_and!; etrans. Qed.

(** [m0] does to the earlier daemon what [m] does to a newer one without a vault. *)
Definition sim {A} (m : M daemon A) (m0 : M node A) : Prop := ∀ l d r d',
  vaultManager d = None → m d = (r, d') → m0 (view l d) = (r, view l d') ∧ frame d d'.

Lemma sim_ret {A} (a : A) : sim (mret a) (mret a).
Proof. by intros l d r d' _ [= <- <-]. Qed.
Lemma sim_throw {A} e : sim (throw e : M daemon A) (throw e).
Proof. by intros l d r d' _ [= <- <-]. Qed.
Lemma sim_gets {A} (f : daemon → A) g : (∀ l d, g (view l d) = f d) → sim (gets f) (gets g).
Proof. intros Hg l d r d' _ [= <- <-]. unfold gets. by rewrite Hg. Qed.
Lemma sim_modify f g : (∀ l d, g (view l d) = view l (f d) ∧ frame d (f d)) → sim (modify f) (modify g).
Proof. intros Hg l d r d' _ [= <- <-]. unfold modify. by destruct (Hg l d) as [-> ?]. Qed.
Lemma sim_bind {A B} (m : M daemon A) m0 (k : A → M daemon B) k0 :
  sim m m0 → (∀ a, sim (k a) (k0 a)) → sim (m ≫= k) (m0 ≫= k0).
Proof.
  intros Hm Hk l d r d' Hd Hr. unfold mbind, M_bind in *. destruct (m d) as [o d1] eqn:E.
  destruct (Hm l d _ _ Hd E) as [-> Hf]. destruct o as [a|e].
  - destruct (Hk a l d1 r d') as [-> ?]; [by rewrite (proj1 Hf)|done|]. split; [done|by etrans].
  - by injection Hr as <- <-.
Qed.
Lemma sim_try {A} (m : M daemon A) m0 h h0 :
  sim m m0 → (∀ e, sim (h e) (h0 e)) → sim (try_catch m h) (try_catch m0 h0).
Proof.
  intros Hm Hk l d r d' Hd Hr. unfold try_catch in *. destruct (m d) as [o d1] eqn:E.
  destruct (Hm l d _ _ Hd E) as [-> Hf]. destruct o as [a|e].
  - by injection Hr as <- <-.
  - destruct (Hk e l d1 r d') as [-> ?]; [by rewrite (proj1 Hf)|done|]. split; [done|by etrans].
Qed.
Lemma sim_for_each {A} (xs : list A) f f0 : (∀ x, sim (f x) (f0 x)) → sim (for_each xs f) (for_each xs f0).
Proof. intros Hf. induction xs; simpl; [apply sim_ret|]. by apply sim_bind. Qed.
Lemma sim_map_each {A B} (xs : list A) (f : A → M daemon B) f0 :
  (∀ x, sim (f x) (f0 x)) → sim (map_each xs f) (map_each xs f0).
Proof.
  intros Hf. induction xs; simpl; [apply sim_ret|]. apply sim_bind; [done|]. intros y.
  apply sim_bind; [done|]. intros ys. apply sim_ret.
Qed.
Lemma sim_world {A} (m : M world A) : sim (Daemon.on_world m) (on_world m).
Proof.
  intros l d r d' _. unfold Daemon.on_world, on_world. simpl. destruct (m (dm_world d)) as [o w].
  by intros [= <- <-].
Qed.

(** One step down both programs. *)
Ltac sim_step :=
  match goal with
  | |- sim (mret _) _ => apply sim_ret
  | |- sim (throw _) _ => apply sim_throw
  | |- sim (gets _) _ => by apply sim_gets
  | |- sim (modify _) _ => by apply sim_modify
  | |- sim (Daemon.on_world _) _ => apply sim_world
  | |- sim (_ ≫= _) _ => apply sim_bind; [|intros ?]
  | |- sim (try_catch _ _) _ => apply sim_try; [|intros ?]
  | |- sim (for_each _ _) _ => apply sim_for_each; intros ?
  | |- sim (map_each _ _) _ => apply sim_map_each; intros ?
  | |- sim (match ?x with _ => _ end) _ => destruct x
  end.
Ltac simulate := repeat (sim_step; cbv zeta); eauto with earlier.

Create HintDb earlier.

Lemma sim_call_out : sim Daemon.call_out call_out.
Proof. apply sim_world. Qed.
#[local] Hint Resolve sim_call_out : earlier.
Lemma sim_http h : sim (Daemon.http h) (http h).
Proof. unfold Daemon.http, http. simulate. Qed.
Lemma sim_pin_ls cid : sim (Daemon.pin_ls cid) (pin_ls cid).
Proof. unfold Daemon.pin_ls, pin_ls. simulate. Qed.
Lemma sim_pin_add cid : sim (Daemon.pin_add cid) (pin_add cid).
Proof. unfold Daemon.pin_add, pin_add. simulate. Qed.
Lemma sim_pin_rm cid : sim (Daemon.pin_rm cid) (pin_rm cid).
Proof. unfold Daemon.pin_rm, pin_rm. simulate. Qed.
Lemma sim_build cid : sim (Daemon.buildMerkleTree cid) (buildMerkleTree cid).
Proof. unfold Daemon.buildMerkleTree, buildMerkleTree. simulate. Qed.
Lemma sim_shards b what : sim (Daemon.shards_in b what) (shards_in b what).
Proof. unfold Daemon.shards_in, shards_in. simulate. Qed.
Lemma sim_texts j what : sim (Daemon.texts j what) (texts j what).
Proof. unfold Daemon.texts, texts. simulate. Qed.
Lemma sim_loaded cid : sim (Daemon.loaded cid) (loaded cid).
Proof. unfold Daemon.loaded, loaded. simulate. Qed.
#[local] Hint Resolve sim_http sim_pin_ls sim_pin_add sim_pin_rm sim_build sim_shards sim_texts sim_loaded : earlier.

Lemma sim_ensurePinned cid : sim (Daemon.ensurePinned cid) (ensurePinned cid).
Proof. unfold Daemon.ensurePinned, ensurePinned. simulate. Qed.

(** Without a vault the extra statements of the newer cleanup do nothing. *)
Lemma sim_no_vault {B} (k : unit → M daemon B) k0 :
  sim (k tt) k0 →
  sim (manager ← gets vaultManager;
       (match manager with Some config => decreaseUsedGB ;; refresh_status config | None => mret tt end) ≫= k) k0.
Proof. intros Hk l d r d' Hd. rewrite gets_bind, Hd. by apply Hk. Qed.
Lemma sim_unpin cid : sim (Daemon.unpinAndCleanup cid) (unpinAndCleanup cid).
Proof.
  unfold Daemon.unpinAndCleanup, unpinAndCleanup. apply sim_try; [|intros; apply sim_ret].
  do 3 (apply sim_bind; [by simulate|intros []]). apply sim_no_vault. simulate.
Qed.
#[local] Hint Resolve sim_ensurePinned sim_unpin : earlier.

(** ** Tasks *)

Context (wallet_address : string) (prover_configured : bool).

(** The tasks both daemons have, but for heartbeats. *)
Inductive task : Type :=
| Assignments
| Connected
| Cancelled (data : json)
| PeerId (peerId : string)
| Challenge (event : challenge_event).

Definition earlier_task (t : task) : M node unit :=
  match t with
  | Assignments => checkAssignments wallet_address
  | Connected => onConnect wallet_address
  | Cancelled data => onDealCancelled wallet_address data
  | PeerId id => onGetPeerId id ;; mret tt
  | Challenge event => onChallenge wallet_address prover_configured event
  end.
(** A challenge is handled as in the loop of [pollPoStChallenges]. *)
Definition newer_task (t : task) : M daemon unit :=
  match t with
  | Assignments => Daemon.checkAssignments wallet_address
  | Connected => Daemon.onConnect wallet_address
  | Cancelled data => Daemon.onDealCancelled wallet_address data
  | PeerId id => Daemon.onGetPeerId id ;; mret tt
  | Challenge event =>
      if same_lower (ce_provider event) wallet_address
      then Daemon.handlePoStChallenge wallet_address prover_configured (ce_challengeId event) (ce_dealId event)
      else mret tt
  end.

Lemma sim_challenge id deal :
  sim (Daemon.handlePoStChallenge wallet_address prover_configured id deal)
      (handlePoStChallenge wallet_address prover_configured id deal).
Proof. unfold Daemon.handlePoStChallenge, handlePoStChallenge, Daemon.big_mod, big_mod. simulate. Qed.
#[local] Hint Resolve sim_challenge : earlier.

Lemma sim_task t : sim (newer_task t) (earlier_task t).
Proof.
  destruct t; simpl;
    unfold Daemon.checkAssignments, checkAssignments, Daemon.cleanupDeletedShards, cleanupDeletedShards,
      Daemon.onDealCancelled, onDealCancelled, Daemon.onConnect, onConnect, Daemon.onGetPeerId, onGetPeerId, onChallenge;
    simulate.
Qed.

(** C40. The newer daemon without a vault is the earlier one: for every sequence of
    assignment runs, socket messages and challenges, under every schedule of failures
    and up to a message that ends the process, both make the same calls of API, node
    and chain and have the same pins, trees and sectors. *)
Theorem newer_daemon_is_earlier l d tasks r d' :
  vaultManager d = None → for_each tasks newer_task d = (r, d') →
  for_each tasks earlier_task (view l d) = (r, view l d').
Proof.
  intros Hd Hr. exact (proj1 (sim_for_each tasks _ _ sim_task l d r d' Hd Hr)).
Qed.
End Simulation.

(** * Polling against subscription *)

Section Polling.
  Context `{Merkle} {ipfs : Ipfs} `{Host} (wallet_address : string).

Definition with_head x d := Daemon (dm_world d) (dm_disk d) (dm_pins d) (merkleTrees d) (shardData d) (vaultManager d) (vaultStatus d) (lastPolledBlock d) x (dm_events d) (dm_indices d) (relay_out d).

(** A poll while the chain is at block [head]. *)
Definition poll_at (head : Z) : M daemon unit :=
  modify (with_head head) ;; pollPoStChallenges wallet_address true.

Definition in_blocks (a b : Z) (e : challenge_event) : bool := (a <? ce_block e) && (ce_block e <=? b).

(** Events come in the order of their blocks. *)
Definition ordered (events : list challenge_event) : Prop :=
  StronglySorted (λ e1 e2, ce_block e1 ≤ ce_block e2) events.

Lemma where_none {A} (p : A → bool) xs : (∀ x, x ∈ xs → p x = false) → where_ p xs = [].
Proof.
  unfold where_. induction xs as [|x xs IH]; intros Hp; [done|]. simpl.
  rewrite Hp by set_solver. apply IH. set_solver.
Qed.

Lemma in_blocks_spec a b e : in_blocks a b e = true ↔ a < ce_block e ≤ b.
Proof. unfold in_blocks. rewrite andb_true_iff, Z.ltb_lt, Z.leb_le. done. Qed.

Lemma blocks_split a b c events : a ≤ b → b ≤ c → ordered events →
  where_ (in_blocks a c) events = where_ (in_blocks a b) events ++ where_ (in_blocks b c) events.
Proof.
  intros Hab Hbc. induction 1 as [|e events Hs IH Hall]; [done|].
  unfold where_ in *. simpl. destruct (in_blocks a b e) eqn:E1.
  - apply in_blocks_spec in E1. assert (in_blocks a c e = true) as -> by (apply in_blocks_spec; lia).
    assert (in_blocks b c e = false) as ->; [|by rewrite IH].
    apply not_true_is_false. rewrite in_blocks_spec. lia.
  - apply not_true_iff_false in E1. rewrite in_blocks_spec in E1.
    assert (in_blocks a c e = in_blocks b c e) as ->.
    { apply eq_true_iff_eq. rewrite !in_blocks_spec. lia. }
    destruct (in_blocks b c e) eqn:E2; [|exact IH]. rewrite IH. apply in_blocks_spec in E2.
    assert (List.filter (in_blocks a b) events = []) as ->; [|done].
    apply where_none. intros x Hx. rewrite Forall_forall in Hall. specialize (Hall x Hx). simpl in Hall.
    apply not_true_is_false. rewrite in_blocks_spec. lia.
Qed.

(** ** One poll *)

Definition handle (e : challenge_event) : M daemon unit := newer_task wallet_address true (Challenge e).

Lemma challenge_handled_total e : total (handle e).
Proof. unfold handle. simpl. unfold Daemon.handlePoStChallenge. totality. Qed.

(** A call that did not fail leaves no failure behind. *)
Definition quiet (d : daemon) : Prop := no_faults (dm_world d).
Lemma quiet_on_world {A} (m : M world A) : preserves no_faults m → preserves quiet (Daemon.on_world m).
Proof.
  intros Hm d Hd. unfold Daemon.on_world. specialize (Hm _ Hd). by destruct (m (dm_world d)).
Qed.
Lemma quiet_external : preserves no_faults external.
Proof. intros w Hw. by rewrite external_ok. Qed.
Lemma quiet_query : preserves no_faults query.
Proof. intros w Hw. by rewrite query_ok. Qed.
Lemma quiet_call_out : preserves quiet Daemon.call_out.
Proof. apply quiet_on_world, quiet_external. Qed.
Lemma quiet_http_deal id : preserves quiet (Daemon.http (getDeal id)).
Proof.
  unfold Daemon.http. preserve; [apply quiet_call_out|]. apply quiet_on_world.
  unfold getDeal, route, fail, send, select. preserve; apply quiet_query.
Qed.
Lemma quiet_ensurePinned cid : preserves quiet (Daemon.ensurePinned cid).
Proof.
  unfold Daemon.ensurePinned, Daemon.pin_ls, Daemon.pin_add, Daemon.buildMerkleTree.
  preserve; auto using quiet_call_out; try done.
  all: apply quiet_on_world; unfold ipfs_cat; preserve; apply quiet_external.
Qed.
Lemma quiet_handle e : preserves quiet (handle e).
Proof.
  unfold handle. simpl. unfold Daemon.handlePoStChallenge, Daemon.loaded, Daemon.shards_in, Daemon.big_mod.
  repeat first [apply quiet_http_deal | apply quiet_ensurePinned | apply quiet_call_out | preserve_step; simpl].
  all: apply quiet_on_world; unfold send_tx; preserve; apply quiet_external || done.
Qed.

Lemma handle_all_frame events d d' :
  vaultManager d = None → for_each events handle d = (Ok tt, d') → frame d d'.
Proof.
  intros Hd Hr. exact (proj2 (sim_for_each events _ _ (λ e, sim_task wallet_address true (Challenge e)) true d _ _ Hd Hr)).
Qed.

Lemma poll_at_run head d :
  quiet d → lastPolledBlock d ≤ head →
  ∃ d1, for_each (where_ (in_blocks (lastPolledBlock d) head) (dm_events d)) handle (with_head head d) = (Ok tt, d1) ∧
        poll_at head d = (Ok tt, with_polled head d1).
Proof.
  intros Hq Hle. set (evs := where_ _ _).
  destruct (total_unit _ (with_head head d) (total_for_each evs handle challenge_handled_total)) as [d1 H1].
  exists d1. split; [done|]. unfold poll_at, pollPoStChallenges. rewrite modify_bind. simpl. unfold try_catch.
  rewrite (bind_ok _ _ _ _ _ (call_out_ok (with_head head d) Hq)), !gets_bind. simpl.
  destruct (head <=? lastPolledBlock d) eqn:Hh.
  - apply Z.leb_le in Hh. assert (evs = []) as E.
    { apply where_none. intros e _. apply not_true_is_false. rewrite in_blocks_spec. lia. }
    rewrite E in H1. injection H1 as <-. unfold mret, M_ret. repeat f_equal.
    destruct d; unfold with_polled, with_head; simpl in *. f_equal. lia.
  - rewrite (bind_ok _ _ _ _ _ (call_out_ok (with_head head d) Hq)), gets_bind. simpl.
    assert (where_ (λ e, (lastPolledBlock d + 1 <=? ce_block e) && (ce_block e <=? head)) (dm_events d) = evs) as ->.
    { apply where_ext. intros e _. apply eq_true_iff_eq. unfold in_blocks. rewrite !andb_true_iff, Z.leb_le, Z.ltb_lt. lia. }
    unfold handle in H1. simpl in H1. by rewrite (bind_ok _ _ _ _ _ H1).
Qed.

(** Handling events on the earlier daemon inside. *)
Lemma handle_all_sim l events d d' :
  vaultManager d = None → for_each events handle d = (Ok tt, d') →
  for_each events (onChallenge wallet_address true) (view l d) = (Ok tt, view l d').
Proof.
  intros Hd Hr. exact (proj1 (sim_for_each events _ _ (λ e, sim_task wallet_address true (Challenge e)) l d _ _ Hd Hr)).
Qed.

Lemma polls_run l heads : ∀ d,
  quiet d → vaultManager d = None → ordered (dm_events d) → StronglySorted Z.le (lastPolledBlock d :: heads) →
  ∃ d', for_each heads poll_at d = (Ok tt, d') ∧ lastPolledBlock d' = default (lastPolledBlock d) (last heads) ∧
    for_each (where_ (in_blocks (lastPolledBlock d) (lastPolledBlock d')) (dm_events d))
             (onChallenge wallet_address true) (view l d) = (Ok tt, view l d').
Proof.
  induction heads as [|head heads IH]; intros d Hq Hv Ho Hs.
  - exists d. split_and!; [done..|]. rewrite where_none; [done|].
    intros e _. apply not_true_is_false. rewrite in_blocks_spec. lia.
  - inversion Hs as [|? ? Hs' Hall]; subst. apply Forall_cons in Hall as [Hle Hall].
    destruct (poll_at_run head d Hq Hle) as (d1 & H1 & Hp).
    destruct (handle_all_frame _ (with_head head d) _ Hv H1) as (Hv1 & Hl1 & _ & He1).
    assert (quiet d1) as Hq1.
    { pose proof (preserves_for_each quiet (where_ (in_blocks (lastPolledBlock d) head) (dm_events d)) handle
        quiet_handle (with_head head d) Hq) as Hq1. by rewrite H1 in Hq1. }
    destruct (IH (with_polled head d1)) as (d' & Hr & Hl & Hall'); simpl; [done|by rewrite Hv1|by rewrite He1|done|].
    exists d'. simpl. rewrite (bind_ok _ _ _ _ _ Hp). split_and!; [done| |].
    + rewrite Hl. destruct heads as [|h heads]; [done|]. simpl. by destruct (last (h :: heads)) eqn:E; [|by apply last_None in E].
    + assert (head ≤ lastPolledBlock d') as Hd'.
      { rewrite Hl. destruct (last heads) as [h|] eqn:E; simpl; [|done].
        inversion Hs' as [|? ? _ Hf]; subst. rewrite Forall_forall in Hf. apply Hf.
        apply last_Some in E as [? ->]. set_solver. }
      rewrite (blocks_split _ head) by done. rewrite for_each_app.
      rewrite (bind_ok _ _ _ _ _ (handle_all_sim l _ (with_head head d) d1 Hv H1)).
      simpl in Hall'. by rewrite He1 in Hall'.
Qed.

(** Polling hands over the challenges of the subscription: when everything
    answers, polls at any growing blocks leave the node as if the listener of the
    earlier daemon had been called once, in order, for every challenge of the
    blocks after the first and up to the last polled one. *)
Theorem polling_is_subscription l d heads :
  no_faults (dm_world d) → vaultManager d = None → ordered (dm_events d) →
  StronglySorted Z.le (lastPolledBlock d :: heads) →
  let upto := default (lastPolledBlock d) (last heads) in
  ∃ d', for_each heads poll_at d = (Ok tt, d') ∧ lastPolledBlock d' = upto ∧
    for_each (where_ (in_blocks (lastPolledBlock d) upto) (dm_events d))
             (onChallenge wallet_address true) (view l d) = (Ok tt, view l d').
Proof.
  intros Hq Hv Ho Hs upto. destruct (polls_run l heads d Hq Hv Ho Hs) as (d' & Hr & Hl & Hall).
  exists d'. rewrite Hl in Hall. done.
Qed.
End Polling.

(** * Heartbeats *)

Section Heartbeat.
  Context `{Merkle} (wallet_address : string) (signMessage : string → string).
  Context (verifyMessage : string → string → option string).

(** The earlier daemon always reports its storage as empty: an accepted heartbeat
    sets the used space of the provider to zero and its pledge to the environment's,
    whatever the database had. *)
Theorem earlier_heartbeat_reports_empty env n p :
  no_faults (nd_world n) → wallet_address ≠ "" → signMessage "Kyneto Provider Heartbeat" ≠ "" →
  verifyMessage "Kyneto Provider Heartbeat" (signMessage "Kyneto Provider Heartbeat") = Some wallet_address →
  let n' := snd (sendHeartbeat wallet_address signMessage verifyMessage env n) in
  p ∈ providers (w_db (nd_world n')) → toLowerCase (p_address p) = toLowerCase wallet_address →
  p_used_gb p = num_of_Z 0 ∧ p_pledged_capacity_gb p = num_of_int (parseInt (env_or env "10")).
Proof.
  intros Hw Ha Hs Hv n'. unfold n', sendHeartbeat, try_catch, http.
  set (sig := signMessage _) in *.
  destruct (postHeartbeat_run verifyMessage wallet_address sig wallet_address (fixed_storage env) (nd_world n)
    Hw Ha Hs Hv eq_refl) as (b & w' & Hrun & Hdb & _ & _).
  assert (call_out n = (Ok tt, n)) as Hc.
  { unfold call_out, on_world. rewrite external_ok by done. by destruct n. }
  assert (on_world (postHeartbeat verifyMessage (Some wallet_address) (Some sig) (fixed_storage env)) n
          = (Ok (Resp 200 b), nd_with_world w' n)) as Ho by (unfold on_world; by rewrite Hrun).
  rewrite bind_assoc_run, (bind_ok _ _ _ _ _ Hc), bind_assoc_run, (bind_ok _ _ _ _ _ Ho). simpl.
  rewrite Hdb. unfold fixed_storage, report_storage, set_storage. simpl. rewrite elem_of_update_where.
  intros (p0 & _ & ->). unfold same_lower. case_bool_decide as E; [done|]. intros Hp. by destruct E.
Qed.
End Heartbeat.

(** ** Witnesses *)

Definition plain_daemon : @daemon plain_merkle := fresh_daemon (shared_world true).

Lemma newer_daemon_is_earlier_witness :
  let r := for_each [Connected; Assignments; Cancelled (JObj []); Assignments]
             (@earlier_task plain_merkle raw_ipfs "0xa" false) (@view plain_merkle true plain_daemon) in
  @nd_pins plain_merkle (snd r) = {[ "shard" ]} ∧
  fst r = Throw (Error "Cannot read properties of undefined (reading 'some')").
Proof.
  set (tasks := [Connected; Assignments; Cancelled (JObj []); Assignments]).
  pose proof (@newer_daemon_is_earlier plain_merkle raw_ipfs demo_host "0xa" false true plain_daemon tasks
    (fst (for_each tasks (@newer_task plain_merkle raw_ipfs demo_host "0xa" false) plain_daemon))
    (snd (for_each tasks (@newer_task plain_merkle raw_ipfs demo_host "0xa" false) plain_daemon)) eq_refl
    ltac:(apply surjective_pairing)) as Hr.
  cbv zeta. rewrite Hr. split; vm_compute; reflexivity.
Defined.

(** Two challenges, one of them for another provider. *)
Definition challenged : @daemon plain_merkle :=
  @Daemon plain_merkle (shared_world true) new_disk ∅ ∅ ∅ None None 4 4
    [ChallengeCreated 5 0 1 "0xA"; ChallengeCreated 5 1 1 "0xb"; ChallengeCreated 8 2 1 "0xa"] (λ _, [3]) [].

Lemma polling_is_subscription_witness :
  length (where_ (in_blocks 4 9) (@dm_events plain_merkle challenged)) = 3%nat ∧
  ∃ d', for_each [6; 6; 9] (@poll_at plain_merkle raw_ipfs "0xa") challenged = (Ok tt, d') ∧
        @lastPolledBlock plain_merkle d' = 9.
Proof.
  split; [reflexivity|].
  destruct (@polling_is_subscription plain_merkle raw_ipfs demo_host "0xa" true challenged [6; 6; 9])
    as (d' & Hr & Hl & _).
  - reflexivity.
  - reflexivity.
  - repeat constructor; simpl; lia.
  - repeat constructor; simpl; lia.
  - by exists d'.
Defined.

Lemma earlier_heartbeat_reports_empty_witness :
  let n' := snd (@sendHeartbeat plain_merkle "0xa" (λ _, "sig") (λ _ _, Some "0xa") (Some "25")
                   (@view plain_merkle true plain_daemon)) in
  length (providers (w_db (@nd_world plain_merkle n'))) = 1%nat ∧
  Forall (λ p, p_used_gb p = num_of_Z 0 ∧ p_pledged_capacity_gb p = num_of_Z 25) (providers (w_db (@nd_world plain_merkle n'))).
Proof.
  intros n'. split; [vm_compute; reflexivity|]. apply Forall_forall. intros p Hp.
  apply (@earlier_heartbeat_reports_empty plain_merkle "0xa" (λ _, "sig") (λ _ _, Some "0xa") (Some "25")
    (@view plain_merkle true plain_daemon) p); [reflexivity|done|done|reflexivity|exact Hp|].
  assert (p_address p ∈ map p_address (providers (w_db (@nd_world plain_merkle n')))) as Ha
    by (by apply list_elem_of_fmap_2).
  assert (map p_address (providers (w_db (@nd_world plain_merkle n'))) = ["0xa"]) as E by (vm_compute; reflexivity).
  rewrite E in Ha. apply list_elem_of_singleton in Ha. by rewrite Ha.
Defined.
