(* ===== verification/Indexer.v ===== *)
(** The indexer (src/incentive-layer/indexer/src/index.ts): it connects to the RPC
    endpoint with exponential backoff, mirrors the deals table to IPFS on every
    block, reconnects when the connection breaks and answers health checks.

    The state is the shared world with the module variables, the delays it slept, what
    the endpoint does with the next attempts to connect and whether the process ended.
    An attempt may be answered, rejected, or left pending for ever: the provider of
    ethers 6 keeps looking for the network of an endpoint it cannot reach, and the call
    that waits for it does not settle.  The table [system_config] is separate: the schema of
    the repository does not create it, so it may be missing. *)

From S2P Require Import Prelude JsNum World RestApi.

Local Open Scope Z_scope.

Definition MAX_RETRIES : nat := 10.
Definition BASE_DELAY_MS : Z := 1000.

(** What becomes of [await provider.getBlockNumber()]. *)
Inductive rpc_answer : Type :=
| Answers
| Rejects (e : js_error)
| Hangs.

Record indexer : Type := Indexer {
  ix_world : world;
  isConnected : bool;
  retryCount : nat;
  currentProvider : bool;                        (* a provider is set *)
  listening : bool;                              (* its listeners are registered *)
  slept : list Z;                                (* delays, oldest first *)
  system_config : option (list (string * string));
  exited : option Z;
  endpoint : list rpc_answer                     (* the next attempts; then it answers *)
}.

Definition with_ix_world w s := Indexer w (isConnected s) (retryCount s) (currentProvider s) (listening s) (slept s) (system_config s) (exited s) (endpoint s).
Definition with_connected b s := Indexer (ix_world s) b (retryCount s) (currentProvider s) (listening s) (slept s) (system_config s) (exited s) (endpoint s).
Definition with_retries n s := Indexer (ix_world s) (isConnected s) n (currentProvider s) (listening s) (slept s) (system_config s) (exited s) (endpoint s).
Definition with_provider b s := Indexer (ix_world s) (isConnected s) (retryCount s) b (listening s) (slept s) (system_config s) (exited s) (endpoint s).
Definition with_listening b s := Indexer (ix_world s) (isConnected s) (retryCount s) (currentProvider s) b (slept s) (system_config s) (exited s) (endpoint s).
Definition with_slept ds s := Indexer (ix_world s) (isConnected s) (retryCount s) (currentProvider s) (listening s) ds (system_config s) (exited s) (endpoint s).
Definition with_config c s := Indexer (ix_world s) (isConnected s) (retryCount s) (currentProvider s) (listening s) (slept s) c (exited s) (endpoint s).
Definition with_exited c s := Indexer (ix_world s) (isConnected s) (retryCount s) (currentProvider s) (listening s) (slept s) (system_config s) c (endpoint s).
Definition with_endpoint l s := Indexer (ix_world s) (isConnected s) (retryCount s) (currentProvider s) (listening s) (slept s) (system_config s) (exited s) l.

Definition in_world {A} (m : M world A) : M indexer A := λ s,
  match m (ix_world s) with (r, w) => (r, with_ix_world w s) end.

(** * Connecting *)

(** [Math.min(BASE_DELAY_MS * Math.pow(2, retryCount - 1), 30000)] *)
Definition backoff (retries : nat) : Z := Z.min (BASE_DELAY_MS * 2 ^ (Z.of_nat retries - 1)) 30000.

Definition sleep (ms : Z) : M indexer unit := modify (λ s, with_slept (slept s ++ [ms]) s).

(** An asynchronous function has returned, or waits for a call that never settles:
    then nothing after the [await] runs. *)
Inductive awaited : Type := Returned | Pending.

(** The next attempt: [Ok] with whether it settled, or the rejection. *)
Definition getBlockNumber : M indexer awaited :=
  rest ← gets endpoint;
  modify (with_endpoint (tail rest)) ;;
  match rest with
  | Rejects e :: _ => throw e
  | Hangs :: _ => mret Pending
  | _ => mret Returned
  end.

(** [while (retryCount < MAX_RETRIES) { ... }]; one unit of fuel per turn. *)
Fixpoint connect_loop (fuel : nat) : M indexer awaited :=
  match fuel with
  | O => throw (Error "out of fuel")
  | S fuel' =>
      n ← gets retryCount;
      if (n <? MAX_RETRIES)%nat then
        turn ← try_catch
          (block ← getBlockNumber;
           match block with
           | Pending => mret (Some Pending)
           | Returned =>
               modify (with_connected true) ;;
               modify (with_retries 0) ;;
               mret (Some Returned)
           end)
          (λ error,
             modify (λ s, with_retries (S (retryCount s)) s) ;;
             n' ← gets retryCount;
             sleep (backoff n') ;;
             mret None);
        match turn : option awaited with Some r => mret r | None => connect_loop fuel' end
      else throw (Error ("Failed to connect to RPC after " +:+ pretty MAX_RETRIES +:+ " attempts"))
  end.
Definition connectWithRetry : M indexer awaited := connect_loop (S MAX_RETRIES).

(** * Mirroring *)

Section Indexing.
  Context {ipfs : Ipfs}.
(** The document: the block, the rows as the database driver returns them, the time. *)
  Context (metadata : Z → list deal_row → Z → bytes).

Definition set_config (key value : string) : M indexer unit :=
  in_world external ;;
  table ← gets system_config;
  match table with
  | None => throw (Error "relation system_config does not exist")
  | Some rows => modify (with_config (Some (map (λ e, if bool_decide (fst e = key) then (key, value) else e) rows)))
  end.

Definition processBlock (blockNumber : Z) : M indexer unit :=
  try_catch
    (deals ← in_world (select (λ d, take 1000 (order_by (λ r, - d_created_at r) (deals d))));
     t ← in_world now;
     cid ← in_world (ipfs_add (metadata blockNumber deals t));
     set_config "latest_metadata_cid" cid)
    (λ error, mret tt).

(** * Running *)

Definition subscribeToBlocks : M indexer unit :=
  p ← gets currentProvider;
  if negb p then mret tt else modify (with_listening true).

(** [currentProvider = await connectWithRetry(); subscribeToBlocks()] *)
Definition connect_and_subscribe : M indexer unit :=
  r ← connectWithRetry;
  match r with
  | Pending => mret tt
  | Returned => modify (with_provider true) ;; subscribeToBlocks
  end.

Definition startIndexer : M indexer unit := connect_and_subscribe.

(** [main().catch(...)] *)
Definition main : M indexer unit :=
  try_catch startIndexer (λ error, modify (with_exited (Some 1))).

(** The provider reports an error. *)
Definition onError : M indexer unit :=
  modify (with_connected false) ;;
  try_catch
    (modify (with_listening false) ;;
     connect_and_subscribe)
    (λ reconnectError, modify (with_exited (Some 1))).

Definition onBlock (blockNumber : Z) : M indexer unit := processBlock blockNumber.

(** The health endpoint: status code and body; [None] is a 404 without body. *)
Definition health (url : string) (s : indexer) : Z * option (string * nat) :=
  if bool_decide (url = "/metrics") || bool_decide (url = "/health") then
    (if isConnected s then 200 else 503,
     Some (if isConnected s then "healthy" else "disconnected", retryCount s))
  else (404, None).

(** SIGTERM or SIGINT *)
Definition shutdown : M indexer unit :=
  modify (with_listening false) ;; modify (with_exited (Some 0)).

Inductive indexer_event : Type := Boot | Block (n : Z) | ProviderError | Signal.

(** Events reach a process that runs; blocks and errors its listeners only. [main] is
    called once, before there are any. *)
Definition indexer_dispatch (ev : indexer_event) : M indexer unit :=
  over ← gets exited;
  live ← gets listening;
  match over, ev with
  | Some _, _ => mret tt
  | None, Boot => if live : bool then mret tt else main
  | None, Block n => if live : bool then onBlock n else mret tt
  | None, ProviderError => if live : bool then onError else mret tt
  | None, Signal => shutdown
  end.
End Indexing.

(** * Correctness *)

(** The delays of the attempts [n+1] to [n+k]. *)
Definition delays (n k : nat) : list Z := map (λ i, backoff (S i)) (seq n k).

(** The number of attempts that are rejected before one is not, and that one. *)
Fixpoint outage (answers : list rpc_answer) : nat :=
  match answers with Rejects _ :: rest => S (outage rest) | _ => 0 end.
Definition hangs_after (k : nat) (answers : list rpc_answer) : bool :=
  match answers !! k with Some Hangs => true | _ => false end.

Lemma backoff_bounds n : 0 ≤ backoff n ≤ 30000.
Proof. unfold backoff, BASE_DELAY_MS. pose proof (Z.pow_nonneg 2 (Z.of_nat n - 1) ltac:(lia)). lia. Qed.

Lemma delays_cons n k : delays n (S k) = backoff (S n) :: delays (S n) k.
Proof. reflexivity. Qed.

(** The state after [k] failed attempts in a row. *)
Definition after_failures (k : nat) (s : indexer) : indexer :=
  with_slept (slept s ++ delays (retryCount s) k)
    (with_retries (retryCount s + k)
      (with_endpoint (drop k (endpoint s)) s)).

Lemma after_failures_0 s : after_failures 0 s = s.
Proof.
  destruct s. unfold after_failures, with_slept, with_retries, with_endpoint. simpl.
  by rewrite app_nil_r, Nat.add_0_r, drop_0.
Qed.

Lemma after_failures_S k e rest s :
  endpoint s = Rejects e :: rest → after_failures (S k) s = after_failures k (after_failures 1 s).
Proof.
  intros Hfs. destruct s as [w ? n ? ? sl ? ? ?]. simpl in Hfs. subst.
  unfold after_failures, with_slept, with_retries, with_endpoint. simpl.
  by rewrite delays_cons, <- app_assoc, Nat.add_1_r, Nat.add_succ_r.
Qed.

(** One turn of the loop. *)
Lemma connect_turn_settles fuel s :
  (retryCount s < MAX_RETRIES)%nat → outage (endpoint s) = 0%nat →
  connect_loop (S fuel) s =
    if hangs_after 0 (endpoint s) then (Ok Pending, with_endpoint (tail (endpoint s)) s)
    else (Ok Returned, with_retries 0 (with_connected true (with_endpoint (tail (endpoint s)) s))).
Proof.
  intros Hn Ho. cbn [connect_loop]. rewrite (bind_ok (gets _) _ s _ s eq_refl).
  rewrite (proj2 (Nat.ltb_lt _ _) Hn). unfold getBlockNumber. running.
  by destruct (endpoint s) as [|[|e|] rest].
Qed.

Lemma connect_turn_fail fuel s e rest :
  (retryCount s < MAX_RETRIES)%nat → endpoint s = Rejects e :: rest →
  connect_loop (S fuel) s = connect_loop fuel (after_failures 1 s).
Proof.
  intros Hn Hfs. cbn [connect_loop]. rewrite (bind_ok (gets _) _ s _ s eq_refl).
  rewrite (proj2 (Nat.ltb_lt _ _) Hn). unfold getBlockNumber, sleep. running. rewrite Hfs. simpl.
  unfold after_failures. rewrite Hfs, Nat.add_1_r. reflexivity.
Qed.

(** The end of the loop: [k] is the number of rejections, [n] that of the attempts
    that are left. *)
Definition connect_result (k n : nat) (s : indexer) : outcome awaited * indexer :=
  if (n <=? k)%nat then (Throw (Error "Failed to connect to RPC after 10 attempts"), after_failures n s)
  else
    let s' := with_endpoint (drop (S k) (endpoint s)) (after_failures k s) in
    if hangs_after k (endpoint s) then (Ok Pending, s') else (Ok Returned, with_retries 0 (with_connected true s')).

Lemma connect_loop_run fuel : ∀ s,
  (retryCount s ≤ MAX_RETRIES)%nat → (MAX_RETRIES - retryCount s < fuel)%nat →
  connect_loop fuel s = connect_result (outage (endpoint s)) (MAX_RETRIES - retryCount s) s.
Proof.
  induction fuel as [|fuel IH]; intros s Hle Hf; [lia|].
  destruct (Nat.eq_dec (retryCount s) MAX_RETRIES) as [Hmax|Hmax].
  { rewrite Hmax, Nat.sub_diag. unfold connect_result. cbn [Nat.leb connect_loop].
    rewrite (bind_ok (gets _) _ s _ s eq_refl), Hmax, after_failures_0. reflexivity. }
  unfold connect_result. destruct (outage (endpoint s)) as [|k] eqn:Ho.
  { rewrite (proj2 (Nat.leb_gt _ _)) by lia. rewrite connect_turn_settles by (done || lia).
    rewrite after_failures_0. destruct (endpoint s); done. }
  destruct (endpoint s) as [|[|e|] rest] eqn:Hfs; simpl in Ho; try discriminate.
  injection Ho as Ho. rewrite (connect_turn_fail fuel s e rest) by (done || lia).
  assert (Hr1 : retryCount (after_failures 1 s) = S (retryCount s)) by (unfold after_failures; simpl; lia).
  assert (Hf1 : endpoint (after_failures 1 s) = rest) by (simpl; by rewrite Hfs).
  rewrite IH by (rewrite Hr1; lia). unfold connect_result. rewrite Hr1, Hf1, Ho.
  destruct (MAX_RETRIES - retryCount s)%nat as [|n] eqn:En; [lia|].
  replace (MAX_RETRIES - S (retryCount s))%nat with n by lia.
  change (S n <=? S k)%nat with (n <=? k)%nat. by rewrite (after_failures_S n e rest), (after_failures_S k e rest).
Qed.

(** C36. How connecting ends. Let [k] attempts be rejected before one is not. If that is
    as many as are left of the ten, the function gives up with an error and the counter
    at ten. Otherwise the next attempt decides: if it is answered, the function returns
    with the indexer connected and the counter reset, after one delay per rejection; if
    it is left pending, as the library leaves a call to an endpoint it cannot reach,
    the function never returns, no retry follows and the indexer is not connected.
    Each delay is at most half a minute, and all of them together at most 181 seconds. *)
Theorem connectWithRetry_terminates s :
  (retryCount s ≤ MAX_RETRIES)%nat →
  let k := outage (endpoint s) in
  let n := (MAX_RETRIES - retryCount s)%nat in
  (if (n <=? k)%nat
   then ∃ s', connectWithRetry s = (Throw (Error "Failed to connect to RPC after 10 attempts"), s') ∧
              retryCount s' = MAX_RETRIES ∧ slept s' = slept s ++ delays (retryCount s) n
   else if hangs_after k (endpoint s)
   then ∃ s', connectWithRetry s = (Ok Pending, s') ∧ isConnected s' = isConnected s ∧
              retryCount s' = (retryCount s + k)%nat ∧ slept s' = slept s ++ delays (retryCount s) k
   else ∃ s', connectWithRetry s = (Ok Returned, s') ∧ isConnected s' = true ∧ retryCount s' = 0%nat ∧
              slept s' = slept s ++ delays (retryCount s) k) ∧
  Forall (λ d, 0 ≤ d ≤ 30000) (delays (retryCount s) (Nat.min k n)) ∧
  foldr Z.add 0 (delays (retryCount s) (Nat.min k n)) ≤ 181000.
Proof.
  intros Hle k n. split_and!.
  { unfold connectWithRetry. rewrite connect_loop_run by (done || lia). fold k n.
    unfold connect_result. destruct (n <=? k)%nat; [|destruct (hangs_after k (endpoint s))]; eexists;
      (split; [reflexivity|]); simpl; split_and!; try done; unfold n; lia. }
  { apply Forall_forall. intros d (i & -> & _)%list_elem_of_fmap. apply backoff_bounds. }
  assert (Hm : (retryCount s + Nat.min k n ≤ 10)%nat) by (unfold n, MAX_RETRIES in *; lia).
  revert Hm. generalize (retryCount s) (Nat.min k n). clear. intros a b Hab.
  assert (Hall : forallb (λ a, forallb (λ b, foldr Z.add 0 (delays a b) <=? 181000) (seq 0 (11 - a))) (seq 0 11) = true)
    by (vm_compute; reflexivity).
  rewrite forallb_forall in Hall. specialize (Hall a ltac:(apply in_seq; lia)).
  rewrite forallb_forall in Hall. specialize (Hall b ltac:(apply in_seq; lia)). by apply Z.leb_le in Hall.
Qed.

(** ** The running process *)

(** While the process runs, connected means listening, with the counter reset; it may
    be waiting for a connection with the counter at most at ten. *)
Definition consistent (s : indexer) : Prop :=
  exited s = None → isConnected s = listening s ∧ (retryCount s ≤ MAX_RETRIES)%nat ∧
                    (listening s = true → retryCount s = 0%nat ∧ currentProvider s = true).

(** A run of [main] or of the error handler, which have no listeners at that time:
    connected and listening, waiting, or ended. *)
Lemma connect_then_subscribe s :
  exited s = None → isConnected s = false → listening s = false → (retryCount s ≤ MAX_RETRIES)%nat →
  consistent (snd (try_catch connect_and_subscribe (λ _, modify (with_exited (Some 1))) s)).
Proof.
  intros He Hc Hl Hr. unfold try_catch, connect_and_subscribe, connectWithRetry, mbind, M_bind.
  rewrite connect_loop_run by (done || lia). unfold connect_result.
  destruct (_ <=? _)%nat eqn:E; [done|]. apply Nat.leb_gt in E. destruct (hangs_after _ _).
  - intros _. simpl. rewrite Hc, Hl. split_and!; [done|lia|done].
  - intros _. simpl. split_and!; [done|lia|done].
Qed.

Section Process.
  Context {ipfs : Ipfs} (metadata : Z → list deal_row → Z → bytes).

Lemma processBlock_frame n : preserves consistent (processBlock metadata n).
Proof.
  assert (Hin : ∀ A (m : M world A), preserves consistent (in_world m)).
  { intros A m s Hs. unfold in_world. by destruct (m (ix_world s)). }
  unfold processBlock, set_config. preserve; auto.
Qed.

Lemma dispatch_consistent ev : preserves consistent (indexer_dispatch metadata ev).
Proof.
  intros s Hs. unfold indexer_dispatch.
  rewrite (bind_ok (gets _) _ s _ s eq_refl), (bind_ok (gets _) _ s _ s eq_refl).
  destruct (exited s) as [c|] eqn:He; [done|]. destruct (Hs He) as (Hc & Hr & Hp).
  destruct ev; [destruct (listening s) eqn:Hl; [done|]| |destruct (listening s) eqn:Hl; [|done]|done].
  - by apply connect_then_subscribe.
  - destruct (listening s); [by apply processBlock_frame|done].
  - unfold onError. rewrite (bind_ok (modify _) _ s tt _ eq_refl).
    change (consistent (snd (try_catch connect_and_subscribe (λ _, modify (with_exited (Some 1)))
      (with_listening false (with_connected false s))))).
    by apply connect_then_subscribe.
Qed.

(** The health endpoint tells the truth: after any sequence of events from a
    fresh process and under any failures, a process that has not ended answers 200
    exactly when its block listener is registered, then with a retry count of zero. *)
Theorem health_is_truthful w config rpc evs :
  let s0 := Indexer w false 0 false false [] config None rpc in
  let s := foldl (λ s ev, snd (indexer_dispatch metadata ev s)) s0 evs in
  exited s = None → health "/health" s = (if listening s then 200 else 503,
                                          Some (if listening s then "healthy" else "disconnected",
                                                if listening s then 0%nat else retryCount s)).
Proof.
  intros s0 s He. assert (Hs : consistent s).
  { unfold s. assert (H0 : consistent s0) by (intros _; simpl; split_and!; [done|lia|done]). revert H0. generalize s0. clear.
    induction evs as [|ev evs IH]; intros s0 H0; simpl; [done|]. by apply IH, dispatch_consistent. }
  destruct (Hs He) as (Hc & _ & Hr). unfold health. simpl. rewrite Hc.
  destruct (listening s); [|done]. by destruct Hr as [-> _].
Qed.

(** One block mirrors the thousand newest deals: the document is stored on the
    node, and where the configuration table has the row it then points to the
    document.  Without the table, which the schema of the repository lacks, the
    document stays on the node and nothing points to it. *)
Theorem processBlock_mirrors n s :
  no_faults (ix_world s) →
  let doc := metadata n (take 1000 (order_by (λ r, - d_created_at r) (deals (w_db (ix_world s)))))
                      (w_now (ix_world s)) in
  ∃ s', processBlock metadata n s = (Ok tt, s') ∧ w_ipfs (ix_world s') !! cid_of doc = Some doc ∧
    match system_config s with
    | None => system_config s' = None
    | Some rows => ∃ rows', system_config s' = Some rows' ∧ map fst rows' = map fst rows ∧
                     ∀ v, ("latest_metadata_cid", v) ∈ rows' → v = cid_of doc
    end.
Proof.
  intros Hw doc. unfold processBlock, try_catch, set_config, in_world, ipfs_add.
  unfold mbind, M_bind. cbv beta. rewrite (select_ok _ _ Hw). simpl. rewrite external_ok by done. simpl.
  rewrite external_ok by done. simpl. destruct (system_config s) as [rows|] eqn:Hc; simpl.
  - eexists. split; [reflexivity|]. simpl. split; [apply lookup_insert_eq|].
    eexists. split; [reflexivity|]. split.
    + rewrite map_map. apply map_ext. intros [k v]. simpl. by case_bool_decide; subst.
    + intros v (e & He & _)%list_elem_of_fmap. case_bool_decide as Hk; [by injection He as ->|].
      rewrite <- He in Hk. done.
  - eexists. split; [reflexivity|]. simpl. split; [apply lookup_insert_eq|done].
Qed.
End Process.

Definition demo_metadata (n : Z) (rows : list deal_row) (t : Z) : bytes :=
  String.list_byte_of_string (show_Z n +:+ ":" +:+ join "," (map d_deal_id rows)).

Definition booted (w : world) (config : option (list (string * string))) (rpc : list rpc_answer) : indexer :=
  Indexer w false 0 false false [] config None rpc.

(** Three rejections, then a connection; three rejections, then a call that hangs. *)
Definition three_rejections : list rpc_answer := [Rejects (Error "a"); Rejects (Error "b"); Rejects (Error "c")].
Lemma connectWithRetry_terminates_witness :
  (let s := booted demo_api None three_rejections in
   ∃ s', connectWithRetry s = (Ok Returned, s') ∧ slept s' = [1000; 2000; 4000]) ∧
  (let s := booted demo_api None (three_rejections ++ [Hangs]) in
   ∃ s', connectWithRetry s = (Ok Pending, s') ∧ isConnected s' = false).
Proof.
  split; intros s; destruct (connectWithRetry_terminates s) as [H _]; [vm_compute; lia| |vm_compute; lia|].
  - destruct H as (s' & Hrun & _ & _ & Hs). exists s'. split; [exact Hrun|exact Hs].
  - destruct H as (s' & Hrun & Hc & _). exists s'. split; [exact Hrun|exact Hc].
Defined.

Lemma health_is_truthful_witness :
  health "/health" (snd (@indexer_dispatch raw_ipfs demo_metadata Boot (booted demo_api None [])))
  = (200, Some ("healthy", 0%nat)).
Proof. exact (@health_is_truthful raw_ipfs demo_metadata demo_api None [] [Boot] eq_refl). Defined.

Lemma processBlock_mirrors_witness :
  ∃ s', @processBlock raw_ipfs demo_metadata 7 (booted demo_api (Some [("latest_metadata_cid", "")]) []) = (Ok tt, s') ∧
        w_ipfs (ix_world s') !! "7:D1" = Some (String.list_byte_of_string "7:D1").
Proof.
  destruct (@processBlock_mirrors raw_ipfs demo_metadata 7 (booted demo_api (Some [("latest_metadata_cid", "")]) []) eq_refl)
    as (s' & Hrun & Hdoc & _).
  exists s'. split; [exact Hrun|exact Hdoc].
Defined.
