(* ===== verification/NodeEncrypt.v ===== *)
(** File encryption of the command line client
    (src/incentive-layer/services/encryption/kyneto-encrypt.ts): AES-256-GCM for the
    file, and an ECIES envelope over secp256k1 for the file key.

    Node's [crypto] is a parameter with the laws the module relies on; the random
    values (keys, IVs, the ephemeral key) are arguments.  Buffers are byte lists. *)

From S2P Require Import Prelude JsNum World ShardManager Encrypt.

Local Open Scope Z_scope.

Definition KEY_LENGTH : nat := 32.
Definition PUB_LENGTH : nat := 65.

(** What Node accepts: a private key of secp256k1 is a big-endian number from 1 to
    the order of the curve less one; an IV for GCM is not empty and at most 128 bytes,
    a tag has one of GCM's lengths, and a buffer passed to [update] is shorter than
    2^31 bytes. *)
Definition be_value (b : bytes) : Z := foldl (λ v x, v * 256 + byte_to_Z x) 0 b.
Definition secp256k1_order : Z := 0xfffffffffffffffffffffffffffffffebaaedce6af48a03bbfd25e8cd0364141.
Definition valid_private (key : bytes) : bool := (0 <? be_value key) && (be_value key <? secp256k1_order).
Definition valid_iv (iv : bytes) : bool := (0 <? length iv)%nat && (length iv <=? 128)%nat.
Definition valid_tag (tag : bytes) : bool := bool_decide (length tag ∈ [4; 8; 12; 13; 14; 15; 16]%nat).
Definition short_enough (data : bytes) : bool := Z.of_nat (length data) <? 2 ^ 31.

(** Node's crypto module: the cipher with its tag, the curve, and the hash. *)
Class NodeCrypto : Type := {
  gcm_seal : bytes → bytes → bytes → bytes * bytes;              (* key, iv, data: ciphertext, tag *)
  gcm_open : bytes → bytes → bytes → bytes → option bytes;       (* key, iv, tag, ciphertext *)
  ec_public : bytes → bytes;                                     (* uncompressed public key *)
  ec_secret : bytes → bytes → option bytes;                      (* private key, public key *)
  digest : bytes → bytes
}.

Class NodeCryptoLaws `{NodeCrypto} : Prop := {
  gcm_inverse : ∀ k iv data, length k = KEY_LENGTH → valid_iv iv = true → short_enough data = true →
    gcm_open k iv (snd (gcm_seal k iv data)) (fst (gcm_seal k iv data)) = Some data;
  gcm_data_length : ∀ k iv data, length k = KEY_LENGTH → valid_iv iv = true → short_enough data = true →
    length (fst (gcm_seal k iv data)) = length data;
  gcm_tag_length : ∀ k iv data, length k = KEY_LENGTH → valid_iv iv = true → short_enough data = true →
    length (snd (gcm_seal k iv data)) = TAG_LENGTH;
  ec_public_format : ∀ a, valid_private a = true → ∃ point, ec_public a = Byte.x04 :: point ∧ length point = 64%nat;
  ec_agreement : ∀ a b, valid_private a = true → valid_private b = true → ec_secret a (ec_public b) = ec_secret b (ec_public a);
  ec_secret_valid : ∀ a b, valid_private a = true → valid_private b = true → is_Some (ec_secret a (ec_public b));
  digest_length : ∀ b, length (digest b) = KEY_LENGTH
}.

Record sealed_file : Type := Sealed {
  sf_encryptedData : bytes; sf_encryptedKey : string; sf_iv : string; sf_authTag : string }.

(** [Buffer.from(text, 'hex')]: pairs of digits up to the first that is none. *)
Fixpoint from_hex (hex : string) : bytes :=
  match hex with
  | String a (String b rest) =>
      match hex_value a, hex_value b with
      | Some x, Some y => Z_to_byte (x * 16 + y) :: from_hex rest
      | _, _ => []
      end
  | _ => []
  end.

(** [key.startsWith('0x') ? key.slice(2) : key] *)
Definition normalizePrivateKey (key : string) : string :=
  match key with
  | String c (String x rest) =>
      if bool_decide (c = Ascii.ascii_of_nat 48) && bool_decide (x = Ascii.ascii_of_nat 120) then rest else key
  | _ => key
  end.

Definition normalizePublicKey (key : string) : bytes :=
  let hex := normalizePrivateKey key in
  from_hex (if (String.length hex =? 128)%nat then "04" +:+ hex else hex).

Section Ecies.
  Context `{NodeCrypto}.

(** [crypto.createCipheriv] and [createDecipheriv] check the IV, then the key;
    [setAuthTag] checks the tag, [update] the size of the data. *)
Definition keyed_cipher (key iv : bytes) : outcome unit :=
  if negb (valid_iv iv) then Throw (Error "Invalid initialization vector")
  else if negb (length key =? KEY_LENGTH)%nat then Throw (Error "Invalid key length")
  else Ok tt.
Definition cipher (key iv data : bytes) : outcome (bytes * bytes) :=
  match keyed_cipher key iv with
  | Throw e => Throw e
  | Ok _ => if short_enough data then Ok (gcm_seal key iv data) else Throw (Error "data is too long")
  end.
Definition decipher (key iv tag data : bytes) : outcome bytes :=
  match keyed_cipher key iv with
  | Throw e => Throw e
  | Ok _ =>
      if negb (valid_tag tag) then Throw (Error "Invalid authentication tag length")
      else if negb (short_enough data) then Throw (Error "data is too long")
      else match gcm_open key iv tag data with
           | Some plain => Ok plain
           | None => Throw (Error "Unsupported state or unable to authenticate data")
           end
  end.

(** [ecdh.setPrivateKey] and [ecdh.computeSecret]. *)
Definition setPrivateKey (private : bytes) : outcome unit :=
  if valid_private private then Ok tt else Throw (Error "Private key is not valid for specified curve.").
Definition computeSecret (private pub : bytes) : outcome bytes :=
  match ec_secret private pub with
  | Some secret => Ok secret
  | None => Throw (Error "Public key is not valid for specified curve")
  end.

Definition eciesEncrypt (publicKeyHex : string) (ephemeral iv data : bytes) : outcome bytes :=
  let pubKey := normalizePublicKey publicKeyHex in
  match computeSecret ephemeral pubKey with
  | Throw e => Throw e
  | Ok sharedSecret =>
      match cipher (digest sharedSecret) iv data with
      | Throw e => Throw e
      | Ok (encrypted, tag) => Ok (ec_public ephemeral ++ iv ++ tag ++ encrypted)
      end
  end.

Definition eciesDecrypt (privateKeyHex : string) (encryptedPayload : bytes) : outcome bytes :=
  let ephemeralPub := subarray encryptedPayload 0 PUB_LENGTH in
  let iv := subarray encryptedPayload PUB_LENGTH (PUB_LENGTH + IV_LENGTH) in
  let tag := subarray encryptedPayload (PUB_LENGTH + IV_LENGTH) (PUB_LENGTH + IV_LENGTH + TAG_LENGTH) in
  let ciphertext := subarray encryptedPayload (PUB_LENGTH + IV_LENGTH + TAG_LENGTH) (length encryptedPayload) in
  match setPrivateKey (from_hex privateKeyHex) with
  | Throw e => Throw e
  | Ok _ =>
      match computeSecret (from_hex privateKeyHex) ephemeralPub with
      | Throw e => Throw e
      | Ok sharedSecret => decipher (digest sharedSecret) iv tag ciphertext
      end
  end.

Definition encryptFile (aesKey iv ephemeral keyIv fileBuffer : bytes) (ethPublicKeyHex : string)
    : outcome sealed_file :=
  match cipher aesKey iv fileBuffer with
  | Throw e => Throw e
  | Ok (encryptedData, authTag) =>
      match eciesEncrypt ethPublicKeyHex ephemeral keyIv aesKey with
      | Throw e => Throw e
      | Ok encryptedKey => Ok (Sealed encryptedData (arrayToHex encryptedKey) (arrayToHex iv) (arrayToHex authTag))
      end
  end.

Definition decryptFile (encryptedData : bytes) (encryptedKeyHex ivHex authTagHex ethPrivateKeyHex : string)
    : outcome bytes :=
  match eciesDecrypt (normalizePrivateKey ethPrivateKeyHex) (from_hex encryptedKeyHex) with
  | Throw e => Throw e
  | Ok aesKey => decipher aesKey (from_hex ivHex) (from_hex authTagHex) encryptedData
  end.
End Ecies.

(** * Correctness *)

Lemma from_hex_byte b rest : from_hex (byte_to_hex b +:+ rest) = b :: from_hex rest.
Proof.
  assert (H : forallb (λ b, match byte_to_hex b with
    | String x (String y EmptyString) =>
        match hex_value x, hex_value y with Some p, Some q => Byte.eqb (Z_to_byte (p * 16 + q)) b | _, _ => false end
    | _ => false end) all_bytes = true) by (vm_compute; reflexivity).
  pose proof (check_bytes _ H b) as Hb. unfold byte_to_hex in *. simpl in *.
  destruct (hex_value (hex_char (byte_to_Z b / 16))), (hex_value (hex_char (byte_to_Z b mod 16))); try done.
  f_equal. by apply Byte.byte_dec_bl.
Qed.

Lemma from_hex_arrayToHex arr : from_hex (arrayToHex arr) = arr.
Proof.
  unfold arrayToHex. induction arr as [|b arr IH]; [done|]. cbn [map].
  by rewrite join_empty_cons, from_hex_byte, IH.
Qed.

Lemma length_arrayToHex arr : String.length (arrayToHex arr) = (2 * length arr)%nat.
Proof.
  unfold arrayToHex. induction arr as [|b arr IH]; [done|]. cbn [map length].
  rewrite join_empty_cons. change (S (S (String.length (join "" (map byte_to_hex arr)))) = (2 * S (length arr))%nat).
  lia.
Qed.

(** Hexadecimal text never starts with 0x. *)
Lemma normalize_hex arr : normalizePrivateKey (arrayToHex arr) = arrayToHex arr.
Proof.
  destruct arr as [|b arr]; [done|]. unfold arrayToHex. cbn [map]. rewrite join_empty_cons.
  assert (H : forallb (λ b, negb (bool_decide (hex_char (byte_to_Z b mod 16) = Ascii.ascii_of_nat 120))) all_bytes = true)
    by (vm_compute; reflexivity).
  pose proof (check_bytes _ H b) as Hb. apply negb_true_iff in Hb.
  unfold byte_to_hex. change (String ?a (String ?c EmptyString) +:+ ?r) with (String a (String c r)).
  cbn [normalizePrivateKey]. by rewrite Hb, andb_false_r.
Qed.

Lemma normalize_0x hex : normalizePrivateKey ("0x" +:+ hex) = hex.
Proof. reflexivity. Qed.

(** The four ways to write an uncompressed public key: with or without 0x, with or
    without the leading 04. *)
Definition key_texts (pub : bytes) : list string :=
  [arrayToHex pub; "0x" +:+ arrayToHex pub; arrayToHex (drop 1 pub); "0x" +:+ arrayToHex (drop 1 pub)].

Section Roundtrip.
  Context {crypto : NodeCrypto} `{!NodeCryptoLaws}.

Lemma normalizePublicKey_texts a text :
  valid_private a = true → text ∈ key_texts (ec_public a) → normalizePublicKey text = ec_public a.
Proof.
  intros Hv. destruct (ec_public_format a Hv) as (point & -> & Hp). unfold key_texts, normalizePublicKey.
  change (drop 1 (Byte.x04 :: point)) with point.
  assert (Hlen : String.length (arrayToHex (Byte.x04 :: point)) = 130%nat)
    by (rewrite length_arrayToHex; cbn [length]; lia).
  assert (Hlen' : String.length (arrayToHex point) = 128%nat) by (rewrite length_arrayToHex; lia).
  assert (H04 : "04" +:+ arrayToHex point = arrayToHex (Byte.x04 :: point))
    by (unfold arrayToHex; cbn [map]; by rewrite join_empty_cons).
  rewrite !elem_of_cons. intros [->|[->|[->|[->|[]%elem_of_nil]]]].
  - rewrite normalize_hex, Hlen. apply from_hex_arrayToHex.
  - rewrite normalize_0x, Hlen. apply from_hex_arrayToHex.
  - rewrite normalize_hex, Hlen', Nat.eqb_refl, H04. apply from_hex_arrayToHex.
  - rewrite normalize_0x, Hlen', Nat.eqb_refl, H04. apply from_hex_arrayToHex.
Qed.

(** Unpacking what was packed. *)
Lemma unpack (pub iv tag ct : bytes) :
  length pub = PUB_LENGTH → length iv = IV_LENGTH → length tag = TAG_LENGTH →
  let p := pub ++ iv ++ tag ++ ct in
  subarray p 0 PUB_LENGTH = pub ∧ subarray p PUB_LENGTH (PUB_LENGTH + IV_LENGTH) = iv ∧
  subarray p (PUB_LENGTH + IV_LENGTH) (PUB_LENGTH + IV_LENGTH + TAG_LENGTH) = tag ∧
  subarray p (PUB_LENGTH + IV_LENGTH + TAG_LENGTH) (length p) = ct.
Proof.
  intros Hpub Hiv Htag. cbv zeta. unfold subarray. rewrite <- Hpub, <- Hiv, <- Htag. split_and!.
  - rewrite drop_0, Nat.sub_0_r. apply take_app_length.
  - rewrite drop_app_length, Nat.add_comm, Nat.add_sub. apply take_app_length.
  - rewrite <- drop_drop, drop_app_length, drop_app_length, Nat.add_comm, Nat.add_sub. apply take_app_length.
  - rewrite <- !drop_drop, !drop_app_length. apply take_ge. rewrite !length_app. lia.
Qed.

(** What a key and an IV of the right sizes seal they open again. *)
Lemma cipher_decipher key iv data :
  length key = KEY_LENGTH → valid_iv iv = true → short_enough data = true →
  ∃ ct tag, cipher key iv data = Ok (ct, tag) ∧ length tag = TAG_LENGTH ∧ decipher key iv tag ct = Ok data.
Proof.
  intros Hk Hi Hd. exists (fst (gcm_seal key iv data)), (snd (gcm_seal key iv data)).
  unfold cipher, decipher, keyed_cipher. rewrite Hi, Hk, Nat.eqb_refl, Hd. simpl.
  rewrite <- surjective_pairing. split; [done|].
  assert (Ht := gcm_tag_length key iv data Hk Hi Hd). split; [done|].
  unfold valid_tag. rewrite Ht, bool_decide_true by set_solver. simpl.
  unfold short_enough in *. rewrite (gcm_data_length key iv data Hk Hi Hd), Hd. simpl.
  by rewrite gcm_inverse.
Qed.

Lemma iv_length_valid iv : length iv = IV_LENGTH → valid_iv iv = true.
Proof. intros Hiv. unfold valid_iv. by rewrite Hiv. Qed.

(** The envelope of the file key opens with the private key. *)
Lemma ecies_roundtrip private ephemeral keyIv data text :
  valid_private private = true → valid_private ephemeral = true → text ∈ key_texts (ec_public private) →
  length keyIv = IV_LENGTH → short_enough data = true →
  ∃ sealed, eciesEncrypt text ephemeral keyIv data = Ok sealed ∧
            eciesDecrypt (arrayToHex private) sealed = Ok data.
Proof.
  intros Hp He Htext Hiv Hd. destruct (ec_secret_valid ephemeral private He Hp) as [secret Hsec].
  destruct (cipher_decipher (digest secret) keyIv data) as (ct & tag & Hc & Ht & Hopen);
    [apply digest_length|by apply iv_length_valid|done|].
  exists (ec_public ephemeral ++ keyIv ++ tag ++ ct). split.
  - unfold eciesEncrypt, computeSecret. rewrite (normalizePublicKey_texts private) by done. by rewrite Hsec, Hc.
  - unfold eciesDecrypt, computeSecret, setPrivateKey.
    destruct (unpack (ec_public ephemeral) keyIv tag ct) as (-> & -> & -> & ->); [|done|done|].
    { destruct (ec_public_format ephemeral He) as (point & -> & Hl). unfold PUB_LENGTH. simpl. lia. }
    by rewrite from_hex_arrayToHex, Hp, ec_agreement, Hsec, Hopen.
Qed.

(** C25. A file shorter than 2^31 bytes, sealed for the public key of a valid private
    key, in any of its four spellings, with a 32-byte file key and 12-byte IVs, opens
    with the private key, with or without 0x, to the same bytes; everything but the
    data passes through hexadecimal text. *)
Theorem seal_open_roundtrip private ephemeral aesKey iv keyIv file text priv_text :
  valid_private private = true → valid_private ephemeral = true →
  text ∈ key_texts (ec_public private) →
  priv_text ∈ [arrayToHex private; "0x" +:+ arrayToHex private] →
  length aesKey = KEY_LENGTH → length iv = IV_LENGTH → length keyIv = IV_LENGTH →
  Z.of_nat (length file) < 2 ^ 31 →
  ∃ e, encryptFile aesKey iv ephemeral keyIv file text = Ok e ∧
       decryptFile (sf_encryptedData e) (sf_encryptedKey e) (sf_iv e) (sf_authTag e) priv_text = Ok file.
Proof.
  intros Hv He Htext Hpriv Hkey Hiv Hkiv Hsize.
  assert (Hp : normalizePrivateKey priv_text = arrayToHex private).
  { rewrite !elem_of_cons in Hpriv. destruct Hpriv as [->|[->|[]%elem_of_nil]]; [apply normalize_hex|done]. }
  destruct (cipher_decipher aesKey iv file) as (data & tag & Hc & _ & Hopen);
    [done|by apply iv_length_valid|by apply Z.ltb_lt|].
  destruct (ecies_roundtrip private ephemeral keyIv aesKey text) as (sealed & Hs & Hunseal); [done..| |].
  { apply Z.ltb_lt. by rewrite Hkey. }
  unfold encryptFile. rewrite Hc, Hs. eexists. split; [reflexivity|].
  cbn [sf_encryptedData sf_encryptedKey sf_iv sf_authTag].
  unfold decryptFile. by rewrite Hp, !from_hex_arrayToHex, Hunseal, Hopen.
Qed.
End Roundtrip.

(** ** A toy instance of the primitives *)

Definition sum_byte (b : bytes) : Byte.byte := foldr xor_byte Byte.x00 b.
Definition toy_node : NodeCrypto := {|
  gcm_seal := λ k iv data, (data, replicate TAG_LENGTH (sum_byte (k ++ iv)));
  gcm_open := λ k iv tag data,
    if bool_decide (tag = replicate TAG_LENGTH (sum_byte (k ++ iv))) then Some data else None;
  ec_public := λ a, Byte.x04 :: replicate 64 (sum_byte a);
  ec_secret := λ a pub, (λ b, [xor_byte (sum_byte a) b]) <$> pub !! 1%nat;
  digest := λ b, replicate KEY_LENGTH (sum_byte b) |}.

Lemma toy_node_laws : @NodeCryptoLaws toy_node.
Proof.
  constructor; simpl; intros; [by rewrite bool_decide_true|done|done|by eexists| |by eexists|done].
  f_equal. f_equal. unfold xor_byte. by rewrite N.lxor_comm.
Qed.

(** The numbers 5 and 9 as 32-byte private keys. *)
Definition five_key : bytes := replicate 31 Byte.x00 ++ [Byte.x05].
Definition nine_key : bytes := replicate 31 Byte.x00 ++ [Byte.x09].

Lemma seal_open_roundtrip_witness :
  ∃ e, @encryptFile toy_node (replicate 32 Byte.x07) (replicate 12 Byte.x01) nine_key (replicate 12 Byte.x02)
         [Byte.x61; Byte.x62] ("0x" +:+ arrayToHex (@ec_public toy_node five_key)) = Ok e ∧
       @decryptFile toy_node (sf_encryptedData e) (sf_encryptedKey e) (sf_iv e) (sf_authTag e)
         "0000000000000000000000000000000000000000000000000000000000000005" = Ok [Byte.x61; Byte.x62].
Proof.
  apply (@seal_open_roundtrip toy_node toy_node_laws five_key).
  - reflexivity.
  - reflexivity.
  - right. by left.
  - by left.
  - reflexivity.
  - reflexivity.
  - reflexivity.
  - reflexivity.
Defined.

(** A private key that is zero is refused, not used. *)
Example zero_key_refused payload :
  @eciesDecrypt toy_node "00" payload = Throw (Error "Private key is not valid for specified curve.").
Proof. reflexivity. Qed.
