(* ===== verification/Files.v ===== *)
(** Choosing, encrypting, uploading and downloading files in the dashboard
    (dashboard/app.js, handleFileSelect to removeFile, downloadFile, and the live
    cost summary of the form).

    [File] objects are shared: the closures of a selection hold one, and the global
    [selectedFile] refers to one, maybe another.  They live in a list and are
    referred to by position.  Reading, encrypting and uploading happen after the
    handler returned, in any order: they are jobs, run by [run_job]. *)

From S2P Require Import Prelude JsNum JsFormat World ShardManager Encrypt Page Notices NodeStatus.

Local Open Scope Z_scope.

(** * State *)

(** A File object with the property [_encrypted] the page adds. *)
Record picked : Type := Picked {
  f_name : string; f_content : bytes; f_encrypted : option encrypted_file }.

(** A selection at work: its reader has loaded, or its blob goes to the API; with
    [sealed] the upload is awaited by the encrypting callback; or the cost summary waits
    for the price. *)
Inductive job : Type :=
| Loaded (file : nat)
| Uploading (file : nat) (blob : bytes) (sealed : bool)
| Summary (size priceUSD : num) (duration : Z).

Record desk : Type := Desk {
  ds_page : page;
  ds_files : list picked;
  selectedFile : option nat;
  ds_jobs : list job;
  ds_saved : list (string * bytes)       (* files the browser saved *)
}.

Definition with_page p s := Desk p (ds_files s) (selectedFile s) (ds_jobs s) (ds_saved s).
Definition with_files fs s := Desk (ds_page s) fs (selectedFile s) (ds_jobs s) (ds_saved s).
Definition with_selected r s := Desk (ds_page s) (ds_files s) r (ds_jobs s) (ds_saved s).
Definition with_jobs js s := Desk (ds_page s) (ds_files s) (selectedFile s) js (ds_saved s).
Definition with_saved x s := Desk (ds_page s) (ds_files s) (selectedFile s) (ds_jobs s) x.

Definition on_page {A} (m : M page A) : M desk A := λ s,
  match m (ds_page s) with (r, p) => (r, with_page p s) end.

(** What the browser adds to the page: random bytes, the bytes behind a URL, the
    natural logarithm (which the language leaves to the implementation). *)
Class Browser : Type := {
  random_bytes : nat → list call → bytes;
  fetch_bytes : list call → outcome bytes;
  Math_log : num → num
}.

(** * Helpers *)

(** The value or the exception of a call that keeps no state. *)
Definition of_result {A} (r : outcome A) : M desk A := λ s, (r, s).

(** [fileName.split('.').pop().toLowerCase()] *)
Fixpoint after_last_dot (s acc : string) : string :=
  match s with
  | EmptyString => acc
  | String c s' => if char_is 46 c then after_last_dot s' "" else after_last_dot s' (acc +:+ String c EmptyString)
  end.
Definition extension (fileName : string) : string := toLowerCase (after_last_dot fileName "").

Definition detectFileCategory (fileName : string) : string :=
  let ext := extension fileName in
  let one_of (xs : list string) := bool_decide (ext ∈ xs) in
  if one_of ["mp4"; "mov"; "avi"; "mkv"; "webm"] then "Video Streaming"
  else if one_of ["csv"; "json"; "hdf5"; "dat"; "fits"] then "Scientific Data"
  else if one_of ["zip"; "tar"; "gz"; "7z"; "rar"; "bak"] then "Backups"
  else if one_of ["html"; "css"; "js"; "png"; "jpg"; "jpeg"; "svg"; "webp"] then "Web Assets"
  else "General Data".

(** [cid.replace('ipfs://', '')]: the first occurrence. *)
Fixpoint remove_prefix (sub s : string) : option string :=
  match sub, s with
  | EmptyString, _ => Some s
  | String a sub', String b s' => if Ascii.eqb a b then remove_prefix sub' s' else None
  | _, EmptyString => None
  end.
Fixpoint remove_once (sub s : string) : string :=
  match remove_prefix sub s with
  | Some rest => rest
  | None => match s with EmptyString => EmptyString | String c s' => String c (remove_once sub s') end
  end.

(** A JSON value used as a string; other values throw where a string method is called. *)
Definition text_of (j : json) : outcome string :=
  match j with JStr s => Ok s | _ => Throw null_error end.

Section Files.
  Context `{Outside} `{Browser} {crypto : WebCrypto}.

(** [sizes[i]] past the end, or for a fraction, is undefined. *)
Definition formatBytes (bytes : Z) : string :=
  if bytes =? 0 then "0 Bytes" else
  let x := num_of_Z bytes in
  let k := num_of_Z 1024 in
  match num_floor (num_div (Math_log x) (Math_log k)) with
  | None => "NaN undefined"
  | Some i =>
      let power := if 0 <=? i then num_of_Z (1024 ^ i) else num_div (num_of_Z 1) (num_of_Z (1024 ^ (- i))) in
      let unit_ := if i <? 0 then None else ["Bytes"; "KB"; "MB"; "GB"; "TB"] !! Z.to_nat i in
      show_num (parseFloat (toFixed 2 (num_div x power))) +:+ " " +:+ default "undefined" unit_
  end.

(** ** The cost summary *)

(** [parseFloat(x) || 0], [parseInt(x) || 0] *)
Definition float_or_0 (s : string) : num := num_or (Some (parseFloat s)) (num_of_Z 0).
Definition int_or_0 (s : string) : Z := default 0 (parseInt s).

(** updateSummary after the price is known. *)
Definition show_summary (kynPrice : Z) (size priceUSD : num) (duration : Z) : M page unit :=
  let totalMonths := num_of_Z (ceil_div duration 30) in
  let storageCostUSD := num_mul (num_mul size priceUSD) totalMonths in
  let protocolFeeUSD := num_mul storageCostUSD (num_lit 3 2) in
  let totalCostUSD := num_add storageCostUSD protocolFeeUSD in
  let storageCostKYN := num_div (num_mul storageCostUSD (num_of_Z 1000000)) (num_of_Z kynPrice) in
  let protocolFeeKYN := num_div (num_mul protocolFeeUSD (num_of_Z 1000000)) (num_of_Z kynPrice) in
  let totalCostKYN := num_add storageCostKYN protocolFeeKYN in
  when_el "summary-total-cost"
    (set_text (toFixed 2 totalCostKYN +:+ " KYN ($" +:+ toFixed 2 totalCostUSD +:+ ")")) ;;
  havePool ← has_el "eligible-provider-count";
  havePr ← gets pg_provider;
  if havePool && havePr then
    (* evaluating the argument [pricePerGBMonthUSD], declared nowhere in scope *)
    try_catch (throw (Error "pricePerGBMonthUSD is not defined")) (λ e, mret tt)
  else mret tt.

(** [(await marketplace.kynPriceUSD()).toNumber()], the default when that fails. *)
Definition summary_price : M page Z :=
  try_catch (price ← ask_Z KynPriceUSD;
             if price <? 2 ^ 53 then mret price else throw (Error "overflow"))
            (λ e, mret 100000).

Definition push_job (j : job) : M desk unit := modify (λ s, with_jobs (ds_jobs s ++ [j]) s).

(** The listener on the three inputs, installed when all three exist; without a
    provider it never awaits. *)
Definition updateSummary : M desk unit :=
  d ← gets (λ s, pg_dom (ds_page s));
  match d !! "deal-size", d !! "deal-price", d !! "deal-duration" with
  | Some dealSize, Some dealPrice, Some dealDuration =>
      let size := float_or_0 (el_value dealSize) in
      let priceUSD := float_or_0 (el_value dealPrice) in
      let duration := int_or_0 (el_value dealDuration) in
      havePr ← gets (λ s, pg_provider (ds_page s));
      if havePr : bool then push_job (Summary size priceUSD duration)
      else on_page (show_summary 100000 size priceUSD duration)
  | _, _, _ => mret tt
  end.

(** ** Uploading *)

Definition status (html color : string) : M desk unit :=
  on_page (when_el "encryption-status" (λ e, set_color color (set_html html e))).

Definition file_at (r : nat) : M desk picked := gets (λ s, default (Picked "" [] None) (ds_files s !! r)).

(** [selectedFile._encrypted] *)
Definition selected_encrypted : M desk bool :=
  r ← gets selectedFile;
  match r with
  | None => throw null_error
  | Some r => f ← file_at r; mret (bool_decide (is_Some (option_map ef_iv (f_encrypted f))))
  end.

Definition upload_body (f : picked) (blob : bytes) : json :=
  JObj [("file", JStr (String.string_of_list_byte blob)); ("name", JStr (f_name f))].

(** The answer of the upload arrived. *)
Definition uploadToIPFS (r : nat) (blob : bytes) : M desk unit :=
  f ← file_at r;
  try_catch
    (response ← on_page (ask_http (Fetch "POST" (API_URL +:+ "/api/upload") (upload_body f blob)));
     (if http_ok response then mret tt
      else throw (Error ("Upload failed: " +:+ show_Z (http_status response)))) ;;
     data ← of_result (http_json response);
     haveGroup ← on_page (has_el "cid-group");
     haveInput ← on_page (has_el "file-cid");
     (if haveGroup && haveInput then
        on_page (when_el "cid-group" (class_remove "hidden")) ;;
        on_page (when_el "file-cid" (set_value (match text_of (json_field "cid" data) with Ok s => s | Throw _ => "undefined" end)))
      else mret tt) ;;
     haveStatus ← on_page (has_el "encryption-status");
     (if haveStatus : bool then
        enc ← selected_encrypted;
        if enc : bool then mret tt else status "<i></i> Uploaded to IPFS" "var(--success)"
      else mret tt) ;;
     cid ← of_result (text_of (json_field "cid" data));
     on_page (addActivity "System" ("File uploaded to IPFS: " +:+ substring 0 12 cid +:+ "...") "system"))
    (λ err, status "<i></i> Upload failed" "var(--error)").

(** [selectedFile._encrypted = {...}] *)
Definition set_encrypted (e : encrypted_file) : M desk unit :=
  r ← gets selectedFile;
  match r with
  | None => throw (Error "Cannot set properties of null (setting '_encrypted')")
  | Some r => modify (λ s, with_files (alter (λ f, Picked (f_name f) (f_content f) (Some e)) r (ds_files s)) s)
  end.

(** [provider.getSigner()] of the provider read when the encryption starts. *)
Definition need_provider : M desk unit :=
  havePr ← gets (λ s, pg_provider (ds_page s));
  if havePr : bool then mret tt else throw null_error.

(** [signer.signMessage(WRAP_MESSAGE)], as the wallet the encryption library is given. *)
Definition sign_wrap : M desk wallet :=
  need_provider ;;
  calls ← gets (λ s, SignMessage WRAP_MESSAGE :: pg_calls (ds_page s));
  on_page (modify (λ p, with_calls p calls)) ;;
  mret (λ _, answer_string calls).

(** [KynetoEncrypt.encryptFile(buffer, provider, userAddress)] *)
Definition encrypt_now (content : bytes) : M desk encrypted_file :=
  calls ← gets (λ s, pg_calls (ds_page s));
  w ← sign_wrap;
  of_result (Encrypt.encryptFile (random_bytes 32 calls) (random_bytes IV_LENGTH calls) content w).

(** reader.onload: encrypt, then upload what came out, or the file itself. *)
Definition onload (r : nat) : M desk unit :=
  f ← file_at r;
  try_catch
    (encrypted ← encrypt_now (f_content f);
     set_encrypted encrypted ;;
     status "<i></i> Encrypted - uploading..." "var(--warning)" ;;
     on_page (addActivity "Security" ("File " +:+ dq +:+ f_name f +:+ dq +:+ " encrypted with AES-256-GCM") "system") ;;
     push_job (Uploading r (ef_encryptedData encrypted) true))
    (λ err,
       status "<i></i> Encryption failed - uploading raw" "var(--error)" ;;
       push_job (Uploading r (f_content f) false)).

Definition run_job (j : job) : M desk unit :=
  match j with
  | Loaded r => onload r
  | Uploading r blob sealed =>
      uploadToIPFS r blob ;;
      if sealed : bool then status "<i></i> End-to-End Encrypted" "var(--success)" else mret tt
  | Summary size priceUSD duration =>
      on_page (kynPrice ← summary_price; show_summary kynPrice size priceUSD duration)
  end.

(** The [k]-th waiting job goes on. *)
Definition run_nth_job (k : nat) : M desk unit :=
  js ← gets ds_jobs;
  match js !! k with
  | Some j => modify (λ s, with_jobs (delete k (ds_jobs s)) s) ;; run_job j
  | None => mret tt
  end.

Definition handleFileSelect (file : picked) : M desk unit :=
  r ← gets (λ s, length (ds_files s));
  modify (λ s, with_selected (Some r) (with_files (ds_files s ++ [file]) s)) ;;
  haveArea ← on_page (has_el "upload-area");
  haveInfo ← on_page (has_el "file-info");
  if negb haveArea || negb haveInfo then mret tt else
  on_page (when_el "upload-area" (class_add "hidden")) ;;
  on_page (when_el "file-info" (class_remove "hidden")) ;;
  on_page (on_el "file-name" (set_text (f_name file))) ;;
  let size := Z.of_nat (length (f_content file)) in
  let sizeInGB := num_div (num_div (num_of_Z size) (num_of_Z (1024 * 1024))) (num_of_Z 1024) in
  on_page (on_el "file-size" (set_text (formatBytes size))) ;;
  haveSize ← on_page (has_el "deal-size");
  (if haveSize : bool then on_page (when_el "deal-size" (set_value (toFixed 4 sizeInGB))) ;; updateSummary
   else mret tt) ;;
  let category := detectFileCategory (f_name file) in
  on_page (when_el "file-type" (set_text category)) ;;
  status "<i></i> Uploading to network..." "var(--warning)" ;;
  havePr ← gets (λ s, pg_provider (ds_page s));
  me ← gets (λ s, pg_userAddress (ds_page s));
  (if havePr && truthy me then
     status "<i></i> Encrypting..." "var(--warning)" ;; push_job (Loaded r)
   else
     status "<i></i> Uploading..." "var(--warning)" ;; push_job (Uploading r (f_content file) false)) ;;
  on_page (addActivity "User" ("Selected file: " +:+ f_name file +:+ " (" +:+ category +:+ ")") "user").

Definition removeFile : M desk unit :=
  modify (with_selected None) ;;
  on_page (on_el "upload-area" (class_remove "hidden")) ;;
  on_page (on_el "file-info" (class_add "hidden")) ;;
  on_page (on_el "cid-group" (class_add "hidden")) ;;
  on_page (on_el "file-input" (set_value "")) ;;
  on_page (on_el "deal-size" (set_value "")).

(** ** Downloading *)

Definition window_open (url : string) : M desk unit :=
  on_page (modify (λ p, with_calls p (WindowOpen url :: pg_calls p))).

Definition save_file (name : string) (content : bytes) : M desk unit :=
  modify (λ s, with_saved (ds_saved s ++ [(name, content)]) s).

(** [KynetoEncrypt.decryptFile(...)]: a missing key fails before the wallet is
    asked, a missing IV or tag after. *)
Definition decrypt_download (keyData : json) (encryptedBuffer : bytes) : M desk bytes :=
  key ← of_result (text_of (json_field "encrypted_key" keyData));
  w ← sign_wrap;
  iv ← of_result (text_of (json_field "encryption_iv" keyData));
  tag ← of_result (text_of (json_field "encryption_auth_tag" keyData));
  of_result (Encrypt.decryptFile encryptedBuffer key iv tag w).

Definition downloadFile (cid dealId : option string) : M desk unit :=
  if negb (truthy cid) then mret tt else
  let cid := default "" cid in
  try_catch
    (on_page (addActivity "System" ("Downloading file: " +:+ cid) "system") ;;
     let gatewayUrl := "https://ipfs.io/ipfs/" +:+ remove_once "ipfs://" cid in
     havePr ← gets (λ s, pg_provider (ds_page s));
     me ← gets (λ s, pg_userAddress (ds_page s));
     if negb (truthy dealId) || negb havePr || negb (truthy me) then window_open gatewayUrl
     else
       let dealId := default "" dealId in
       keyData ← try_catch
         (keyStatus ← on_page (ask_http (Fetch "GET" (API_URL +:+ "/api/deals/" +:+ dealId +:+ "/key") JNull));
          if http_ok keyStatus then data ← of_result (http_json keyStatus); mret (Some data) else mret None)
         (λ e, mret None);
       match keyData with
       | Some data =>
           if json_truthy (json_field "is_encrypted" data) then
             on_page (addActivity "Security" "Decrypting file locally via KynetoEncrypt..." "system") ;;
             encryptedBuffer ← on_page (ask fetch_bytes (Fetch "GET" gatewayUrl JNull));
             try_catch
               (decrypted ← decrypt_download data encryptedBuffer;
                save_file ("kyneto_decrypted_deal_" +:+ dealId) decrypted ;;
                on_page (addActivity "System" "Download and decryption successful" "system"))
               (λ encryptError,
                  on_page (alert "Decryption failed. Please ensure you are connected with the correct wallet."))
           else window_open gatewayUrl
       | None => window_open gatewayUrl
       end)
    (λ e, on_page (alert "Could not download or decrypt the file.")).

(** ** Events of the form *)

Inductive file_event : Type :=
| PickFile (file : picked) | RemoveFile | RunJob (k : nat)
| Download (cid dealId : option string) | SummaryInput.

Definition file_dispatch (ev : file_event) : M desk unit :=
  match ev with
  | PickFile f => handleFileSelect f
  | RemoveFile => removeFile
  | RunJob k => run_nth_job k
  | Download c d => downloadFile c d
  | SummaryInput => updateSummary
  end.

Definition run_files (evs : list file_event) (s : desk) : desk :=
  foldl (λ s ev, snd (file_dispatch ev s)) s evs.
End Files.
