(* ===== verification/FileFlow.v ===== *)
(** What happens to a file chosen in the dashboard: single runs of choosing,
    encrypting, removing and uploading it, what leaves the browser and where its key is
    kept (the handlers of [Files]). *)

From S2P Require Import Prelude JsNum JsFormat World ShardManager Encrypt Page Notices NodeStatus Files.

Local Open Scope Z_scope.

(** * Steps that only change what is shown *)

Definition core (s : desk) :=
  (ds_files s, selectedFile s, ds_jobs s, ds_saved s,
   (pg_calls (ds_page s), pg_provider (ds_page s), pg_userAddress (ds_page s), pg_alerts (ds_page s),
    dom (pg_dom (ds_page s)) : gset string)).

Definition quiet (m : M desk unit) : Prop := ∀ s, ∃ s', m s = (Ok tt, s') ∧ core s' = core s.

(** What of [core] a proof reads off. *)
Lemma core_eq s s' : core s' = core s →
  ds_files s' = ds_files s ∧ selectedFile s' = selectedFile s ∧ ds_jobs s' = ds_jobs s ∧
  ds_saved s' = ds_saved s ∧ pg_calls (ds_page s') = pg_calls (ds_page s) ∧
  pg_provider (ds_page s') = pg_provider (ds_page s) ∧
  pg_userAddress (ds_page s') = pg_userAddress (ds_page s) ∧
  pg_alerts (ds_page s') = pg_alerts (ds_page s) ∧
  dom (pg_dom (ds_page s')) = dom (pg_dom (ds_page s)).
Proof. unfold core. intros H. injection H. auto 20. Qed.

Lemma quiet_seq {B} (m : M desk unit) (k : unit → M desk B) s :
  quiet m → ∃ s', (m ≫= k) s = k tt s' ∧ core s' = core s.
Proof.
  intros Hm. destruct (Hm s) as (s' & Hs & Hc). exists s'. split; [|done]. by rewrite (bind_ok _ _ _ _ _ Hs).
Qed.

(** [shown H]: run the first step of the program, known by [H] to be quiet. *)
Tactic Notation "shown" uconstr(H) ident(s') simple_intropattern(pat) :=
  match goal with |- context [(?m ≫= ?k) ?s] =>
    let Hrun := fresh in let Hq := fresh in
    pose proof (H : quiet m) as Hq; destruct (quiet_seq m k s Hq) as (s' & Hrun & pat);
    rewrite Hrun; clear Hrun Hq
  end.

Lemma quiet_ret : quiet (mret tt).
Proof. intros s. by exists s. Qed.

Lemma quiet_when id f : quiet (on_page (when_el id f)).
Proof.
  intros s. eexists. split; [reflexivity|]. unfold core. simpl. by rewrite dom_alter_L.
Qed.

Lemma quiet_status html color : quiet (status html color).
Proof. apply quiet_when. Qed.

Lemma on_page_ok {A} (m : M page A) s a p :
  m (ds_page s) = (Ok a, p) → on_page m s = (Ok a, with_page p s).
Proof. intros Hm. unfold on_page. by rewrite Hm. Qed.

Lemma on_page_throw {A} (m : M page A) s e p :
  m (ds_page s) = (Throw e, p) → on_page m s = (Throw e, with_page p s).
Proof. intros Hm. unfold on_page. by rewrite Hm. Qed.

Section Flow.
  Context `{Outside} `{Browser} {crypto : WebCrypto}.

Lemma quiet_activity user msg type : quiet (on_page (addActivity user msg type)).
Proof.
  intros s. unfold on_page, addActivity, has_el. running.
  destruct (bool_decide _); eexists; split; reflexivity.
Qed.

Lemma has_el_run id s : on_page (has_el id) s = (Ok (bool_decide (id ∈ dom (pg_dom (ds_page s)))), s).
Proof.
  unfold on_page, has_el. running. rewrite (bool_decide_ext _ _ (elem_of_dom _ _)). by destruct s.
Qed.

Lemma on_el_quiet id f s : id ∈ dom (pg_dom (ds_page s)) →
  ∃ s', on_page (on_el id f) s = (Ok tt, s') ∧ core s' = core s.
Proof.
  intros [e He]%elem_of_dom. unfold on_page, on_el, element_. running. rewrite He. simpl.
  eexists. split; [reflexivity|]. unfold core. simpl. by rewrite dom_alter_L.
Qed.

Lemma file_at_run r f s : ds_files s !! r = Some f → file_at r s = (Ok f, s).
Proof. intros Hf. unfold file_at. running. by rewrite Hf. Qed.

(** * The wallet signs *)

Definition signs (s : desk) (signature : string) : Prop :=
  pg_provider (ds_page s) = true ∧ answer_string (SignMessage WRAP_MESSAGE :: pg_calls (ds_page s)) = Ok signature.

Definition after_sign (s : desk) : desk :=
  with_page (with_calls (ds_page s) (SignMessage WRAP_MESSAGE :: pg_calls (ds_page s))) s.

Lemma sign_wrap_run s signature : signs s signature →
  ∃ w : wallet, sign_wrap s = (Ok w, after_sign s) ∧ w WRAP_MESSAGE = Ok signature.
Proof.
  intros [Hpr Hsig]. unfold sign_wrap, need_provider, on_page. running. rewrite Hpr. simpl.
  eexists. split; [reflexivity|]. done.
Qed.

Lemma encrypt_now_run `{!WebCryptoLaws} content s signature : signs s signature →
  (∀ n cs, length (random_bytes n cs) = n) →
  ∃ e, encrypt_now content s = (Ok e, after_sign s) ∧
       ∀ w : wallet, w WRAP_MESSAGE = Ok signature →
         decryptFile (ef_encryptedData e) (ef_encryptedKey e) (ef_iv e) (ef_authTag e) w = Ok content.
Proof.
  intros Hs Hrand. destruct (sign_wrap_run s signature Hs) as (w & Hw & Hws).
  destruct (encryptFile_opens (random_bytes 32 (pg_calls (ds_page s)))
              (random_bytes IV_LENGTH (pg_calls (ds_page s))) content w signature Hws (Hrand _ _))
    as (e & He & Hopen).
  exists e. split; [|done]. unfold encrypt_now. running. rewrite Hw. unfold of_result. by rewrite He.
Qed.

(** * What an upload sends *)

Definition upload_call (f : picked) (blob : bytes) : call :=
  Fetch "POST" (API_URL +:+ "/api/upload") (upload_body f blob).

(** The files, the selection, the jobs and the saved files are as before, and so is
    the session. *)
Definition kept (s s' : desk) : Prop :=
  ds_files s' = ds_files s ∧ selectedFile s' = selectedFile s ∧ ds_jobs s' = ds_jobs s ∧
  ds_saved s' = ds_saved s ∧ pg_provider (ds_page s') = pg_provider (ds_page s).

Definition only_calls (s0 : desk) (cs : list call) (s : desk) : Prop :=
  kept s0 s ∧ pg_calls (ds_page s) = cs.

Lemma quiet_preserves m s0 cs : quiet m → preserves (only_calls s0 cs) m.
Proof.
  intros Hm s (Hk & Hcs). destruct (Hm s) as (s' & Hs & (H1&H2&H3&H4&H5&H6&_)%core_eq). rewrite Hs. simpl.
  unfold only_calls, kept. by rewrite H1, H2, H3, H4, H5, H6.
Qed.

Lemma of_result_preserves {A} (r : outcome A) (I : desk → Prop) : preserves I (of_result r).
Proof. by intros s Hs. Qed.

Lemma on_page_gets_preserves {A} (g : page → A) (I : desk → Prop) : preserves I (on_page (gets g)).
Proof. intros s Hs. unfold on_page. running. by destruct s. Qed.

Hint Resolve quiet_when quiet_status quiet_activity quiet_preserves of_result_preserves
  on_page_gets_preserves : preserves.

Lemma status_keeps html color s0 cs s : only_calls s0 cs s →
  ∃ s', status html color s = (Ok tt, s') ∧ only_calls s0 cs s'.
Proof.
  intros Hs. pose proof (quiet_preserves _ s0 cs (quiet_status html color) s Hs) as Hp.
  destruct (quiet_status html color s) as (s' & Hs' & _). rewrite Hs' in *. by eexists.
Qed.

Lemma uploadToIPFS_sends r f blob s : ds_files s !! r = Some f →
  ∃ s', uploadToIPFS r blob s = (Ok tt, s') ∧
        only_calls s (upload_call f blob :: pg_calls (ds_page s)) s'.
Proof.
  intros Hf. set (cs := upload_call f blob :: pg_calls (ds_page s)).
  set (s0 := with_page (with_calls (ds_page s) cs) s).
  assert (Hs0 : only_calls s cs s0) by (by repeat split).
  unfold uploadToIPFS, ask_http, try_catch. rewrite (bind_ok _ _ _ _ _ (file_at_run r f s Hf)).
  destruct (answer_http cs) as [response|e] eqn:Ha.
  - rewrite (bind_ok _ _ _ _ _ (on_page_ok _ _ _ _ (ask_ok _ _ _ _ Ha))). fold cs s0.
    match goal with |- context [match ?m s0 with _ => _ end] =>
      assert (Hp : preserves (only_calls s cs) m) by (unfold selected_encrypted, file_at, has_el; preserve);
      specialize (Hp s0 Hs0); destruct (m s0) as [[[]|err] s1] end; [by eexists|].
    by apply status_keeps.
  - rewrite (bind_throw _ _ _ _ _ (on_page_throw _ _ _ _ (ask_throw _ _ _ _ Ha))). fold cs s0.
    by apply status_keeps.
Qed.

(** Running an upload sends the blob once, whatever the answer. *)
Lemma upload_sends r f blob sealed s : ds_files s !! r = Some f →
  ∃ s', run_job (Uploading r blob sealed) s = (Ok tt, s') ∧
        only_calls s (upload_call f blob :: pg_calls (ds_page s)) s'.
Proof.
  intros Hf. destruct (uploadToIPFS_sends r f blob s Hf) as (s1 & Hs1 & Hc1).
  unfold run_job. rewrite (bind_ok _ _ _ _ _ Hs1). destruct sealed; [by apply status_keeps | by eexists].
Qed.

(** * Encrypting *)

(** With a file selected, the ciphertext is queued and the key goes to the file that
    is selected now. *)
Lemma onload_seals `{!WebCryptoLaws} r r' f s signature :
  ds_files s !! r = Some f → selectedFile s = Some r' → (r' < length (ds_files s))%nat →
  signs s signature → (∀ n cs, length (random_bytes n cs) = n) →
  ∃ e s', run_job (Loaded r) s = (Ok tt, s') ∧
    ds_jobs s' = ds_jobs s ++ [Uploading r (ef_encryptedData e) true] ∧
    ds_files s' = alter (λ g, Picked (f_name g) (f_content g) (Some e)) r' (ds_files s) ∧
    selectedFile s' = Some r' ∧
    pg_calls (ds_page s') = SignMessage WRAP_MESSAGE :: pg_calls (ds_page s) ∧
    pg_provider (ds_page s') = true ∧
    (∀ w : wallet, w WRAP_MESSAGE = Ok signature →
       decryptFile (ef_encryptedData e) (ef_encryptedKey e) (ef_iv e) (ef_authTag e) w = Ok (f_content f)).
Proof.
  intros Hf Hsel Hr' Hs Hrand. destruct (encrypt_now_run (f_content f) s signature Hs Hrand) as (e & He & Hopen).
  exists e. unfold run_job, onload. rewrite (bind_ok _ _ _ _ _ (file_at_run r f s Hf)). unfold try_catch.
  rewrite (bind_ok _ _ _ _ _ He).
  set (s1 := with_files (alter (λ g, Picked (f_name g) (f_content g) (Some e)) r' (ds_files s)) (after_sign s)).
  assert (set_encrypted e (after_sign s) = (Ok tt, s1)) as Hset
    by (unfold set_encrypted; running; by rewrite Hsel).
  rewrite (bind_ok _ _ _ _ _ Hset).
  shown (quiet_status _ _) s2 (A1&A2&A3&A4&A5&A6&_)%core_eq.
  shown (quiet_activity _ _ _) s3 (B1&B2&B3&B4&B5&B6&_)%core_eq.
  eexists. split; [reflexivity|]. simpl.
  rewrite B1, B2, B3, B5, B6, A1, A2, A3, A5, A6. destruct Hs as [Hpr _]. by repeat split.
Qed.

(** With nothing selected, the assignment throws and the file itself is queued. *)
Lemma onload_leaks r f s signature :
  ds_files s !! r = Some f → selectedFile s = None → signs s signature →
  ∃ s', run_job (Loaded r) s = (Ok tt, s') ∧
    ds_jobs s' = ds_jobs s ++ [Uploading r (f_content f) false] ∧ ds_files s' = ds_files s ∧
    selectedFile s' = None ∧
    pg_calls (ds_page s') = SignMessage WRAP_MESSAGE :: pg_calls (ds_page s).
Proof.
  intros Hf Hsel Hs. destruct (sign_wrap_run s signature Hs) as (w & Hw & Hws).
  unfold run_job, onload. rewrite (bind_ok _ _ _ _ _ (file_at_run r f s Hf)). unfold try_catch.
  match goal with |- context [match ?m s with _ => _ end] =>
    assert (∃ err, m s = (Throw err, after_sign s)) as (err & ->) end.
  { unfold encrypt_now. running. rewrite Hw. unfold of_result, encryptFile, wrapKeyWithWallet, deriveWrappingKey.
    rewrite Hws. unfold set_encrypted. running. rewrite Hsel. by eexists. }
  shown (quiet_status _ _) s2 (A1&A2&A3&A4&A5&A6&_)%core_eq.
  eexists. split; [reflexivity|]. simpl. by rewrite A1, A2, A3, A5.
Qed.

(** * Choosing a file *)

Definition form_ids : gset string :=
  {["upload-area"; "file-info"; "file-name"; "file-size"; "cid-group"; "file-input"; "deal-size"]}.

(** The form is on the page and a wallet is connected. *)
Definition ready (s : desk) : Prop :=
  form_ids ⊆ dom (pg_dom (ds_page s)) ∧ pg_provider (ds_page s) = true ∧
  truthy (pg_userAddress (ds_page s)) = true.

Lemma ready_core s s' : core s' = core s → ready s → ready s'.
Proof. intros (_&_&_&_&_&H1&H2&_&H3)%core_eq. unfold ready. by rewrite H1, H2, H3. Qed.

Lemma ready_has s id : ready s → id ∈ form_ids → id ∈ dom (pg_dom (ds_page s)).
Proof. intros [Hd _]. set_solver. Qed.

Lemma on_form_quiet id f s : ready s → id ∈ form_ids →
  ∃ s', on_page (on_el id f) s = (Ok tt, s') ∧ core s' = core s.
Proof. intros Hr Hid. by apply on_el_quiet, ready_has. Qed.

Lemma updateSummary_run s : pg_provider (ds_page s) = true →
  ∃ js, updateSummary s = (Ok tt, with_jobs (ds_jobs s ++ js) s).
Proof.
  intros Hpr. unfold updateSummary. running.
  assert (∃ js, (Ok tt, s) = (Ok tt, with_jobs (ds_jobs s ++ js) s)) as Hnone
    by (exists []; rewrite app_nil_r; by destruct s).
  repeat (case_match; [|exact Hnone]). rewrite Hpr. by eexists.
Qed.

(** [steps I m]: from a state in [I], [m] returns, in [I]. *)
Definition steps (I : desk → Prop) (m : M desk unit) : Prop := ∀ s, I s → ∃ s', m s = (Ok tt, s') ∧ I s'.

Lemma steps_seq {B} I (m : M desk unit) (k : unit → M desk B) s :
  steps I m → I s → ∃ s', (m ≫= k) s = k tt s' ∧ I s'.
Proof.
  intros Hm Hs. destruct (Hm s Hs) as (s' & Hs' & HI). exists s'. split; [|done]. by rewrite (bind_ok _ _ _ _ _ Hs').
Qed.

(** While file [f] is being taken in: it is selected, and [js] more jobs wait. *)
Definition choosing (s0 : desk) (fs : list picked) (sel : option nat) (s : desk) : Prop :=
  ds_files s = fs ∧ selectedFile s = sel ∧ (∃ js, ds_jobs s = ds_jobs s0 ++ js) ∧
  pg_calls (ds_page s) = pg_calls (ds_page s0) ∧ ready s.

Section Choosing.
  Context (s0 : desk) (fs : list picked) (sel : option nat).

Lemma choosing_core s s' : core s' = core s → choosing s0 fs sel s → choosing s0 fs sel s'.
Proof.
  intros Hc (A1&A2&A3&A4&A5). apply core_eq in Hc as Hd. destruct Hd as (B1&B2&B3&B4&B5&_).
  unfold choosing. rewrite B1, B2, B3, B5. eauto 10 using ready_core.
Qed.

Lemma steps_quiet m : quiet m → steps (choosing s0 fs sel) m.
Proof. intros Hm s Hs. destruct (Hm s) as (s' & Hs' & Hc). exists s'. eauto using choosing_core. Qed.

Lemma steps_form id f : id ∈ form_ids → steps (choosing s0 fs sel) (on_page (on_el id f)).
Proof.
  intros Hid s Hs. destruct (on_form_quiet id f s) as (s' & Hs' & Hc); [apply Hs|done|].
  exists s'. eauto using choosing_core.
Qed.

Lemma steps_summary : steps (choosing s0 fs sel) updateSummary.
Proof.
  intros s (A1&A2&(js & A3)&A4&A5). destruct (updateSummary_run s) as (js' & ->); [apply A5|].
  eexists. split; [reflexivity|]. split_and!; try done. exists (js ++ js'). simpl. by rewrite A3, app_assoc.
Qed.

Lemma steps_then m k : steps (choosing s0 fs sel) m → steps (choosing s0 fs sel) k →
  steps (choosing s0 fs sel) (m ;; k).
Proof.
  intros Hm Hk s Hs. destruct (steps_seq _ m (λ _, k) s Hm Hs) as (s' & -> & Hs'). by apply Hk.
Qed.
End Choosing.

(** [onward]: run the next step of a handler by one of the facts above. *)
Ltac onward := match goal with
  | Hc : choosing ?a ?b ?c ?s |- context [(?m ≫= ?k) ?s] =>
      let Hm := fresh in
      assert (Hm : steps (choosing a b c) m) by
        (first [apply steps_then|idtac]; eauto using steps_quiet, quiet_when, quiet_status, quiet_activity, steps_summary with steps);
      let s' := fresh "s" in let Hr := fresh in
      destruct (steps_seq _ m k s Hm Hc) as (s' & Hr & ?); rewrite Hr; clear Hr Hm Hc
  end.
Create HintDb steps.
Hint Extern 1 (steps _ (on_page (on_el _ _))) => apply steps_form; set_solver : steps.

Lemma handleFileSelect_run f s : ready s →
  ∃ s' js, handleFileSelect f s = (Ok tt, s') ∧ ds_files s' = ds_files s ++ [f] ∧
    selectedFile s' = Some (length (ds_files s)) ∧
    ds_jobs s' = ds_jobs s ++ js ++ [Loaded (length (ds_files s))] ∧
    pg_calls (ds_page s') = pg_calls (ds_page s) ∧ ready s'.
Proof.
  intros Hr. set (r := length (ds_files s)).
  set (s1 := with_selected (Some r) (with_files (ds_files s ++ [f]) s)).
  assert (Hc : choosing s (ds_files s ++ [f]) (Some r) s1).
  { split_and!; try done. exists []. by rewrite app_nil_r. }
  unfold handleFileSelect.
  rewrite gets_bind, modify_bind. fold r s1.
  rewrite (bind_ok _ _ _ _ _ (has_el_run _ _)), (bind_ok _ _ _ _ _ (has_el_run _ _)).
  rewrite !bool_decide_true by (apply ready_has; [done|set_solver]). cbn [negb orb].
  do 4 onward.
  match goal with Hc : choosing _ _ _ ?s |- _ => rename s into s5, Hc into Hc5 end.
  rewrite (bind_ok _ _ _ _ _ (has_el_run _ _)), bool_decide_true by (apply ready_has; [apply Hc5|set_solver]).
  do 3 onward.
  match goal with Hc : choosing _ _ _ ?s |- _ => rename s into s8, Hc into Hc8 end.
  destruct Hc8 as (A1&A2&(js&A3)&A4&(A5&A6&A7)). rewrite !gets_bind, A6, A7. cbn [andb].
  rewrite bind_assoc_run. shown (quiet_status _ _) s9 Hq. apply core_eq in Hq as (B1&B2&B3&B4&B5&B6&B7&B8&B9).
  unfold push_job. rewrite modify_bind.
  match goal with |- context [on_page (addActivity ?u ?m ?t) ?x] =>
    destruct (quiet_activity u m t x) as (s11 & -> & (C1&C2&C3&C4&C5&C6&C7&C8&C9)%core_eq) end.
  exists s11, js. unfold ready. simpl in *.
  rewrite C1, C2, C3, C5, C6, C7, C9, B1, B2, B3, B5, B6, B7, B9, A1, A2, A3, A4.
  by rewrite app_assoc.
Qed.

Lemma removeFile_run s : ready s →
  ∃ s', removeFile s = (Ok tt, s') ∧ ds_files s' = ds_files s ∧ selectedFile s' = None ∧
    ds_jobs s' = ds_jobs s ∧ pg_calls (ds_page s') = pg_calls (ds_page s) ∧ ready s'.
Proof.
  intros Hr. unfold removeFile. rewrite modify_bind.
  set (I := λ t, core t = core (with_selected None s)).
  assert (HI : ∀ id f, id ∈ form_ids → steps I (on_page (on_el id f))).
  { intros id f Hid t Ht. destruct (on_form_quiet id f t) as (t' & Ht' & Hc); [|done|].
    - by apply (ready_core (with_selected None s)).
    - exists t'. split; [done|]. unfold I in *. congruence. }
  do 4 match goal with |- context [(on_page (on_el ?id ?f) ≫= ?k) ?t] =>
    assert (It : I t) by done; let t' := fresh in let Hr := fresh in
    destruct (steps_seq I (on_page (on_el id f)) k t) as (t' & Hr & ?);
      [apply HI; set_solver|done|rewrite Hr; clear Hr It] end.
  match goal with |- context [on_page (on_el ?id ?f) ?t] =>
    destruct (HI id f ltac:(set_solver) t) as (s' & -> & Hc); [done|] end.
  exists s'. split; [done|]. unfold I in Hc. assert (ready s') by (by apply (ready_core _ _ Hc)).
  apply core_eq in Hc as (?&?&?&_&?&_). done.
Qed.

Lemma RunJob_run k j s : ds_jobs s !! k = Some j →
  file_dispatch (RunJob k) s = run_job j (with_jobs (delete k (ds_jobs s)) s).
Proof. intros Hk. unfold file_dispatch, run_nth_job. by rewrite gets_bind, Hk, modify_bind. Qed.

Lemma run_files_cons ev evs s s' r : file_dispatch ev s = (r, s') → run_files (ev :: evs) s = run_files evs s'.
Proof. intros Hev. unfold run_files. simpl. by rewrite Hev. Qed.

Lemma lookup_last_job {A} (xs : list A) x : (xs ++ [x]) !! length xs = Some x.
Proof. by rewrite list_lookup_middle. Qed.

(** The job queued last runs next. *)
Lemma RunJob_last js j s : ds_jobs s = js ++ [j] →
  file_dispatch (RunJob (length js)) s = run_job j (with_jobs js s).
Proof.
  intros Hj. rewrite (RunJob_run _ j) by (by rewrite Hj, lookup_last_job).
  by rewrite Hj, delete_middle, app_nil_r.
Qed.

(** * Claims *)

Definition wallet_signs (signature : string) : Prop :=
  ∀ calls, answer_string (SignMessage WRAP_MESSAGE :: calls) = Ok signature.

Definition opens_to (signature : string) (e : encrypted_file) (content : bytes) : Prop :=
  ∀ w : wallet, w WRAP_MESSAGE = Ok signature →
    decryptFile (ef_encryptedData e) (ef_encryptedKey e) (ef_iv e) (ef_authTag e) w = Ok content.

Lemma ready_signs s signature : wallet_signs signature → ready s → signs s signature.
Proof. intros Hw (_ & Hpr & _). by split. Qed.

Lemma ready_jobs js s : ready s → ready (with_jobs js s).
Proof. done. Qed.

(** Undisturbed, a file chosen with a wallet connected is uploaded once, after one
    signature, and the selected file keeps the wrapped key, IV and tag. *)
Lemma picked_file_run `{!WebCryptoLaws} f s signature :
  ready s → wallet_signs signature → (∀ n cs, length (random_bytes n cs) = n) →
  ∃ k k' e, let s' := run_files [PickFile f; RunJob k; RunJob k'] s in
    pg_calls (ds_page s') =
      upload_call f (ef_encryptedData e) :: SignMessage WRAP_MESSAGE :: pg_calls (ds_page s) ∧
    (selectedFile s' ≫= λ r, ds_files s' !! r) = Some (Picked (f_name f) (f_content f) (Some e)) ∧
    opens_to signature e (f_content f).
Proof.
  intros Hr Hw Hrand. destruct (handleFileSelect_run f s Hr) as (s1 & js & E1 & A1 & A2 & A3 & A4 & A5).
  rewrite app_assoc in A3. set (t1 := with_jobs (ds_jobs s ++ js) s1).
  assert (Hf : ds_files t1 !! length (ds_files s) = Some f) by (simpl; by rewrite A1, lookup_last_job).
  destruct (onload_seals (length (ds_files s)) (length (ds_files s)) f t1 signature Hf)
    as (e & s2 & E2 & B1 & B2 & B3 & B4 & _ & B6); [done| | by apply ready_signs |done|].
  { simpl. rewrite A1, length_app. simpl. lia. }
  assert (Hf2 : ds_files s2 !! length (ds_files s) = Some (Picked (f_name f) (f_content f) (Some e)))
    by (rewrite B2, list_lookup_alter_eq, Hf; done).
  destruct (upload_sends (length (ds_files s)) _ (ef_encryptedData e) true (with_jobs (ds_jobs t1) s2) Hf2)
    as (s3 & E3 & (C1 & C2 & _) & C6).
  exists (length (ds_jobs s ++ js)), (length (ds_jobs t1)), e. cbn zeta.
  rewrite (run_files_cons (PickFile f) _ _ _ _ E1).
  rewrite (run_files_cons _ _ _ _ _ (eq_trans (RunJob_last _ _ _ A3) E2)).
  rewrite (run_files_cons _ _ _ _ _ (eq_trans (RunJob_last _ _ _ B1) E3)). simpl.
  rewrite C6, C2, C1. simpl. rewrite B4, B3. simpl. rewrite Hf2, A4. done.
Qed.

(** Removing the file while it is being encrypted uploads it in the clear: the
    wallet signed and the file was encrypted, but the assignment to the selected file
    throws and the handler for failed encryption sends the plaintext. *)
Theorem removed_file_is_uploaded_in_clear f s signature :
  ready s → wallet_signs signature →
  ∃ k k', let s' := run_files [PickFile f; RemoveFile; RunJob k; RunJob k'] s in
    selectedFile s' = None ∧
    pg_calls (ds_page s') =
      upload_call f (f_content f) :: SignMessage WRAP_MESSAGE :: pg_calls (ds_page s).
Proof.
  intros Hr Hw. destruct (handleFileSelect_run f s Hr) as (s1 & js & E1 & A1 & A2 & A3 & A4 & A5).
  destruct (removeFile_run s1 A5) as (s1' & E1' & A1' & A2' & A3' & A4' & A5').
  rewrite A3, app_assoc in A3'. set (t1 := with_jobs (ds_jobs s ++ js) s1').
  assert (Hf : ds_files t1 !! length (ds_files s) = Some f) by (simpl; by rewrite A1', A1, lookup_last_job).
  destruct (onload_leaks (length (ds_files s)) f t1 signature Hf A2') as (s2 & E2 & B1 & B2 & B3 & B4);
    [by apply ready_signs|].
  rewrite <- B2 in Hf.
  destruct (upload_sends (length (ds_files s)) f (f_content f) false (with_jobs (ds_jobs t1) s2) Hf)
    as (s3 & E3 & (C1 & C2 & _) & C6).
  exists (length (ds_jobs s ++ js)), (length (ds_jobs t1)). cbn zeta.
  rewrite (run_files_cons (PickFile f) _ _ _ _ E1), (run_files_cons RemoveFile _ _ _ _ E1').
  rewrite (run_files_cons _ _ _ _ _ (eq_trans (RunJob_last _ _ _ A3') E2)).
  rewrite (run_files_cons _ _ _ _ _ (eq_trans (RunJob_last _ _ _ B1) E3)). simpl.
  rewrite C6, C2. simpl. rewrite B4. simpl. by rewrite A4', A4.
Qed.

(** Keys are stored on whichever file is selected when the encryption ends: choosing
    a second file before the first is encrypted, and the first finishing last, leaves the
    second file with the first one's key, which does not belong to its upload. *)
Theorem key_lands_on_other_file `{!WebCryptoLaws} f g s signature :
  ready s → wallet_signs signature → (∀ n cs, length (random_bytes n cs) = n) →
  ∃ kg kf r eg ef, let s' := run_files [PickFile f; PickFile g; RunJob kg; RunJob kf] s in
    Uploading r (ef_encryptedData eg) true ∈ ds_jobs s' ∧ opens_to signature eg (f_content g) ∧
    selectedFile s' = Some r ∧
    ds_files s' !! r = Some (Picked (f_name g) (f_content g) (Some ef)) ∧
    opens_to signature ef (f_content f).
Proof.
  intros Hr Hw Hrand. destruct (handleFileSelect_run f s Hr) as (s1 & js & E1 & A1 & A2 & A3 & A4 & A5).
  destruct (handleFileSelect_run g s1 A5) as (s2 & js' & E2 & B1 & B2 & B3 & B4 & B5).
  set (rf := length (ds_files s)) in *. set (rg := length (ds_files s1)) in *.
  rewrite app_assoc in B3. set (t2 := with_jobs (ds_jobs s1 ++ js') s2).
  assert (Hg : ds_files t2 !! rg = Some g) by (simpl; unfold rg; by rewrite B1, lookup_last_job).
  assert (Hlen : (rg < length (ds_files t2))%nat) by (by apply lookup_lt_Some in Hg).
  assert (Hne : rg ≠ rf) by (unfold rg, rf; rewrite A1, length_app; simpl; lia).
  destruct (onload_seals rg rg g t2 signature Hg B2 Hlen)
    as (eg & s3 & E3 & C1 & C2 & C3 & C4 & C5 & C6); [by apply ready_signs |done|].
  set (j := Uploading rg (ef_encryptedData eg) true) in *.
  assert (Hq : ds_jobs s3 = (ds_jobs s ++ js) ++ Loaded rf :: js' ++ [j])
    by (rewrite C1; simpl; by rewrite A3, <- !app_assoc).
  assert (Hk : ds_jobs s3 !! length (ds_jobs s ++ js) = Some (Loaded rf)) by (by rewrite Hq, list_lookup_middle).
  set (t3 := with_jobs (delete (length (ds_jobs s ++ js)) (ds_jobs s3)) s3).
  assert (Hf : ds_files t3 !! rf = Some f).
  { simpl. rewrite C2, list_lookup_alter_ne by done. simpl.
    rewrite B1, lookup_app_l; rewrite A1; [unfold rf; by rewrite lookup_last_job|rewrite length_app; simpl; unfold rf; lia]. }
  destruct (onload_seals rf rg f t3 signature Hf C3) as (ef & s4 & E4 & D1 & D2 & D3 & D4 & D5 & D6).
  { simpl. by rewrite C2, length_alter. }
  { split; [done|]. apply Hw. }
  { done. }
  exists (length (ds_jobs s1 ++ js')), (length (ds_jobs s ++ js)), rg, eg, ef. cbn zeta.
  rewrite (run_files_cons (PickFile f) _ _ _ _ E1), (run_files_cons (PickFile g) _ _ _ _ E2).
  rewrite (run_files_cons _ _ _ _ _ (eq_trans (RunJob_last _ _ _ B3) E3)).
  rewrite (run_files_cons _ _ _ _ _ (eq_trans (RunJob_run _ _ _ Hk) E4)). simpl.
  split_and!; [|done|done| |done].
  - rewrite D1. apply elem_of_app. left. simpl. rewrite Hq, delete_middle. set_solver.
  - rewrite D2, list_lookup_alter_eq. simpl. rewrite C2, list_lookup_alter_eq, Hg. done.
Qed.
End Flow.

(** * A browser, a wallet and a form *)

Definition signing : Outside := {|
  API_URL := "http://localhost:3002";
  answer_Z := λ _, Throw (Error "rejected");
  answer_string := λ _, Ok "0x5ig";
  answer_strings := λ _, Throw (Error "rejected");
  answer_unit := λ _, Throw (Error "rejected");
  answer_provider := λ _, Throw (Error "rejected");
  answer_pledge := λ _, Throw (Error "rejected");
  answer_deal := λ _, Throw (Error "rejected");
  answer_http := λ _, Ok (HttpResponse true 200 (Ok (JObj [("cid", JStr "QmCipherOfTheFile")])));
  formatUnits := λ _, "0.0";
  ethers_id := λ s, s;
  random_text := λ _, "random";
  createRandom := λ _ _, "0xdummy";
  toLocaleTime := λ _, "12:00"
|}.

Definition dull_browser : Browser := {|
  random_bytes := λ n _, replicate n Byte.x2a;
  fetch_bytes := λ _, Throw (Error "offline");
  Math_log := λ x, x
|}.

Definition open_form : desk :=
  Desk (with_wallet (with_dom fresh_page (gset_to_gmap blank form_ids)) (Some "0xclient") true true) [] None [] [].

Definition note : picked := Picked "note.txt" demo_file None.
Definition photo : picked := Picked "photo.png" (demo_file ++ demo_file) None.

Lemma open_form_ready : ready open_form.
Proof. split; [|done]. simpl. by rewrite dom_gset_to_gmap. Qed.

Lemma removed_file_is_uploaded_in_clear_witness :
  ∃ k k', let s' := @run_files signing dull_browser toy_crypto
                      [PickFile note; RemoveFile; RunJob k; RunJob k'] open_form in
    selectedFile s' = None ∧
    pg_calls (ds_page s') = [@upload_call signing note demo_file; SignMessage WRAP_MESSAGE].
Proof.
  apply (@removed_file_is_uploaded_in_clear signing dull_browser toy_crypto note open_form "0x5ig");
    [exact open_form_ready|done].
Defined.

Lemma key_lands_on_other_file_witness :
  ∃ kg kf r eg ef, let s' := @run_files signing dull_browser toy_crypto
                              [PickFile note; PickFile photo; RunJob kg; RunJob kf] open_form in
    Uploading r (ef_encryptedData eg) true ∈ ds_jobs s' ∧ @opens_to toy_crypto "0x5ig" eg (demo_file ++ demo_file) ∧
    selectedFile s' = Some r ∧
    ds_files s' !! r = Some (Picked "photo.png" (demo_file ++ demo_file) (Some ef)) ∧
    @opens_to toy_crypto "0x5ig" ef demo_file.
Proof.
  apply (@key_lands_on_other_file signing dull_browser toy_crypto toy_crypto_laws note photo open_form "0x5ig");
    [exact open_form_ready|done|intros; apply length_replicate].
Defined.
