(* ===== verification/FileKeys.v ===== *)
(** Encrypted files: what uploads contain in every order of the events of the file
    form, what the page sends to the API over a whole session, and what downloading gives
    back.  A session mixes the events of the file form
    ([Files]) with all other events of the page ([Dashboard]). *)

From S2P Require Import Prelude JsNum JsFormat World ShardManager Encrypt Page Notices NodeStatus.
From S2P Require Import Governance Wallet Transactions Dashboard Files FileFlow.

Local Open Scope Z_scope.

(** * Sessions *)

Inductive session_event : Type :=
| OnFiles (ev : file_event)
| OnPage (ev : event).

Section Sessions.
  Context `{Outside} `{Browser} {crypto : WebCrypto}.

Definition session_step (ev : session_event) : M desk unit :=
  match ev with
  | OnFiles ev => file_dispatch ev
  | OnPage ev => on_page (handle ev)
  end.

Definition run_session (evs : list session_event) (s : desk) : desk :=
  foldl (λ s ev, snd (session_step ev s)) s evs.

(** ** Invariants of the page, through the file form *)

Section FileFrame.
  Context (I : page → Prop) `{!UiStable I}.
  Context (Hupload : ∀ p body, I p →
             I (with_calls p (Fetch "POST" (API_URL +:+ "/api/upload") body :: pg_calls p))).

Definition of_page (s : desk) : Prop := I (ds_page s).

Lemma preserves_on_page {A} (m : M page A) : preserves I m → preserves of_page (on_page m).
Proof using.
  intros Hm s Hs. specialize (Hm (ds_page s) Hs). unfold on_page. by destruct (m (ds_page s)).
Qed.
Lemma preserves_of_result {A} (r : outcome A) : preserves of_page (of_result r).
Proof using. by intros s Hs. Qed.
Lemma preserves_desk (f : desk → desk) : (∀ s, ds_page (f s) = ds_page s) → preserves of_page (modify f).
Proof using. intros Hf s Hs. unfold of_page. simpl. by rewrite Hf. Qed.
Lemma preserves_upload body :
  preserves I (ask_http (Fetch "POST" (API_URL +:+ "/api/upload") body)).
Proof using Hupload. intros p Hp. by apply Hupload. Qed.

  Hint Resolve preserves_on_page preserves_of_result preserves_upload : page.
  Hint Extern 2 (preserves of_page (modify _)) => apply preserves_desk; reflexivity : page.

Ltac desk_preserve := repeat (first [solve [auto 4 with page] | preserve_step]; cbv beta zeta).

Lemma preserves_sign_wrap : preserves of_page sign_wrap.
Proof using UiStable0.
  unfold sign_wrap, need_provider. intros s Hs. running.
  destruct (pg_provider (ds_page s)); [by apply ui_call|done].
Qed.
  Hint Resolve preserves_sign_wrap : page.

Lemma preserves_show_summary a b c d : preserves I (show_summary a b c d).
Proof using UiStable0. unfold show_summary. page_preserve. Qed.
Lemma preserves_summary_price : preserves I summary_price.
Proof using UiStable0. unfold summary_price. page_preserve. Qed.
  Hint Resolve preserves_show_summary preserves_summary_price : page.

Lemma preserves_uploadToIPFS r blob : preserves of_page (uploadToIPFS r blob).
Proof using UiStable0 Hupload.
  unfold uploadToIPFS, selected_encrypted, file_at, status. desk_preserve.
Qed.
Lemma preserves_onload r : preserves of_page (onload r).
Proof using UiStable0.
  unfold onload, file_at, encrypt_now, set_encrypted, status, push_job. desk_preserve.
Qed.
  Hint Resolve preserves_uploadToIPFS preserves_onload : page.

Lemma preserves_run_job j : preserves of_page (run_job j).
Proof using UiStable0 Hupload. unfold run_job, status. desk_preserve. apply preserves_on_page. page_preserve. Qed.
Lemma preserves_handleFileSelect f : preserves of_page (handleFileSelect f).
Proof using UiStable0. unfold handleFileSelect, updateSummary, status, push_job. desk_preserve. Qed.
Lemma preserves_downloadFile c d : preserves of_page (downloadFile c d).
Proof using UiStable0.
  unfold downloadFile, decrypt_download, window_open, save_file. desk_preserve.
  all: apply preserves_on_page, preserves_modify; intros; by apply ui_call.
Qed.

Lemma preserves_file_dispatch ev : preserves of_page (file_dispatch ev).
Proof using UiStable0 Hupload.
  destruct ev; simpl.
  - apply preserves_handleFileSelect.
  - unfold removeFile. desk_preserve.
  - unfold run_nth_job. desk_preserve; apply preserves_run_job.
  - apply preserves_downloadFile.
  - unfold updateSummary, push_job. desk_preserve.
Qed.
End FileFrame.

(** * What the page posts *)

Definition is_upload (c : call) : Prop := ∃ body, c = Fetch "POST" (API_URL +:+ "/api/upload") body.
Definition only_uploads (p : page) : Prop := Forall (λ c, posts c = true → is_upload c) (pg_calls p).

Definition posting_ok (p : page) : Prop := page_ok p ∧ only_uploads p.

Lemma only_uploads_call p c : posts c = false → only_uploads p → only_uploads (with_calls p (c :: pg_calls p)).
Proof. intros Hc Hp. constructor; [congruence|done]. Qed.

Instance only_uploads_ui : UiStable only_uploads.
Proof.
  constructor; try done. intros p c Hc. apply only_uploads_call.
  unfold harmless in Hc. by destruct (posts c); [rewrite andb_false_r in Hc|].
Qed.
Instance only_uploads_wallet : WalletStable only_uploads.
Proof. by constructor; [apply _|..]. Qed.
Instance posting_ok_stable : PageStable posting_ok.
Proof.
  constructor; [unfold posting_ok; apply _| | |].
  - intros p k [? ?]. split; [by apply ps_delete|done].
  - intros p a b [? ?]. split; [by apply ps_proposal|done].
  - intros p id v [? ?]. split; [by apply ps_vote|done].
Qed.
Instance posting_ok_calls : CallStable posting_ok.
Proof. intros p c Hc [? ?]. split; [by apply cs_call | by apply only_uploads_call]. Qed.

Lemma posting_ok_upload p body : posting_ok p →
  posting_ok (with_calls p (Fetch "POST" (API_URL +:+ "/api/upload") body :: pg_calls p)).
Proof. intros [? ?]. split; [done|]. constructor; [by eexists|done]. Qed.

(** No key reaches the API: whatever happens in a session, encrypted uploads and deal
    submissions included, the only POST requests the page makes are file uploads.  The
    wrapped key of an encrypted file lives in the page alone, and with the page it is lost. *)
Theorem keys_never_stored evs s :
  page_ok (ds_page s) → only_uploads (ds_page s) → only_uploads (ds_page (run_session evs s)).
Proof.
  intros Hp Hu. assert (Hs : posting_ok (ds_page s)) by done. clear Hp Hu.
  enough (posting_ok (ds_page (run_session evs s))) as [_ ?] by done.
  unfold run_session. revert s Hs. induction evs as [|ev evs IH]; intros s Hs; simpl; [done|]. apply IH.
  destruct ev as [ev|ev]; simpl.
  - exact (preserves_file_dispatch posting_ok posting_ok_upload ev s Hs).
  - assert (Hn : named_tasks (ds_page s)) by apply Hs.
    pose proof (preserves_event posting_ok ev (ds_page s) Hn Hs) as He.
    unfold on_page. by destruct (handle ev (ds_page s)).
Qed.

(** * What an upload contains *)

Section Sealing.
  Context `{!WebCryptoLaws} (signature : string) (Hw : wallet_signs signature).
  Context (Hrand : ∀ n cs, length (random_bytes n cs) = n).

(** A wallet is connected. *)
Definition connected (p : page) : Prop := pg_provider p = true ∧ truthy (pg_userAddress p) = true.
#[local] Instance connected_stable : UiStable connected.
Proof. by constructor. Qed.

(** The names and contents of the files chosen so far. *)
Definition idents (s : desk) : list (string * bytes) := map (λ f, (f_name f, f_content f)) (ds_files s).

(** The blob is a ciphertext that the wallet opens to the content. *)
Definition sealed_for (content blob : bytes) : Prop :=
  ∃ e, blob = ef_encryptedData e ∧ opens_to signature e content.

(** The POST requests made since [old] are uploads of chosen files, sealed. *)
Definition sealed_posts (fs : list (string * bytes)) (old : list call) (p : page) : Prop :=
  ∃ new, pg_calls p = new ++ old ∧
    Forall (λ c, posts c = true → ∃ f blob, c = upload_call f blob ∧ (f_name f, f_content f) ∈ fs ∧
                                            sealed_for (f_content f) blob) new.
#[local] Instance sealed_posts_stable fs old : UiStable (sealed_posts fs old).
Proof.
  constructor; try done. intros p c Hc (new & Hn & Hf). exists (c :: new). simpl. rewrite Hn.
  split; [done|]. constructor; [|done]. unfold harmless in Hc. by destruct (posts c); [rewrite andb_false_r in Hc|].
Qed.

(** What waits: files to encrypt, while a file is selected, and sealed uploads. *)
Definition sealed_job (fs : list picked) (sel : option nat) (j : job) : Prop :=
  match j with
  | Loaded r => is_Some (fs !! r) ∧ ∃ r', sel = Some r' ∧ (r' < length fs)%nat
  | Uploading r blob _ => ∃ f, fs !! r = Some f ∧ sealed_for (f_content f) blob
  | Summary _ _ _ => True
  end.
Definition sealed_jobs (s : desk) : Prop := Forall (sealed_job (ds_files s) (selectedFile s)) (ds_jobs s).

Definition sealing (old : list call) (s : desk) : Prop :=
  connected (ds_page s) ∧ sealed_jobs s ∧ sealed_posts (idents s) old (ds_page s).

Lemma sealed_posts_mono fs fs' old p : fs ⊆ fs' → sealed_posts fs old p → sealed_posts fs' old p.
Proof. intros Hsub (new & Hn & Hf). exists new. split; [done|]. eapply Forall_impl; [exact Hf|]. naive_solver. Qed.

(** Storing a key changes no name and no content. *)
Lemma idents_alter r e s :
  idents (with_files (alter (λ f, Picked (f_name f) (f_content f) e) r (ds_files s)) s) = idents s.
Proof.
  unfold idents. simpl. generalize (ds_files s). clear. intros fs. revert r.
  induction fs as [|f fs IH]; intros [|r]; [done..|]. cbn. f_equal. apply IH.
Qed.
Lemma sealed_job_alter fs sel r e j :
  sealed_job fs sel j → sealed_job (alter (λ f, Picked (f_name f) (f_content f) e) r fs) sel j.
Proof.
  assert (Hl : ∀ i f, fs !! i = Some f → ∃ f', alter (λ f, Picked (f_name f) (f_content f) e) r fs !! i = Some f' ∧
    f_content f' = f_content f).
  { intros i f Hi. destruct (decide (i = r)) as [->|].
    - rewrite list_lookup_alter_eq, Hi. by eexists.
    - rewrite list_lookup_alter_ne by done. eauto. }
  destruct j; simpl; [| |done].
  - intros [[f Hf] Hsel]. rewrite length_alter. split; [|done]. destruct (Hl _ _ Hf) as (f' & -> & _). by eexists.
  - intros (f & Hf & Hb). destruct (Hl _ _ Hf) as (f' & Hf' & Hc). exists f'. by rewrite Hc.
Qed.

Lemma onload_sealing old r s :
  sealed_job (ds_files s) (selectedFile s) (Loaded r) → sealing old s → sealing old (snd (run_job (Loaded r) s)).
Proof.
  intros ([f Hf] & r' & Hsel & Hr') (Hc & Hj & Hs).
  destruct (onload_seals r r' f s signature Hf Hsel Hr') as (e & s' & Hrun & B1 & B2 & B3 & B4 & _ & B6);
    [by split; [apply Hc|apply Hw]|done|].
  assert (Hc' := preserves_onload connected r s Hc). simpl in Hrun. simpl. rewrite Hrun in *. cbn [snd].
  assert (Hid : idents s' = idents s) by (unfold idents; rewrite B2; apply (idents_alter r' (Some e) s)).
  split_and!; [done| |].
  - unfold sealed_jobs. rewrite B1, B2, B3, <- Hsel. apply Forall_app. split.
    + eapply Forall_impl; [exact Hj|]. intros j. apply sealed_job_alter.
    + constructor; [|done]. apply sealed_job_alter. exists f. split; [done|]. by exists e.
  - rewrite Hid. destruct Hs as (new & Hn & Hf'). exists (SignMessage WRAP_MESSAGE :: new). rewrite B4, Hn.
    split; [done|]. by constructor.
Qed.

Lemma upload_sealing old r blob b s :
  sealed_job (ds_files s) (selectedFile s) (Uploading r blob b) → sealing old s →
  sealing old (snd (run_job (Uploading r blob b) s)).
Proof.
  intros (f & Hf & Hb) (Hc & Hj & Hs).
  assert (Hc' := preserves_run_job connected (λ _ _ H, H) (Uploading r blob b) s Hc).
  destruct (upload_sends r f blob b s Hf) as (s' & Hrun & (A1 & A2 & A3 & _ & _) & A6).
  rewrite Hrun in *. cbn [snd] in *. unfold sealing, sealed_jobs, idents. rewrite A1, A2, A3. split_and!; [done..|].
  destruct Hs as (new & Hn & Hf'). exists (upload_call f blob :: new). rewrite A6, Hn. split; [done|].
  constructor; [|done]. intros _. exists f, blob. split_and!; [done| |done].
  apply list_elem_of_fmap. exists f. split; [done|]. by apply list_elem_of_lookup_2 in Hf.
Qed.

(** Steps on the page leave the files, the selection and the jobs. *)
Lemma on_page_jobs {A} (m : M page A) : preserves sealed_jobs (on_page m).
Proof. intros s Hs. unfold on_page. by destruct (m (ds_page s)). Qed.
Lemma on_page_idents {A} (m : M page A) fs : preserves (λ s, idents s = fs) (on_page m).
Proof. intros s Hs. unfold on_page. by destruct (m (ds_page s)). Qed.
Lemma summary_jobs : preserves sealed_jobs updateSummary.
Proof.
  unfold updateSummary, push_job. preserve; [|apply on_page_jobs].
  apply Forall_app. split; [done|]. by constructor.
Qed.
Lemma summary_idents fs : preserves (λ s, idents s = fs) updateSummary.
Proof. unfold updateSummary, push_job. preserve. apply on_page_idents. Qed.
Hint Resolve on_page_jobs on_page_idents summary_jobs summary_idents of_result_preserves : preserves.

(** While file [r] is being taken in. *)
Definition taking (r : nat) (fs : list picked) (s : desk) : Prop :=
  connected (ds_page s) ∧ sealed_jobs s ∧ ds_files s = fs ∧ selectedFile s = Some r.
Lemma taking_page {A} (m : M page A) r fs : preserves connected m → preserves (taking r fs) (on_page m).
Proof.
  intros Hm s (Hc & Hj & Hf & Hs). specialize (Hm _ Hc). unfold on_page. by destruct (m (ds_page s)).
Qed.
Lemma taking_push r fs j : sealed_job fs (Some r) j → preserves (taking r fs) (push_job j).
Proof.
  intros Hj s (Hc & Hjs & Hf & Hs). split_and!; [done| |done|done]. unfold sealed_jobs. simpl.
  apply Forall_app. split; [done|]. constructor; [|done]. by rewrite Hf, Hs.
Qed.
Lemma taking_summary r fs : preserves (taking r fs) updateSummary.
Proof.
  unfold updateSummary. preserve; [by apply taking_push|]. apply taking_page, preserves_show_summary, _.
Qed.

(** With a wallet connected the handler queues the file for encryption. *)
Lemma taking_choice r fs html1 html2 blob (k : M desk unit) :
  is_Some (fs !! r) → preserves (taking r fs) k →
  preserves (taking r fs)
    (havePr ← gets (λ s, pg_provider (ds_page s)); me ← gets (λ s, pg_userAddress (ds_page s));
     (if havePr && truthy me then status html1 "var(--warning)" ;; push_job (Loaded r)
      else status html2 "var(--warning)" ;; push_job (Uploading r blob false)) ;; k).
Proof.
  intros Hr Hk s Hs. rewrite !gets_bind. pose proof Hs as ((-> & ->) & _). cbn [andb].
  revert s Hs. change (preserves (taking r fs) ((status html1 "var(--warning)" ;; push_job (Loaded r)) ;; k)).
  apply preserves_bind; [apply preserves_bind; [|intros _]|by intros _].
  - apply taking_page. page_preserve.
  - apply taking_push. split; [done|]. exists r. split; [done|]. by eapply lookup_lt_is_Some.
Qed.
Hint Extern 2 (preserves (taking _ _) (on_page _)) => apply taking_page; page_preserve : preserves.
Hint Extern 2 (preserves (taking _ _) (status _ _)) => apply taking_page; page_preserve : preserves.
Hint Resolve taking_summary : preserves.

Lemma sealed_job_pick fs sel f j : sealed_job fs sel j → sealed_job (fs ++ [f]) (Some (length fs)) j.
Proof.
  destruct j as [r|r blob b|]; simpl; [| |done].
  - intros [[g Hg] _]. split; [exists g; by apply lookup_app_l_Some|]. exists (length fs).
    split; [done|]. rewrite length_app. simpl. lia.
  - intros (g & Hg & Hb). exists g. split; [by apply lookup_app_l_Some|done].
Qed.

Lemma select_taking f s :
  connected (ds_page s) → sealed_jobs s →
  taking (length (ds_files s)) (ds_files s ++ [f]) (snd (handleFileSelect f s)).
Proof.
  intros Hc Hj. unfold handleFileSelect. rewrite gets_bind, modify_bind.
  set (r := length (ds_files s)). set (fs := ds_files s ++ [f]).
  match goal with |- taking _ _ (snd (?m ?t)) => cut (preserves (taking r fs) m); [intros Hm; apply (Hm t)|] end.
  { split_and!; [done| |done|done]. eapply Forall_impl; [exact Hj|]. intros j. apply sealed_job_pick. }
  assert (Hr : is_Some (fs !! r)) by (exists f; unfold fs, r; by apply lookup_last_job).
  repeat (first [solve [auto 3 with preserves] | apply taking_choice; [exact Hr|] | preserve_step]; cbv beta zeta).
Qed.
Lemma select_sealing old f s : sealing old s → sealing old (snd (handleFileSelect f s)).
Proof.
  intros (Hc & Hj & Hs). destruct (select_taking f s Hc Hj) as (Hc' & Hj' & Hf & _). split_and!; [done..|].
  apply (sealed_posts_mono (idents s)).
  { unfold idents. rewrite Hf, map_app. apply list_subseteq_app_l. done. }
  by apply (preserves_handleFileSelect (sealed_posts (idents s) old)).
Qed.

(** Downloads, summaries and what else only changes the page. *)
Lemma page_sealing old (m : M desk unit) :
  (∀ I, UiStable I → preserves (of_page I) m) → preserves sealed_jobs m → (∀ fs, preserves (λ s, idents s = fs) m) →
  preserves (sealing old) m.
Proof.
  intros Hp Hq Hi s (Hc & Hj & Hs). split_and!; [by apply (Hp connected _)|by apply Hq|].
  rewrite (Hi (idents s) s eq_refl). by apply (Hp (sealed_posts (idents s) old) _).
Qed.

Lemma download_jobs c d : preserves sealed_jobs (downloadFile c d).
Proof. unfold downloadFile, decrypt_download, sign_wrap, need_provider, window_open, save_file. preserve. Qed.
Lemma download_idents c d fs : preserves (λ s, idents s = fs) (downloadFile c d).
Proof. unfold downloadFile, decrypt_download, sign_wrap, need_provider, window_open, save_file. preserve. Qed.

Lemma job_sealing old k : preserves (sealing old) (run_nth_job k).
Proof.
  intros s Hs. unfold run_nth_job. rewrite gets_bind. destruct (ds_jobs s !! k) as [j|] eqn:Hk; [|done].
  rewrite modify_bind. set (s1 := with_jobs (delete k (ds_jobs s)) s).
  pose proof Hs as (Hc & Hj & Hp). unfold sealed_jobs in Hj. rewrite Forall_forall in Hj.
  assert (Hjob : sealed_job (ds_files s1) (selectedFile s1) j) by (by apply Hj, (list_elem_of_lookup_2 _ k)).
  assert (Hs1 : sealing old s1).
  { split_and!; [done| |done]. apply Forall_forall. intros i Hi. apply Hj.
    by eapply sublist_subseteq in Hi; [|apply sublist_delete]. }
  destruct j as [r|r blob b|]; [by apply onload_sealing|by apply upload_sealing|].
  revert s1 Hjob Hs1. intros s1 _. revert s1. apply page_sealing; [|apply on_page_jobs|intros; apply on_page_idents].
  intros I HI. apply preserves_on_page. unfold summary_price. page_preserve. by apply preserves_show_summary.
Qed.

Definition removes (ev : file_event) : bool := match ev with RemoveFile => true | _ => false end.

Lemma file_event_sealing old ev :
  removes ev = false → preserves (sealing old) (file_dispatch ev).
Proof.
  destruct ev; simpl; intros Hev; [intros s; apply select_sealing|done|apply job_sealing|..]; apply page_sealing.
  - intros. by apply preserves_downloadFile.
  - apply download_jobs.
  - intros. apply download_idents.
  - intros I HI. unfold updateSummary, push_job.
    repeat (first [solve [auto 4 with page] | preserve_step]; cbv beta zeta).
    all: first [by apply preserves_desk | apply preserves_on_page; by apply preserves_show_summary].
  - apply summary_jobs.
  - intros. apply summary_idents.
Qed.

Lemma run_files_sealing old evs s :
  Forall (λ ev, removes ev = false) evs → sealing old s → sealing old (run_files evs s).
Proof.
  unfold run_files. revert s. induction evs as [|ev evs IH]; intros s Hevs Hs; simpl; [done|].
  apply Forall_cons in Hevs as [Hev Hevs]. apply IH; [done|]. by apply file_event_sealing.
Qed.
End Sealing.

(** C23. Only ciphertext leaves the browser while no chosen file is removed: with a wallet
    connected that signs the wrapping message, and nothing pending at the start, in
    every order of the events of the file form other than removing the file (choosing
    further files, jobs resumed in any order, downloads, input), every POST request made
    is the upload of a chosen file as a ciphertext which, with its wrapped key, IV and
    tag, the same wallet opens to that file's content. And a file chosen then, with the
    form on the page, can be brought to exactly one upload after one signature, with the
    key, IV and tag kept on the selected file. *)
Theorem picked_file_is_sealed `{!WebCryptoLaws} signature evs s :
  wallet_signs signature → (∀ n cs, length (random_bytes n cs) = n) →
  connected (ds_page s) → ds_jobs s = [] → Forall (λ ev, removes ev = false) evs →
  let s' := run_files evs s in
  (∃ new, pg_calls (ds_page s') = new ++ pg_calls (ds_page s) ∧
     ∀ c, c ∈ new → posts c = true →
       ∃ f e, c = upload_call f (ef_encryptedData e) ∧ (f_name f, f_content f) ∈ idents s' ∧
              opens_to signature e (f_content f)) ∧
  (∀ f, ready s' →
     ∃ k k' e, let s'' := run_files [PickFile f; RunJob k; RunJob k'] s' in
       pg_calls (ds_page s'') =
         upload_call f (ef_encryptedData e) :: SignMessage WRAP_MESSAGE :: pg_calls (ds_page s') ∧
       (selectedFile s'' ≫= λ r, ds_files s'' !! r) = Some (Picked (f_name f) (f_content f) (Some e)) ∧
       opens_to signature e (f_content f)).
Proof.
  intros Hw Hrand Hc Hj Hevs s'.
  assert (Hs0 : sealing signature (pg_calls (ds_page s)) s).
  { split_and!; [done|unfold sealed_jobs; by rewrite Hj|by exists []]. }
  destruct (run_files_sealing signature Hw Hrand _ evs s Hevs Hs0) as (_ & _ & new & Hn & Hf). split.
  - exists new. split; [done|]. intros c Hin Hp. rewrite Forall_forall in Hf.
    destruct (Hf c Hin Hp) as (f & blob & -> & Hid & e & -> & Ho). by exists f, e.
  - intros f Hr. by apply picked_file_run.
Qed.

(** * Downloading *)

(** The answer of GET /api/deals/:id/key for a file encrypted as [e]. *)
Definition key_answer (e : encrypted_file) : json :=
  JObj [("is_encrypted", JBool true); ("encrypted_key", JStr (ef_encryptedKey e));
        ("encryption_iv", JStr (ef_iv e)); ("encryption_auth_tag", JStr (ef_authTag e))].

Lemma decrypt_download_run e content s s' (w : wallet) : sign_wrap s = (Ok w, s') →
  decryptFile (ef_encryptedData e) (ef_encryptedKey e) (ef_iv e) (ef_authTag e) w = Ok content →
  decrypt_download (key_answer e) (ef_encryptedData e) s = (Ok content, s').
Proof.
  intros Hw Hd. unfold decrypt_download, of_result. running. rewrite Hw. by rewrite Hd.
Qed.

(** C24. Download round trip: a file encrypted in the browser, whose ciphertext the
    gateway serves and whose key the API returns, is decrypted with the same wallet and
    saved as it was, with no alert. *)
Theorem download_returns_file `{!WebCryptoLaws} rawKey iv content (w : wallet) e cid dealId signature status s :
  let key_call := Fetch "GET" (API_URL +:+ "/api/deals/" +:+ dealId +:+ "/key") JNull in
  let file_call := Fetch "GET" ("https://ipfs.io/ipfs/" +:+ remove_once "ipfs://" cid) JNull in
  length rawKey = 32%nat → w WRAP_MESSAGE = Ok signature → encryptFile rawKey iv content w = Ok e →
  cid ≠ "" → dealId ≠ "" →
  pg_provider (ds_page s) = true → truthy (pg_userAddress (ds_page s)) = true → wallet_signs signature →
  answer_http (key_call :: pg_calls (ds_page s)) = Ok (HttpResponse true status (Ok (key_answer e))) →
  fetch_bytes (file_call :: key_call :: pg_calls (ds_page s)) = Ok (ef_encryptedData e) →
  ∃ s', downloadFile (Some cid) (Some dealId) s = (Ok tt, s') ∧
    ds_saved s' = ds_saved s ++ [("kyneto_decrypted_deal_" +:+ dealId, content)] ∧
    pg_alerts (ds_page s') = pg_alerts (ds_page s).
Proof.
  intros key_call file_call Hlen Hw He Hcid Hdeal Hpr Hme Hsig Hkey Hfile.
  destruct (encryptFile_opens rawKey iv content w signature Hw Hlen) as (e' & He' & Hopen).
  assert (e' = e) as -> by congruence.
  unfold downloadFile. assert (truthy (Some cid) = true) as -> by (by destruct cid).
  cbn [negb default]. unfold try_catch at 1.
  shown (quiet_activity _ _ _) s1 (A1&A2&A3&A4&A5&A6&A7&A8&_)%core_eq. cbn zeta.
  rewrite !gets_bind, A6, A7, Hpr, Hme. assert (truthy (Some dealId) = true) as -> by (by destruct dealId).
  cbn [negb orb default].
  set (s2 := with_page (with_calls (ds_page s1) (key_call :: pg_calls (ds_page s1))) s1).
  match goal with |- context [try_catch ?m ?h] =>
    assert (try_catch m h s1 = (Ok (Some (key_answer e)), s2)) as Hk end.
  { unfold ask_http, try_catch. fold key_call. rewrite <- A5 in Hkey.
    by rewrite (bind_ok _ _ _ _ _ (on_page_ok _ _ _ _ (ask_ok _ _ _ _ Hkey))). }
  rewrite (bind_ok _ _ _ _ _ Hk). cbn [default].
  change (json_truthy (json_field "is_encrypted" (key_answer e))) with true. cbv iota. unfold id.
  shown (quiet_activity _ _ _) s3 (B1&B2&B3&B4&B5&B6&B7&B8&_)%core_eq.
  assert (Hfetch : fetch_bytes (file_call :: pg_calls (ds_page s3)) = Ok (ef_encryptedData e))
    by (rewrite B5; simpl; by rewrite A5).
  fold file_call. rewrite (bind_ok _ _ _ _ _ (on_page_ok _ _ _ _ (ask_ok _ _ _ _ Hfetch))).
  set (s4 := with_page _ s3).
  destruct (sign_wrap_run s4 signature) as (w' & Hw' & Hws'); [split; [simpl; rewrite B6; simpl; congruence|apply Hsig]|].
  pose proof (decrypt_download_run e content s4 _ w' Hw' (Hopen w' Hws')) as Hd.
  unfold try_catch. rewrite (bind_ok _ _ _ _ _ Hd). unfold save_file. rewrite modify_bind.
  match goal with |- context [on_page (addActivity ?u ?m ?t) ?x] =>
    destruct (quiet_activity u m t x) as (s6 & -> & (C1&C2&C3&C4&C5&C6&C7&C8&_)%core_eq) end.
  exists s6. split; [done|]. rewrite C4, C8. simpl. rewrite B4, B8. simpl. by rewrite A4, A8.
Qed.
End Sessions.

(** * The cost summary *)

(** The line with the number of eligible providers is never written: the call that
    would count them names a variable that does not exist. *)
Theorem summary_counts_no_providers `{Outside} `{Browser} kynPrice size price duration p :
  pg_dom (snd (show_summary kynPrice size price duration p)) !! "eligible-provider-count"
  = pg_dom p !! "eligible-provider-count".
Proof.
  unfold show_summary, when_el, has_el. running.
  destruct (bool_decide _ && _); simpl; by rewrite lookup_alter_ne.
Qed.

(** * Witnesses *)

(** Two files chosen before either is encrypted, the second encrypted first. *)
Definition two_picks : list file_event := [PickFile note; PickFile photo; RunJob 1; RunJob 0; RunJob 0; RunJob 0].
Definition after_picks : desk := @run_files signing dull_browser toy_crypto two_picks open_form.

Lemma picked_file_is_sealed_witness :
  length (where_ posts (pg_calls (ds_page after_picks))) = 2%nat ∧
  ∃ new, pg_calls (ds_page after_picks) = new ++ [] ∧
    ∀ c, c ∈ new → posts c = true →
      ∃ f e, c = @upload_call signing f (ef_encryptedData e) ∧ (f_name f, f_content f) ∈ idents after_picks ∧
             @opens_to toy_crypto "0x5ig" e (f_content f).
Proof.
  split; [vm_compute; reflexivity|].
  refine (proj1 (@picked_file_is_sealed signing dull_browser toy_crypto toy_crypto_laws "0x5ig" two_picks open_form
    _ _ _ _ _)).
  - done.
  - intros. apply length_replicate.
  - done.
  - reflexivity.
  - repeat constructor.
Defined.

Lemma keys_never_stored_witness :
  @only_uploads signing (ds_page (@run_session signing dull_browser toy_crypto
    [OnFiles (PickFile note); OnFiles (RunJob 0); OnFiles (RunJob 0); OnPage SubmitDeal; OnPage Disconnect] open_form)).
Proof.
  apply (@keys_never_stored signing dull_browser toy_crypto); [|constructor].
  split; [|split].
  - split; [reflexivity|]. split; [done|constructor].
  - split; [simpl; unfold MAX_NOTIFICATIONS; lia|exact feed_markup_ok].
  - exact (Permutation_refl []).
Defined.

(** The upload of that session is in the log. *)
Example session_uploads :
  length (where_ posts (pg_calls (ds_page (@run_session signing dull_browser toy_crypto
    [OnFiles (PickFile note); OnFiles (RunJob 0); OnFiles (RunJob 0); OnPage SubmitDeal] open_form)))) = 1%nat.
Proof. vm_compute. reflexivity. Qed.

Definition sealed_note : encrypted_file :=
  match @encryptFile toy_crypto (replicate 32 Byte.x2a) (replicate 12 Byte.x01) demo_file toy_wallet with
  | Ok e => e | Throw _ => EncryptedFile [] "" "" ""
  end.

Definition serving : Outside := {|
  API_URL := "http://localhost:3002";
  answer_Z := λ _, Throw (Error "rejected");
  answer_string := λ _, Ok "0x5ig";
  answer_strings := λ _, Throw (Error "rejected");
  answer_unit := λ _, Throw (Error "rejected");
  answer_provider := λ _, Throw (Error "rejected");
  answer_pledge := λ _, Throw (Error "rejected");
  answer_deal := λ _, Throw (Error "rejected");
  answer_http := λ _, Ok (HttpResponse true 200 (Ok (key_answer sealed_note)));
  formatUnits := λ _, "0.0";
  ethers_id := λ s, s;
  random_text := λ _, "random";
  createRandom := λ _ _, "0xdummy";
  toLocaleTime := λ _, "12:00"
|}.

Definition gateway_browser : Browser := {|
  random_bytes := λ n _, replicate n Byte.x2a;
  fetch_bytes := λ _, Ok (ef_encryptedData sealed_note);
  Math_log := λ x, x
|}.

Lemma download_returns_file_witness :
  ∃ s', @downloadFile serving gateway_browser toy_crypto (Some "ipfs://QmCipher") (Some "7") open_form = (Ok tt, s') ∧
    ds_saved s' = [("kyneto_decrypted_deal_7", demo_file)] ∧ pg_alerts (ds_page s') = [].
Proof.
  by apply (@download_returns_file serving gateway_browser toy_crypto toy_crypto_laws (replicate 32 Byte.x2a)
              (replicate 12 Byte.x01) demo_file toy_wallet sealed_note "ipfs://QmCipher" "7" "0x5ig" 200 open_form).
Defined.
