(* ===== verification/Tables.v ===== *)
(** The read side of the dashboard (dashboard/app.js): network statistics, the tables of
    deals and files, the marketplace, "My Deals", the profile page, and the messages of
    the API's sockets that refresh them.

    A table is kept as the list of its rows, each with the texts the markup shows; the
    rest of the page is the [page] of the other handlers. *)

From S2P Require Import Prelude JsNum JsFormat World Page Notices NodeStatus Wallet Transactions.

Local Open Scope Z_scope.

(** * Values of JSON objects *)

(** [o.k]: [None] is undefined; a property of null throws. *)
Definition get (k : string) (j : json) : option json :=
  match j with
  | JObj fields => snd <$> find_first (λ f, bool_decide (fst f = k)) fields
  | _ => None
  end.
Definition get_field (k : string) (j : json) : outcome (option json) :=
  match j with JNull => Throw null_error | _ => Ok (get k j) end.

Definition is_truthy (v : option json) : bool := match v with Some j => json_truthy j | None => false end.

(** [x || y] *)
Definition or_else (x y : option json) : option json := if is_truthy x then x else y.
Definition zero : option json := Some (JInt 0).

(** String(v), as template literals and [join] use it. *)
Fixpoint show_json (j : json) : string :=
  match j with
  | JNull => "null"
  | JBool b => if b then "true" else "false"
  | JInt z => show_Z z
  | JNum x => show_num x
  | JStr s => s
  | JArr xs => join "," (map (λ x, match x with JNull => "" | _ => show_json x end) xs)
  | JObj _ => "[object Object]"
  end.
Definition show (v : option json) : string := match v with Some j => show_json j | None => "undefined" end.

(** Number(v) *)
Definition to_number (v : option json) : num :=
  match v with
  | None => num_nan
  | Some JNull => num_of_Z 0
  | Some (JBool b) => num_of_Z (if b then 1 else 0)
  | Some (JInt z) => num_of_Z z
  | Some (JNum x) => x
  | Some j => Number (show_json j)
  end.

(** Numbers as JSON values, integers where they are integers. *)
Definition of_num (x : num) : option json := Some (JNum x).

(** * State *)

Inductive row : Type :=
| NoRows (message : string)
| DealRow (id status size date cid : string)
| FileRow (name cid shown size date id : string)
| MarketCard (id size cid : string)
| MyDealRow (id cid shown size price date status : string) (renew : bool).

Record board : Type := Board {
  bd_page : page;
  cachedNetworkStats : json;
  bd_deals : list row;         (* #deals-table tbody *)
  bd_files : list row;         (* #files-table tbody *)
  bd_market : list row;        (* .marketplace-grid *)
  bd_mine : list row           (* #my-deals-table tbody *)
}.

Definition set_page x s := Board x (cachedNetworkStats s) (bd_deals s) (bd_files s) (bd_market s) (bd_mine s).
Definition set_stats x s := Board (bd_page s) x (bd_deals s) (bd_files s) (bd_market s) (bd_mine s).
Definition set_deal_rows x s := Board (bd_page s) (cachedNetworkStats s) x (bd_files s) (bd_market s) (bd_mine s).
Definition set_file_rows x s := Board (bd_page s) (cachedNetworkStats s) (bd_deals s) x (bd_market s) (bd_mine s).
Definition set_market_rows x s := Board (bd_page s) (cachedNetworkStats s) (bd_deals s) (bd_files s) x (bd_mine s).
Definition set_my_rows x s := Board (bd_page s) (cachedNetworkStats s) (bd_deals s) (bd_files s) (bd_market s) x.

Definition in_page {A} (m : M page A) : M board A := λ s,
  match m (bd_page s) with (r, p) => (r, set_page p s) end.
Definition result {A} (r : outcome A) : M board A := λ s, (r, s).

(** [marketplace.getDeal(i)]: the nine values, in order, the page reads six of. *)
Record full_deal : Type := FullDeal {
  fd_client : string; fd_cid : string; fd_size : Z; fd_start : Z; fd_status : Z }.

(** Formatting by the locale, and the contract call with a structured answer. *)
Class Reading : Type := {
  answer_full_deal : list call → outcome full_deal;
  localeDate : json → string;          (* new Date(x).toLocaleDateString() *)
  localeKYN : num → string;            (* toLocaleString, two decimals *)
  isoDate : Z → string;                (* new Date(ms).toISOString() *)
  monthYear : option Z → string;       (* month and year of a time, or of NaN *)
  formatEther : Z → string
}.

Section Tables.
  Context `{Outside} `{Reading}.

(** * Statistics *)

Definition formatKYN (v : option json) : string :=
  match parseFloat (show v) with
  | SpecFloat.S754_nan => "0.00"
  | x => localeKYN x
  end.

(** [Math.round(x)]: what is not finite stays as it is. *)
Definition Math_round (x : num) : num := match num_round x with Some z => num_of_Z z | None => x end.

Definition updateStatsUI (stats : json) : M board unit :=
  modify (set_stats stats) ;;
  let f k := get k stats in
  in_page (when_el "#stat-deals .value" (set_text (show (or_else (f "active_deals") zero)))) ;;
  in_page (when_el "#stat-providers .value" (set_html
    ("<span>" +:+ show (or_else (f "active_providers") zero) +:+ " Active</span> <span>| " +:+
     show (or_else (f "total_providers") zero) +:+ " Total</span>"))) ;;
  let capacity := or_else (f "total_capacity_all_gb") (f "total_capacity_gb") in
  in_page (when_el "#stat-capacity .value" (set_text (show (or_else capacity zero) +:+ " GB"))) ;;
  in_page (when_el "#stat-revenue .value" (set_text (formatKYN (f "total_protocol_revenue") +:+ " KYN"))) ;;
  in_page (when_el "#stat-burned .value" (set_text (formatKYN (f "total_tokens_burned") +:+ " KYN"))) ;;
  let totalCap := num_or (Some (parseFloat (show capacity))) (num_of_Z 0) in
  let utilization :=
    if num_lt (num_of_Z 0) totalCap
    then Math_round (num_mul (num_div (to_number (f "total_utilization_gb")) totalCap) (num_of_Z 100))
    else num_of_Z 0 in
  in_page (when_el "#stat-utilization .value" (set_text (show_num utilization +:+ "%"))).

(** [response.ok ? response.json() : fallback] of a GET, with failures caught. *)
Definition get_or (url : string) (fallback : json) : M board json :=
  try_catch
    (response ← in_page (ask_http (Fetch "GET" (API_URL +:+ url) JNull));
     if http_ok response then result (http_json response) else mret fallback)
    (λ e, mret fallback).

(** [Promise.all]: every call is made; the first that fails is the failure. *)
Definition all5 (a b c d e : call) : M board (Z * Z * Z * Z * Z) := λ s,
  let p := bd_page s in
  let l0 := pg_calls p in
  let la := a :: l0 in let lb := b :: la in let lc := c :: lb in let ld := d :: lc in let le := e :: ld in
  let s' := set_page (with_calls p le) s in
  match answer_Z la, answer_Z lb, answer_Z lc, answer_Z ld, answer_Z le with
  | Ok a, Ok b, Ok c, Ok d, Ok e => (Ok (a, b, c, d, e), s')
  | Throw x, _, _, _, _ | _, Throw x, _, _, _ | _, _, Throw x, _, _
  | _, _, _, Throw x, _ | _, _, _, _, Throw x => (Throw x, s')
  end.

Definition ifdef (v d : option json) : option json := match v with Some _ => v | None => d end.

(** The object built from the API's numbers and the contracts'. *)
Definition merged_stats (api : json) (capacity dealCount providerCount fees burned : Z) : json :=
  let f k := get k api in
  let max k z := of_num (num_max (to_number (or_else (f k) zero)) (num_of_Z z)) in
  let v (o : option json) := default JNull o in
  JObj [("active_deals", v (max "active_deals" dealCount));
        ("active_providers", v (ifdef (f "active_providers") zero));
        ("total_providers", v (ifdef (f "total_providers") (Some (JInt providerCount))));
        ("total_capacity_all_gb", v (max "total_capacity_all_gb" capacity));
        ("total_capacity_gb", v (or_else (f "total_capacity_gb") zero));
        ("total_utilization_gb", v (or_else (f "total_utilization_gb") zero));
        ("total_protocol_revenue", JStr (formatUnits fees));
        ("total_tokens_burned", JStr (formatUnits burned))].

Definition no_stats : json :=
  JObj [("active_deals", JInt 0); ("active_providers", JInt 0); ("total_capacity_gb", JInt 0);
        ("total_utilization_gb", JInt 0); ("total_protocol_revenue", JInt 0); ("total_tokens_burned", JInt 0)].

(** [provider || readOnlyProvider]: the read-only provider is made at load and is
    always there, so the branch without a provider is never taken. *)
Definition fetchStats : M board unit :=
  try_catch
    (apiStats ← get_or "/api/stats" (JObj []);
     '(totalCapacity, activeDeals, providerCount, feesCollected, tokensBurned) ←
       all5 (ReadUint "CapacityPledge" "totalPledgedCapacityGB") DealCount
            (ReadUint "ProviderRegistry" "getProviderCount") (ReadUint "StorageMarketplace" "totalFeesCollected")
            (ReadUint "StorageToken" "totalTokensBurned");
     (match apiStats with JNull => throw null_error | _ => mret tt end) ;;
     activeDeals ← in_page (toNumber activeDeals);
     providerCount ← (match get "total_providers" apiStats with
                      | Some _ => mret 0
                      | None => in_page (toNumber providerCount)
                      end);
     totalCapacity ← in_page (toNumber totalCapacity);
     updateStatsUI (merged_stats apiStats totalCapacity activeDeals providerCount feesCollected tokensBurned) ;;
     in_page (setOnlineStatus true))
    (λ error, in_page (setOnlineStatus false) ;; updateStatsUI no_stats).

(** * Deals and files *)

(** [cid && cid.length > n ? first a characters...last b : otherwise] *)
Definition safeCid (n a b : nat) (otherwise : string) (cid : option json) : outcome string :=
  match cid with
  | Some (JStr s) =>
      if (n <? String.length s)%nat
      then Ok (substring 0 a s +:+ "..." +:+ substring_from (String.length s - b) s)
      else Ok otherwise
  | Some (JArr xs) =>
      if (n <? length xs)%nat then Throw (Error "deal.file_cid.substring is not a function") else Ok otherwise
  | _ => Ok otherwise
  end.

(** [new Date(deal.created_at || Date.now()).toLocaleDateString()] *)
Definition shownDate (now : Z) (created_at : option json) : string :=
  localeDate (default JNull (or_else created_at (Some (JInt now)))).

(** The row of one deal; reading a property of null throws. *)
Definition deal_row_of (now : Z) (deal : json) : outcome row :=
  match deal with
  | JNull => Throw null_error
  | _ =>
      match safeCid 8 12 10 "Generating..." (get "file_cid" deal) with
      | Throw e => Throw e
      | Ok _ => Ok (DealRow (show (get "deal_id" deal)) (show (get "status" deal))
                      (show (or_else (get "file_size_gb" deal) zero)) (shownDate now (get "created_at" deal))
                      (show (get "file_cid" deal)))
      end
  end.

Definition file_row_of (now : Z) (deal : json) : outcome row :=
  match deal with
  | JNull => Throw null_error
  | _ =>
      let fileName := or_else (get "file_name" deal) (Some (JStr ("File_" +:+ show (get "deal_id" deal)))) in
      match safeCid 10 12 10 "Generating CID..." (get "file_cid" deal) with
      | Throw e => Throw e
      | Ok shown => Ok (FileRow (show fileName) (show (get "file_cid" deal)) shown
                          (show (or_else (get "file_size_gb" deal) zero)) (shownDate now (get "created_at" deal))
                          (show (get "deal_id" deal)))
      end
  end.

(** [deals.forEach(deal => tbody.appendChild(row of deal))]: the rows before a failure
    stay. *)
Definition append_rows (put : list row → board → board) (rows : board → list row)
    (of_deal : Z → json → outcome row) (deals : list json) : M board unit :=
  for_each deals (λ deal,
    now ← in_page clock;
    r ← result (of_deal now deal);
    modify (λ s, put (rows s ++ [r]) s)).

(** [deals.length === 0], then [deals.forEach]: what is not an array throws. *)
Definition renderFiles (deals : json) : M board unit :=
  have ← in_page (has_el "#files-table tbody");
  if negb have then mret tt else
  modify (set_file_rows []) ;;
  match deals with
  | JArr [] => modify (set_file_rows [NoRows "No files found"])
  | JArr ds => append_rows set_file_rows bd_files file_row_of ds
  | _ => throw (Error "deals.forEach is not a function")
  end.

Definition renderDeals (deals : json) : M board unit :=
  have ← in_page (has_el "#deals-table tbody");
  if negb have then mret tt else
  modify (set_deal_rows []) ;;
  renderFiles deals ;;
  match deals with
  | JArr [] => modify (set_deal_rows [NoRows "No deals found"])
  | JArr ds => append_rows set_deal_rows bd_deals deal_row_of ds
  | _ => throw (Error "deals.forEach is not a function")
  end.

(** [data.deals || []] *)
Definition deals_of (data : json) : outcome json :=
  match get_field "deals" data with
  | Throw e => Throw e
  | Ok v => Ok (default (JArr []) (or_else v (Some (JArr []))))
  end.

Definition DEAL_STATUS : list string := ["active"; "completed"; "failed"; "cancelled"].

(** The object pushed for a deal read from the chain; a status past the list is
    undefined and the property is left out. *)
Definition chain_row (i : Z) (d : full_deal) (size start : Z) : json :=
  JObj ([("deal_id", JInt i); ("client_address", JStr (fd_client d)); ("file_cid", JStr (fd_cid d));
         ("file_size_gb", JInt size)]
        ++ match DEAL_STATUS !! Z.to_nat (fd_status d) with Some st => [("status", JStr st)] | None => [] end
        ++ [("created_at", JStr (isoDate (start * 1000)))]).

(** Deals [numDeals - 1] down to [start], a failing one skipped. *)
Definition read_deal (i : Z) : M board (list json) :=
  try_catch
    (d ← in_page (ask answer_full_deal (GetDeal i));
     size ← in_page (toNumber (fd_size d));
     start ← in_page (toNumber (fd_start d));
     mret [chain_row i d size start])
    (λ e, mret []).

Fixpoint read_deals (ids : list Z) : M board (list json) :=
  match ids with
  | [] => mret []
  | i :: ids' => d ← read_deal i; ds ← read_deals ids'; mret (d ++ ds)
  end.

(** [for (let i = numDeals - 1; i >= start; i--)] *)
Definition last_deals (numDeals : Z) : list Z := reverse (seqZ (Z.max 0 (numDeals - 5)) (numDeals - Z.max 0 (numDeals - 5))).

Definition fetchDeals : M board unit :=
  try_catch
    (deals ← try_catch
       (response ← in_page (ask_http (Fetch "GET" (API_URL +:+ "/api/deals") JNull));
        if http_ok response then data ← result (http_json response); result (deals_of data) else mret (JArr []))
       (λ e, mret (JArr []));
     deals ← (match deals with
              | JArr [] => count ← in_page (ask_Z DealCount); numDeals ← in_page (toNumber count);
                           ds ← read_deals (last_deals numDeals); mret (JArr ds)
              | _ => mret deals
              end);
     renderDeals deals)
    (λ error, renderDeals (JArr [])).

(** * Marketplace *)

Definition market_card (deal : json) : outcome row :=
  match deal with
  | JNull => Throw null_error
  | _ => Ok (MarketCard (show (get "deal_id" deal)) (show (get "file_size_gb" deal)) (show (get "file_cid" deal)))
  end.

(** [deals] undefined throws at [deals.length], after the grid was emptied. *)
Definition renderMarketplace (deals : option json) : M board unit :=
  have ← in_page (has_el ".marketplace-grid");
  if negb have then mret tt else
  modify (set_market_rows []) ;;
  match deals with
  | Some (JArr []) => modify (set_market_rows [NoRows "Marketplace Empty"])
  | Some (JArr ds) => append_rows set_market_rows bd_market (λ _, market_card) ds
  | _ => throw null_error
  end.

Definition fetchMarketplace : M board unit :=
  try_catch
    (response ← in_page (ask_http (Fetch "GET" (API_URL +:+ "/api/deals?status=active") JNull));
     data ← result (http_json response);
     deals ← result (get_field "deals" data);
     renderMarketplace deals)
    (λ error, renderMarketplace (Some (JArr []))).

(** * My Deals *)

Definition my_deal_row (type : string) (now : Z) (deal : json) : outcome row :=
  match deal with
  | JNull => Throw null_error
  | _ =>
      let price := toFixed 4 (num_mul (to_number (get "file_size_gb" deal)) (num_lit 5 1)) in
      match safeCid 8 10 8 "Generating..." (get "file_cid" deal) with
      | Throw e => Throw e
      | Ok shown => Ok (MyDealRow (show (get "deal_id" deal)) (show (get "file_cid" deal)) shown
                          (show (or_else (get "file_size_gb" deal) zero)) price
                          (shownDate now (get "created_at" deal)) (show (get "status" deal))
                          (bool_decide (type = "client")))
      end
  end.

Definition renderMyDealsTable (deals : json) (type : string) : M board unit :=
  have ← in_page (has_el "#my-deals-table tbody");
  if negb have then mret tt else
  match deals with
  | JArr [] => modify (set_my_rows [NoRows ("You have not " +:+
            (if bool_decide (type = "client") then "uploaded any files" else "stored any shards") +:+ " yet.")])
  | JArr ds => modify (set_my_rows []) ;; append_rows set_my_rows bd_mine (my_deal_row type) ds
  | _ => modify (set_my_rows []) ;; throw (Error "deals.forEach is not a function")
  end.

(** [{ ...d, status: 'active' }] *)
Definition as_active (d : json) : json :=
  match d with
  | JObj fields =>
      JObj (if existsb (λ f, bool_decide (fst f = "status")) fields
            then map (λ f, if bool_decide (fst f = "status") then ("status", JStr "active") else f) fields
            else fields ++ [("status", JStr "active")])
  | _ => JObj [("status", JStr "active")]
  end.

Definition fetchMyDeals (type : string) : M board unit :=
  have ← in_page (has_el "#my-deals-table tbody");
  if negb have then mret tt else
  modify (set_my_rows [NoRows "Loading..."]) ;;
  try_catch
    (response ← in_page (ask_http (Fetch "GET" (API_URL +:+ "/api/deals") JNull));
     data ← result (http_json response);
     deals ← result (deals_of data);
     deals ← (if bool_decide (type = "provider") then
                match deals with
                | JArr ds => mret (JArr (map as_active ds))
                | _ => throw (Error "deals.map is not a function")
                end
              else mret deals);
     renderMyDealsTable deals type)
    (λ error, modify (set_my_rows [NoRows "No deals found"])).

(** * Detail views *)

(** A figure of a detail view: its label, its text, the colour that depends on it. *)
Record figure : Type := Figure { fg_label : string; fg_text : string; fg_color : string }.

Definition fmtGB (n : num) : string :=
  if num_le (num_of_Z 1000) n then toFixed 1 (num_div n (num_of_Z 1000)) +:+ " TB" else show_num n +:+ " GB".
Definition fmtKYN (x : num) : string := match x with SpecFloat.S754_nan => "0.00" | _ => localeKYN x end.

(** [parseInt(v) || 0], [parseFloat(v) || 0] *)
Definition int0 (v : option json) : Z := default 0 (parseInt (show v)).
Definition float0 (v : option json) : num := num_or (Some (parseFloat (show v))) (num_of_Z 0).

(** [total > 0 ? Math.round((part/total)*100) : 0] *)
Definition ratio (part total : num) : num :=
  if num_lt (num_of_Z 0) total then Math_round (num_mul (num_div part total) (num_of_Z 100)) else num_of_Z 0.

Definition grade (good fair : Z) (x : num) : string :=
  if num_le (num_of_Z good) x then "var(--success)"
  else if num_le (num_of_Z fair) x then "var(--warning)" else "var(--error)".
(** Utilization: high is bad. *)
Definition load_grade (x : num) : string :=
  if num_le (num_of_Z 80) x then "var(--error)"
  else if num_le (num_of_Z 50) x then "var(--warning)" else "var(--success)".

Definition deals_detail (s : json) : list figure :=
  let active := int0 (get "active_deals" s) in
  let total := int0 (get "total_deals" s) in
  let completed := int0 (get "deals_completed" s) in
  let failed := int0 (get "deals_failed" s) in
  let rate := ratio (num_of_Z completed) (num_of_Z total) in
  [Figure "Active Deals" (show_Z active) ""; Figure "Completed" (show_Z completed) "";
   Figure "Failed" (show_Z failed) ""; Figure "Success Rate" (show_num rate +:+ "%") (grade 80 50 rate);
   Figure "Total Deals (All Time)" (show_Z total) ""].

Definition providers_detail (s : json) : list figure :=
  let active := int0 (get "active_providers" s) in
  let total := int0 (get "total_providers" s) in
  let offline := Z.max 0 (total - active) in
  let pct := ratio (num_of_Z active) (num_of_Z total) in
  let capGB := float0 (get "total_capacity_all_gb" s) in
  let avgRep := float0 (get "avg_reputation" s) in
  [Figure "Active Nodes" (show_Z active) ""; Figure "Total Registered" (show_Z total) "";
   Figure "Offline Nodes" (show_Z offline) ""; Figure "Network Availability" (show_num pct +:+ "%") (grade 75 50 pct);
   Figure "nodes" (show_Z active +:+ " of " +:+ show_Z total +:+ " nodes are active") "";
   Figure "offline" (show_Z offline +:+ " currently offline") "";
   Figure "Total Network Capacity" (fmtGB capGB) "";
   Figure "Avg. Provider Reputation" (toFixed 0 avgRep +:+ "/100") (grade 80 50 avgRep)].

(** [Math.max(0, total - used)] *)
Definition free_space (total used : num) : num := num_max (num_of_Z 0) (num_sub total used).

Definition capacity_detail (s : json) : list figure :=
  let activeCap := float0 (get "total_capacity_gb" s) in
  let totalCap := float0 (get "total_capacity_all_gb" s) in
  let activeProv := int0 (get "active_providers" s) in
  let activeCap := if num_eqb activeCap (num_of_Z 0) && (0 <? activeProv) then totalCap else activeCap in
  let used := float0 (get "total_utilization_gb" s) in
  let free := free_space totalCap used in
  let pct := ratio used totalCap in
  [Figure "Total Pledged" (fmtGB totalCap) ""; Figure "Active Capacity" (fmtGB activeCap) "";
   Figure "Available" (fmtGB free) ""; Figure "Storage Utilization" (show_num pct +:+ "%") (load_grade pct);
   Figure "used" (fmtGB used +:+ " used of " +:+ fmtGB totalCap) ""; Figure "remaining" (fmtGB free +:+ " remaining") ""].

Definition utilization_detail (s : json) : list figure :=
  let totalCap := float0 (get "total_capacity_all_gb" s) in
  let used := float0 (get "total_utilization_gb" s) in
  let free := free_space totalCap used in
  let pct := ratio used totalCap in
  let activeProv := int0 (get "active_providers" s) in
  [Figure "Storage Used" (fmtGB used) ""; Figure "Available Space" (fmtGB free) "";
   Figure "Network Utilization" (show_num pct +:+ "%") (load_grade pct);
   Figure "utilized" (fmtGB used +:+ " utilized") ""; Figure "total" (fmtGB totalCap +:+ " total") "";
   Figure "Active Providers" (show_Z activeProv) ""; Figure "Total Network Pledged" (fmtGB totalCap) ""].

Definition revenue_detail (s : json) : list figure :=
  let rev := float0 (get "total_protocol_revenue" s) in
  let burned := float0 (get "total_tokens_burned" s) in
  let net := num_max (num_of_Z 0) (num_sub rev burned) in
  [Figure "Total Revenue" (fmtKYN rev) ""; Figure "Tokens Burned" (fmtKYN burned) "";
   Figure "Net Revenue" (fmtKYN net) ""; Figure "Storage Deal Fees" (fmtKYN rev +:+ " KYN") ""].

Definition burned_detail (s : json) : list figure :=
  let burned := float0 (get "total_tokens_burned" s) in
  let rev := float0 (get "total_protocol_revenue" s) in
  [Figure "Total KYN Burned" (fmtKYN burned) ""; Figure "Burn Ratio" (show_num (ratio burned rev) +:+ "%") "";
   Figure "Active Shards" (show_Z (int0 (get "active_shards" s))) ""].

(** What [simulateDetailData] fills in, from the statistics shown last. *)
Definition simulateDetailData (viewId : string) (s : json) : list figure :=
  if bool_decide (viewId = "deals-detail") then deals_detail s
  else if bool_decide (viewId = "providers-detail") then providers_detail s
  else if bool_decide (viewId = "capacity-detail") then capacity_detail s
  else if bool_decide (viewId = "utilization-detail") then utilization_detail s
  else if bool_decide (viewId = "revenue-detail") then revenue_detail s
  else if bool_decide (viewId = "burned-detail") then burned_detail s
  else [].

(** * Profile page *)

Definition social_link (site icon : string) (name : string) : string :=
  if bool_decide (name = "") then "" else "<a href=https://" +:+ site +:+ "/" +:+ name +:+ "><i class=" +:+ icon +:+ "></i></a>".

Definition profile_ids : list string :=
  ["profile-joined"; "profile-network"; "profile-balance"; "profile-reputation"; "profile-total-deals"].

(** The date of the first visit, kept in local storage. *)
Definition joined_timestamp (me : string) : M page (option Z) :=
  let storageKey := "kyneto_joined_" +:+ me in
  saved ← getItem storageKey;
  match saved with
  | Some (SText (String c s)) => mret (parseInt (String c s))
  | _ => now ← clock; setItem storageKey (SText (show_Z now)) ;; mret (Some now)
  end.

Definition show_network : M page unit :=
  have ← has_el "profile-network";
  havePr ← gets pg_provider;
  if have && havePr then
    try_catch
      (chainId ← ask_Z GetNetwork;
       if chainId =? 80002 then when_el "profile-network" (λ e, set_color "" (set_text "Polygon Amoy" e))
       else if chainId =? 137 then when_el "profile-network" (λ e, set_color "" (set_text "Polygon Mainnet" e))
       else when_el "profile-network" (set_html "<span>Wrong Network!</span>"))
      (λ e, when_el "profile-network" (set_text "Unknown"))
  else mret tt.

Definition show_balance (me : string) : M page unit :=
  have ← has_el "profile-balance";
  havePr ← gets pg_provider;
  if have && havePr then
    try_catch
      (balance ← ask_Z (GetBalance me);
       when_el "profile-balance" (set_text (toFixed 4 (parseFloat (formatEther balance)) +:+ " POL")))
      (λ e, when_el "profile-balance" (set_text "0.00 POL"))
  else mret tt.

Definition show_profile (me : string) (d : profile) : M page unit :=
  when_el "profile-username-display" (set_text (pr_username d)) ;;
  when_el "profile-address-display" (set_text me) ;;
  when_el "profile-bio-display" (set_text (pr_bio d)) ;;
  when_el "profile-avatar-display" (set_html
    (match avatar_html (pr_avatar d) with EmptyString => "<i class=fa-user-astronaut></i>" | html => html end)) ;;
  when_el "profile-socials-display" (set_html
    (social_link "twitter.com" "fa-x-twitter" (pr_twitter d) +:+ social_link "github.com" "fa-github" (pr_github d))).

(** Copying the feed. *)
Definition feed_node_html (n : feed_node) : string :=
  match n with
  | FeedSpace => " "
  | FeedWaiting => "<div class=activity-item system><span>Now</span><span>Waiting for network events...</span></div>"
  | FeedItem user msg type =>
      "<div class=activity-item " +:+ type +:+ "><strong>" +:+ user +:+ ":</strong> " +:+ msg +:+ "</div>"
  end.
Definition feed_html (feed : list feed_node) : string := join "" (map feed_node_html feed).
Definition copy_feed : M page unit :=
  have ← has_el "activity-feed";
  feed ← gets pg_feed;
  if have : bool then when_el "profile-activity-feed" (set_html (feed_html feed)) else mret tt.

Definition renderProfile : M page unit :=
  me ← gets pg_userAddress;
  match me with
  | None | Some EmptyString =>
      when_el "profile-address-large" (set_text "Not Connected") ;;
      for_each profile_ids (λ id, when_el id (set_text "--"))
  | Some me =>
      when_el "profile-address-large" (λ e, setAttribute "title" me (set_text (truncated me) e)) ;;
      joined ← joined_timestamp me;
      when_el "profile-joined" (set_text (monthYear joined)) ;;
      show_network ;;
      show_balance me ;;
      saved ← getItem ("kyneto_profile_" +:+ me);
      parsed ← parse_profile saved;
      show_profile me (default (Profile (truncated me) "" "" None "" "") parsed) ;;
      copy_feed ;;
      updateGlobalProfileUI
  end.

(** * Messages of the API *)

(** [data.address.toLowerCase() === userAddress.toLowerCase()]: refresh the node's status. *)
Definition on_own_address (address : option string) : M page unit :=
  me ← gets pg_userAddress;
  let matchAddress := toLowerCase (default "" me) in
  if negb (bool_decide (matchAddress = "")) && truthy address
     && bool_decide (toLowerCase (default "" address) = matchAddress)
  then spawn TaskCheckProviderStatus
  else mret tt.
Definition on_provider_status := on_own_address.
Definition on_heartbeat := on_own_address.

Definition on_connect : M page unit := addActivity "System" "Connected to real-time event stream" "system".
Definition on_stats_update (stats : json) : M board unit := updateStatsUI stats.
Definition on_new_deal (deal : json) : M board unit :=
  id ← result (get_field "deal_id" deal);
  in_page (addActivity "Network" ("New deal initiated: #" +:+ show id) "network") ;;
  in_page (spawn TaskFetchDeals).
End Tables.
