(* ===== verification/Views.v ===== *)
(** What the tables and figures of the dashboard show (the handlers of [Tables]). *)

From S2P Require Import Prelude JsNum JsFormat World Page Notices NodeStatus Wallet Transactions Governance Dashboard Tables.

Local Open Scope Z_scope.

(** * Tables as parts of the board *)

(** A table can be read and replaced on its own. *)
Class Table (rows : board → list row) (put : list row → board → board) : Prop := {
  rows_put : ∀ x s, rows (put x s) = x;
  put_put : ∀ x y s, put x (put y s) = put x s;
  put_rows : ∀ s, put (rows s) s = s;
  put_page : ∀ x s, bd_page (put x s) = bd_page s
}.

Instance deals_table : Table bd_deals set_deal_rows.
Proof. split; try done. by intros []. Qed.
Instance files_table : Table bd_files set_file_rows.
Proof. split; try done. by intros []. Qed.
Instance market_table : Table bd_market set_market_rows.
Proof. split; try done. by intros []. Qed.
Instance my_deals_table : Table bd_mine set_my_rows.
Proof. split; try done. by intros []. Qed.

Section Views.
  Context `{Outside} `{Reading}.

Lemma append_rows_run rows put `{!Table rows put} of_deal ds s rs :
  Forall2 (λ d r, of_deal (pg_now (bd_page s)) d = Ok r) ds rs →
  append_rows put rows of_deal ds s = (Ok tt, put (rows s ++ rs) s).
Proof.
  intros Hrs. revert s Hrs. revert rs. induction ds as [|d ds IH]; intros rs s Hrs.
  { apply Forall2_nil_inv_l in Hrs as ->. by rewrite app_nil_r, put_rows. }
  destruct (Forall2_cons_inv_l _ _ _ _ Hrs) as (r & rs' & Hr & Hrs' & ->).
  unfold append_rows. simpl.
  assert (∀ k : unit → M board unit, ((now ← in_page clock; r ← result (of_deal now d);
            modify (λ s, put (rows s ++ [r]) s)) ≫= k) s = k tt (put (rows s ++ [r]) s)) as ->.
  { intros k. unfold in_page, clock, result. running. rewrite Hr. by destruct s. }
  fold (append_rows put rows of_deal ds). rewrite IH with (rs := rs').
  - by rewrite rows_put, put_put, <- app_assoc.
  - by rewrite put_page.
Qed.

Lemma has_table id s : is_Some (pg_dom (bd_page s) !! id) → in_page (has_el id) s = (Ok true, s).
Proof. intros Hid. unfold in_page, has_el. running. rewrite bool_decide_true by done. by destruct s. Qed.

(** * Deals and files *)

(** A deal as the API sends it: an object whose CID, if any, is not an array. *)
Definition deal_object (d : json) : Prop :=
  ∃ fields, d = JObj fields ∧ ∀ xs, get "file_cid" d ≠ Some (JArr xs).

Lemma safeCid_ok n a b o v : (∀ xs, v ≠ Some (JArr xs)) → ∃ c, safeCid n a b o v = Ok c.
Proof. intros Hv. unfold safeCid. repeat case_match; eauto. by edestruct Hv. Qed.

Lemma deal_rows_exist now ds : Forall deal_object ds →
  ∃ drs frs, Forall2 (λ d r, deal_row_of now d = Ok r) ds drs ∧ Forall2 (λ d r, file_row_of now d = Ok r) ds frs.
Proof.
  induction 1 as [|d ds (fields & -> & Hc) _ (drs & frs & IHd & IHf)]; [by exists [], []|].
  destruct (safeCid_ok 8 12 10 "Generating..." _ Hc) as (c & Ec).
  destruct (safeCid_ok 10 12 10 "Generating CID..." _ Hc) as (c' & Ec').
  eexists (_ :: drs), (_ :: frs). split; (constructor; [|done]); unfold deal_row_of, file_row_of.
  - by rewrite Ec.
  - by rewrite Ec'.
Qed.

Lemma renderDeals_run s d ds drs frs :
  is_Some (pg_dom (bd_page s) !! "#deals-table tbody") → is_Some (pg_dom (bd_page s) !! "#files-table tbody") →
  Forall2 (λ d r, deal_row_of (pg_now (bd_page s)) d = Ok r) (d :: ds) drs →
  Forall2 (λ d r, file_row_of (pg_now (bd_page s)) d = Ok r) (d :: ds) frs →
  renderDeals (JArr (d :: ds)) s = (Ok tt, set_deal_rows drs (set_file_rows frs s)).
Proof.
  intros Hd Hf Hdr Hfr. unfold renderDeals. rewrite (bind_ok _ _ _ _ _ (has_table _ _ Hd)). cbn [negb].
  rewrite modify_bind. unfold renderFiles. rewrite bind_assoc_run.
  rewrite (bind_ok _ _ _ _ _ (has_table "#files-table tbody" (set_deal_rows [] s) Hf)). cbn [negb].
  rewrite bind_assoc_run, modify_bind.
  rewrite (bind_ok _ _ _ _ _ (append_rows_run bd_files set_file_rows file_row_of (d :: ds)
             (set_file_rows [] (set_deal_rows [] s)) frs Hfr)).
  erewrite (append_rows_run bd_deals set_deal_rows) by exact Hdr. done.
Qed.

(** The dashboard's tables list every deal the API returns, in its order, whoever is
    connected: "My Files" has one row, with download and cancel buttons, for each deal of
    every client. *)
Theorem my_files_lists_everyone s status data ds :
  is_Some (pg_dom (bd_page s) !! "#deals-table tbody") → is_Some (pg_dom (bd_page s) !! "#files-table tbody") →
  answer_http (Fetch "GET" (API_URL +:+ "/api/deals") JNull :: pg_calls (bd_page s))
    = Ok (HttpResponse true status (Ok data)) →
  get "deals" data = Some (JArr ds) → ds ≠ [] → Forall deal_object ds →
  ∃ s', fetchDeals s = (Ok tt, s') ∧
    Forall2 (λ d r, deal_row_of (pg_now (bd_page s)) d = Ok r) ds (bd_deals s') ∧
    Forall2 (λ d r, file_row_of (pg_now (bd_page s)) d = Ok r) ds (bd_files s').
Proof.
  intros Hd Hf Ha Hget Hne Hds. destruct (deal_rows_exist (pg_now (bd_page s)) ds Hds) as (drs & frs & Hdr & Hfr).
  destruct ds as [|d ds]; [done|].
  set (c := Fetch "GET" (API_URL +:+ "/api/deals") JNull) in *.
  set (s1 := set_page (with_calls (bd_page s) (c :: pg_calls (bd_page s))) s).
  exists (set_deal_rows drs (set_file_rows frs s1)). split; [|done].
  unfold fetchDeals, ask_http, try_catch. fold c.
  match goal with |- context [match (?m ≫= ?k) s with _ => _ end] =>
    assert (m s = (Ok (JArr (d :: ds)), s1)) as Hm end.
  { unfold in_page, result, ask. running. rewrite Ha. simpl. unfold deals_of, get_field.
    rewrite Hget. destruct data; [by simplify_eq/=|done..]. }
  rewrite (bind_ok _ _ _ _ _ Hm), (bind_ok (mret _) _ s1 _ s1 eq_refl).
  by rewrite (renderDeals_run s1 d ds drs frs).
Qed.

(** ** Without the API: the newest deals of the contract *)

Lemma last_deals_lookup n k : 0 ≤ n →
  last_deals n !! k = if decide (Z.of_nat k < Z.min 5 n) then Some (n - 1 - Z.of_nat k) else None.
Proof.
  intros Hn. unfold last_deals. set (st := Z.max 0 (n - 5)).
  assert (Hlen : length (seqZ st (n - st)) = Z.to_nat (n - st)) by apply length_seqZ.
  destruct (decide (Z.of_nat k < Z.min 5 n)) as [Hk|Hk].
  - rewrite reverse_lookup by lia. apply lookup_seqZ. rewrite Hlen. lia.
  - apply lookup_ge_None. rewrite length_reverse, Hlen. lia.
Qed.

(** The page is as before, up to the call log. *)
Definition same_page (s s' : board) : Prop :=
  pg_dom (bd_page s') = pg_dom (bd_page s) ∧ pg_now (bd_page s') = pg_now (bd_page s).

Lemma read_deal_run i s : ∃ s' d, read_deal i s = (Ok d, s') ∧ same_page s s' ∧
  (d = [] ∨ ∃ fd size start, d = [chain_row i fd size start]).
Proof.
  unfold read_deal, in_page, ask, toNumber. running.
  destruct (answer_full_deal _) as [fd|e];
    [simpl; destruct (fd_size fd <? 2 ^ 53); [simpl; destruct (fd_start fd <? 2 ^ 53)|]|].
  all: do 2 eexists; split; [reflexivity|]; split; [done|]; eauto 10.
Qed.

Lemma read_deals_run ids : ∀ s, ∃ s' ds ids', read_deals ids s = (Ok ds, s') ∧ same_page s s' ∧
  ids' `sublist_of` ids ∧ Forall2 (λ i d, ∃ fd size start, d = chain_row i fd size start) ids' ds.
Proof.
  induction ids as [|i ids IH]; intros s; simpl.
  { exists s, [], []. by repeat split. }
  destruct (read_deal_run i s) as (s1 & d & E1 & [A1 A2] & Hd). rewrite (bind_ok _ _ _ _ _ E1).
  destruct (IH s1) as (s2 & ds & ids' & E2 & [B1 B2] & Hsub & Hds). rewrite (bind_ok _ _ _ _ _ E2).
  exists s2, (d ++ ds).
  destruct Hd as [->|(fd & size & start & ->)].
  - exists ids'. split_and!; [done|unfold same_page; split; congruence|by apply sublist_cons|done].
  - exists (i :: ids'). split_and!; [done|unfold same_page; split; congruence|by apply sublist_skip|].
    constructor; eauto.
Qed.

Lemma chain_row_object i fd size start : deal_object (chain_row i fd size start).
Proof. eexists. split; [reflexivity|]. done. Qed.

Definition row_id (r : row) : string :=
  match r with
  | NoRows _ => ""
  | DealRow id _ _ _ _ | FileRow _ _ _ _ _ id | MarketCard id _ _ | MyDealRow id _ _ _ _ _ _ _ => id
  end.

Lemma chain_rows_ids now ids ds rs :
  Forall2 (λ i d, ∃ fd size start, d = chain_row i fd size start) ids ds →
  Forall2 (λ d r, deal_row_of now d = Ok r) ds rs → map row_id rs = map show_Z ids.
Proof.
  intros Hds. revert rs. induction Hds as [|i d ids ds (fd & size & start & ->) _ IH]; intros rs Hrs.
  { by apply Forall2_nil_inv_l in Hrs as ->. }
  destruct (Forall2_cons_inv_l _ _ _ _ Hrs) as (r & rs' & Hr & Hrs' & ->). simpl.
  rewrite (IH rs' Hrs'). f_equal. unfold deal_row_of in Hr. simpl in Hr. case_match; by simplify_eq.
Qed.

Lemma renderDeals_empty s :
  is_Some (pg_dom (bd_page s) !! "#deals-table tbody") → is_Some (pg_dom (bd_page s) !! "#files-table tbody") →
  renderDeals (JArr []) s
  = (Ok tt, set_deal_rows [NoRows "No deals found"] (set_file_rows [NoRows "No files found"] s)).
Proof.
  intros Hd Hf. unfold renderDeals. rewrite (bind_ok _ _ _ _ _ (has_table _ _ Hd)). cbn [negb].
  rewrite modify_bind. unfold renderFiles. rewrite bind_assoc_run.
  by rewrite (bind_ok _ _ _ _ _ (has_table "#files-table tbody" (set_deal_rows [] s) Hf)).
Qed.

(** When the API is down, the table shows deals of the contract instead: only the five
    newest, newest first, without those that cannot be read; with none left it says so. *)
Theorem fallback_shows_newest s n e :
  is_Some (pg_dom (bd_page s) !! "#deals-table tbody") → is_Some (pg_dom (bd_page s) !! "#files-table tbody") →
  answer_http (Fetch "GET" (API_URL +:+ "/api/deals") JNull :: pg_calls (bd_page s)) = Throw e →
  answer_Z (DealCount :: Fetch "GET" (API_URL +:+ "/api/deals") JNull :: pg_calls (bd_page s)) = Ok n →
  0 ≤ n < 2 ^ 53 →
  ∃ s' ids, fetchDeals s = (Ok tt, s') ∧
    ids `sublist_of` last_deals n ∧ (length ids ≤ 5)%nat ∧
    (∀ k i, last_deals n !! k = Some i → i = n - 1 - Z.of_nat k) ∧
    (ids = [] ∧ bd_deals s' = [NoRows "No deals found"] ∨
     ids ≠ [] ∧ map row_id (bd_deals s') = map show_Z ids).
Proof.
  intros Hd Hf Ha Hn Hb. set (c := Fetch "GET" (API_URL +:+ "/api/deals") JNull) in *.
  set (s1 := set_page (with_calls (bd_page s) (c :: pg_calls (bd_page s))) s).
  set (s2 := set_page (with_calls (bd_page s) (DealCount :: c :: pg_calls (bd_page s))) s).
  destruct (read_deals_run (last_deals n) s2) as (s3 & ds & ids & E3 & [A1 A2] & Hsub & Hds).
  assert (Hd3 : is_Some (pg_dom (bd_page s3) !! "#deals-table tbody")) by (by rewrite A1).
  assert (Hf3 : is_Some (pg_dom (bd_page s3) !! "#files-table tbody")) by (by rewrite A1).
  assert (Hrun : fetchDeals s = match renderDeals (JArr ds) s3 with
                                | (Ok tt, s') => (Ok tt, s')
                                | (Throw _, s') => renderDeals (JArr []) s'
                                end).
  { unfold fetchDeals, ask_http, ask_Z, try_catch, in_page, result, ask, toNumber. fold c. running. rewrite Ha. simpl.
    rewrite Hn. simpl. replace (n <? 2 ^ 53) with true by lia. simpl. fold s2.
    change (read_deals (last_deals n) _) with (read_deals (last_deals n) s2). rewrite E3. simpl.
    by destruct (renderDeals (JArr ds) s3) as [[[]|]]. }
  assert (Hlen : (length ids ≤ 5)%nat).
  { etrans; [by apply sublist_length|]. unfold last_deals. rewrite length_reverse, length_seqZ. lia. }
  assert (Hnew : ∀ k i, last_deals n !! k = Some i → i = n - 1 - Z.of_nat k).
  { intros k i. rewrite last_deals_lookup by lia. case_decide; by intros [= <-]. }
  destruct ds as [|d ds].
  - apply Forall2_nil_inv_r in Hds as ->. rewrite renderDeals_empty in Hrun by done.
    eexists _, []. split_and!; [done..|]. by left.
  - assert (Hobj : Forall deal_object (d :: ds)).
    { eapply Forall2_Forall_r; [exact Hds|]. apply Forall_true. intros i x (fd & size & start & ->). apply chain_row_object. }
    destruct (deal_rows_exist (pg_now (bd_page s3)) _ Hobj) as (drs & frs & Hdr & Hfr).
    rewrite (renderDeals_run s3 d ds drs frs Hd3 Hf3 Hdr Hfr) in Hrun.
    eexists _, ids. split_and!; [done..|]. right. split; [intros ->; inversion Hds|].
    by eapply chain_rows_ids.
Qed.

(** * My Deals *)

Definition row_status (r : row) : string :=
  match r with DealRow _ st _ _ _ | MyDealRow _ _ _ _ _ _ st _ => st | _ => "" end.

Lemma get_as_active fields : get "status" (as_active (JObj fields)) = Some (JStr "active").
Proof.
  unfold as_active, get. induction fields as [|[k v] fields IH]; [done|]. simpl.
  case_bool_decide as Hk; simpl in Hk; simpl.
  - by subst.
  - destruct (existsb _ fields); simpl; rewrite bool_decide_false by done; exact IH.
Qed.

Lemma get_as_active_ne k fields : k ≠ "status" → get k (as_active (JObj fields)) = get k (JObj fields).
Proof.
  intros Hk. unfold as_active, get. destruct (existsb _ fields).
  - f_equal. induction fields as [|[k' v] fields IH]; [done|]. simpl.
    destruct (bool_decide_reflect (k' = "status")) as [->|]; simpl; case_bool_decide; try done.
  - f_equal. induction fields as [|[k' v] fields IH]; simpl; [by rewrite bool_decide_false by done|].
    by case_bool_decide.
Qed.

Lemma my_row_active type now d : deal_object d →
  ∃ r, my_deal_row type now (as_active d) = Ok r ∧ row_status r = "active".
Proof.
  intros (fields & -> & Hc). rewrite <- get_as_active_ne in Hc by done.
  pose proof (get_as_active fields) as Hst. destruct (safeCid_ok 8 10 8 "Generating..." _ Hc) as (c & Ec).
  destruct (as_active (JObj fields)) eqn:E; try discriminate E. unfold my_deal_row. rewrite Ec.
  eexists. split; [reflexivity|]. unfold row_status. by rewrite Hst.
Qed.

(** The provider's tab is the list of all deals with the status overwritten: whatever
    the state of a deal, and whoever stores it, it is shown there as active. *)
Theorem provider_tab_shows_active s status data ds :
  is_Some (pg_dom (bd_page s) !! "#my-deals-table tbody") →
  answer_http (Fetch "GET" (API_URL +:+ "/api/deals") JNull :: pg_calls (bd_page s))
    = Ok (HttpResponse true status (Ok data)) →
  get "deals" data = Some (JArr ds) → ds ≠ [] → Forall deal_object ds →
  ∃ s', fetchMyDeals "provider" s = (Ok tt, s') ∧ length (bd_mine s') = length ds ∧
    Forall (λ r, row_status r = "active") (bd_mine s').
Proof.
  intros Hm Ha Hget Hne Hds. set (c := Fetch "GET" (API_URL +:+ "/api/deals") JNull) in *.
  set (s1 := set_page (with_calls (bd_page s) (c :: pg_calls (bd_page s))) (set_my_rows [NoRows "Loading..."] s)).
  assert (∃ rs, Forall2 (λ d r, my_deal_row "provider" (pg_now (bd_page s)) d = Ok r) (map as_active ds) rs ∧
                Forall (λ r, row_status r = "active") rs) as (rs & Hrs & Hact).
  { clear -Hds. induction Hds as [|d ds Hd _ (rs & Hrs & Hact)]; [by exists []|].
    destruct (my_row_active "provider" (pg_now (bd_page s)) d Hd) as (r & Hr & Ha).
    exists (r :: rs). by split; constructor. }
  exists (set_my_rows rs s1). split; [|split; [|done]].
  - unfold fetchMyDeals. rewrite (bind_ok _ _ _ _ _ (has_table _ _ Hm)). cbn [negb]. rewrite modify_bind.
    unfold try_catch. assert (Hs1 : ∀ B (k : json → M board B),
      ((response ← in_page (ask_http c); data ← result (http_json response); deals ← result (deals_of data); k deals)
         (set_my_rows [NoRows "Loading..."] s)) = k (JArr ds) s1).
    { intros B k. unfold in_page, ask_http, ask, result. running. rewrite Ha. simpl. unfold deals_of, get_field.
      rewrite Hget. destruct data; by simplify_eq/=. }
    fold c. rewrite Hs1. rewrite bool_decide_true by done. cbv beta.
    rewrite (bind_ok (mret _) _ s1 _ s1 eq_refl). unfold renderMyDealsTable.
    rewrite (bind_ok _ _ _ _ _ (has_table "#my-deals-table tbody" s1 Hm)). cbn [negb].
    destruct ds as [|d ds]; [done|]. cbn [map]. rewrite modify_bind.
    by erewrite (append_rows_run bd_mine set_my_rows) by exact Hrs.
  - simpl. by rewrite <- (Forall2_length _ _ _ Hrs), length_map.
Qed.

(** * Statistics *)

(** What the figures of the detail views are computed from is not what is cached: the
    merged statistics drop the counts of completed and failed deals, of all deals, of
    shards, and the average reputation. *)
Lemma merged_drops k api a b c d e :
  k ∈ ["total_deals"; "deals_completed"; "deals_failed"; "avg_reputation"; "active_shards"] →
  get k (merged_stats api a b c d e) = None.
Proof. intros Hk. repeat (apply elem_of_cons in Hk as [->|Hk]; [reflexivity|]). by apply elem_of_nil in Hk. Qed.

(** Whatever the API and the contracts report, the detail views show no completed and
    no failed deal, a success rate of 0% in red, no deal of all time, no shard, and a
    reputation of 0 out of 100. *)
Theorem detail_views_lose_counts api capacity dealCount providerCount fees burned :
  let stats := merged_stats api capacity dealCount providerCount fees burned in
  tail (simulateDetailData "deals-detail" stats) =
    [Figure "Completed" "0" ""; Figure "Failed" "0" ""; Figure "Success Rate" "0%" "var(--error)";
     Figure "Total Deals (All Time)" "0" ""] ∧
  Figure "Avg. Provider Reputation" "0/100" "var(--error)" ∈ simulateDetailData "providers-detail" stats ∧
  Figure "Active Shards" "0" "" ∈ simulateDetailData "burned-detail" stats.
Proof.
  intros stats. split_and!.
  - unfold simulateDetailData. rewrite bool_decide_true by done. unfold deals_detail, stats.
    rewrite (merged_drops "total_deals"), (merged_drops "deals_completed"), (merged_drops "deals_failed")
      by (repeat constructor). vm_compute. reflexivity.
  - unfold simulateDetailData. rewrite !bool_decide_false, bool_decide_true by done. unfold providers_detail, stats.
    rewrite (merged_drops "avg_reputation") by repeat constructor.
    replace (Figure "Avg. Provider Reputation" "0/100" "var(--error)")
      with (Figure "Avg. Provider Reputation" (toFixed 0 (float0 None) +:+ "/100") (grade 80 50 (float0 None)))
      by (vm_compute; reflexivity).
    set_solver.
  - unfold simulateDetailData. rewrite !bool_decide_false, bool_decide_true by done. unfold burned_detail, stats.
    rewrite (merged_drops "active_shards") by repeat constructor.
    change (show_Z (int0 None)) with "0". set_solver.
Qed.

Lemma updateStatsUI_caches stats s :
  ∃ s', updateStatsUI stats s = (Ok tt, s') ∧ cachedNetworkStats s' = stats.
Proof.
  unfold updateStatsUI. rewrite modify_bind. set (s1 := set_stats stats s).
  assert (Hs1 : cachedNetworkStats s1 = stats) by done. clearbody s1. revert s1 Hs1.
  assert (Hel : ∀ id f (k : unit → M board unit) t, ((in_page (when_el id f)) ≫= k) t
                 = k tt (set_page (with_dom (bd_page t) (alter f id (pg_dom (bd_page t)))) t)) by done.
  intros s1 Hs1. cbv zeta. rewrite !Hel. eexists. split; [reflexivity|]. exact Hs1.
Qed.

Lemma offline_shown s :
  is_Some (pg_dom (bd_page s) !! "api-status") → is_Some (pg_dom (bd_page s) !! "#api-status .text") →
  ∃ s', in_page (setOnlineStatus false) s = (Ok tt, s') ∧ cachedNetworkStats s' = cachedNetworkStats s.
Proof.
  intros Hst [x Hx]. unfold in_page, setOnlineStatus, on_el, element_, when_el, has_el. running.
  rewrite bool_decide_true by done. simpl. rewrite lookup_alter_ne, Hx by done. by eexists.
Qed.

(** When one contract call fails, the statistics the API did return are thrown away:
    the page shows zeros and says the API is offline. *)
Theorem chain_failure_hides_api_stats s status data e :
  answer_http (Fetch "GET" (API_URL +:+ "/api/stats") JNull :: pg_calls (bd_page s))
    = Ok (HttpResponse true status (Ok data)) →
  answer_Z (ReadUint "CapacityPledge" "totalPledgedCapacityGB" ::
            Fetch "GET" (API_URL +:+ "/api/stats") JNull :: pg_calls (bd_page s)) = Throw e →
  is_Some (pg_dom (bd_page s) !! "api-status") → is_Some (pg_dom (bd_page s) !! "#api-status .text") →
  ∃ s', fetchStats s = (Ok tt, s') ∧ cachedNetworkStats s' = no_stats.
Proof.
  intros Ha Hz Hst Htx. unfold fetchStats.
  assert (∃ s1, get_or "/api/stats" (JObj []) s = (Ok data, s1) ∧ pg_dom (bd_page s1) = pg_dom (bd_page s) ∧
                pg_calls (bd_page s1) = Fetch "GET" (API_URL +:+ "/api/stats") JNull :: pg_calls (bd_page s))
    as (s1 & E1 & Hd1 & Hc1).
  { unfold get_or, in_page, ask_http, ask, result, try_catch, mbind, M_bind. cbn [bd_page pg_calls with_calls].
    rewrite Ha. cbn [http_ok http_json]. by eexists. }
  unfold try_catch. rewrite (bind_ok _ _ _ _ _ E1).
  match goal with |- context [(all5 ?a ?b ?c ?d ?f ≫= ?k) s1] =>
    assert (∃ s2, all5 a b c d f s1 = (Throw e, s2) ∧ pg_dom (bd_page s2) = pg_dom (bd_page s)) as (s2 & E2 & Hd2) end.
  { unfold all5. rewrite Hc1, Hz. by eexists. }
  rewrite (bind_throw _ _ _ _ _ E2).
  destruct (offline_shown s2) as (s3 & E3 & _); [by rewrite Hd2..|]. rewrite (bind_ok _ _ _ _ _ E3).
  apply updateStatsUI_caches.
Qed.

(** * The tables and the rest of the page *)

Section BoardFrame.
  Context (I : page → Prop) `{!UiStable I}.

Definition on_board (s : board) : Prop := I (bd_page s).

Lemma preserves_in_page {A} (m : M page A) : preserves I m → preserves on_board (in_page m).
Proof using.
  intros Hm s Hs. specialize (Hm (bd_page s) Hs). unfold in_page. by destruct (m (bd_page s)).
Qed.
Lemma preserves_result {A} (r : outcome A) : preserves on_board (result r).
Proof using. by intros s Hs. Qed.
Lemma preserves_board (f : board → board) : (∀ s, bd_page (f s) = bd_page s) → preserves on_board (modify f).
Proof using. intros Hf s Hs. unfold on_board. simpl. by rewrite Hf. Qed.
Lemma preserves_toNumber_ui z : preserves I (toNumber z).
Proof using. unfold toNumber. preserve. Qed.
Lemma preserves_all5 a b c d e :
  Forall (λ x, harmless x = true) [a; b; c; d; e] → preserves on_board (all5 a b c d e).
Proof using UiStable0.
  intros Hh s Hs. apply Forall_cons in Hh as [Ha [Hb [Hc [Hd [He _]%Forall_cons]%Forall_cons]%Forall_cons]%Forall_cons].
  assert (I (with_calls (bd_page s) (e :: d :: c :: b :: a :: pg_calls (bd_page s)))).
  { do 5 (match goal with |- I (with_calls ?p (?x :: ?l)) =>
            change (I (with_calls (with_calls p l) (x :: pg_calls (with_calls p l)))); apply ui_call; [done|] end).
    unfold on_board in Hs; by destruct (bd_page s). }
  unfold all5. repeat case_match; done.
Qed.

  Hint Resolve preserves_in_page preserves_result preserves_toNumber_ui : page.
  Hint Extern 2 (preserves on_board (modify _)) => apply preserves_board; reflexivity : page.
  Hint Extern 2 (preserves on_board (all5 _ _ _ _ _)) => apply preserves_all5; repeat constructor : page.

Ltac board_preserve := repeat (first [solve [auto 4 with page] | preserve_step]; cbv beta zeta).

Lemma preserves_setOnlineStatus_ui b : preserves I (setOnlineStatus b).
Proof using UiStable0. unfold setOnlineStatus. page_preserve. Qed.
Lemma preserves_updateStatsUI stats : preserves on_board (updateStatsUI stats).
Proof using UiStable0. unfold updateStatsUI. board_preserve. Qed.
  Hint Resolve preserves_updateStatsUI preserves_setOnlineStatus_ui : page.

Lemma preserves_fetchStats : preserves on_board fetchStats.
Proof using UiStable0. unfold fetchStats, get_or. board_preserve. Qed.

Lemma preserves_append rows put `{!Table rows put} f ds : preserves on_board (append_rows put rows f ds).
Proof using UiStable0.
  unfold append_rows, clock. board_preserve. all: unfold on_board in *; by rewrite put_page.
Qed.
  Hint Extern 2 (preserves on_board (append_rows _ _ _ _)) => apply preserves_append; apply _ : page.

Lemma preserves_renderDeals ds : preserves on_board (renderDeals ds).
Proof using UiStable0. unfold renderDeals, renderFiles. board_preserve. Qed.
Lemma preserves_read_deals ids : preserves on_board (read_deals ids).
Proof using UiStable0. induction ids as [|i ids IH]; simpl; unfold read_deal; board_preserve. Qed.
  Hint Resolve preserves_renderDeals preserves_read_deals : page.
Lemma preserves_fetchDeals : preserves on_board fetchDeals.
Proof using UiStable0. unfold fetchDeals. board_preserve. Qed.
Lemma preserves_fetchMarketplace : preserves on_board fetchMarketplace.
Proof using UiStable0. unfold fetchMarketplace, renderMarketplace. board_preserve. Qed.
Lemma preserves_fetchMyDeals type : preserves on_board (fetchMyDeals type).
Proof using UiStable0. unfold fetchMyDeals, renderMyDealsTable. board_preserve. Qed.

Lemma preserves_renderProfile : preserves I renderProfile.
Proof using UiStable0.
  unfold renderProfile, joined_timestamp, show_network, show_balance, show_profile, copy_feed, parse_profile, clock.
  page_preserve.
Qed.
Lemma preserves_on_own_address a : preserves I (on_own_address a).
Proof using UiStable0. unfold on_own_address. page_preserve. Qed.
Lemma preserves_on_new_deal d : preserves on_board (on_new_deal d).
Proof using UiStable0. unfold on_new_deal. board_preserve. Qed.
End BoardFrame.

(** Events of the page with its tables. *)
Inductive board_event : Type :=
| OnDashboard (ev : event)
| FetchStats | FetchDeals | FetchMarketplace | FetchMyDeals (type : string) | RenderProfile
| ProviderStatus (address : option string) | Heartbeat (address : option string)
| SocketConnect | StatsUpdate (stats : json) | NewDeal (deal : json).

Definition board_step (ev : board_event) : M board unit :=
  match ev with
  | OnDashboard ev => in_page (handle ev)
  | FetchStats => fetchStats
  | FetchDeals => fetchDeals
  | FetchMarketplace => fetchMarketplace
  | FetchMyDeals type => fetchMyDeals type
  | RenderProfile => in_page renderProfile
  | ProviderStatus a => in_page (on_provider_status a)
  | Heartbeat a => in_page (on_heartbeat a)
  | SocketConnect => in_page on_connect
  | StatsUpdate stats => on_stats_update stats
  | NewDeal deal => on_new_deal deal
  end.

Definition run_board (evs : list board_event) (s : board) : board :=
  foldl (λ s ev, snd (board_step ev s)) s evs.

Lemma board_step_keeps ev s : page_ok (bd_page s) → page_ok (bd_page (snd (board_step ev s))).
Proof.
  intros Hs. assert (Hb : on_board page_ok s) by done. destruct ev; cbn [board_step].
  - assert (Hn : named_tasks (bd_page s)) by apply Hs.
    pose proof (preserves_event page_ok ev (bd_page s) Hn Hs) as He.
    unfold in_page. by destruct (handle ev (bd_page s)).
  - exact (preserves_fetchStats page_ok s Hb).
  - exact (preserves_fetchDeals page_ok s Hb).
  - exact (preserves_fetchMarketplace page_ok s Hb).
  - exact (preserves_fetchMyDeals page_ok type s Hb).
  - exact (preserves_in_page page_ok _ (preserves_renderProfile page_ok) s Hb).
  - exact (preserves_in_page page_ok _ (preserves_on_own_address page_ok address) s Hb).
  - exact (preserves_in_page page_ok _ (preserves_on_own_address page_ok address) s Hb).
  - exact (preserves_in_page page_ok _ (preserves_addActivity page_ok _ _ _) s Hb).
  - exact (preserves_updateStatsUI page_ok stats s Hb).
  - exact (preserves_on_new_deal page_ok deal s Hb).
Qed.

Lemma run_board_keeps evs s : page_ok (bd_page s) → page_ok (bd_page (run_board evs s)).
Proof.
  unfold run_board. revert s. induction evs as [|ev evs IH]; intros s Hs; simpl; [done|].
  by apply IH, board_step_keeps.
Qed.

(** C35. Whatever the user, the timers, the wallet, the contracts, the API and its socket
    messages do, table refreshes included: the signer and the provider are set together
    and only with an account, every wallet initialisation in progress has an account,
    there are at most ten notifications, and the proposals carry the ids one to their
    number, each once. The activity feed, whose overflow removes the last node and so
    the white space of the page's source before any entry, keeps at most fifty-two
    elements. *)
Theorem board_invariant evs s :
  page_ok (bd_page s) →
  page_ok (bd_page (run_board evs s)) ∧ (length (children (pg_feed (bd_page (run_board evs s)))) ≤ 52)%nat.
Proof.
  intros Hs. assert (Hr := run_board_keeps evs s Hs). split; [done|].
  by apply feed_ok_children, Hr.
Qed.
End Views.

(** * Witnesses *)

Definition two_deals : list json :=
  [JObj [("deal_id", JInt 2); ("client_address", JStr "0xalice"); ("file_cid", JStr "QmSecondFileOfAlice");
         ("file_size_gb", JInt 3); ("status", JStr "active")];
   JObj [("deal_id", JInt 1); ("client_address", JStr "0xbob"); ("file_cid", JStr "QmFirstFileOfBob");
         ("file_size_gb", JInt 5); ("status", JStr "cancelled")]].

(** An API that lists the two deals. *)
Definition listing : Outside := {|
  API_URL := "http://localhost:3002";
  answer_Z := λ _, Ok 12;
  answer_string := λ _, Ok "0xsignature";
  answer_strings := λ _, Ok ["0xalice"];
  answer_unit := λ _, Ok tt;
  answer_provider := λ _, Throw (Error "rejected");
  answer_pledge := λ _, Throw (Error "rejected");
  answer_deal := λ _, Throw (Error "rejected");
  answer_http := λ _, Ok (HttpResponse true 200 (Ok (JObj [("deals", JArr two_deals)])));
  formatUnits := λ _, "0.0";
  ethers_id := λ s, s;
  random_text := λ _, "random";
  createRandom := λ _ _, "0xdummy";
  toLocaleTime := λ _, "12:00"
|}.

(** A contract whose deal 9 cannot be read, and no API. *)
Definition contract_only : Outside := {|
  API_URL := "http://localhost:3002";
  answer_Z := λ _, Ok 12;
  answer_string := λ _, Throw (Error "rejected");
  answer_strings := λ _, Throw (Error "rejected");
  answer_unit := λ _, Throw (Error "rejected");
  answer_provider := λ _, Throw (Error "rejected");
  answer_pledge := λ _, Throw (Error "rejected");
  answer_deal := λ _, Throw (Error "rejected");
  answer_http := λ _, Throw (Error "Failed to fetch");
  formatUnits := λ _, "0.0";
  ethers_id := λ s, s;
  random_text := λ _, "random";
  createRandom := λ _ _, "0xdummy";
  toLocaleTime := λ _, "12:00"
|}.

Definition plain_reading : Reading := {|
  answer_full_deal := λ l, match l with
    | GetDeal 9 :: _ => Throw (Error "call revert")
    | _ => Ok (FullDeal "0xclient" "QmOnChainFile" 4 1700000000 4)
    end;
  localeDate := λ _, "1/1/2026";
  localeKYN := λ x, toFixed 2 x;
  isoDate := show_Z;
  monthYear := λ _, "Jan 2026";
  formatEther := λ _, "0.0"
|}.

Definition tables_page : page :=
  with_dom fresh_page (list_to_map [("#deals-table tbody", blank); ("#files-table tbody", blank);
                                    ("#my-deals-table tbody", blank)]).
Definition empty_board : board := Board tables_page (JObj []) [] [] [] [].

Lemma my_files_lists_everyone_witness :
  ∃ s', @fetchDeals listing plain_reading empty_board = (Ok tt, s') ∧
    Forall2 (λ d r, @deal_row_of plain_reading 0 d = Ok r) two_deals (bd_deals s') ∧
    Forall2 (λ d r, @file_row_of plain_reading 0 d = Ok r) two_deals (bd_files s').
Proof.
  apply (@my_files_lists_everyone listing plain_reading empty_board 200 (JObj [("deals", JArr two_deals)]));
    try reflexivity; [eexists; reflexivity..|discriminate|].
  repeat constructor; (eexists; split; [reflexivity|]); discriminate.
Defined.

Lemma fallback_shows_newest_witness :
  ∃ s' ids, @fetchDeals contract_only plain_reading empty_board = (Ok tt, s') ∧
    ids `sublist_of` last_deals 12 ∧ (length ids ≤ 5)%nat ∧
    (∀ k i, last_deals 12 !! k = Some i → i = 12 - 1 - Z.of_nat k) ∧
    (ids = [] ∧ bd_deals s' = [NoRows "No deals found"] ∨
     ids ≠ [] ∧ map row_id (bd_deals s') = map show_Z ids).
Proof.
  apply (@fallback_shows_newest contract_only plain_reading empty_board 12 (Error "Failed to fetch"));
    try reflexivity; [eexists; reflexivity..|lia].
Defined.

(** Four of the five newest are shown; a deal in its grace period has no status. *)
Example fallback_rows :
  map (λ r, (row_id r, row_status r)) (bd_deals (snd (@fetchDeals contract_only plain_reading empty_board)))
  = [("11", "undefined"); ("10", "undefined"); ("8", "undefined"); ("7", "undefined")].
Proof. vm_compute. reflexivity. Qed.

(** A page with a feed, and sixty new deals. *)
Definition busy_page : page :=
  with_dom fresh_page (list_to_map [("activity-feed", blank); ("#deals-table tbody", blank)]).
Definition busy_events : list board_event :=
  [OnDashboard Connect; OnDashboard (RunTask 0); FetchDeals; FetchMyDeals "provider"; RenderProfile;
   ProviderStatus (Some "0xALICE")] ++ replicate 60 (NewDeal (JObj [("deal_id", JInt 7)])) ++ [OnDashboard Disconnect].
Definition busy_board : board := @run_board listing plain_reading busy_events (Board busy_page (JObj []) [] [] [] []).

Lemma board_invariant_witness :
  length (children (pg_feed (bd_page busy_board))) = 52%nat ∧
  page_ok (bd_page busy_board) ∧ (length (children (pg_feed (bd_page busy_board))) ≤ 52)%nat.
Proof.
  split; [vm_compute; reflexivity|]. apply (@board_invariant listing plain_reading). split; [|split].
  - split; [reflexivity|]. split; [discriminate|constructor].
  - split; [simpl; unfold MAX_NOTIFICATIONS; lia|exact feed_markup_ok].
  - exact (Permutation_refl []).
Defined.
