(* ===== verification/PageLoad.v ===== *)
(** Loading the dashboard (dashboard/app.js): the handler of DOMContentLoaded with the
    AppKit start, the refresh timer, the tabs of the deals page and the avatar preview.

    A function that is called without [await] cannot make its caller throw: its
    promise is rejected instead, which the browser reports.  Registering a listener or a
    timer has no effect of its own; the listeners are the events of Dashboard.v, Files.v
    and Views.v. *)

From S2P Require Import Prelude JsNum JsFormat World Page Notices NodeStatus Governance Wallet Transactions Dashboard Tables Views.

Local Open Scope Z_scope.

(** [f();] for an async [f] *)
Definition unawaited {S A} (m : M S A) : M S unit := try_catch (m ;; mret tt) (λ _, mret tt).

Section Load.
  Context `{Outside} `{Reading}.

Definition fetchEvents : M page unit :=
  try_catch
    (response ← ask_http (Fetch "GET" (API_URL +:+ "/api/events") JNull);
     body_of response ;;
     mret tt)
    (λ error, mret tt).

Definition with_modal (b : bool) (p : page) : page :=
  Page (pg_dom p) (pg_storage p) (pg_now p) (pg_hostname p) (pg_origin p) (pg_port p)
    (pg_pathname p) (pg_ethereum p) b (pg_modal_address p) (pg_listeners p) (pg_userAddress p)
    (pg_provider p) (pg_signer p) (pg_isProvider p) (pg_settings p) (pg_notifications p) (pg_feed p)
    (pg_toast p) (pg_alerts p) (pg_proposals p) (pg_tasks p) (pg_calls p).

(** [createAppKit] is a global of another script; the result is the retry that is
    scheduled, if any. *)
Definition initAppKit (createAppKit : bool) (retries : nat) : M page (option nat) :=
  if negb createAppKit then mret (if (retries <? 5)%nat then Some (S retries) else None)
  else modify (with_modal true) ;; mret None.

(** All attempts of [initAppKit], when the script is there from attempt [ready] on;
    the result counts them. *)
Fixpoint appkit_attempts (fuel : nat) (ready : option nat) (retries : nat) : M page nat :=
  match fuel with
  | O => mret O
  | S fuel' =>
      next ← initAppKit (match ready with Some n => (n <=? retries)%nat | None => false end) retries;
      match next with
      | Some retries' => n ← appkit_attempts fuel' ready retries'; mret (S n)
      | None => mret 1%nat
      end
  end.

(** Sections 1, 3 and 4 of the handler; section 2 registers listeners.  Retries of
    AppKit and of the wallet check are later events. *)
Definition onDOMContentLoaded (createAppKit : bool) : M board unit :=
  try_catch (in_page (loadSavedTheme ;; loadSettings)) (λ e, mret tt) ;;
  try_catch
    (unawaited fetchStats ;;
     unawaited fetchDeals ;;
     unawaited fetchMarketplace ;;
     unawaited (in_page fetchEvents) ;;
     in_page updateProtocolInfo)
    (λ e, mret tt) ;;
  try_catch
    (unawaited (in_page (initAppKit createAppKit 0)) ;;
     unawaited (in_page (checkWalletConnection 5)))
    (λ e, mret tt).

(** A click on the document; [within id] tells whether the target is inside the
    element. *)
Definition close_dropdown (within : string → bool) (trigger dropdown : string) : M page unit :=
  d ← gets (λ p, pg_dom p !! dropdown);
  haveTrigger ← has_el trigger;
  match d with
  | Some e =>
      if negb (class_contains "hidden" e) && haveTrigger && negb (within trigger) && negb (within dropdown)
      then when_el dropdown (class_add "hidden") else mret tt
  | None => mret tt
  end.
Definition onDocumentClick (within : string → bool) : M page unit :=
  close_dropdown within ".profile-trigger" "profile-dropdown" ;;
  close_dropdown within ".sidebar-profile" "sidebar-dropdown".

(** The timer of every thirty seconds. *)
Definition refresh_timer : M board unit :=
  unawaited fetchStats ;;
  me ← in_page (gets pg_userAddress);
  if truthy me then unawaited (in_page fetchEarnings) else mret tt.

(** The buttons [.tab-btn] in the order of the document. *)
Definition tab_buttons : list string := ["tab-btn/0"; "tab-btn/1"].
Definition tab_word (tab : string) : string := if bool_decide (tab = "client") then "Uploads" else "Storage".
Definition has_word (p : page) (word id : string) : bool :=
  match pg_dom p !! id with Some e => includes word (textContent e) | None => false end.

Definition switchDealsTab (tab : string) : M board unit :=
  in_page (for_each tab_buttons (λ id, when_el id (class_remove "active"))) ;;
  activeBtn ← in_page (gets (λ p, find_first (has_word p (tab_word tab)) tab_buttons));
  (match activeBtn with
   | Some id => in_page (when_el id (class_add "active"))
   | None => mret tt
   end) ;;
  unawaited (fetchMyDeals tab).

(** [previewAvatar]: the file's size and its contents as a data URL, read later by
    [avatar_onload]. *)
Definition previewAvatar (file : option (Z * string)) : M page (option string) :=
  match file with
  | None => mret None
  | Some (size, url) =>
      if 2 * 1024 * 1024 <? size then
        showNotification "error" "File Too Large" "Please select an image smaller than 2MB." ;; mret None
      else mret (Some url)
  end.
Definition avatar_onload (url : string) : M page unit :=
  on_el "avatar-preview" (λ e, setAttribute "data-avatar" url
    (setAttribute "img-src" url (set_html (avatar_html (Some url)) e))).
End Load.

(** * Loading is safe *)

(** Since [old] only questions that move nothing and post nothing were asked. *)
Definition only_reads (old : list call) (p : page) : Prop :=
  ∃ new, pg_calls p = new ++ old ∧ Forall (λ c, harmless c = true) new.

#[global] Instance only_reads_stable old : WalletStable (only_reads old).
Proof.
  constructor; [constructor|..]; try done. intros p c Hc (new & Hp & Hn). exists (c :: new). simpl.
  split; [by rewrite Hp|by constructor].
Qed.

Section LoadFrame.
  Context `{Outside} `{Reading} (I : page → Prop) `{!WalletStable I} (I_modal : ∀ p, I p → I (with_modal true p)).

Lemma preserves_unawaited {S A} (J : S → Prop) (m : M S A) : preserves J m → preserves J (unawaited m).
Proof using. intros Hm. unfold unawaited. preserve. Qed.

Lemma preserves_initAppKit b n : preserves I (initAppKit b n).
Proof using I_modal. unfold initAppKit. preserve. Qed.
Lemma preserves_fetchEvents : preserves I fetchEvents.
Proof using WalletStable0. unfold fetchEvents, body_of. page_preserve. Qed.

Lemma preserves_load b : preserves (on_board I) (onDOMContentLoaded b).
Proof using WalletStable0 I_modal.
  unfold onDOMContentLoaded.
  repeat first
    [ apply preserves_unawaited | apply preserves_fetchStats, _ | apply preserves_fetchDeals, _
    | apply preserves_fetchMarketplace, _ | apply preserves_in_page, preserves_fetchEvents
    | apply preserves_in_page, preserves_initAppKit
    | apply preserves_in_page, (preserves_checkWalletConnection I)
    | apply preserves_in_page; unfold loadSavedTheme, loadSettings, updateProtocolInfo, parse_settings; page_preserve; fail
    | preserve_step ].
Qed.
End LoadFrame.

Section LoadTheorems.
  Context `{Outside} `{Reading}.

Lemma load_total b : total (onDOMContentLoaded b).
Proof. unfold onDOMContentLoaded. totality. Qed.

(** Loading the page is safe: whatever the API, the contracts and the wallet answer or
    refuse, the handler returns, keeps the invariant of the page, and has only read:
    no transaction was sent and nothing was posted. *)
Theorem load_is_safe b s :
  page_ok (bd_page s) →
  ∃ s', onDOMContentLoaded b s = (Ok tt, s') ∧ page_ok (bd_page s') ∧
        only_reads (pg_calls (bd_page s)) (bd_page s').
Proof.
  intros Hs. destruct (total_unit _ s (load_total b)) as [s' Hr]. exists s'.
  assert (on_board page_ok s') as H1.
  { pose proof (preserves_load page_ok (λ p Hp, Hp) b s Hs) as Hp. by rewrite Hr in Hp. }
  assert (on_board (only_reads (pg_calls (bd_page s))) s') as H2; [|done].
  pose proof (preserves_load (only_reads (pg_calls (bd_page s))) (λ p Hp, Hp) b s) as Hp.
  rewrite Hr in Hp. apply Hp. by exists [].
Qed.

(** The start of AppKit ends by itself: it is tried at most six times, and the modal
    is there afterwards when its script came within five retries. *)
Lemma appkit_attempts_run ready retries : ∀ fuel p,
  (retries ≤ 5)%nat → (6 - retries ≤ fuel)%nat →
  ∃ n p', appkit_attempts fuel ready retries p = (Ok n, p') ∧ (n ≤ 6 - retries)%nat ∧
    pg_modal p' = match ready with Some k => (k <=? 5)%nat || pg_modal p | None => pg_modal p end.
Proof.
  remember (5 - retries)%nat as k eqn:Hk. revert retries Hk.
  induction k as [|k IH]; intros retries Hk fuel p Hr Hf; (destruct fuel as [|fuel]; [lia|]);
    cbn [appkit_attempts]; unfold initAppKit; set (there := match ready with Some _ => _ | None => _ end).
  - assert (retries = 5%nat) as -> by lia. destruct there eqn:Ht; subst there; simpl.
    + exists 1%nat, (with_modal true p). split; [done|]. split; [lia|]. destruct ready as [n|]; [|done]. by rewrite Ht.
    + exists 1%nat, p. split; [done|]. split; [lia|]. destruct ready as [n|]; [|done]. by rewrite Ht.
  - destruct there eqn:Ht; subst there; simpl.
    + exists 1%nat, (with_modal true p). split; [done|]. split; [lia|]. destruct ready as [n|]; [|done].
      apply Nat.leb_le in Ht. assert ((n <=? 5)%nat = true) as -> by (apply Nat.leb_le; lia). done.
    + assert ((retries <? 5)%nat = true) as -> by (apply Nat.ltb_lt; lia). rewrite (bind_ok (mret _) _ p _ p eq_refl).
      destruct (IH (S retries) ltac:(lia) fuel p ltac:(lia) ltac:(lia)) as (n & p' & Hrun & Hn & Hm).
      exists (S n), p'. rewrite (bind_ok _ _ _ _ _ Hrun). split; [done|]. split; [lia|done].
Qed.

Theorem appkit_start_ends ready p :
  ∃ n p', appkit_attempts 6 ready 0 p = (Ok n, p') ∧ (n ≤ 6)%nat ∧
    pg_modal p' = match ready with Some k => (k <=? 5)%nat || pg_modal p | None => pg_modal p end.
Proof. by apply appkit_attempts_run; lia. Qed.

(** A click outside closes the menus: when both triggers are there and the click is in
    none of the four elements, no dropdown is left open. *)
Lemma close_dropdown_run within trigger dropdown p :
  is_Some (pg_dom p !! trigger) → within trigger = false → within dropdown = false →
  close_dropdown within trigger dropdown p = (Ok tt, with_dom p (alter (class_add "hidden") dropdown (pg_dom p))).
Proof.
  intros [t Ht] Hw1 Hw2. unfold close_dropdown, has_el. rewrite !gets_bind, Hw1, Hw2, Ht.
  rewrite bool_decide_eq_true_2 by (by eexists).
  assert (∀ e : element, class_contains "hidden" e = true → class_add "hidden" e = e) as Hid.
  { intros [] [=Hc%bool_decide_eq_true]. unfold class_add, set_classes. simpl in *. f_equal. set_solver. }
  assert (∀ d, d = pg_dom p → (mret tt : M page unit) p = (Ok tt, with_dom p d)) as Hmret by (intros ? ->; by destruct p).
  destruct (pg_dom p !! dropdown) as [e|] eqn:E.
  - destruct (class_contains "hidden" e) eqn:C; simpl; [|done]. apply Hmret.
    apply map_eq. intros i. destruct (decide (i = dropdown)) as [->|Hi].
    + rewrite lookup_alter_eq, E. simpl. by rewrite Hid.
    + by rewrite lookup_alter_ne.
  - apply Hmret. apply map_eq. intros i. destruct (decide (i = dropdown)) as [->|Hi].
    + by rewrite lookup_alter_eq, E.
    + by rewrite lookup_alter_ne.
Qed.
Theorem outside_click_closes_menus within p :
  is_Some (pg_dom p !! ".profile-trigger") → is_Some (pg_dom p !! ".sidebar-profile") →
  Forall (λ id, within id = false) [".profile-trigger"; "profile-dropdown"; ".sidebar-profile"; "sidebar-dropdown"] →
  ∃ p', onDocumentClick within p = (Ok tt, p') ∧
    ∀ id e, id ∈ ["profile-dropdown"; "sidebar-dropdown"] → pg_dom p' !! id = Some e → class_contains "hidden" e = true.
Proof.
  intros Ht Hs Hw. repeat apply Forall_cons in Hw as [? Hw]. unfold onDocumentClick.
  rewrite (bind_ok _ _ _ _ _ (close_dropdown_run within ".profile-trigger" "profile-dropdown" p Ht ltac:(done) ltac:(done))).
  rewrite close_dropdown_run by (try done; simpl; by rewrite lookup_alter_ne).
  eexists. split; [done|]. simpl. intros id e Hid He. unfold class_contains. apply bool_decide_eq_true.
  apply elem_of_cons in Hid as [->|Hid%list_elem_of_singleton]; [|subst id].
  - rewrite lookup_alter_ne in He by done. rewrite lookup_alter_eq in He.
    destruct (pg_dom p !! "profile-dropdown"); simplify_eq/=. set_solver.
  - rewrite lookup_alter_eq, lookup_alter_ne in He by done.
    destruct (pg_dom p !! "sidebar-dropdown"); simplify_eq/=. set_solver.
Qed.

(** The avatar the user picks is the one that saving the profile stores: an image of
    at most two megabytes goes through the preview into the profile. *)
Theorem picked_avatar_is_saved p size url :
  size ≤ 2 * 1024 * 1024 → url ≠ "" → is_Some (pg_dom p !! "avatar-preview") →
  ∃ p1 preview, (picked ← previewAvatar (Some (size, url));
             match picked with Some u => avatar_onload u | None => mret tt end) p = (Ok tt, p1) ∧
    pg_dom p1 !! "avatar-preview" = Some preview ∧ preview_avatar preview = Some url.
Proof.
  intros Hs Hu [e He]. unfold previewAvatar. assert ((2 * 1024 * 1024 <? size) = false) as -> by (apply Z.ltb_ge; lia).
  rewrite (bind_ok (mret _) _ p _ p eq_refl). unfold avatar_onload, on_el, element_. rewrite bind_assoc_run, gets_bind, He.
  eexists _, _. split; [reflexivity|]. simpl. rewrite lookup_alter_eq, He. split; [reflexivity|].
  unfold preview_avatar, setAttribute. simpl. rewrite lookup_insert_eq. by destruct url.
Qed.
End LoadTheorems.

(** * Witnesses *)

Lemma load_is_safe_witness :
  ∃ s', @onDOMContentLoaded listing plain_reading true empty_board = (Ok tt, s') ∧ page_ok (bd_page s') ∧
        only_reads [] (bd_page s').
Proof.
  apply (@load_is_safe listing plain_reading true empty_board). split; [|split].
  - split; [reflexivity|]. split; [discriminate|constructor].
  - split; [simpl; unfold MAX_NOTIFICATIONS; lia|exact feed_markup_ok].
  - exact (Permutation_refl []).
Defined.

Lemma picked_avatar_is_saved_witness :
  ∃ p1 preview, (picked ← previewAvatar (Some (1000, "data:image/png;base64,AA"));
             match picked with Some u => avatar_onload u | None => mret tt end)
             (with_dom fresh_page {[ "avatar-preview" := blank ]}) = (Ok tt, p1) ∧
    pg_dom p1 !! "avatar-preview" = Some preview ∧ preview_avatar preview = Some "data:image/png;base64,AA".
Proof. apply picked_avatar_is_saved; [lia|done|by eexists]. Defined.

Lemma outside_click_closes_menus_witness :
  let p := with_dom fresh_page {[ ".profile-trigger" := blank; ".sidebar-profile" := blank; "profile-dropdown" := blank ]} in
  ∃ p', onDocumentClick (λ _, false) p = (Ok tt, p') ∧
    ∀ id e, id ∈ ["profile-dropdown"; "sidebar-dropdown"] → pg_dom p' !! id = Some e → class_contains "hidden" e = true.
Proof. apply outside_click_closes_menus; [by eexists..|by repeat constructor]. Defined.

(** The second tab becomes the active one. *)
Example second_tab :
  let tab text classes := set_classes classes (set_text text blank) in
  let p := with_dom fresh_page {[ "tab-btn/0" := tab "My Uploads" {[ "active" ]}; "tab-btn/1" := tab "My Storage" ∅ ]} in
  let p' := bd_page (snd (@switchDealsTab listing plain_reading "provider" (Board p (JObj []) [] [] [] []))) in
  (class_contains "active" <$> pg_dom p' !! "tab-btn/0", class_contains "active" <$> pg_dom p' !! "tab-btn/1")
  = (Some false, Some true).
Proof. vm_compute. reflexivity. Qed.
