(* ===== verification/Cli.v ===== *)
(** The command line tools (cli/client-cli.ts, cli/provider-cli.ts): one command per
    run, its output and the calls it makes.

    Contracts, the file system, the environment and the formatting of ethers are
    parameters; answers may depend on the calls made so far. *)

From S2P Require Import Prelude JsNum JsFormat World ShardManager Encrypt NodeEncrypt.

Local Open Scope Z_scope.

(** * State *)

Inductive chain_call : Type :=
| View (contract getter : string) (args : list string)
| Send (contract method : string) (args : list string)
| Mined (hash : string).

Record cli : Type := Cli {
  c_out : list string;             (* console, oldest first *)
  c_calls : list chain_call;       (* newest first *)
  c_exit : option Z                (* process.exit *)
}.

Definition start_cli : cli := Cli [] [] None.

(** [getDeal]: the nine values. *)
Record deal_tuple : Type := DealTuple {
  dt_client : string; dt_cid : string; dt_size : Z; dt_duration : Z; dt_cost : Z;
  dt_start : Z; dt_end : Z; dt_activeShards : Z; dt_status : Z }.

(** [getEarningsBreakdown]: the six values. *)
Record earnings_tuple : Type := EarningsTuple {
  et_capacity : Z; et_usage : Z; et_proof : Z; et_earned : Z; et_withdrawn : Z; et_available : Z }.

Class Shell : Type := {
  env : string → option string;
  readFileSync : string → outcome bytes;
  wallet_address : option string → outcome string;       (* new ethers.Wallet(key).address *)
  wallet_public : option string → outcome string;        (* its signingKey.publicKey *)
  view_deal : list chain_call → outcome deal_tuple;
  view_earnings : list chain_call → outcome earnings_tuple;
  view_uint : list chain_call → outcome Z;
  view_text : list chain_call → outcome string;
  send_hash : list chain_call → outcome string;
  wait_mined : list chain_call → outcome unit;
  formatEther : Z → string;
  parseEther : string → outcome Z;
  toLocale : Z → string;                                  (* new Date(ms).toLocaleString() *)
  random_key : bytes; random_iv : bytes; random_ephemeral : bytes; random_key_iv : bytes
}.

Section Commands.
  Context `{Shell} `{NodeCrypto}.

Definition log (line : string) : M cli unit := modify (λ s, Cli (c_out s ++ [line]) (c_calls s) (c_exit s)).
Definition exit_with (code : Z) : M cli unit := modify (λ s, Cli (c_out s) (c_calls s) (Some code)).
Definition lift {A} (r : outcome A) : M cli A := λ s, (r, s).
Definition contact {A} (answer : list chain_call → outcome A) (c : chain_call) : M cli A := λ s,
  let cs := c :: c_calls s in (answer cs, Cli (c_out s) cs (c_exit s)).

(** [process.env.X!] used as a contract address or a key: undefined is passed on, and
    rejected where it is used. *)
Definition contract (name : string) : M cli string :=
  match env name with Some a => mret a | None => throw (Error "invalid address") end.

(** Every action: [catch (error) { console.error(...); process.exit(1); }] *)
Definition action (body : M cli unit) : M cli unit :=
  try_catch body (λ e, log ("Error: " +:+ err_message e) ;; exit_with 1).

(** An argument encoded as uint256: NaN, fractions and negative numbers are rejected. *)
Definition uint_arg (v : option Z) : M cli string :=
  match v with
  | Some z => if (0 <=? z) && (z <? 2 ^ 256) then mret (show_Z z) else throw (Error "value out-of-bounds")
  | None => throw (Error "invalid BigNumberish value")
  end.

(** * client-cli *)

(** [Math.ceil(n / (1024 * 1024 * 1024 * 10)) / 100]; readFileSync takes at most 2 GiB, so
    the quotient is below one and its ceiling is exact. *)
Definition upload_size (n : Z) : num := num_div (num_of_Z (ceil_div n (1024 * 1024 * 1024 * 10))) (num_of_Z 100).

(** Days parsed with parseInt; [None] is NaN. *)
Definition months_of (days : option Z) : num :=
  match days with Some d => num_of_Z (ceil_div d 30) | None => num_nan end.
Definition show_days (days : option Z) : string := match days with Some d => show_Z d | None => "NaN" end.

Definition upload_cost (size price : num) (days : option Z) : num :=
  num_mul (num_mul (num_mul size (num_lit 15 1)) price) (months_of days).

Definition upload (file duration price : string) : M cli unit :=
  let days := parseInt duration in
  action (
    log "Reading file..." ;;
    fileData ← lift (readFileSync file);
    let fileSizeGB := upload_size (Z.of_nat (length fileData)) in
    log ("File size: " +:+ show_num fileSizeGB +:+ " GB") ;;
    log ("Duration: " +:+ show_days days +:+ " days") ;;
    log "Encrypting file..." ;;
    publicKey ← lift (wallet_public (env "PRIVATE_KEY"));
    encrypted ← lift (NodeEncrypt.encryptFile random_key random_iv random_ephemeral random_key_iv fileData publicKey);
    log "File encrypted with AES-256-GCM" ;;
    log ("Encrypted size: " +:+ toFixed 2 (num_div (num_of_Z (Z.of_nat (length (sf_encryptedData encrypted))))
                                                    (num_of_Z (1024 * 1024))) +:+ " MB") ;;
    log "Key wrapped with wallet public key" ;;
    let encodedSize := num_mul fileSizeGB (num_lit 15 1) in
    let totalCost := upload_cost fileSizeGB (parseFloat price) days in
    log ("Original size: " +:+ show_num fileSizeGB +:+ " GB") ;;
    log ("Encoded size: " +:+ toFixed 2 encodedSize +:+ " GB (10+5 erasure coding)") ;;
    log ("Rate: " +:+ price +:+ " STK/GB/month") ;;
    log ("Duration: " +:+ show_num (months_of days) +:+ " month(s)") ;;
    log ("Total cost: " +:+ toFixed 4 totalCost +:+ " STK") ;;
    for_each ["Encrypted file will be uploaded to IPFS"; "Erasure coded into 15 encrypted shards";
              "Distributed to 15 providers (they see only ciphertext)"; "Payment escrowed until deal completion";
              "Encryption key stored - only your wallet can decrypt"] log).

Definition statusNames : list string := ["Active"; "Completed"; "Failed"; "Cancelled"].

Definition shard_health (active : Z) : string :=
  if 15 <=? active then "All shards healthy"
  else if 10 <=? active then "Some shards lost, but data can still be reconstructed"
  else "Critical: Too many shards lost!".

Definition deal_status (dealId : string) : M cli unit :=
  action (
    marketplace ← contract "MARKETPLACE_CONTRACT";
    log ("Fetching deal #" +:+ show_days (parseInt dealId) +:+ "...") ;;
    id ← uint_arg (parseInt dealId);
    deal ← contact view_deal (View marketplace "getDeal" [id]);
    for_each
      ["Client: " +:+ dt_client deal; "File CID: " +:+ dt_cid deal; "File Size: " +:+ show_Z (dt_size deal) +:+ " GB";
       "Duration: " +:+ show_Z (dt_duration deal) +:+ " days"; "Total Cost: " +:+ formatEther (dt_cost deal) +:+ " STK";
       "Start Time: " +:+ toLocale (dt_start deal * 1000); "End Time: " +:+ toLocale (dt_end deal * 1000);
       "Active Shards: " +:+ show_Z (dt_activeShards deal) +:+ "/15";
       "Status: " +:+ default "undefined" (statusNames !! Z.to_nat (dt_status deal))] log ;;
    log (shard_health (dt_activeShards deal))).

Definition balance : M cli unit :=
  action (
    me ← lift (wallet_address (env "PRIVATE_KEY"));
    token ← contract "TOKEN_CONTRACT";
    amount ← contact view_uint (View token "balanceOf" [me]);
    symbol ← contact view_text (View token "symbol" []);
    log "Your Balance:" ;;
    log (formatEther amount +:+ " " +:+ symbol) ;;
    log ("Address: " +:+ me)).

(** * provider-cli *)

(** [contract.method(args)] then [tx.wait()]. *)
Definition send (to method : string) (args : list string) : M cli string := contact send_hash (Send to method args).
Definition wait_tx (hash : string) : M cli unit := contact wait_mined (Mined hash).

Definition register (peerId endpoint region : string) : M cli unit :=
  action (
    _ ← lift (wallet_address (env "PRIVATE_KEY"));
    registry ← contract "REGISTRY_CONTRACT";
    log "Registering as provider..." ;;
    hash ← send registry "registerProvider(string,string,string)" [peerId; endpoint; region];
    log ("Transaction: " +:+ hash) ;;
    wait_tx hash ;;
    for_each ["Successfully registered!"; "Peer ID: " +:+ peerId; "Endpoint: " +:+ endpoint; "Region: " +:+ region] log).

Definition pledge (capacity duration collateral : string) : M cli unit :=
  let capacityGB := parseInt capacity in
  let days := parseInt duration in
  action (
    _ ← lift (wallet_address (env "PRIVATE_KEY"));
    token ← contract "TOKEN_CONTRACT";
    pledges ← contract "PLEDGES_CONTRACT";
    collateralWei ← lift (parseEther collateral);
    log "Approving tokens..." ;;
    hash ← send token "approve" [pledges; show_Z collateralWei];
    wait_tx hash ;;
    log "Tokens approved" ;;
    log "Creating pledge..." ;;
    cap ← uint_arg capacityGB;
    secs ← uint_arg (Z.mul (24 * 60 * 60) <$> days);
    hash ← send pledges "createPledge" [cap; secs; show_Z collateralWei];
    log ("Transaction: " +:+ hash) ;;
    wait_tx hash ;;
    for_each ["Pledge created successfully!"; "Capacity: " +:+ show_days capacityGB +:+ " GB";
              "Duration: " +:+ show_days days +:+ " days"; "Collateral: " +:+ collateral +:+ " STK"] log).

Definition earnings : M cli unit :=
  action (
    me ← lift (wallet_address (env "PRIVATE_KEY"));
    payments ← contract "PAYMENTS_CONTRACT";
    e ← contact view_earnings (View payments "getEarningsBreakdown" [me]);
    for_each ["Your Earnings:"; "Capacity Rewards: " +:+ formatEther (et_capacity e) +:+ " STK";
              "Usage Rewards: " +:+ formatEther (et_usage e) +:+ " STK";
              "Proof Bonuses: " +:+ formatEther (et_proof e) +:+ " STK";
              "Total Earned: " +:+ formatEther (et_earned e) +:+ " STK";
              "Total Withdrawn: " +:+ formatEther (et_withdrawn e) +:+ " STK";
              "Available: " +:+ formatEther (et_available e) +:+ " STK"] log).

Definition withdraw : M cli unit :=
  action (
    me ← lift (wallet_address (env "PRIVATE_KEY"));
    payments ← contract "PAYMENTS_CONTRACT";
    available ← contact view_uint (View payments "getAvailableEarnings" [me]);
    if available =? 0 then log "No earnings available to withdraw"
    else
      log ("Withdrawing " +:+ formatEther available +:+ " STK...") ;;
      hash ← send payments "withdrawEarnings" [];
      log ("Transaction: " +:+ hash) ;;
      wait_tx hash ;;
      log "Withdrawal successful!").
End Commands.

(** * Properties *)

Section CliFacts.
  Context `{Shell} `{NodeCrypto}.

(** The size is off by a factor of a thousand: every file that can be read is taken for
    0.01 GB. *)
Theorem upload_size_constant n : 0 < n ≤ 1024 * 1024 * 1024 * 10 → upload_size n = num_div (num_of_Z 1) (num_of_Z 100).
Proof.
  intros Hn. unfold upload_size, ceil_div. repeat f_equal.
  assert (- n / (1024 * 1024 * 1024 * 10) = -1) as ->; [|done].
  symmetry. apply (Z.div_unique _ _ _ (1024 * 1024 * 1024 * 10 - n)); lia.
Qed.

(** Commands never end in an exception: they finish, or exit with status 1. *)
Lemma action_returns body s : ∃ s', action body s = (Ok tt, s').
Proof.
  unfold action, log, exit_with. running. destruct (body s) as [[[]|e] s']; by eexists.
Qed.

(** ** Order of the transactions of a pledge *)

Definition approval (pledges amount : string) (c : chain_call) : Prop :=
  ∃ token, c = Send token "approve" [pledges; amount].

(** In a log (newest first) every pledge comes after a mined approval of its collateral
    for the contract it is sent to. *)
Inductive backed : list chain_call → Prop :=
| backed_nil : backed []
| backed_pledge to cap secs amount hash l approve_call before :
    l = Mined hash :: approve_call :: before → approval to amount approve_call →
    wait_mined l = Ok tt → backed l → backed (Send to "createPledge" [cap; secs; amount] :: l)
| backed_other c l : (∀ to args, c ≠ Send to "createPledge" args) → backed l → backed (c :: l).

Definition backed_cli (s : cli) : Prop := backed (c_calls s).

Lemma log_backed line : preserves backed_cli (log line).
Proof. by intros s Hs. Qed.
Lemma exit_backed z : preserves backed_cli (exit_with z).
Proof. by intros s Hs. Qed.
Lemma lift_backed {A} (r : outcome A) : preserves backed_cli (lift r).
Proof. by intros s Hs. Qed.
Lemma contract_backed name : preserves backed_cli (contract name).
Proof. unfold contract. preserve. Qed.
Lemma uint_backed v : preserves backed_cli (uint_arg v).
Proof. unfold uint_arg. preserve. Qed.
Lemma contact_backed {A} (answer : list chain_call → outcome A) c :
  (∀ to args, c ≠ Send to "createPledge" args) → preserves backed_cli (contact answer c).
Proof. intros Hc s Hs. by constructor 3. Qed.

Lemma log_bind {B} line (k : unit → M cli B) s :
  (log line ≫= k) s = k tt (Cli (c_out s ++ [line]) (c_calls s) (c_exit s)).
Proof. reflexivity. Qed.

Lemma contact_bind {A B} (answer : list chain_call → outcome A) c (k : A → M cli B) s :
  (contact answer c ≫= k) s =
  match answer (c :: c_calls s) with
  | Ok a => k a (Cli (c_out s) (c :: c_calls s) (c_exit s))
  | Throw e => (Throw e, Cli (c_out s) (c :: c_calls s) (c_exit s))
  end.
Proof. unfold contact, mbind, M_bind. by destruct (answer _). Qed.

(** What follows the approval of a pledge: the arguments are encoded, then it is sent. *)
Lemma pledge_tail_backed pledges amount days capacityGB lines hash token before s :
  c_calls s = Mined hash :: Send token "approve" [pledges; amount] :: before →
  wait_mined (c_calls s) = Ok tt → backed_cli s →
  backed_cli (snd ((log "Tokens approved" ;; log "Creating pledge..." ;;
    cap ← uint_arg capacityGB; secs ← uint_arg (Z.mul (24 * 60 * 60) <$> days);
    hash ← send pledges "createPledge" [cap; secs; amount];
    log ("Transaction: " +:+ hash) ;; wait_tx hash ;; for_each lines log) s)).
Proof.
  intros Hc Hw Hb. rewrite !log_bind. cbn [c_calls c_out c_exit].
  set (s1 := Cli _ _ _). assert (Hb1 : backed_cli s1) by done. assert (Hc1 : c_calls s1 = c_calls s) by done.
  clearbody s1.
  assert (∀ v (k : string → M cli unit), (∀ x, backed_cli (snd (k x s1))) → backed_cli (snd ((uint_arg v ≫= k) s1))) as Huint.
  { intros v k Hk. unfold uint_arg. destruct v as [z|]; [destruct (_ && _)|]; by try apply Hk. }
  apply Huint. intros cap. apply Huint. intros secs. clear Huint.
  set (c := Send pledges "createPledge" [cap; secs; amount]).
  assert (Hb2 : backed (c :: c_calls s1)).
  { rewrite Hc1. econstructor; [exact Hc| |exact Hw|exact Hb]. by exists token. }
  assert (Hrest : ∀ h, preserves backed_cli (log ("Transaction: " +:+ h) ;; wait_tx h ;; for_each lines log)).
  { intros h. apply preserves_bind; [apply log_backed|intros _]. apply preserves_bind; [by apply contact_backed|intros _].
    apply preserves_for_each. intros. apply log_backed. }
  unfold send. rewrite contact_bind. fold c.
  destruct (send_hash (c :: c_calls s1)) as [h|e]; [|done].
  exact (Hrest h (Cli (c_out s1) (c :: c_calls s1) (c_exit s1)) Hb2).
Qed.

(** A pledge made from the command line is sent only after an approval of exactly its
    collateral, to the contract that will take it, was mined. *)
Theorem pledge_follows_approval capacity duration collateral :
  backed (c_calls (snd (pledge capacity duration collateral start_cli))).
Proof.
  unfold pledge, action.
  match goal with |- context [try_catch ?m ?h] => assert (Hm : preserves backed_cli m → backed_cli (snd (try_catch m h start_cli))) end.
  { intros Hm. apply preserves_try_catch; [done| |constructor].
    intros e. apply preserves_bind; [apply log_backed|intros _; apply exit_backed]. }
  apply Hm. clear Hm.
  apply preserves_bind; [apply lift_backed|intros _]. apply preserves_bind; [apply contract_backed|intros token].
  apply preserves_bind; [apply contract_backed|intros pledges]. apply preserves_bind; [apply lift_backed|intros wei].
  apply preserves_bind; [apply log_backed|intros _]. intros s Hs.
  change (send token ?m ?a) with (contact send_hash (Send token m a)). rewrite contact_bind.
  set (c := Send token "approve" [pledges; show_Z wei]).
  assert (Hc : backed (c :: c_calls s)) by (by constructor 3).
  destruct (send_hash (c :: c_calls s)) as [hash|e]; [|done].
  change (wait_tx hash) with (contact wait_mined (Mined hash)). rewrite contact_bind. cbn [c_calls c_out c_exit].
  assert (Hm : backed (Mined hash :: c :: c_calls s)) by (by constructor 3).
  destruct (wait_mined (Mined hash :: c :: c_calls s)) as [[]|e] eqn:Ew; [|done].
  exact (pledge_tail_backed pledges (show_Z wei) (parseInt duration) (parseInt capacity) _ hash token (c_calls s)
           (Cli (c_out s) (Mined hash :: c :: c_calls s) (c_exit s)) eq_refl Ew Hm).
Qed.

(** A duration or capacity that is no number fails only after the tokens were approved:
    the approval stays, no pledge is sent, and the command exits with status 1. *)
Theorem bad_number_leaves_approval capacity duration collateral wei token pledges me hash :
  parseInt duration = None → env "TOKEN_CONTRACT" = Some token → env "PLEDGES_CONTRACT" = Some pledges →
  wallet_address (env "PRIVATE_KEY") = Ok me → parseEther collateral = Ok wei →
  let approve := Send token "approve" [pledges; show_Z wei] in
  send_hash [approve] = Ok hash → wait_mined [Mined hash; approve] = Ok tt →
  let s' := snd (pledge capacity duration collateral start_cli) in
  c_exit s' = Some 1 ∧ c_calls s' = [Mined hash; approve].
Proof.
  intros Hd Ht Hp Hw He approve Hs Hm. unfold pledge, action, contract, lift. rewrite Hd, Ht, Hp, Hw, He.
  unfold send, wait_tx, contact, log, exit_with. running. fold approve. rewrite Hs. simpl. rewrite Hm. simpl.
  unfold uint_arg. destruct (parseInt capacity) as [z|]; simpl; [destruct (_ && _)|]; done.
Qed.

(** Withdrawing sends nothing when nothing is available, else exactly one withdrawal. *)
Theorem withdraw_only_available me payments n :
  wallet_address (env "PRIVATE_KEY") = Ok me → env "PAYMENTS_CONTRACT" = Some payments →
  let question := View payments "getAvailableEarnings" [me] in
  view_uint [question] = Ok n →
  let s' := snd (withdraw start_cli) in
  if n =? 0 then c_calls s' = [question] ∧ c_exit s' = None
  else ∃ later, c_calls s' = later ++ [Send payments "withdrawEarnings" []; question] ∧
                Forall (λ c, ∃ h, c = Mined h) later.
Proof.
  intros Hw Hp question Hq. unfold withdraw, action, contract, lift. rewrite Hw, Hp.
  unfold send, wait_tx, contact, log, exit_with. running. fold question. rewrite Hq. simpl.
  destruct (n =? 0); [done|]. destruct (send_hash _) as [h|e]; simpl.
  - destruct (wait_mined _) as [[]|e]; simpl; (exists [Mined h]; split; [done|]; by repeat econstructor).
  - by exists [].
Qed.
End CliFacts.

(** * A shell *)

Definition demo_shell : Shell := {|
  env := λ name, if bool_decide (name = "PRIVATE_KEY") then Some "0xkey" else Some ("0x" +:+ name);
  readFileSync := λ _, Ok demo_file;
  wallet_address := λ k, match k with Some _ => Ok "0xme" | None => Throw (Error "invalid private key") end;
  wallet_public := λ _, Ok "0x04";
  view_deal := λ _, Ok (DealTuple "0xclient" "QmFile" 4 90 1000 1700000000 1707776000 12 4);
  view_earnings := λ _, Ok (EarningsTuple 1 2 3 6 2 4);
  view_uint := λ _, Ok 4;
  view_text := λ _, Ok "KYN";
  send_hash := λ _, Ok "0xhash";
  wait_mined := λ _, Ok tt;
  formatEther := show_Z;
  parseEther := λ s, match parseInt s with Some z => Ok (z * 10 ^ 18) | None => Throw (Error "invalid decimal value") end;
  toLocale := show_Z;
  random_key := []; random_iv := []; random_ephemeral := []; random_key_iv := []
|}.

(** A pledge of 100 GB for 90 days: approval, its block, the pledge, its block. *)
Example pledge_run :
  rev (c_calls (snd (@pledge demo_shell "100" "90" "5" start_cli)))
  = [Send "0xTOKEN_CONTRACT" "approve" ["0xPLEDGES_CONTRACT"; "5000000000000000000"]; Mined "0xhash";
     Send "0xPLEDGES_CONTRACT" "createPledge" ["100"; "7776000"; "5000000000000000000"]; Mined "0xhash"].
Proof. vm_compute. reflexivity. Qed.

(** A deal in its grace period has no status name. *)
Example grace_status :
  "Status: undefined" ∈ c_out (snd (@deal_status demo_shell "3" start_cli)).
Proof. vm_compute. repeat constructor. Qed.

Lemma bad_number_leaves_approval_example :
  let s' := snd (@pledge demo_shell "100" "three months" "5" start_cli) in
  c_exit s' = Some 1 ∧
  c_calls s' = [Mined "0xhash"; Send "0xTOKEN_CONTRACT" "approve" ["0xPLEDGES_CONTRACT"; "5000000000000000000"]].
Proof. vm_compute. done. Qed.
