(* ===== verification/Adapter.v ===== *)
(** services/kubo-adapter/src/index.ts: a thin wrapper of the IPFS client that logs
    what fails and passes the exception on.  The client is a parameter: operations
    on the state of a node, which return or throw. *)

From S2P Require Import Prelude World.

Local Open Scope Z_scope.

Record node_info : Type := NodeInfo {
  ni_id : string; ni_agentVersion : string; ni_protocolVersion : string; ni_addresses : list string }.

Class IpfsClient (Node : Type) : Type := {
  ipfs_add : list Byte.byte → M Node string;              (* (await ipfs.add(content)).cid.toString() *)
  ipfs_cat : string → Node → list (list Byte.byte) * option js_error;
    (* the chunks an iteration yields, and the exception that ends it *)
  ipfs_pin_add : string → M Node unit;
  ipfs_pin_rm : string → M Node unit;
  ipfs_id : M Node node_info
}.

Inductive level : Type := Debug | Info | Failure.
Record adapter (Node : Type) : Type := Adapter { ad_node : Node; ad_log : list (level * string) }.
Arguments Adapter {Node} _ _.
Arguments ad_node {Node} _.
Arguments ad_log {Node} _.

Section Adapter.
  Context {Node : Type} `{IpfsClient Node}.

Definition log (l : level) (line : string) : M (adapter Node) unit :=
  modify (λ s, Adapter (ad_node s) (ad_log s ++ [(l, line)])).
Definition on_node {A} (m : M Node A) : M (adapter Node) A := λ s,
  let '(r, n) := m (ad_node s) in (r, Adapter n (ad_log s)).
(** [catch (error) { this.logger.error(...); throw error; }] *)
Definition logged {A} (line : string) (m : M (adapter Node) A) : M (adapter Node) A :=
  try_catch m (λ e, log Failure line ;; throw e).

(** [new KuboAdapter(url, logger)] *)
Definition connect (kuboApiUrl : string) (n : Node) : adapter Node :=
  Adapter n [(Info, "Connected to Kubo at " +:+ kuboApiUrl)].

Definition addFile (content : list Byte.byte) : M (adapter Node) string :=
  logged "Error adding file to IPFS:" (
    cid ← on_node (ipfs_add content);
    log Debug ("File added to IPFS: " +:+ cid) ;;
    mret cid).

(** The chunks are collected and joined; an exception of the iteration is passed on. *)
Definition getFile (cid : string) : M (adapter Node) (list Byte.byte) :=
  logged ("Error retrieving file " +:+ cid +:+ ":") (
    s ← gets ad_node;
    match ipfs_cat cid s with
    | (chunks, None) => mret (concat chunks)
    | (_, Some e) => throw e
    end).

Definition pinFile (cid : string) : M (adapter Node) unit :=
  logged ("Error pinning file " +:+ cid +:+ ":") (
    on_node (ipfs_pin_add cid) ;; log Debug ("File pinned: " +:+ cid)).
Definition unpinFile (cid : string) : M (adapter Node) unit :=
  logged ("Error unpinning file " +:+ cid +:+ ":") (
    on_node (ipfs_pin_rm cid) ;; log Debug ("File unpinned: " +:+ cid)).
Definition getNodeInfo : M (adapter Node) node_info :=
  logged "Error getting node info:" (on_node ipfs_id).

(** * Properties *)

(** A client that serves what was added: however it cuts a file into chunks, they
    join to the file. *)
Definition serves_added : Prop :=
  ∀ content n cid n', ipfs_add content n = (Ok cid, n') →
    snd (ipfs_cat cid n') = None ∧ concat (fst (ipfs_cat cid n')) = content.

(** A file that was added is read back byte for byte. *)
Theorem added_file_is_served content s cid s' :
    serves_added → addFile content s = (Ok cid, s') →
    getFile cid s' = (Ok content, s').
Proof.
    intros Hlaw Hr. unfold addFile, logged, try_catch in Hr. unfold mbind, M_bind, on_node in Hr.
    destruct (ipfs_add content (ad_node s)) as [[c|e] n'] eqn:Ha; simpl in Hr; [|done].
    injection Hr as <- <-. destruct (Hlaw _ _ _ _ Ha) as [Hn Hc].
    unfold getFile, logged, try_catch, mbind, M_bind, gets. simpl.
    destruct (ipfs_cat c n') as [chunks [e|]]; simpl in *; [done|]. by rewrite Hc.
  Qed.

(** Every exception of the client is logged once and reaches the caller unchanged. *)
Theorem failures_are_passed_on {A} line (m : M (adapter Node) A) s e s' :
    logged line m s = (Throw e, s') →
    ∃ s1, m s = (Throw e, s1) ∧ ad_node s' = ad_node s1 ∧ ad_log s' = ad_log s1 ++ [(Failure, line)].
Proof.
    unfold logged, try_catch. destruct (m s) as [[a|e1] s1]; [done|].
    unfold mbind, M_bind, log, modify. intros [= <- <-]. by exists s1.
  Qed.
End Adapter.

(** A node that keeps its files under their length, one chunk each. *)
Definition toy_client : IpfsClient (gmap string (list Byte.byte)) := {|
  ipfs_add := λ c n, let k := pretty.pretty (length c) in (Ok k, <[k := c]> n);
  ipfs_cat := λ k n, match n !! k with Some c => ([c], None) | None => ([], Some (Error "not found")) end;
  ipfs_pin_add := λ _, mret tt; ipfs_pin_rm := λ _, mret tt;
  ipfs_id := mret (NodeInfo "id" "kubo" "ipfs/0.1.0" [])
|}.
Lemma added_file_is_served_witness :
  let s := snd (addFile (H := toy_client) [Byte.x41; Byte.x42] (connect "http://localhost:5001" ∅)) in
  getFile (H := toy_client) "2" s = (Ok [Byte.x41; Byte.x42], s).
Proof.
  apply (added_file_is_served (H := toy_client) [Byte.x41; Byte.x42] (connect "http://localhost:5001" ∅)).
  - intros content n cid n' [= <- <-]. simpl. rewrite lookup_insert_eq. simpl. by rewrite app_nil_r.
  - by vm_compute.
Defined.
