(* ===== verification/Contracts.v ===== *)
(** The Solidity contracts as data: the machine they run on and the storage of
    each (src/incentive-layer/smart-contracts/contracts/).

    A chain holds, per kind of contract, the instances by address; calling an
    address where no such contract lives reverts.  A function of a contract is a
    program over the chain in the monad of the prelude: [throw] is a revert, and
    [transact] makes a transaction of it, which undoes every write when it reverts.
    Unsigned words are [N] with the overflow check of Solidity 0.8 (or the wrap of
    an [unchecked] block) written out; a mapping is a [gmap] read with the default
    value of its type. *)

From S2P Require Import Prelude.

Local Open Scope N_scope.

(** * Words, calls, guards *)

Abbreviation address := string (only parsing).
Definition address0 : address := "0x0000000000000000000000000000000000000000".

Definition WORD : N := 2 ^ 256.
Definition MAX_UINT : N := WORD - 1.

(** The transaction and the block a function sees. *)
Record env : Type := Env {
  msg_sender : address;
  block_timestamp : N;
  block_chainid : N;
  last_blockhash : N        (* blockhash(block.number - 1) *)
}.

(** The environment of a call made by the contract [a]. *)
Definition sent_by (a : address) (e : env) : env :=
  Env a (block_timestamp e) (block_chainid e) (last_blockhash e).

Section Words.
  Context {S : Type}.

Definition revert {A} (reason : string) : M S A := throw (Error reason).
Definition require (b : bool) (reason : string) : M S unit :=
  if b then mret tt else revert reason.

(** Checked arithmetic: a panic reverts. *)
Definition add_u (a b : N) : M S N :=
  if a + b <=? MAX_UINT then mret (a + b) else revert "panic 0x11".
Definition sub_u (a b : N) : M S N :=
  if b <=? a then mret (a - b) else revert "panic 0x11".
Definition mul_u (a b : N) : M S N :=
  if a * b <=? MAX_UINT then mret (a * b) else revert "panic 0x11".
Definition div_u (a b : N) : M S N :=
  if b =? 0 then revert "panic 0x12" else mret (a / b).
Definition pow_u (a b : N) : M S N :=
  if a ^ b <=? MAX_UINT then mret (a ^ b) else revert "panic 0x11".
End Words.

(** [unchecked { a + b }] and [unchecked { a - b }]. *)
Definition wrap_add (a b : N) : N := (a + b) mod WORD.
Definition wrap_sub (a b : N) : N := (a + WORD - b) mod WORD.

(** Reading a mapping. *)
Definition at_ {K V} `{Countable K} (d : V) (m : gmap K V) (k : K) : V := default d (m !! k).

(** Solidity time units, in seconds. *)
Definition hours (n : N) : N := n * 3600.
Definition days (n : N) : N := n * 86400.


(** * Storage *)

(** StorageToken.sol with its base ERC20. *)

Record StorageToken : Type := MkToken {
  tk_owner : address;
  tk_balances : gmap address N;
  tk_allowances : gmap (address * address) N;
  tk_totalSupply : N;
  tk_annualInflationRate : N;
  tk_lastInflationTimestamp : N;
  tk_minters : gmap address bool;
  tk_burners : gmap address bool;
  tk_totalTokensBurned : N
}.
Definition with_tk_owner (g : address → address) (r : StorageToken) : StorageToken :=
  MkToken (g (tk_owner r)) (tk_balances r) (tk_allowances r) (tk_totalSupply r) (tk_annualInflationRate r) (tk_lastInflationTimestamp r) (tk_minters r) (tk_burners r) (tk_totalTokensBurned r).
Definition with_tk_balances (g : gmap address N → gmap address N) (r : StorageToken) : StorageToken :=
  MkToken (tk_owner r) (g (tk_balances r)) (tk_allowances r) (tk_totalSupply r) (tk_annualInflationRate r) (tk_lastInflationTimestamp r) (tk_minters r) (tk_burners r) (tk_totalTokensBurned r).
Definition with_tk_allowances (g : gmap (address * address) N → gmap (address * address) N) (r : StorageToken) : StorageToken :=
  MkToken (tk_owner r) (tk_balances r) (g (tk_allowances r)) (tk_totalSupply r) (tk_annualInflationRate r) (tk_lastInflationTimestamp r) (tk_minters r) (tk_burners r) (tk_totalTokensBurned r).
Definition with_tk_totalSupply (g : N → N) (r : StorageToken) : StorageToken :=
  MkToken (tk_owner r) (tk_balances r) (tk_allowances r) (g (tk_totalSupply r)) (tk_annualInflationRate r) (tk_lastInflationTimestamp r) (tk_minters r) (tk_burners r) (tk_totalTokensBurned r).
Definition with_tk_annualInflationRate (g : N → N) (r : StorageToken) : StorageToken :=
  MkToken (tk_owner r) (tk_balances r) (tk_allowances r) (tk_totalSupply r) (g (tk_annualInflationRate r)) (tk_lastInflationTimestamp r) (tk_minters r) (tk_burners r) (tk_totalTokensBurned r).
Definition with_tk_lastInflationTimestamp (g : N → N) (r : StorageToken) : StorageToken :=
  MkToken (tk_owner r) (tk_balances r) (tk_allowances r) (tk_totalSupply r) (tk_annualInflationRate r) (g (tk_lastInflationTimestamp r)) (tk_minters r) (tk_burners r) (tk_totalTokensBurned r).
Definition with_tk_minters (g : gmap address bool → gmap address bool) (r : StorageToken) : StorageToken :=
  MkToken (tk_owner r) (tk_balances r) (tk_allowances r) (tk_totalSupply r) (tk_annualInflationRate r) (tk_lastInflationTimestamp r) (g (tk_minters r)) (tk_burners r) (tk_totalTokensBurned r).
Definition with_tk_burners (g : gmap address bool → gmap address bool) (r : StorageToken) : StorageToken :=
  MkToken (tk_owner r) (tk_balances r) (tk_allowances r) (tk_totalSupply r) (tk_annualInflationRate r) (tk_lastInflationTimestamp r) (tk_minters r) (g (tk_burners r)) (tk_totalTokensBurned r).
Definition with_tk_totalTokensBurned (g : N → N) (r : StorageToken) : StorageToken :=
  MkToken (tk_owner r) (tk_balances r) (tk_allowances r) (tk_totalSupply r) (tk_annualInflationRate r) (tk_lastInflationTimestamp r) (tk_minters r) (tk_burners r) (g (tk_totalTokensBurned r)).


(** ProviderRegistry.sol *)

Record Provider : Type := MkProvider {
  pr_registered : bool;
  pr_registrationTime : N;
  pr_totalCapacityGB : N;
  pr_reputationScore : N;
  pr_peerId : string;
  pr_endpoint : string;
  pr_region : string;
  pr_totalDealsCompleted : N;
  pr_totalDealsFailed : N;
  pr_totalSlashingEvents : N;
  pr_active : bool;
  pr_deactivatedUntil : N;
  pr_minPriceUSD : N
}.
Definition with_pr_totalCapacityGB (g : N → N) (r : Provider) : Provider :=
  MkProvider (pr_registered r) (pr_registrationTime r) (g (pr_totalCapacityGB r)) (pr_reputationScore r) (pr_peerId r) (pr_endpoint r) (pr_region r) (pr_totalDealsCompleted r) (pr_totalDealsFailed r) (pr_totalSlashingEvents r) (pr_active r) (pr_deactivatedUntil r) (pr_minPriceUSD r).
Definition with_pr_reputationScore (g : N → N) (r : Provider) : Provider :=
  MkProvider (pr_registered r) (pr_registrationTime r) (pr_totalCapacityGB r) (g (pr_reputationScore r)) (pr_peerId r) (pr_endpoint r) (pr_region r) (pr_totalDealsCompleted r) (pr_totalDealsFailed r) (pr_totalSlashingEvents r) (pr_active r) (pr_deactivatedUntil r) (pr_minPriceUSD r).
Definition with_pr_endpoint (g : string → string) (r : Provider) : Provider :=
  MkProvider (pr_registered r) (pr_registrationTime r) (pr_totalCapacityGB r) (pr_reputationScore r) (pr_peerId r) (g (pr_endpoint r)) (pr_region r) (pr_totalDealsCompleted r) (pr_totalDealsFailed r) (pr_totalSlashingEvents r) (pr_active r) (pr_deactivatedUntil r) (pr_minPriceUSD r).
Definition with_pr_region (g : string → string) (r : Provider) : Provider :=
  MkProvider (pr_registered r) (pr_registrationTime r) (pr_totalCapacityGB r) (pr_reputationScore r) (pr_peerId r) (pr_endpoint r) (g (pr_region r)) (pr_totalDealsCompleted r) (pr_totalDealsFailed r) (pr_totalSlashingEvents r) (pr_active r) (pr_deactivatedUntil r) (pr_minPriceUSD r).
Definition with_pr_totalDealsCompleted (g : N → N) (r : Provider) : Provider :=
  MkProvider (pr_registered r) (pr_registrationTime r) (pr_totalCapacityGB r) (pr_reputationScore r) (pr_peerId r) (pr_endpoint r) (pr_region r) (g (pr_totalDealsCompleted r)) (pr_totalDealsFailed r) (pr_totalSlashingEvents r) (pr_active r) (pr_deactivatedUntil r) (pr_minPriceUSD r).
Definition with_pr_totalDealsFailed (g : N → N) (r : Provider) : Provider :=
  MkProvider (pr_registered r) (pr_registrationTime r) (pr_totalCapacityGB r) (pr_reputationScore r) (pr_peerId r) (pr_endpoint r) (pr_region r) (pr_totalDealsCompleted r) (g (pr_totalDealsFailed r)) (pr_totalSlashingEvents r) (pr_active r) (pr_deactivatedUntil r) (pr_minPriceUSD r).
Definition with_pr_totalSlashingEvents (g : N → N) (r : Provider) : Provider :=
  MkProvider (pr_registered r) (pr_registrationTime r) (pr_totalCapacityGB r) (pr_reputationScore r) (pr_peerId r) (pr_endpoint r) (pr_region r) (pr_totalDealsCompleted r) (pr_totalDealsFailed r) (g (pr_totalSlashingEvents r)) (pr_active r) (pr_deactivatedUntil r) (pr_minPriceUSD r).
Definition with_pr_active (g : bool → bool) (r : Provider) : Provider :=
  MkProvider (pr_registered r) (pr_registrationTime r) (pr_totalCapacityGB r) (pr_reputationScore r) (pr_peerId r) (pr_endpoint r) (pr_region r) (pr_totalDealsCompleted r) (pr_totalDealsFailed r) (pr_totalSlashingEvents r) (g (pr_active r)) (pr_deactivatedUntil r) (pr_minPriceUSD r).
Definition with_pr_deactivatedUntil (g : N → N) (r : Provider) : Provider :=
  MkProvider (pr_registered r) (pr_registrationTime r) (pr_totalCapacityGB r) (pr_reputationScore r) (pr_peerId r) (pr_endpoint r) (pr_region r) (pr_totalDealsCompleted r) (pr_totalDealsFailed r) (pr_totalSlashingEvents r) (pr_active r) (g (pr_deactivatedUntil r)) (pr_minPriceUSD r).
Definition with_pr_minPriceUSD (g : N → N) (r : Provider) : Provider :=
  MkProvider (pr_registered r) (pr_registrationTime r) (pr_totalCapacityGB r) (pr_reputationScore r) (pr_peerId r) (pr_endpoint r) (pr_region r) (pr_totalDealsCompleted r) (pr_totalDealsFailed r) (pr_totalSlashingEvents r) (pr_active r) (pr_deactivatedUntil r) (g (pr_minPriceUSD r)).

Definition provider0 : Provider := MkProvider false 0 0 0 "" "" "" 0 0 0 false 0 0.

Record ProviderRegistry : Type := MkRegistry {
  rg_owner : address;
  rg_providers : gmap address Provider;
  rg_providerList : list address;
  rg_keepers : gmap address bool
}.
Definition with_rg_owner (g : address → address) (r : ProviderRegistry) : ProviderRegistry :=
  MkRegistry (g (rg_owner r)) (rg_providers r) (rg_providerList r) (rg_keepers r).
Definition with_rg_providers (g : gmap address Provider → gmap address Provider) (r : ProviderRegistry) : ProviderRegistry :=
  MkRegistry (rg_owner r) (g (rg_providers r)) (rg_providerList r) (rg_keepers r).
Definition with_rg_providerList (g : list address → list address) (r : ProviderRegistry) : ProviderRegistry :=
  MkRegistry (rg_owner r) (rg_providers r) (g (rg_providerList r)) (rg_keepers r).
Definition with_rg_keepers (g : gmap address bool → gmap address bool) (r : ProviderRegistry) : ProviderRegistry :=
  MkRegistry (rg_owner r) (rg_providers r) (rg_providerList r) (g (rg_keepers r)).


(** CapacityPledge.sol *)

Record Pledge : Type := MkPledge {
  pg_capacityGB : N;
  pg_collateral : N;
  pg_startTime : N;
  pg_duration : N;
  pg_multiplier : N;
  pg_utilizationGB : N;
  pg_active : bool
}.
Definition with_pg_utilizationGB (g : N → N) (r : Pledge) : Pledge :=
  MkPledge (pg_capacityGB r) (pg_collateral r) (pg_startTime r) (pg_duration r) (pg_multiplier r) (g (pg_utilizationGB r)) (pg_active r).
Definition with_pg_active (g : bool → bool) (r : Pledge) : Pledge :=
  MkPledge (pg_capacityGB r) (pg_collateral r) (pg_startTime r) (pg_duration r) (pg_multiplier r) (pg_utilizationGB r) (g (pg_active r)).

Definition pledge0 : Pledge := MkPledge 0 0 0 0 0 0 false.

Record CapacityPledge : Type := MkPool {
  cp_owner : address;
  cp_token : address;
  cp_pledges : gmap (address * N) Pledge;
  cp_pledgeCount : gmap address N;
  cp_totalPledgedCapacityGB : N;
  cp_totalActiveCollateral : N
}.
Definition with_cp_owner (g : address → address) (r : CapacityPledge) : CapacityPledge :=
  MkPool (g (cp_owner r)) (cp_token r) (cp_pledges r) (cp_pledgeCount r) (cp_totalPledgedCapacityGB r) (cp_totalActiveCollateral r).
Definition with_cp_pledges (g : gmap (address * N) Pledge → gmap (address * N) Pledge) (r : CapacityPledge) : CapacityPledge :=
  MkPool (cp_owner r) (cp_token r) (g (cp_pledges r)) (cp_pledgeCount r) (cp_totalPledgedCapacityGB r) (cp_totalActiveCollateral r).
Definition with_cp_pledgeCount (g : gmap address N → gmap address N) (r : CapacityPledge) : CapacityPledge :=
  MkPool (cp_owner r) (cp_token r) (cp_pledges r) (g (cp_pledgeCount r)) (cp_totalPledgedCapacityGB r) (cp_totalActiveCollateral r).
Definition with_cp_totalPledgedCapacityGB (g : N → N) (r : CapacityPledge) : CapacityPledge :=
  MkPool (cp_owner r) (cp_token r) (cp_pledges r) (cp_pledgeCount r) (g (cp_totalPledgedCapacityGB r)) (cp_totalActiveCollateral r).
Definition with_cp_totalActiveCollateral (g : N → N) (r : CapacityPledge) : CapacityPledge :=
  MkPool (cp_owner r) (cp_token r) (cp_pledges r) (cp_pledgeCount r) (cp_totalPledgedCapacityGB r) (g (cp_totalActiveCollateral r)).


(** StorageMarketplace.sol *)
Inductive DealStatus : Type := Active | Completed | Failed | Cancelled | InGracePeriod.
#[global] Instance DealStatus_eq_dec : EqDecision DealStatus.
Proof. solve_decision. Defined.

Record ShardAllocation : Type := MkShard {
  sa_shardIndex : N;
  sa_shardCID : string;
  sa_sizeGB : N;
  sa_active : bool
}.
Definition with_sa_active (g : bool → bool) (r : ShardAllocation) : ShardAllocation :=
  MkShard (sa_shardIndex r) (sa_shardCID r) (sa_sizeGB r) (g (sa_active r)).

Definition shard0 : ShardAllocation := MkShard 0 "" 0 false.

Record Deal : Type := MkDeal {
  dl_client : address;
  dl_fileCID : string;
  dl_fileSizeGB : N;
  dl_duration : N;
  dl_pricePerGBMonth : N;
  dl_totalCost : N;
  dl_startTime : N;
  dl_endTime : N;
  dl_providers : list address;
  dl_shardAllocations : gmap address ShardAllocation;
  dl_activeShards : N;
  dl_status : DealStatus;
  dl_escrowedAmount : N;
  dl_alertDays : N
}.
Definition with_dl_duration (g : N → N) (r : Deal) : Deal :=
  MkDeal (dl_client r) (dl_fileCID r) (dl_fileSizeGB r) (g (dl_duration r)) (dl_pricePerGBMonth r) (dl_totalCost r) (dl_startTime r) (dl_endTime r) (dl_providers r) (dl_shardAllocations r) (dl_activeShards r) (dl_status r) (dl_escrowedAmount r) (dl_alertDays r).
Definition with_dl_endTime (g : N → N) (r : Deal) : Deal :=
  MkDeal (dl_client r) (dl_fileCID r) (dl_fileSizeGB r) (dl_duration r) (dl_pricePerGBMonth r) (dl_totalCost r) (dl_startTime r) (g (dl_endTime r)) (dl_providers r) (dl_shardAllocations r) (dl_activeShards r) (dl_status r) (dl_escrowedAmount r) (dl_alertDays r).
Definition with_dl_providers (g : list address → list address) (r : Deal) : Deal :=
  MkDeal (dl_client r) (dl_fileCID r) (dl_fileSizeGB r) (dl_duration r) (dl_pricePerGBMonth r) (dl_totalCost r) (dl_startTime r) (dl_endTime r) (g (dl_providers r)) (dl_shardAllocations r) (dl_activeShards r) (dl_status r) (dl_escrowedAmount r) (dl_alertDays r).
Definition with_dl_shardAllocations (g : gmap address ShardAllocation → gmap address ShardAllocation) (r : Deal) : Deal :=
  MkDeal (dl_client r) (dl_fileCID r) (dl_fileSizeGB r) (dl_duration r) (dl_pricePerGBMonth r) (dl_totalCost r) (dl_startTime r) (dl_endTime r) (dl_providers r) (g (dl_shardAllocations r)) (dl_activeShards r) (dl_status r) (dl_escrowedAmount r) (dl_alertDays r).
Definition with_dl_activeShards (g : N → N) (r : Deal) : Deal :=
  MkDeal (dl_client r) (dl_fileCID r) (dl_fileSizeGB r) (dl_duration r) (dl_pricePerGBMonth r) (dl_totalCost r) (dl_startTime r) (dl_endTime r) (dl_providers r) (dl_shardAllocations r) (g (dl_activeShards r)) (dl_status r) (dl_escrowedAmount r) (dl_alertDays r).
Definition with_dl_status (g : DealStatus → DealStatus) (r : Deal) : Deal :=
  MkDeal (dl_client r) (dl_fileCID r) (dl_fileSizeGB r) (dl_duration r) (dl_pricePerGBMonth r) (dl_totalCost r) (dl_startTime r) (dl_endTime r) (dl_providers r) (dl_shardAllocations r) (dl_activeShards r) (g (dl_status r)) (dl_escrowedAmount r) (dl_alertDays r).
Definition with_dl_escrowedAmount (g : N → N) (r : Deal) : Deal :=
  MkDeal (dl_client r) (dl_fileCID r) (dl_fileSizeGB r) (dl_duration r) (dl_pricePerGBMonth r) (dl_totalCost r) (dl_startTime r) (dl_endTime r) (dl_providers r) (dl_shardAllocations r) (dl_activeShards r) (dl_status r) (g (dl_escrowedAmount r)) (dl_alertDays r).

Definition deal0 : Deal := MkDeal address0 "" 0 0 0 0 0 0 [] ∅ 0 Active 0 0.

Record Retrieval : Type := MkRetrieval {
  rt_dealId : N;
  rt_client : address;
  rt_provider : address;
  rt_amount : N;
  rt_completed : bool
}.
Definition with_rt_completed (g : bool → bool) (r : Retrieval) : Retrieval :=
  MkRetrieval (rt_dealId r) (rt_client r) (rt_provider r) (rt_amount r) (g (rt_completed r)).

Definition retrieval0 : Retrieval := MkRetrieval 0 address0 address0 0 false.

Record DealParams : Type := MkParams {
  dp_fileCID : string;
  dp_fileSizeGB : N;
  dp_durationDays : N;
  dp_pricePerGBMonthUSD : N;
  dp_selectedProviders : list address;
  dp_shardCIDs : list string;
  dp_shardSizes : list N;
  dp_alertDays : N
}.

Record StorageMarketplace : Type := MkMarket {
  mk_owner : address;
  mk_entered : bool;
  mk_token : address;
  mk_registry : address;
  mk_pledges : address;
  mk_treasury : address;
  mk_protocolFeeBasisPoints : N;
  mk_kynPriceUSD : N;
  mk_totalFeesCollected : N;
  mk_paymentDistributor : address;
  mk_deals : gmap N Deal;
  mk_dealCount : N;
  mk_providerDeals : gmap address (list N);
  mk_retrievals : gmap N Retrieval;
  mk_retrievalCount : N
}.
Definition with_mk_owner (g : address → address) (r : StorageMarketplace) : StorageMarketplace :=
  MkMarket (g (mk_owner r)) (mk_entered r) (mk_token r) (mk_registry r) (mk_pledges r) (mk_treasury r) (mk_protocolFeeBasisPoints r) (mk_kynPriceUSD r) (mk_totalFeesCollected r) (mk_paymentDistributor r) (mk_deals r) (mk_dealCount r) (mk_providerDeals r) (mk_retrievals r) (mk_retrievalCount r).
Definition with_mk_entered (g : bool → bool) (r : StorageMarketplace) : StorageMarketplace :=
  MkMarket (mk_owner r) (g (mk_entered r)) (mk_token r) (mk_registry r) (mk_pledges r) (mk_treasury r) (mk_protocolFeeBasisPoints r) (mk_kynPriceUSD r) (mk_totalFeesCollected r) (mk_paymentDistributor r) (mk_deals r) (mk_dealCount r) (mk_providerDeals r) (mk_retrievals r) (mk_retrievalCount r).
Definition with_mk_treasury (g : address → address) (r : StorageMarketplace) : StorageMarketplace :=
  MkMarket (mk_owner r) (mk_entered r) (mk_token r) (mk_registry r) (mk_pledges r) (g (mk_treasury r)) (mk_protocolFeeBasisPoints r) (mk_kynPriceUSD r) (mk_totalFeesCollected r) (mk_paymentDistributor r) (mk_deals r) (mk_dealCount r) (mk_providerDeals r) (mk_retrievals r) (mk_retrievalCount r).
Definition with_mk_protocolFeeBasisPoints (g : N → N) (r : StorageMarketplace) : StorageMarketplace :=
  MkMarket (mk_owner r) (mk_entered r) (mk_token r) (mk_registry r) (mk_pledges r) (mk_treasury r) (g (mk_protocolFeeBasisPoints r)) (mk_kynPriceUSD r) (mk_totalFeesCollected r) (mk_paymentDistributor r) (mk_deals r) (mk_dealCount r) (mk_providerDeals r) (mk_retrievals r) (mk_retrievalCount r).
Definition with_mk_kynPriceUSD (g : N → N) (r : StorageMarketplace) : StorageMarketplace :=
  MkMarket (mk_owner r) (mk_entered r) (mk_token r) (mk_registry r) (mk_pledges r) (mk_treasury r) (mk_protocolFeeBasisPoints r) (g (mk_kynPriceUSD r)) (mk_totalFeesCollected r) (mk_paymentDistributor r) (mk_deals r) (mk_dealCount r) (mk_providerDeals r) (mk_retrievals r) (mk_retrievalCount r).
Definition with_mk_totalFeesCollected (g : N → N) (r : StorageMarketplace) : StorageMarketplace :=
  MkMarket (mk_owner r) (mk_entered r) (mk_token r) (mk_registry r) (mk_pledges r) (mk_treasury r) (mk_protocolFeeBasisPoints r) (mk_kynPriceUSD r) (g (mk_totalFeesCollected r)) (mk_paymentDistributor r) (mk_deals r) (mk_dealCount r) (mk_providerDeals r) (mk_retrievals r) (mk_retrievalCount r).
Definition with_mk_paymentDistributor (g : address → address) (r : StorageMarketplace) : StorageMarketplace :=
  MkMarket (mk_owner r) (mk_entered r) (mk_token r) (mk_registry r) (mk_pledges r) (mk_treasury r) (mk_protocolFeeBasisPoints r) (mk_kynPriceUSD r) (mk_totalFeesCollected r) (g (mk_paymentDistributor r)) (mk_deals r) (mk_dealCount r) (mk_providerDeals r) (mk_retrievals r) (mk_retrievalCount r).
Definition with_mk_deals (g : gmap N Deal → gmap N Deal) (r : StorageMarketplace) : StorageMarketplace :=
  MkMarket (mk_owner r) (mk_entered r) (mk_token r) (mk_registry r) (mk_pledges r) (mk_treasury r) (mk_protocolFeeBasisPoints r) (mk_kynPriceUSD r) (mk_totalFeesCollected r) (mk_paymentDistributor r) (g (mk_deals r)) (mk_dealCount r) (mk_providerDeals r) (mk_retrievals r) (mk_retrievalCount r).
Definition with_mk_dealCount (g : N → N) (r : StorageMarketplace) : StorageMarketplace :=
  MkMarket (mk_owner r) (mk_entered r) (mk_token r) (mk_registry r) (mk_pledges r) (mk_treasury r) (mk_protocolFeeBasisPoints r) (mk_kynPriceUSD r) (mk_totalFeesCollected r) (mk_paymentDistributor r) (mk_deals r) (g (mk_dealCount r)) (mk_providerDeals r) (mk_retrievals r) (mk_retrievalCount r).
Definition with_mk_providerDeals (g : gmap address (list N) → gmap address (list N)) (r : StorageMarketplace) : StorageMarketplace :=
  MkMarket (mk_owner r) (mk_entered r) (mk_token r) (mk_registry r) (mk_pledges r) (mk_treasury r) (mk_protocolFeeBasisPoints r) (mk_kynPriceUSD r) (mk_totalFeesCollected r) (mk_paymentDistributor r) (mk_deals r) (mk_dealCount r) (g (mk_providerDeals r)) (mk_retrievals r) (mk_retrievalCount r).
Definition with_mk_retrievals (g : gmap N Retrieval → gmap N Retrieval) (r : StorageMarketplace) : StorageMarketplace :=
  MkMarket (mk_owner r) (mk_entered r) (mk_token r) (mk_registry r) (mk_pledges r) (mk_treasury r) (mk_protocolFeeBasisPoints r) (mk_kynPriceUSD r) (mk_totalFeesCollected r) (mk_paymentDistributor r) (mk_deals r) (mk_dealCount r) (mk_providerDeals r) (g (mk_retrievals r)) (mk_retrievalCount r).
Definition with_mk_retrievalCount (g : N → N) (r : StorageMarketplace) : StorageMarketplace :=
  MkMarket (mk_owner r) (mk_entered r) (mk_token r) (mk_registry r) (mk_pledges r) (mk_treasury r) (mk_protocolFeeBasisPoints r) (mk_kynPriceUSD r) (mk_totalFeesCollected r) (mk_paymentDistributor r) (mk_deals r) (mk_dealCount r) (mk_providerDeals r) (mk_retrievals r) (g (mk_retrievalCount r)).


(** PaymentDistributor.sol *)

Record ProviderEarnings : Type := MkEarnings {
  er_capacityRewards : N;
  er_usageRewards : N;
  er_proofBonuses : N;
  er_totalEarned : N;
  er_totalWithdrawn : N;
  er_lastClaimTimestamp : N
}.
Definition with_er_capacityRewards (g : N → N) (r : ProviderEarnings) : ProviderEarnings :=
  MkEarnings (g (er_capacityRewards r)) (er_usageRewards r) (er_proofBonuses r) (er_totalEarned r) (er_totalWithdrawn r) (er_lastClaimTimestamp r).
Definition with_er_usageRewards (g : N → N) (r : ProviderEarnings) : ProviderEarnings :=
  MkEarnings (er_capacityRewards r) (g (er_usageRewards r)) (er_proofBonuses r) (er_totalEarned r) (er_totalWithdrawn r) (er_lastClaimTimestamp r).
Definition with_er_proofBonuses (g : N → N) (r : ProviderEarnings) : ProviderEarnings :=
  MkEarnings (er_capacityRewards r) (er_usageRewards r) (g (er_proofBonuses r)) (er_totalEarned r) (er_totalWithdrawn r) (er_lastClaimTimestamp r).
Definition with_er_totalEarned (g : N → N) (r : ProviderEarnings) : ProviderEarnings :=
  MkEarnings (er_capacityRewards r) (er_usageRewards r) (er_proofBonuses r) (g (er_totalEarned r)) (er_totalWithdrawn r) (er_lastClaimTimestamp r).
Definition with_er_totalWithdrawn (g : N → N) (r : ProviderEarnings) : ProviderEarnings :=
  MkEarnings (er_capacityRewards r) (er_usageRewards r) (er_proofBonuses r) (er_totalEarned r) (g (er_totalWithdrawn r)) (er_lastClaimTimestamp r).
Definition with_er_lastClaimTimestamp (g : N → N) (r : ProviderEarnings) : ProviderEarnings :=
  MkEarnings (er_capacityRewards r) (er_usageRewards r) (er_proofBonuses r) (er_totalEarned r) (er_totalWithdrawn r) (g (er_lastClaimTimestamp r)).

Definition earnings0 : ProviderEarnings := MkEarnings 0 0 0 0 0 0.

Record PaymentDistributor : Type := MkDistributor {
  pd_owner : address;
  pd_entered : bool;
  pd_token : address;
  pd_marketplace : address;
  pd_pledges : address;
  pd_registry : address;
  pd_capacityRatePerGBMonth : N;
  pd_usageRatePerGBMonth : N;
  pd_postBonusPerSubmission : N;
  pd_protocolFeeCollected : N;
  pd_repairReserve : N;
  pd_earnings : gmap address ProviderEarnings;
  pd_lastDistributionTimestamp : N
}.
Definition with_pd_owner (g : address → address) (r : PaymentDistributor) : PaymentDistributor :=
  MkDistributor (g (pd_owner r)) (pd_entered r) (pd_token r) (pd_marketplace r) (pd_pledges r) (pd_registry r) (pd_capacityRatePerGBMonth r) (pd_usageRatePerGBMonth r) (pd_postBonusPerSubmission r) (pd_protocolFeeCollected r) (pd_repairReserve r) (pd_earnings r) (pd_lastDistributionTimestamp r).
Definition with_pd_entered (g : bool → bool) (r : PaymentDistributor) : PaymentDistributor :=
  MkDistributor (pd_owner r) (g (pd_entered r)) (pd_token r) (pd_marketplace r) (pd_pledges r) (pd_registry r) (pd_capacityRatePerGBMonth r) (pd_usageRatePerGBMonth r) (pd_postBonusPerSubmission r) (pd_protocolFeeCollected r) (pd_repairReserve r) (pd_earnings r) (pd_lastDistributionTimestamp r).
Definition with_pd_capacityRatePerGBMonth (g : N → N) (r : PaymentDistributor) : PaymentDistributor :=
  MkDistributor (pd_owner r) (pd_entered r) (pd_token r) (pd_marketplace r) (pd_pledges r) (pd_registry r) (g (pd_capacityRatePerGBMonth r)) (pd_usageRatePerGBMonth r) (pd_postBonusPerSubmission r) (pd_protocolFeeCollected r) (pd_repairReserve r) (pd_earnings r) (pd_lastDistributionTimestamp r).
Definition with_pd_usageRatePerGBMonth (g : N → N) (r : PaymentDistributor) : PaymentDistributor :=
  MkDistributor (pd_owner r) (pd_entered r) (pd_token r) (pd_marketplace r) (pd_pledges r) (pd_registry r) (pd_capacityRatePerGBMonth r) (g (pd_usageRatePerGBMonth r)) (pd_postBonusPerSubmission r) (pd_protocolFeeCollected r) (pd_repairReserve r) (pd_earnings r) (pd_lastDistributionTimestamp r).
Definition with_pd_postBonusPerSubmission (g : N → N) (r : PaymentDistributor) : PaymentDistributor :=
  MkDistributor (pd_owner r) (pd_entered r) (pd_token r) (pd_marketplace r) (pd_pledges r) (pd_registry r) (pd_capacityRatePerGBMonth r) (pd_usageRatePerGBMonth r) (g (pd_postBonusPerSubmission r)) (pd_protocolFeeCollected r) (pd_repairReserve r) (pd_earnings r) (pd_lastDistributionTimestamp r).
Definition with_pd_protocolFeeCollected (g : N → N) (r : PaymentDistributor) : PaymentDistributor :=
  MkDistributor (pd_owner r) (pd_entered r) (pd_token r) (pd_marketplace r) (pd_pledges r) (pd_registry r) (pd_capacityRatePerGBMonth r) (pd_usageRatePerGBMonth r) (pd_postBonusPerSubmission r) (g (pd_protocolFeeCollected r)) (pd_repairReserve r) (pd_earnings r) (pd_lastDistributionTimestamp r).
Definition with_pd_repairReserve (g : N → N) (r : PaymentDistributor) : PaymentDistributor :=
  MkDistributor (pd_owner r) (pd_entered r) (pd_token r) (pd_marketplace r) (pd_pledges r) (pd_registry r) (pd_capacityRatePerGBMonth r) (pd_usageRatePerGBMonth r) (pd_postBonusPerSubmission r) (pd_protocolFeeCollected r) (g (pd_repairReserve r)) (pd_earnings r) (pd_lastDistributionTimestamp r).
Definition with_pd_earnings (g : gmap address ProviderEarnings → gmap address ProviderEarnings) (r : PaymentDistributor) : PaymentDistributor :=
  MkDistributor (pd_owner r) (pd_entered r) (pd_token r) (pd_marketplace r) (pd_pledges r) (pd_registry r) (pd_capacityRatePerGBMonth r) (pd_usageRatePerGBMonth r) (pd_postBonusPerSubmission r) (pd_protocolFeeCollected r) (pd_repairReserve r) (g (pd_earnings r)) (pd_lastDistributionTimestamp r).


(** SlashingManager.sol *)

Record SlashingRecord : Type := MkSlash {
  sr_timestamp : N;
  sr_amount : N;
  sr_reason : string;
  sr_appealed : bool;
  sr_resolved : bool
}.
Definition with_sr_appealed (g : bool → bool) (r : SlashingRecord) : SlashingRecord :=
  MkSlash (sr_timestamp r) (sr_amount r) (sr_reason r) (g (sr_appealed r)) (sr_resolved r).
Definition with_sr_resolved (g : bool → bool) (r : SlashingRecord) : SlashingRecord :=
  MkSlash (sr_timestamp r) (sr_amount r) (sr_reason r) (sr_appealed r) (g (sr_resolved r)).

Definition slash0 : SlashingRecord := MkSlash 0 0 "" false false.

Record ProviderPenaltyState : Type := MkPenalty {
  ps_consecutiveMissedPosts : N;
  ps_lastMissedPostTime : N;
  ps_totalSlashed : N;
  ps_lastSlashTime : N;
  ps_slashCountInWindow : N
}.
Definition with_ps_consecutiveMissedPosts (g : N → N) (r : ProviderPenaltyState) : ProviderPenaltyState :=
  MkPenalty (g (ps_consecutiveMissedPosts r)) (ps_lastMissedPostTime r) (ps_totalSlashed r) (ps_lastSlashTime r) (ps_slashCountInWindow r).
Definition with_ps_lastMissedPostTime (g : N → N) (r : ProviderPenaltyState) : ProviderPenaltyState :=
  MkPenalty (ps_consecutiveMissedPosts r) (g (ps_lastMissedPostTime r)) (ps_totalSlashed r) (ps_lastSlashTime r) (ps_slashCountInWindow r).
Definition with_ps_totalSlashed (g : N → N) (r : ProviderPenaltyState) : ProviderPenaltyState :=
  MkPenalty (ps_consecutiveMissedPosts r) (ps_lastMissedPostTime r) (g (ps_totalSlashed r)) (ps_lastSlashTime r) (ps_slashCountInWindow r).
Definition with_ps_lastSlashTime (g : N → N) (r : ProviderPenaltyState) : ProviderPenaltyState :=
  MkPenalty (ps_consecutiveMissedPosts r) (ps_lastMissedPostTime r) (ps_totalSlashed r) (g (ps_lastSlashTime r)) (ps_slashCountInWindow r).
Definition with_ps_slashCountInWindow (g : N → N) (r : ProviderPenaltyState) : ProviderPenaltyState :=
  MkPenalty (ps_consecutiveMissedPosts r) (ps_lastMissedPostTime r) (ps_totalSlashed r) (ps_lastSlashTime r) (g (ps_slashCountInWindow r)).

Definition penalty0 : ProviderPenaltyState := MkPenalty 0 0 0 0 0.

Record SlashingManager : Type := MkSlashing {
  sm_owner : address;
  sm_token : address;
  sm_registry : address;
  sm_penaltyStates : gmap address ProviderPenaltyState;
  sm_slashingHistory : gmap address (list SlashingRecord);
  sm_appealDeadlines : gmap (address * N) N
}.
Definition with_sm_owner (g : address → address) (r : SlashingManager) : SlashingManager :=
  MkSlashing (g (sm_owner r)) (sm_token r) (sm_registry r) (sm_penaltyStates r) (sm_slashingHistory r) (sm_appealDeadlines r).
Definition with_sm_penaltyStates (g : gmap address ProviderPenaltyState → gmap address ProviderPenaltyState) (r : SlashingManager) : SlashingManager :=
  MkSlashing (sm_owner r) (sm_token r) (sm_registry r) (g (sm_penaltyStates r)) (sm_slashingHistory r) (sm_appealDeadlines r).
Definition with_sm_slashingHistory (g : gmap address (list SlashingRecord) → gmap address (list SlashingRecord)) (r : SlashingManager) : SlashingManager :=
  MkSlashing (sm_owner r) (sm_token r) (sm_registry r) (sm_penaltyStates r) (g (sm_slashingHistory r)) (sm_appealDeadlines r).
Definition with_sm_appealDeadlines (g : gmap (address * N) N → gmap (address * N) N) (r : SlashingManager) : SlashingManager :=
  MkSlashing (sm_owner r) (sm_token r) (sm_registry r) (sm_penaltyStates r) (sm_slashingHistory r) (g (sm_appealDeadlines r)).


(** ProofVerifier.sol: a [bytes32] is the word its bytes spell, high byte first. *)

Record PoRepProof : Type := MkPoRep {
  po_sealedCID : N;
  po_unsealedCID : N;
  po_timestamp : N;
  po_verified : bool
}.

Definition porep0 : PoRepProof := MkPoRep 0 0 0 false.

Record PoStChallenge : Type := MkChallenge {
  pc_dealId : N;
  pc_provider : address;
  pc_challengeTimestamp : N;
  pc_deadline : N;
  pc_leafIndices : list N;
  pc_submitted : bool;
  pc_verified : bool;
  pc_checked : bool;
  pc_commitment : N
}.
Definition with_pc_submitted (g : bool → bool) (r : PoStChallenge) : PoStChallenge :=
  MkChallenge (pc_dealId r) (pc_provider r) (pc_challengeTimestamp r) (pc_deadline r) (pc_leafIndices r) (g (pc_submitted r)) (pc_verified r) (pc_checked r) (pc_commitment r).
Definition with_pc_verified (g : bool → bool) (r : PoStChallenge) : PoStChallenge :=
  MkChallenge (pc_dealId r) (pc_provider r) (pc_challengeTimestamp r) (pc_deadline r) (pc_leafIndices r) (pc_submitted r) (g (pc_verified r)) (pc_checked r) (pc_commitment r).
Definition with_pc_checked (g : bool → bool) (r : PoStChallenge) : PoStChallenge :=
  MkChallenge (pc_dealId r) (pc_provider r) (pc_challengeTimestamp r) (pc_deadline r) (pc_leafIndices r) (pc_submitted r) (pc_verified r) (g (pc_checked r)) (pc_commitment r).

Definition challenge0 : PoStChallenge := MkChallenge 0 address0 0 0 [] false false false 0.

Record ProofVerifier : Type := MkVerifier {
  pv_owner : address;
  pv_difficultyBits : N;
  pv_porepProofs : gmap (N * address) PoRepProof;
  pv_postChallenges : gmap N PoStChallenge;
  pv_challengeCount : N;
  pv_lastPostSubmission : gmap (address * N) N;
  pv_consecutiveMisses : gmap address N;
  pv_usedPoRepNonces : gmap (address * N) bool
}.
Definition with_pv_owner (g : address → address) (r : ProofVerifier) : ProofVerifier :=
  MkVerifier (g (pv_owner r)) (pv_difficultyBits r) (pv_porepProofs r) (pv_postChallenges r) (pv_challengeCount r) (pv_lastPostSubmission r) (pv_consecutiveMisses r) (pv_usedPoRepNonces r).
Definition with_pv_difficultyBits (g : N → N) (r : ProofVerifier) : ProofVerifier :=
  MkVerifier (pv_owner r) (g (pv_difficultyBits r)) (pv_porepProofs r) (pv_postChallenges r) (pv_challengeCount r) (pv_lastPostSubmission r) (pv_consecutiveMisses r) (pv_usedPoRepNonces r).
Definition with_pv_porepProofs (g : gmap (N * address) PoRepProof → gmap (N * address) PoRepProof) (r : ProofVerifier) : ProofVerifier :=
  MkVerifier (pv_owner r) (pv_difficultyBits r) (g (pv_porepProofs r)) (pv_postChallenges r) (pv_challengeCount r) (pv_lastPostSubmission r) (pv_consecutiveMisses r) (pv_usedPoRepNonces r).
Definition with_pv_postChallenges (g : gmap N PoStChallenge → gmap N PoStChallenge) (r : ProofVerifier) : ProofVerifier :=
  MkVerifier (pv_owner r) (pv_difficultyBits r) (pv_porepProofs r) (g (pv_postChallenges r)) (pv_challengeCount r) (pv_lastPostSubmission r) (pv_consecutiveMisses r) (pv_usedPoRepNonces r).
Definition with_pv_challengeCount (g : N → N) (r : ProofVerifier) : ProofVerifier :=
  MkVerifier (pv_owner r) (pv_difficultyBits r) (pv_porepProofs r) (pv_postChallenges r) (g (pv_challengeCount r)) (pv_lastPostSubmission r) (pv_consecutiveMisses r) (pv_usedPoRepNonces r).
Definition with_pv_lastPostSubmission (g : gmap (address * N) N → gmap (address * N) N) (r : ProofVerifier) : ProofVerifier :=
  MkVerifier (pv_owner r) (pv_difficultyBits r) (pv_porepProofs r) (pv_postChallenges r) (pv_challengeCount r) (g (pv_lastPostSubmission r)) (pv_consecutiveMisses r) (pv_usedPoRepNonces r).
Definition with_pv_consecutiveMisses (g : gmap address N → gmap address N) (r : ProofVerifier) : ProofVerifier :=
  MkVerifier (pv_owner r) (pv_difficultyBits r) (pv_porepProofs r) (pv_postChallenges r) (pv_challengeCount r) (pv_lastPostSubmission r) (g (pv_consecutiveMisses r)) (pv_usedPoRepNonces r).
Definition with_pv_usedPoRepNonces (g : gmap (address * N) bool → gmap (address * N) bool) (r : ProofVerifier) : ProofVerifier :=
  MkVerifier (pv_owner r) (pv_difficultyBits r) (pv_porepProofs r) (pv_postChallenges r) (pv_challengeCount r) (pv_lastPostSubmission r) (pv_consecutiveMisses r) (g (pv_usedPoRepNonces r)).


(** TokenVesting.sol *)

Record VestingSchedule : Type := MkSchedule {
  vs_beneficiary : address;
  vs_start : N;
  vs_cliff : N;
  vs_duration : N;
  vs_totalAmount : N;
  vs_releasedAmount : N;
  vs_revoked : bool
}.
Definition with_vs_releasedAmount (g : N → N) (r : VestingSchedule) : VestingSchedule :=
  MkSchedule (vs_beneficiary r) (vs_start r) (vs_cliff r) (vs_duration r) (vs_totalAmount r) (g (vs_releasedAmount r)) (vs_revoked r).
Definition with_vs_revoked (g : bool → bool) (r : VestingSchedule) : VestingSchedule :=
  MkSchedule (vs_beneficiary r) (vs_start r) (vs_cliff r) (vs_duration r) (vs_totalAmount r) (vs_releasedAmount r) (g (vs_revoked r)).

Definition schedule0 : VestingSchedule := MkSchedule address0 0 0 0 0 0 false.

Record TokenVesting : Type := MkVesting {
  tv_owner : address;
  tv_entered : bool;
  tv_token : address;
  tv_vestingSchedules : gmap address VestingSchedule;
  tv_beneficiaries : list address
}.
Definition with_tv_owner (g : address → address) (r : TokenVesting) : TokenVesting :=
  MkVesting (g (tv_owner r)) (tv_entered r) (tv_token r) (tv_vestingSchedules r) (tv_beneficiaries r).
Definition with_tv_entered (g : bool → bool) (r : TokenVesting) : TokenVesting :=
  MkVesting (tv_owner r) (g (tv_entered r)) (tv_token r) (tv_vestingSchedules r) (tv_beneficiaries r).
Definition with_tv_vestingSchedules (g : gmap address VestingSchedule → gmap address VestingSchedule) (r : TokenVesting) : TokenVesting :=
  MkVesting (tv_owner r) (tv_entered r) (tv_token r) (g (tv_vestingSchedules r)) (tv_beneficiaries r).
Definition with_tv_beneficiaries (g : list address → list address) (r : TokenVesting) : TokenVesting :=
  MkVesting (tv_owner r) (tv_entered r) (tv_token r) (tv_vestingSchedules r) (g (tv_beneficiaries r)).


(** * Events *)

Inductive event : Type :=
(* Ownable, ERC20 *)
| OwnershipTransferred (previousOwner newOwner : address)
| Transfer (from to : address) (value : N)
| Approval (owner spender : address) (value : N)
(* StorageToken *)
| MinterAuthorized (minter : address)
| MinterRevoked (minter : address)
| BurnerAuthorized (burner : address)
| BurnerRevoked (burner : address)
| InflationRateUpdated (newRate : N)
| TokensBurned (from : address) (amount : N)
(* ProviderRegistry *)
| ProviderRegistered (provider : address) (peerId region : string)
| ProviderUpdated (provider : address)
| ReputationUpdated (provider : address) (newScore : N) (reason : string)
| ProviderDeactivated (provider : address) (reactivateTime : N)
| ProviderReactivated (provider : address)
(* CapacityPledge *)
| PledgeCreated (provider : address) (pledgeId capacityGB duration collateral : N)
| PledgeCompleted (provider : address) (pledgeId returnedCollateral : N)
| PledgeExitedEarly (provider : address) (pledgeId penalty returned : N)
| UtilizationUpdated (provider : address) (pledgeId newUtilization : N)
(* StorageMarketplace *)
| DealCreated (dealId : N) (client : address) (fileSizeGB totalCost : N)
| ShardAssigned (dealId : N) (provider : address) (shardIndex : N) (shardCID : string)
| DealCompleted (dealId : N)
| DealRenewed (dealId newEndTime totalCost : N)
| DealFailed (dealId : N) (reason : string)
| ShardLost (dealId : N) (provider : address) (shardIndex : N)
| ShardRepaired (dealId : N) (newProvider : address) (shardIndex : N)
| DealCancelled (dealId : N) (client : address)
| ProtocolFeeUpdated (newFee : N)
| TreasuryUpdated (newTreasury : address)
| KynPriceUpdated (newPrice : N)
| FeesWithdrawn (to : address) (amount : N)
| PaymentDistributorUpdated (distributor : address)
| RetrievalInitiated (retrievalId dealId : N) (client provider : address) (amount : N)
| RetrievalClaimed (retrievalId : N) (provider : address)
(* PaymentDistributor *)
| CapacityRewardPaid (provider : address) (amount : N)
| UsageRewardPaid (provider : address) (dealId amount : N)
| ProofBonusPaid (provider : address) (amount : N)
| RewardsWithdrawn (provider : address) (amount : N)
| ProtocolFeeCollected (amount : N)
| RepairFunded (amount : N)
(* SlashingManager *)
| ProviderSlashed (provider : address) (amount : N) (reason : string)
| AppealSubmitted (provider : address) (slashingIndex : N) (evidence : string)
| AppealResolved (provider : address) (slashingIndex : N) (upheld : bool)
| ProviderDeregistered (provider : address) (reason : string)
(* ProofVerifier *)
| DifficultyUpdated (newBits : N)
| PoRepSubmitted (dealId : N) (provider : address) (sealedCID : N)
| PoRepVerified (dealId : N) (provider : address)
| PoStChallengeCreated (challengeId dealId : N) (provider : address)
| PoStSubmitted (challengeId : N) (provider : address)
| PoStVerified (challengeId : N)
| PoStMissed (challengeId : N) (provider : address)
(* TokenVesting *)
| VestingScheduleCreated (beneficiary : address) (amount start cliff duration : N)
| TokensReleased (beneficiary : address) (amount : N)
| VestingScheduleRevoked (beneficiary : address).

(** The kind of contract that emits an event. *)
Inductive emitter : Type :=
| ByOwnable | ByToken | ByRegistry | ByPool | ByMarket | ByDistributor | BySlashing | ByVerifier | ByVesting.
Definition emitter_of (ev : event) : emitter :=
  match ev with
  | OwnershipTransferred _ _ => ByOwnable
  | Transfer _ _ _ | Approval _ _ _ | MinterAuthorized _ | MinterRevoked _ | BurnerAuthorized _ | BurnerRevoked _
  | InflationRateUpdated _ | TokensBurned _ _ => ByToken
  | ProviderRegistered _ _ _ | ProviderUpdated _ | ReputationUpdated _ _ _ | ProviderDeactivated _ _
  | ProviderReactivated _ => ByRegistry
  | PledgeCreated _ _ _ _ _ | PledgeCompleted _ _ _ | PledgeExitedEarly _ _ _ _ | UtilizationUpdated _ _ _ => ByPool
  | DealCreated _ _ _ _ | ShardAssigned _ _ _ _ | DealCompleted _ | DealRenewed _ _ _ | DealFailed _ _
  | ShardLost _ _ _ | ShardRepaired _ _ _ | DealCancelled _ _ | ProtocolFeeUpdated _ | TreasuryUpdated _
  | KynPriceUpdated _ | FeesWithdrawn _ _ | PaymentDistributorUpdated _ | RetrievalInitiated _ _ _ _ _
  | RetrievalClaimed _ _ => ByMarket
  | CapacityRewardPaid _ _ | UsageRewardPaid _ _ _ | ProofBonusPaid _ _ | RewardsWithdrawn _ _
  | ProtocolFeeCollected _ | RepairFunded _ => ByDistributor
  | ProviderSlashed _ _ _ | AppealSubmitted _ _ _ | AppealResolved _ _ _ | ProviderDeregistered _ _ => BySlashing
  | DifficultyUpdated _ | PoRepSubmitted _ _ _ | PoRepVerified _ _ | PoStChallengeCreated _ _ _ | PoStSubmitted _ _
  | PoStVerified _ | PoStMissed _ _ => ByVerifier
  | VestingScheduleCreated _ _ _ _ _ | TokensReleased _ _ | VestingScheduleRevoked _ => ByVesting
  end.

(** * The chain *)

Record chain : Type := Chain {
  c_tokens : gmap address StorageToken;
  c_registries : gmap address ProviderRegistry;
  c_pools : gmap address CapacityPledge;
  c_markets : gmap address StorageMarketplace;
  c_distributors : gmap address PaymentDistributor;
  c_slashers : gmap address SlashingManager;
  c_verifiers : gmap address ProofVerifier;
  c_vestings : gmap address TokenVesting;
  c_logs : list event;   (* oldest first *)
  c_nonces : gmap address N   (* contracts an account has created *)
}.
Definition with_c_tokens (g : gmap address StorageToken → gmap address StorageToken) (r : chain) : chain :=
  Chain (g (c_tokens r)) (c_registries r) (c_pools r) (c_markets r) (c_distributors r) (c_slashers r) (c_verifiers r) (c_vestings r) (c_logs r) (c_nonces r).
Definition with_c_registries (g : gmap address ProviderRegistry → gmap address ProviderRegistry) (r : chain) : chain :=
  Chain (c_tokens r) (g (c_registries r)) (c_pools r) (c_markets r) (c_distributors r) (c_slashers r) (c_verifiers r) (c_vestings r) (c_logs r) (c_nonces r).
Definition with_c_pools (g : gmap address CapacityPledge → gmap address CapacityPledge) (r : chain) : chain :=
  Chain (c_tokens r) (c_registries r) (g (c_pools r)) (c_markets r) (c_distributors r) (c_slashers r) (c_verifiers r) (c_vestings r) (c_logs r) (c_nonces r).
Definition with_c_markets (g : gmap address StorageMarketplace → gmap address StorageMarketplace) (r : chain) : chain :=
  Chain (c_tokens r) (c_registries r) (c_pools r) (g (c_markets r)) (c_distributors r) (c_slashers r) (c_verifiers r) (c_vestings r) (c_logs r) (c_nonces r).
Definition with_c_distributors (g : gmap address PaymentDistributor → gmap address PaymentDistributor) (r : chain) : chain :=
  Chain (c_tokens r) (c_registries r) (c_pools r) (c_markets r) (g (c_distributors r)) (c_slashers r) (c_verifiers r) (c_vestings r) (c_logs r) (c_nonces r).
Definition with_c_slashers (g : gmap address SlashingManager → gmap address SlashingManager) (r : chain) : chain :=
  Chain (c_tokens r) (c_registries r) (c_pools r) (c_markets r) (c_distributors r) (g (c_slashers r)) (c_verifiers r) (c_vestings r) (c_logs r) (c_nonces r).
Definition with_c_verifiers (g : gmap address ProofVerifier → gmap address ProofVerifier) (r : chain) : chain :=
  Chain (c_tokens r) (c_registries r) (c_pools r) (c_markets r) (c_distributors r) (c_slashers r) (g (c_verifiers r)) (c_vestings r) (c_logs r) (c_nonces r).
Definition with_c_vestings (g : gmap address TokenVesting → gmap address TokenVesting) (r : chain) : chain :=
  Chain (c_tokens r) (c_registries r) (c_pools r) (c_markets r) (c_distributors r) (c_slashers r) (c_verifiers r) (g (c_vestings r)) (c_logs r) (c_nonces r).
Definition with_c_logs (g : list event → list event) (r : chain) : chain :=
  Chain (c_tokens r) (c_registries r) (c_pools r) (c_markets r) (c_distributors r) (c_slashers r) (c_verifiers r) (c_vestings r) (g (c_logs r)) (c_nonces r).
Definition with_c_nonces (g : gmap address N → gmap address N) (r : chain) : chain :=
  Chain (c_tokens r) (c_registries r) (c_pools r) (c_markets r) (c_distributors r) (c_slashers r) (c_verifiers r) (c_vestings r) (c_logs r) (g (c_nonces r)).

(** Where the instances of one kind of contract live. *)
Class Contract (T : Type) : Type := {
  slot : chain → gmap address T;
  with_slot : (gmap address T → gmap address T) → chain → chain
}.
#[global] Instance token_contract : Contract StorageToken := {| slot := c_tokens; with_slot := with_c_tokens |}.
#[global] Instance registry_contract : Contract ProviderRegistry := {| slot := c_registries; with_slot := with_c_registries |}.
#[global] Instance pool_contract : Contract CapacityPledge := {| slot := c_pools; with_slot := with_c_pools |}.
#[global] Instance market_contract : Contract StorageMarketplace := {| slot := c_markets; with_slot := with_c_markets |}.
#[global] Instance distributor_contract : Contract PaymentDistributor := {| slot := c_distributors; with_slot := with_c_distributors |}.
#[global] Instance slashing_contract : Contract SlashingManager := {| slot := c_slashers; with_slot := with_c_slashers |}.
#[global] Instance verifier_contract : Contract ProofVerifier := {| slot := c_verifiers; with_slot := with_c_verifiers |}.
#[global] Instance vesting_contract : Contract TokenVesting := {| slot := c_vestings; with_slot := with_c_vestings |}.

(** Reading and writing the storage of the contract at [this]. *)
Definition sload {T} `{Contract T} (this : address) : M chain T :=
  m ← gets slot;
  match m !! this with
  | Some t => mret t
  | None => revert "call to an address without this contract"
  end.
Definition sstore {T} `{Contract T} (this : address) (f : T → T) : M chain unit :=
  modify (with_slot (alter f this)).
Definition emit (ev : event) : M chain unit := modify (with_c_logs (λ l, l ++ [ev])).

(** A transaction: all of it, or nothing. *)
Definition transact {A} (m : M chain A) : M chain A := λ c,
  match m c with
  | (Ok a, c') => (Ok a, c')
  | (Throw err, _) => (Throw err, c)
  end.

(** * Ownable.sol and ReentrancyGuard.sol *)

Class Ownable (T : Type) : Type := { owner : T → address; with_owner : (address → address) → T → T }.
#[global] Instance token_ownable : Ownable StorageToken := {| owner := tk_owner; with_owner := with_tk_owner |}.
#[global] Instance registry_ownable : Ownable ProviderRegistry := {| owner := rg_owner; with_owner := with_rg_owner |}.
#[global] Instance pool_ownable : Ownable CapacityPledge := {| owner := cp_owner; with_owner := with_cp_owner |}.
#[global] Instance market_ownable : Ownable StorageMarketplace := {| owner := mk_owner; with_owner := with_mk_owner |}.
#[global] Instance distributor_ownable : Ownable PaymentDistributor := {| owner := pd_owner; with_owner := with_pd_owner |}.
#[global] Instance slashing_ownable : Ownable SlashingManager := {| owner := sm_owner; with_owner := with_sm_owner |}.
#[global] Instance verifier_ownable : Ownable ProofVerifier := {| owner := pv_owner; with_owner := with_pv_owner |}.
#[global] Instance vesting_ownable : Ownable TokenVesting := {| owner := tv_owner; with_owner := with_tv_owner |}.

Section Ownership.
  Context (T : Type) `{Contract T} `{Ownable T}.

Definition onlyOwner (this : address) (e : env) : M chain unit :=
  t ← sload (T := T) this;
  require (bool_decide (owner t = msg_sender e)) "OwnableUnauthorizedAccount".
Definition _transferOwnership (this newOwner : address) : M chain unit :=
  t ← sload (T := T) this;
  sstore this (with_owner (λ _, newOwner)) ;;
  emit (OwnershipTransferred (owner t) newOwner).
Definition transferOwnership (this : address) (e : env) (newOwner : address) : M chain unit :=
  onlyOwner this e ;;
  require (bool_decide (newOwner ≠ address0)) "OwnableInvalidOwner" ;;
  _transferOwnership this newOwner.
Definition renounceOwnership (this : address) (e : env) : M chain unit :=
  onlyOwner this e ;; _transferOwnership this address0.
End Ownership.

Class Guarded (T : Type) : Type := { entered : T → bool; with_entered : (bool → bool) → T → T }.
#[global] Instance market_guarded : Guarded StorageMarketplace := {| entered := mk_entered; with_entered := with_mk_entered |}.
#[global] Instance distributor_guarded : Guarded PaymentDistributor := {| entered := pd_entered; with_entered := with_pd_entered |}.
#[global] Instance vesting_guarded : Guarded TokenVesting := {| entered := tv_entered; with_entered := with_tv_entered |}.

Definition nonReentrant (T : Type) `{Contract T} `{Guarded T} {A} (this : address) (m : M chain A) : M chain A :=
  t ← sload (T := T) this;
  require (negb (entered t)) "ReentrancyGuardReentrantCall" ;;
  sstore (T := T) this (with_entered (λ _, true)) ;;
  a ← m;
  sstore (T := T) this (with_entered (λ _, false)) ;;
  mret a.
