(* ===== verification/ChainRules.v ===== *)
(** Rules for contract programs: inversion of a run that did not revert, what a
    program leaves alone, and sums over mappings. *)

From S2P Require Import Prelude Contracts.

Local Open Scope N_scope.

Create HintDb chain.
Create Rewrite HintDb chain.

(** * Runs that return *)

Section Inversion.
  Context {S : Type}.
  Implicit Types s : S.

Lemma bind_returns {A B} (m : M S A) (k : A → M S B) s b s' :
    (m ≫= k) s = (Ok b, s') → ∃ a s1, m s = (Ok a, s1) ∧ k a s1 = (Ok b, s').
Proof. unfold mbind, M_bind. destruct (m s) as [[a|e] s1]; [eauto | done]. Qed.
Lemma ret_returns {A} (a b : A) s s' : (mret a : M S A) s = (Ok b, s') → b = a ∧ s' = s.
Proof. by intros [= -> ->]. Qed.
Lemma gets_returns {A} (f : S → A) b s s' : gets f s = (Ok b, s') → b = f s ∧ s' = s.
Proof. by intros [= -> ->]. Qed.
Lemma modify_returns (f : S → S) b s s' : modify f s = (Ok b, s') → s' = f s.
Proof. by intros [= _ ->]. Qed.
Lemma revert_returns {A} reason (b : A) s s' : revert reason s = (Ok b, s') → False.
Proof. done. Qed.
Lemma require_returns b reason u s s' : require b reason s = (Ok u, s') → b = true ∧ s' = s.
Proof. unfold require. by destruct b; [intros [= _ ->] |]. Qed.
Lemma add_returns a b r s s' : add_u a b s = (Ok r, s') → r = a + b ∧ a + b ≤ MAX_UINT ∧ s' = s.
Proof. unfold add_u. destruct (N.leb_spec (a + b) MAX_UINT); [by intros [= <- <-] | done]. Qed.
Lemma sub_returns a b r s s' : sub_u a b s = (Ok r, s') → r = a - b ∧ b ≤ a ∧ s' = s.
Proof. unfold sub_u. destruct (N.leb_spec b a); [by intros [= <- <-] | done]. Qed.
Lemma mul_returns a b r s s' : mul_u a b s = (Ok r, s') → r = a * b ∧ a * b ≤ MAX_UINT ∧ s' = s.
Proof. unfold mul_u. destruct (N.leb_spec (a * b) MAX_UINT); [by intros [= <- <-] | done]. Qed.
Lemma div_returns a b r s s' : div_u a b s = (Ok r, s') → r = a / b ∧ b ≠ 0 ∧ s' = s.
Proof. unfold div_u. destruct (N.eqb_spec b 0); [done | by intros [= <- <-]]. Qed.
Lemma pow_returns a b r s s' : pow_u a b s = (Ok r, s') → r = a ^ b ∧ a ^ b ≤ MAX_UINT ∧ s' = s.
Proof. unfold pow_u. destruct (N.leb_spec (a ^ b) MAX_UINT); [by intros [= <- <-] | done]. Qed.
Lemma add_run a b s : a + b ≤ MAX_UINT → add_u a b s = (Ok (a + b), s).
Proof. unfold add_u. by intros ->%N.leb_le. Qed.
Lemma sub_run a b s : b ≤ a → sub_u a b s = (Ok (a - b), s).
Proof. unfold sub_u. by intros ->%N.leb_le. Qed.
Lemma pow_run a b s : a ^ b ≤ MAX_UINT → pow_u a b s = (Ok (a ^ b), s).
Proof. unfold pow_u. by intros ->%N.leb_le. Qed.
Lemma pow_panics a b s : MAX_UINT < a ^ b → pow_u a b s = (Throw (Error "panic 0x11"), s).
Proof. unfold pow_u. by intros ->%N.leb_gt. Qed.
Lemma bind_throws {A B} (m : M S A) (k : A → M S B) s err s' :
    m s = (Throw err, s') → (m ≫= k) s = (Throw err, s').
Proof. unfold mbind, M_bind. by intros ->. Qed.
End Inversion.

Lemma sload_returns {T} `{Contract T} this (t : T) c c' :
  sload this c = (Ok t, c') → slot c !! this = Some t ∧ c' = c.
Proof.
  unfold sload. rewrite gets_bind. destruct (slot c !! this) eqn:E; [by intros [= <- <-] | done].
Qed.
Lemma sload_run {T} `{Contract T} this (t : T) c : slot c !! this = Some t → sload this c = (Ok t, c).
Proof. intros Ht. unfold sload. by rewrite gets_bind, Ht. Qed.
Lemma sstore_returns {T} `{Contract T} this (f : T → T) u c c' :
  sstore this f c = (Ok u, c') → c' = with_slot (alter f this) c.
Proof. apply modify_returns. Qed.
Lemma emit_returns ev u c c' : emit ev c = (Ok u, c') → c' = with_c_logs (λ l, l ++ [ev]) c.
Proof. apply modify_returns. Qed.

(** [run_step H]: one step of the inversion of the run [H]. *)
Ltac run_step H :=
  lazymatch type of H with
  | (_ ≫= _) _ = (Ok _, _) =>
      let a := fresh "a" in let c := fresh "c" in let H1 := fresh "H" in
      apply bind_returns in H as (a & c & H1 & H)
  | mret _ _ = (Ok _, _) => first [apply ret_returns in H as [-> ->] | apply ret_returns in H as [_ ->]]
  | gets _ _ = (Ok _, _) => apply gets_returns in H as [-> ->]
  | revert _ _ = (Ok _, _) => by apply revert_returns in H
  | require _ _ _ = (Ok _, _) => apply require_returns in H as [H ->]
  | add_u _ _ _ = (Ok _, _) => apply add_returns in H as (-> & H & ->)
  | sub_u _ _ _ = (Ok _, _) => apply sub_returns in H as (-> & H & ->)
  | mul_u _ _ _ = (Ok _, _) => apply mul_returns in H as (-> & H & ->)
  | div_u _ _ _ = (Ok _, _) => apply div_returns in H as (-> & H & ->)
  | pow_u _ _ _ = (Ok _, _) => apply pow_returns in H as (-> & H & ->)
  | sload _ _ = (Ok _, _) => apply sload_returns in H as [H ->]
  | sstore _ _ _ = (Ok _, _) => apply sstore_returns in H as ->
  | emit _ _ = (Ok _, _) => apply emit_returns in H as ->
  | modify _ _ = (Ok _, _) => apply modify_returns in H as ->
  | (if ?b then _ else _) _ = (Ok _, _) => destruct b eqn:?
  end.
Ltac run_inv := repeat match goal with
  | H : _ = (Ok _, _) |- _ => run_step H; cbv beta zeta in *
  end.

(** [settle]: what the loads of an inverted run read, in terms of the first state. *)
Ltac settle := repeat (
  simplify_eq/=;
  match goal with
  | H : context [alter _ ?k _ !! ?k] |- _ => rewrite lookup_alter_eq in H
  | H : context [insert ?k _ _ !! ?k] |- _ => rewrite lookup_insert_eq in H
  | H : ?m !! ?k = Some _, H' : context [?m !! ?k] |- _ => rewrite H in H'
  | H : bool_decide _ = true |- _ => apply bool_decide_eq_true in H
  | H : bool_decide _ = false |- _ => apply bool_decide_eq_false in H
  | H : (_ <? _) = true |- _ => apply N.ltb_lt in H
  | H : (_ <? _) = false |- _ => apply N.ltb_ge in H
  | H : (_ <=? _) = true |- _ => apply N.leb_le in H
  | H : (_ <=? _) = false |- _ => apply N.leb_gt in H
  | H : (_ =? _) = true |- _ => apply N.eqb_eq in H
  | H : (_ =? _) = false |- _ => apply N.eqb_neq in H
  | H : negb _ = true |- _ => apply negb_true_iff in H
  | H : negb _ = false |- _ => apply negb_false_iff in H
  | H : _ && _ = true |- _ => apply andb_true_iff in H as [? H]
  end); simplify_eq/=.

(** * Invariants of returning runs, frames *)

(** [keeps I m]: a run of [m] that returns keeps [I].  (A run that reverts changes
    nothing, by [transact].) *)
Definition keeps {A} (I : chain → Prop) (m : M chain A) : Prop :=
  ∀ c a c', I c → m c = (Ok a, c') → I c'.

(** [leaves f m]: a returning run of [m] does not change what [f] reads. *)
Definition leaves {A B} (f : chain → B) (m : M chain A) : Prop :=
  ∀ c a c', m c = (Ok a, c') → f c' = f c.

Lemma leaves_keeps {A B} (f : chain → B) (P : B → Prop) (m : M chain A) :
  leaves f m → keeps (λ c, P (f c)) m.
Proof. intros Hm c a c' Hc Hr. by rewrite (Hm _ _ _ Hr). Qed.

Lemma transact_keeps {A} (I : chain → Prop) (m : M chain A) :
  keeps I m → preserves I (transact m).
Proof.
  intros Hm c Hc. unfold transact. destruct (m c) as [[a|err] c'] eqn:E; simpl; [|done].
  by apply (Hm c a c').
Qed.

Section KeepsRules.
  Context (I : chain → Prop).

Lemma keeps_bind {A B} (m : M chain A) (k : A → M chain B) :
    keeps I m → (∀ a, keeps I (k a)) → keeps I (m ≫= k).
Proof. intros Hm Hk c b c' Hc Hr. apply bind_returns in Hr as (a & c1 & H1 & H2). exact (Hk a c1 b c' (Hm c a c1 Hc H1) H2). Qed.
Lemma keeps_for_each {A} (xs : list A) (g : A → M chain unit) :
    (∀ x, keeps I (g x)) → keeps I (for_each xs g).
Proof.
    intros Hg. induction xs as [|x xs IH]; simpl.
    - intros c a c' Hc Hr. by apply ret_returns in Hr as [_ ->].
    - apply keeps_bind; [apply Hg | intros; apply IH].
  Qed.
End KeepsRules.

(** A failed transaction changes nothing. *)
Lemma transact_reverts {A} (m : M chain A) c err c1 :
  m c = (Throw err, c1) → transact m c = (Throw err, c).
Proof. intros H. unfold transact. by rewrite H. Qed.
Lemma transact_returns {A} (m : M chain A) c a c' :
  m c = (Ok a, c') → transact m c = (Ok a, c').
Proof. intros H. unfold transact. by rewrite H. Qed.

Section LeavesRules.
  Context {B : Type} (f : chain → B).

Lemma leaves_ret {A} (a : A) : leaves f (mret a).
Proof. intros c b c' H. by run_inv. Qed.
Lemma leaves_revert {A} reason : leaves f (revert reason : M chain A).
Proof. intros c b c' H. by run_inv. Qed.
Lemma leaves_require b reason : leaves f (require b reason).
Proof. intros c u c' H. by run_inv. Qed.
Lemma leaves_gets {A} (g : chain → A) : leaves f (gets g).
Proof. intros c b c' H. by run_inv. Qed.
Lemma leaves_add a b : leaves f (add_u a b).
Proof. intros c u c' H. by run_inv. Qed.
Lemma leaves_sub a b : leaves f (sub_u a b).
Proof. intros c u c' H. by run_inv. Qed.
Lemma leaves_mul a b : leaves f (mul_u a b).
Proof. intros c u c' H. by run_inv. Qed.
Lemma leaves_div a b : leaves f (div_u a b).
Proof. intros c u c' H. by run_inv. Qed.
Lemma leaves_pow a b : leaves f (pow_u a b).
Proof. intros c u c' H. by run_inv. Qed.
Lemma leaves_sload {T} `{Contract T} this : leaves f (sload (T := T) this).
Proof. intros c u c' Hr. by run_inv. Qed.
Lemma leaves_modify g : (∀ c, f (g c) = f c) → leaves f (modify g).
Proof. intros Hg c u c' H. run_inv. apply Hg. Qed.
Lemma leaves_sstore {T} `{Contract T} this (g : T → T) :
    (∀ c, f (with_slot (alter g this) c) = f c) → leaves f (sstore this g).
Proof. intros Hg. by apply leaves_modify. Qed.
Lemma leaves_emit ev : (∀ c, f (with_c_logs (λ l, l ++ [ev]) c) = f c) → leaves f (emit ev).
Proof. intros Hg. by apply leaves_modify. Qed.
Lemma leaves_bind {A C} (m : M chain A) (k : A → M chain C) :
    leaves f m → (∀ a, leaves f (k a)) → leaves f (m ≫= k).
Proof. intros Hm Hk c b c' H. run_step H. erewrite Hk by exact H. by eapply Hm. Qed.
Lemma leaves_for_each {A} (xs : list A) (g : A → M chain unit) :
    (∀ x, leaves f (g x)) → leaves f (for_each xs g).
Proof.
    intros Hg. induction xs as [|x xs IH]; simpl; [apply leaves_ret|].
    apply leaves_bind; [apply Hg | intros; apply IH].
  Qed.
End LeavesRules.

(** A view of the chain that does not see the contract at [this], the log, or the
    events of one kind of contract in it. *)
Class Ignores {B} (f : chain → B) (T : Type) `{Contract T} (this : address) : Prop :=
  ignores : ∀ g c, f (with_slot (alter g this) c) = f c.
Class IgnoresLogs {B} (f : chain → B) : Prop := ignores_logs : ∀ g c, f (with_c_logs g c) = f c.
#[export] Hint Extern 0 (Ignores _ _ _) => (intros ? ?; reflexivity) : chain typeclass_instances.
Class IgnoresEvents {B} (f : chain → B) (b : emitter) : Prop :=
  ignores_events : ∀ ev c, emitter_of ev = b → f (with_c_logs (λ l, l ++ [ev]) c) = f c.
#[global] Instance ignores_logs_events {B} (f : chain → B) b : IgnoresLogs f → IgnoresEvents f b.
Proof. intros Hf ev c _. apply Hf. Qed.
#[export] Hint Extern 0 (IgnoresEvents _ _) => (intros ? ? _; reflexivity) : chain typeclass_instances.
#[export] Hint Extern 0 (IgnoresLogs _) => (intros ? ?; reflexivity) : chain typeclass_instances.

Ltac ignore_event :=
  match goal with
  | |- ?f (with_c_logs (λ l, l ++ [?ev]) ?c) = _ =>
      let b := eval cbn in (emitter_of ev) in exact (ignores_events (f := f) (b := b) ev c eq_refl)
  end.
Ltac leave_step :=
  match goal with
  | |- leaves _ (mret _) => apply leaves_ret
  | |- leaves _ (revert _) => apply leaves_revert
  | |- leaves _ (require _ _) => apply leaves_require
  | |- leaves _ (gets _) => apply leaves_gets
  | |- leaves _ (add_u _ _) => apply leaves_add
  | |- leaves _ (sub_u _ _) => apply leaves_sub
  | |- leaves _ (mul_u _ _) => apply leaves_mul
  | |- leaves _ (div_u _ _) => apply leaves_div
  | |- leaves _ (pow_u _ _) => apply leaves_pow
  | |- leaves _ (sload _) => apply leaves_sload
  | |- leaves _ (sstore _ _) => apply leaves_sstore; intros ?; first [reflexivity | apply ignores]
  | |- leaves _ (emit _) => apply leaves_emit; intros ?;
      first [reflexivity | apply ignores_logs | ignore_event]
  | |- leaves _ (modify _) => apply leaves_modify; intros ?; reflexivity
  | |- leaves _ (_ ≫= _) => apply leaves_bind; [|intros ?]
  | |- leaves _ (for_each _ _) => apply leaves_for_each; intros ?
  | |- leaves _ (if ?b then _ else _) => destruct b
  | |- leaves _ (match ?x with _ => _ end) => destruct x
  end.
(** [leave]: a program with no write to what [f] reads leaves it alone. *)
Ltac leave := repeat (leave_step; cbv beta zeta); eauto with chain.

#[export] Hint Resolve leaves_ret leaves_sload leaves_require : chain.

(** The guards of Ownable and ReentrancyGuard. *)
Lemma onlyOwner_returns T `{Contract T} `{Ownable T} this e u c c' :
  onlyOwner T this e c = (Ok u, c') →
  ∃ t, slot c !! this = Some t ∧ owner t = msg_sender e ∧ c' = c.
Proof. unfold onlyOwner. intros Hr. run_inv. apply bool_decide_eq_true in Hr. eauto. Qed.

Lemma leaves_onlyOwner {B} (f : chain → B) T `{Contract T} `{Ownable T} this e :
  leaves f (onlyOwner T this e).
Proof. unfold onlyOwner. leave. Qed.
#[export] Hint Resolve leaves_onlyOwner : chain.

Lemma nonReentrant_returns T `{Contract T} `{Guarded T} {A} this (m : M chain A) a c c' :
  nonReentrant T this m c = (Ok a, c') →
  ∃ t c1, slot c !! this = Some t ∧ entered t = false ∧
    m (with_slot (alter (with_entered (λ _, true)) this) c) = (Ok a, c1) ∧
    c' = with_slot (alter (with_entered (λ _, false)) this) c1.
Proof.
  unfold nonReentrant. intros Hr. run_inv. eexists _, _. repeat split; [done| |done].
  by apply negb_true_iff.
Qed.

Lemma leaves_nonReentrant {B} (f : chain → B) T `{Contract T} `{Guarded T} {A} this
    `{!Ignores f T this} (m : M chain A) : leaves f m → leaves f (nonReentrant T this m).
Proof. intros Hm. unfold nonReentrant. leave. Qed.

(** [keep L]: a program keeps an invariant when the calls that matter do (by the
    database [chain]) and, by [L], everything that leaves its part of the chain
    alone. *)
Ltac keep L :=
  repeat match goal with
  | |- keeps _ (_ ≫= _) => apply keeps_bind; [|intros ?]; cbv beta zeta
  | |- keeps _ (for_each _ _) => apply keeps_for_each; intros ?; cbv beta zeta
  | |- keeps _ (if ?b then _ else _) => destruct b
  | |- keeps _ (match ?x with _ => _ end) => destruct x
  end;
  try solve [eauto with chain | apply L; leave].

(** * Sums over a mapping *)

Section Sums.
  Context {K : Type} `{Countable K}.

Definition msum {V} (f : K → V → N) (m : gmap K V) : N := map_fold (λ k v acc, f k v + acc) 0 m.

Lemma msum_empty {V} (f : K → V → N) : msum f ∅ = 0.
Proof. done. Qed.

Lemma msum_insert_new {V} (f : K → V → N) m k v :
    m !! k = None → msum f (<[k := v]> m) = f k v + msum f m.
Proof.
    intros Hk. unfold msum. rewrite map_fold_insert_L; [done| |done].
    intros. lia.
  Qed.

Lemma msum_delete {V} (f : K → V → N) m k v :
    m !! k = Some v → msum f m = f k v + msum f (delete k m).
Proof.
    intros Hk. rewrite <- (insert_delete_id m k v Hk) at 1.
    apply msum_insert_new, lookup_delete_eq.
  Qed.

Definition oterm {V} (f : K → V → N) (k : K) (o : option V) : N :=
    match o with Some v => f k v | None => 0 end.

(** Writing one entry moves the sum by the difference of the terms. *)
Lemma msum_insert {V} (f : K → V → N) m k v :
    msum f (<[k := v]> m) + oterm f k (m !! k) = msum f m + f k v.
Proof.
    destruct (m !! k) as [w|] eqn:E; simpl.
    - rewrite (msum_delete f m k w E), <- (insert_delete_eq m k v).
      rewrite msum_insert_new by apply lookup_delete_eq. lia.
    - rewrite msum_insert_new by done. lia.
  Qed.

Lemma msum_term {V} (f : K → V → N) m k v : m !! k = Some v → f k v ≤ msum f m.
Proof. intros Hk. rewrite (msum_delete f m k v Hk). lia. Qed.

Lemma msum_ext {V} (f g : K → V → N) m :
    (∀ k v, m !! k = Some v → f k v = g k v) → msum f m = msum g m.
Proof.
    induction m as [|k v m Hk IH] using map_ind; intros Hfg; [done|].
    rewrite !msum_insert_new by done. rewrite (Hfg k v) by apply lookup_insert_eq.
    rewrite IH; [done|]. intros k' v' Hk'. apply Hfg.
    rewrite lookup_insert_ne; [done|]. by intros ->; simplify_eq.
  Qed.
End Sums.
