(* ===== verification/Token.v ===== *)
(** StorageToken.sol with its base contract ERC20.sol: balances, allowances,
    authorised minting and burning.  Supply and balances stay in step. *)

From S2P Require Import Prelude Contracts ChainRules.

Local Open Scope N_scope.

Definition INITIAL_SUPPLY : N := 500000000 * 10 ^ 18.
Definition MAX_SUPPLY : N := 1000000000 * 10 ^ 18.
Definition INFLATION_DECREASE_PER_YEAR : N := 50.
Definition MIN_INFLATION_RATE : N := 0.

(** * ERC20.sol *)

Definition balanceOf (t : StorageToken) (account : address) : N := at_ 0 (tk_balances t) account.
Definition allowance (t : StorageToken) (own spender : address) : N :=
  at_ 0 (tk_allowances t) (own, spender).

Section Erc20.
  Context (this : address).

Definition load : M chain StorageToken := sload this.
Definition store (f : StorageToken → StorageToken) : M chain unit := sstore this f.

Definition _update (from to : address) (value : N) : M chain unit :=
  (if bool_decide (from = address0) then
     t ← load;
     s ← add_u (tk_totalSupply t) value;
     store (with_tk_totalSupply (λ _, s))
   else
     t ← load;
     let fromBalance := balanceOf t from in
     if fromBalance <? value then revert "ERC20InsufficientBalance"
     else store (with_tk_balances (insert from (wrap_sub fromBalance value)))) ;;
  (if bool_decide (to = address0) then store (with_tk_totalSupply (λ s, wrap_sub s value))
   else store (with_tk_balances (λ m, <[to := wrap_add (at_ 0 m to) value]> m))) ;;
  emit (Transfer from to value).

Definition _transfer (from to : address) (value : N) : M chain unit :=
  if bool_decide (from = address0) then revert "ERC20InvalidSender"
  else if bool_decide (to = address0) then revert "ERC20InvalidReceiver"
  else _update from to value.

Definition _mint (account : address) (value : N) : M chain unit :=
  if bool_decide (account = address0) then revert "ERC20InvalidReceiver"
  else _update address0 account value.

Definition _burn (account : address) (value : N) : M chain unit :=
  if bool_decide (account = address0) then revert "ERC20InvalidSender"
  else _update account address0 value.

Definition _approve (own spender : address) (value : N) (emitEvent : bool) : M chain unit :=
  if bool_decide (own = address0) then revert "ERC20InvalidApprover"
  else if bool_decide (spender = address0) then revert "ERC20InvalidSpender"
  else
    store (with_tk_allowances (insert (own, spender) value)) ;;
    if emitEvent then emit (Approval own spender value) else mret tt.

Definition _spendAllowance (own spender : address) (value : N) : M chain unit :=
  t ← load;
  let currentAllowance := allowance t own spender in
  if currentAllowance <? MAX_UINT then
    if currentAllowance <? value then revert "ERC20InsufficientAllowance"
    else _approve own spender (wrap_sub currentAllowance value) false
  else mret tt.

Definition transfer (e : env) (to : address) (value : N) : M chain bool :=
  _transfer (msg_sender e) to value ;; mret true.

Definition approve (e : env) (spender : address) (value : N) : M chain bool :=
  _approve (msg_sender e) spender value true ;; mret true.

Definition transferFrom (e : env) (from to : address) (value : N) : M chain bool :=
  _spendAllowance from (msg_sender e) value ;;
  _transfer from to value ;;
  mret true.

(** * StorageToken.sol *)

Definition mint (e : env) (to : address) (amount : N) : M chain unit :=
  t ← load;
  require (at_ false (tk_minters t) (msg_sender e)) "Not authorized to mint" ;;
  s ← add_u (tk_totalSupply t) amount;
  require (s <=? MAX_SUPPLY) "Exceeds max supply" ;;
  _mint to amount.

Definition count_burned (from : address) (amount : N) : M chain unit :=
  t ← load;
  b ← add_u (tk_totalTokensBurned t) amount;
  store (with_tk_totalTokensBurned (λ _, b)) ;;
  emit (TokensBurned from amount).

Definition burn (e : env) (amount : N) : M chain unit :=
  _burn (msg_sender e) amount ;;
  count_burned (msg_sender e) amount.

Definition burnFrom (e : env) (from : address) (amount : N) : M chain unit :=
  t ← load;
  require (at_ false (tk_burners t) (msg_sender e)) "Not authorized to burn" ;;
  _burn from amount ;;
  count_burned from amount.

Definition authorizeBurner (e : env) (burner : address) : M chain unit :=
  onlyOwner StorageToken this e ;;
  store (with_tk_burners (insert burner true)) ;;
  emit (BurnerAuthorized burner).
Definition revokeBurner (e : env) (burner : address) : M chain unit :=
  onlyOwner StorageToken this e ;;
  store (with_tk_burners (insert burner false)) ;;
  emit (BurnerRevoked burner).
Definition authorizeMinter (e : env) (minter : address) : M chain unit :=
  onlyOwner StorageToken this e ;;
  store (with_tk_minters (insert minter true)) ;;
  emit (MinterAuthorized minter).
Definition revokeMinter (e : env) (minter : address) : M chain unit :=
  onlyOwner StorageToken this e ;;
  store (with_tk_minters (insert minter false)) ;;
  emit (MinterRevoked minter).

Definition updateInflationRate (e : env) : M chain unit :=
  onlyOwner StorageToken this e ;;
  t ← load;
  next ← add_u (tk_lastInflationTimestamp t) (days 365);
  require (next <=? block_timestamp e) "Too early" ;;
  (if MIN_INFLATION_RATE <? tk_annualInflationRate t then
     (if INFLATION_DECREASE_PER_YEAR <? tk_annualInflationRate t then
        r ← sub_u (tk_annualInflationRate t) INFLATION_DECREASE_PER_YEAR;
        store (with_tk_annualInflationRate (λ _, r))
      else store (with_tk_annualInflationRate (λ _, MIN_INFLATION_RATE))) ;;
     t ← load;
     emit (InflationRateUpdated (tk_annualInflationRate t))
   else mret tt) ;;
  store (with_tk_lastInflationTimestamp (λ _, block_timestamp e)).

Definition batchTransfer (e : env) (recipients : list address) (amounts : list N) : M chain unit :=
  require (length recipients =? length amounts)%nat "Arrays length mismatch" ;;
  require (length recipients <=? 100)%nat "Too many recipients" ;;
  for_each (zip recipients amounts) (λ ra, transfer e (fst ra) (snd ra) ;; mret tt).
End Erc20.

(** The storage after the constructor has run, and the constructor's events. *)
Definition token_created (e : env) : StorageToken :=
  MkToken (msg_sender e) {[ msg_sender e := INITIAL_SUPPLY ]} ∅ INITIAL_SUPPLY
    500 (block_timestamp e) ∅ ∅ 0.

(** * What an operation does to the storage *)

Definition debit (a : address) (v : N) (t : StorageToken) : StorageToken :=
  with_tk_balances (insert a (wrap_sub (balanceOf t a) v)) t.
Definition credit (a : address) (v : N) (t : StorageToken) : StorageToken :=
  with_tk_balances (λ m, <[a := wrap_add (at_ 0 m a) v]> m) t.
Definition moved (a b : address) (v : N) (t : StorageToken) : StorageToken :=
  credit b v (debit a v t).
Definition burned (a : address) (v : N) (t : StorageToken) : StorageToken :=
  with_tk_totalTokensBurned (λ b, b + v)
    (with_tk_totalSupply (λ s, wrap_sub s v) (debit a v t)).
Definition minted (a : address) (v : N) (t : StorageToken) : StorageToken :=
  credit a v (with_tk_totalSupply (λ s, s + v) t).
Definition spent (a s : address) (v : N) (t : StorageToken) : StorageToken :=
  if allowance t a s <? MAX_UINT
  then with_tk_allowances (insert (a, s) (wrap_sub (allowance t a s) v)) t else t.

(** [slots]: the final token storage of an inverted run. *)
Ltac slots := simpl; rewrite ?alter_alter_eq; by erewrite alter_alt_Some by eassumption.

Section Effects.
  Context (this : address).

Lemma transfer_inner a b v u c c' :
    _transfer this a b v c = (Ok u, c') →
    ∃ t, c_tokens c !! this = Some t ∧ v ≤ balanceOf t a ∧ a ≠ address0 ∧ b ≠ address0 ∧
      c_tokens c' = <[this := moved a b v t]> (c_tokens c).
Proof.
    unfold _transfer, _update, load, store. intros Hr. run_inv; settle.
    eexists. split_and!; [done..|]. slots.
  Qed.

Lemma burn_inner a v u c c' :
    _burn this a v c = (Ok u, c') →
    ∃ t, c_tokens c !! this = Some t ∧ v ≤ balanceOf t a ∧ a ≠ address0 ∧
      c_tokens c' = <[this := with_tk_totalSupply (λ s, wrap_sub s v) (debit a v t)]> (c_tokens c).
Proof.
    unfold _burn, _update, load, store. intros Hr. run_inv; settle.
    eexists. split_and!; [done..|]. slots.
  Qed.

Lemma transfer_returns e b v r c c' :
    transfer this e b v c = (Ok r, c') →
    ∃ t, c_tokens c !! this = Some t ∧ v ≤ balanceOf t (msg_sender e) ∧
      msg_sender e ≠ address0 ∧ b ≠ address0 ∧ r = true ∧
      c_tokens c' = <[this := moved (msg_sender e) b v t]> (c_tokens c).
Proof.
    unfold transfer. intros Hr. run_inv. apply transfer_inner in H as (t & ?). exists t. naive_solver.
  Qed.

Lemma transferFrom_returns e a b v r c c' :
    transferFrom this e a b v c = (Ok r, c') →
    ∃ t, c_tokens c !! this = Some t ∧ v ≤ balanceOf t a ∧ a ≠ address0 ∧ b ≠ address0 ∧
      (allowance t a (msg_sender e) < MAX_UINT → v ≤ allowance t a (msg_sender e)) ∧ r = true ∧
      c_tokens c' = <[this := moved a b v (spent a (msg_sender e) v t)]> (c_tokens c).
Proof.
    unfold transferFrom, _spendAllowance, _approve, load, store. intros Hr.
    run_inv; settle;
      match goal with H : _transfer _ _ _ _ _ = _ |- _ => apply transfer_inner in H as (t & Ht & Hv & Ha & Hb & Hc) end;
      simpl in Ht, Hc; settle.
    - eexists. split_and!; [done..|]. rewrite Hc. erewrite alter_alt_Some by eassumption.
      rewrite insert_insert_eq. unfold spent. by rewrite (proj2 (N.ltb_lt _ _)).
    - eexists. split_and!; [done..|lia|done|]. rewrite Hc. unfold spent. by rewrite (proj2 (N.ltb_ge _ _)).
  Qed.

Lemma approve_returns e s v r c c' :
    approve this e s v c = (Ok r, c') →
    ∃ t, c_tokens c !! this = Some t ∧
      c_tokens c' = <[this := with_tk_allowances (insert (msg_sender e, s) v) t]> (c_tokens c)
    ∨ c_tokens c' = c_tokens c.
Proof.
    unfold approve, _approve, store. intros Hr. run_inv; settle.
    destruct (c_tokens c !! this) as [t|] eqn:Ht.
    - exists t. left. split; [done|]. by erewrite alter_alt_Some by eassumption.
    - exists (token_created e). right. by rewrite alter_alt, Ht.
  Qed.

Lemma mint_returns e a v u c c' :
    mint this e a v c = (Ok u, c') →
    ∃ t, c_tokens c !! this = Some t ∧ at_ false (tk_minters t) (msg_sender e) = true ∧
      tk_totalSupply t + v ≤ MAX_SUPPLY ∧ a ≠ address0 ∧
      c_tokens c' = <[this := minted a v t]> (c_tokens c).
Proof.
    unfold mint, _mint, _update, load, store. intros Hr. run_inv; settle.
    eexists. split_and!; [done..|]. slots.
  Qed.

Lemma burn_returns e v u c c' :
    burn this e v c = (Ok u, c') →
    ∃ t, c_tokens c !! this = Some t ∧ v ≤ balanceOf t (msg_sender e) ∧ msg_sender e ≠ address0 ∧
      c_tokens c' = <[this := burned (msg_sender e) v t]> (c_tokens c).
Proof.
    unfold burn, _burn, _update, count_burned, load, store. intros Hr. run_inv; settle.
    eexists. split_and!; [done..|]. slots.
  Qed.

Lemma burnFrom_returns e a v u c c' :
    burnFrom this e a v c = (Ok u, c') →
    ∃ t, c_tokens c !! this = Some t ∧ at_ false (tk_burners t) (msg_sender e) = true ∧
      v ≤ balanceOf t a ∧ a ≠ address0 ∧
      c_tokens c' = <[this := burned a v t]> (c_tokens c).
Proof.
    unfold burnFrom, _burn, _update, count_burned, load, store. intros Hr. run_inv; settle.
    eexists. split_and!; [done..|]. slots.
  Qed.
End Effects.

(** * The supply *)

(** Every token is in some balance, and there are never more than the maximum. *)
Definition token_ok (t : StorageToken) : Prop :=
  msum (λ _ v, v) (tk_balances t) = tk_totalSupply t ∧ tk_totalSupply t ≤ MAX_SUPPLY.

Lemma supply_fits : MAX_SUPPLY < WORD.
Proof. by vm_compute. Qed.

Lemma wrap_sub_small a b : b ≤ a → a < WORD → wrap_sub a b = a - b.
Proof.
  intros Hb Ha. unfold wrap_sub. replace (a + WORD - b) with (a - b + 1 * WORD) by lia.
  rewrite N.Div0.mod_add. apply N.mod_small. lia.
Qed.
Lemma wrap_add_small a b : a + b < WORD → wrap_add a b = a + b.
Proof. apply N.mod_small. Qed.

Lemma balance_bounded t a : token_ok t → balanceOf t a ≤ tk_totalSupply t.
Proof.
  intros [Hs _]. rewrite <- Hs. unfold balanceOf, at_.
  destruct (tk_balances t !! a) eqn:E; simpl; [|lia]. by apply (msum_term (λ _ v, v) _ a).
Qed.

Lemma msum_balances t a v :
  msum (λ _ v, v) (<[a := v]> (tk_balances t)) + balanceOf t a = msum (λ _ v, v) (tk_balances t) + v.
Proof.
  rewrite <- (msum_insert (λ _ v, v) (tk_balances t) a v). unfold balanceOf, at_.
  by destruct (tk_balances t !! a).
Qed.

Lemma balanceOf_insert t a v x :
  balanceOf (with_tk_balances (insert a v) t) x = if decide (x = a) then v else balanceOf t x.
Proof.
  unfold balanceOf, at_. simpl. case_decide as Hx.
  - subst. by rewrite lookup_insert_eq.
  - by rewrite lookup_insert_ne.
Qed.

(** Taking [v] from [a]: exact, and the rest of the supply is untouched. *)
Lemma debit_spec t a v : token_ok t → v ≤ balanceOf t a →
  msum (λ _ v, v) (tk_balances (debit a v t)) + v = tk_totalSupply t ∧
  ∀ x, balanceOf (debit a v t) x + (if decide (x = a) then v else 0) = balanceOf t x.
Proof.
  intros Hok Hv. pose proof (balance_bounded t a Hok) as Hb. destruct Hok as [Hs Hm].
  pose proof supply_fits. unfold debit. rewrite wrap_sub_small by lia. split.
  - simpl. pose proof (msum_balances t a (balanceOf t a - v)). lia.
  - intros x. rewrite balanceOf_insert. case_decide; subst; lia.
Qed.

(** Giving [v] to [a], when the sum stays within a word. *)
Lemma credit_spec t a v : msum (λ _ v, v) (tk_balances t) + v < WORD →
  msum (λ _ v, v) (tk_balances (credit a v t)) = msum (λ _ v, v) (tk_balances t) + v ∧
  ∀ x, balanceOf (credit a v t) x = balanceOf t x + (if decide (x = a) then v else 0).
Proof.
  intros Hw. assert (balanceOf t a ≤ msum (λ _ v, v) (tk_balances t)) as Hb.
  { unfold balanceOf, at_. destruct (tk_balances t !! a) eqn:E; simpl; [|lia].
    by apply (msum_term (λ _ v, v) _ a). }
  assert (credit a v t = with_tk_balances (insert a (balanceOf t a + v)) t) as ->.
  { unfold credit, with_tk_balances. f_equal. fold (balanceOf t a). by rewrite wrap_add_small by lia. }
  split.
  - simpl. pose proof (msum_balances t a (balanceOf t a + v)). lia.
  - intros x. rewrite balanceOf_insert. case_decide; subst; lia.
Qed.

Lemma moved_spec t a b v : token_ok t → v ≤ balanceOf t a →
  token_ok (moved a b v t) ∧
  ∀ x, balanceOf (moved a b v t) x + (if decide (x = a) then v else 0) =
       balanceOf t x + (if decide (x = b) then v else 0).
Proof.
  intros Hok Hv. destruct (debit_spec t a v Hok Hv) as [Hs Hx].
  pose proof supply_fits. pose proof (proj2 Hok).
  destruct (credit_spec (debit a v t) b v) as [Hs' Hx']; [lia|]. unfold moved, token_ok. split.
  - rewrite Hs', Hs. split; [done|]. by apply Hok.
  - intros x. rewrite Hx'. specialize (Hx x). lia.
Qed.

Lemma burned_spec t a v : token_ok t → v ≤ balanceOf t a →
  token_ok (burned a v t) ∧ tk_totalSupply (burned a v t) + v = tk_totalSupply t ∧
  ∀ x, balanceOf (burned a v t) x + (if decide (x = a) then v else 0) = balanceOf t x.
Proof.
  intros Hok Hv. destruct (debit_spec t a v Hok Hv) as [Hs Hx].
  pose proof supply_fits. pose proof (proj2 Hok). pose proof (balance_bounded t a Hok).
  assert (tk_totalSupply (burned a v t) = tk_totalSupply t - v) as E
    by (by apply wrap_sub_small; lia).
  unfold token_ok. rewrite E. split_and!; [|lia|lia|exact Hx].
  change (tk_balances (burned a v t)) with (tk_balances (debit a v t)). lia.
Qed.

Lemma minted_spec t a v : token_ok t → tk_totalSupply t + v ≤ MAX_SUPPLY →
  token_ok (minted a v t) ∧ tk_totalSupply (minted a v t) = tk_totalSupply t + v ∧
  ∀ x, balanceOf (minted a v t) x = balanceOf t x + (if decide (x = a) then v else 0).
Proof.
  intros [Hs Hm] Hv. pose proof supply_fits. unfold minted.
  destruct (credit_spec (with_tk_totalSupply (λ s, s + v) t) a v) as [Hs' Hx]; [simpl; lia|].
  unfold token_ok. rewrite Hs'. simpl. split_and!; [lia|done|done|exact Hx].
Qed.

Lemma spent_same a s v t :
  tk_balances (spent a s v t) = tk_balances t ∧ tk_totalSupply (spent a s v t) = tk_totalSupply t.
Proof. unfold spent. by destruct (_ <? _). Qed.
Lemma spent_ok a s v t : token_ok t → token_ok (spent a s v t).
Proof. unfold token_ok. by destruct (spent_same a s v t) as [-> ->]. Qed.
Lemma spent_balance a s v t x : balanceOf (spent a s v t) x = balanceOf t x.
Proof. unfold balanceOf. by destruct (spent_same a s v t) as [-> _]. Qed.

(** ** The supply of every token on the chain *)

Definition supply_ok (c : chain) : Prop := map_Forall (λ _, token_ok) (c_tokens c).

Lemma supply_leaves {A} (m : M chain A) : leaves c_tokens m → keeps supply_ok m.
Proof. intros Hm. exact (leaves_keeps c_tokens (map_Forall (λ _, token_ok)) m Hm). Qed.

Lemma supply_insert this t c c' :
  supply_ok c → token_ok t → c_tokens c' = <[this := t]> (c_tokens c) → supply_ok c'.
Proof. unfold supply_ok. intros Hc Ht ->. by apply map_Forall_insert_2. Qed.

(** A write that touches neither balances nor supply. *)
Lemma supply_store this f : (∀ t, token_ok t → token_ok (f t)) → keeps supply_ok (store this f).
Proof.
  intros Hf c u c' Hc Hr. unfold store in Hr. run_inv. unfold supply_ok. simpl. intros a t Ht.
  destruct (decide (a = this)) as [->|Ha].
  - rewrite lookup_alter_eq in Ht. destruct (c_tokens c !! this) eqn:E; simplify_eq/=. eauto.
  - rewrite lookup_alter_ne in Ht by done. by apply (Hc a).
Qed.

Lemma supply_transfer this e b v : keeps supply_ok (transfer this e b v).
Proof.
  intros c r c' Hc Hr. apply transfer_returns in Hr as (t & Ht & Hv & _ & _ & _ & E).
  apply (supply_insert _ _ _ _ Hc (proj1 (moved_spec _ _ _ _ (Hc _ _ Ht) Hv)) E).
Qed.
Lemma supply_transferFrom this e a b v : keeps supply_ok (transferFrom this e a b v).
Proof.
  intros c r c' Hc Hr. apply transferFrom_returns in Hr as (t & Ht & Hv & _ & _ & _ & _ & E).
  refine (supply_insert _ _ _ _ Hc (proj1 (moved_spec _ _ _ _ _ _)) E).
  - apply spent_ok, (Hc _ _ Ht).
  - by rewrite spent_balance.
Qed.
Lemma supply_mint this e a v : keeps supply_ok (mint this e a v).
Proof.
  intros c r c' Hc Hr. apply mint_returns in Hr as (t & Ht & _ & Hv & _ & E).
  apply (supply_insert _ _ _ _ Hc (proj1 (minted_spec _ _ _ (Hc _ _ Ht) Hv)) E).
Qed.
Lemma supply_burn this e v : keeps supply_ok (burn this e v).
Proof.
  intros c r c' Hc Hr. apply burn_returns in Hr as (t & Ht & Hv & _ & E).
  apply (supply_insert _ _ _ _ Hc (proj1 (burned_spec _ _ _ (Hc _ _ Ht) Hv)) E).
Qed.
Lemma supply_burnFrom this e a v : keeps supply_ok (burnFrom this e a v).
Proof.
  intros c r c' Hc Hr. apply burnFrom_returns in Hr as (t & Ht & _ & Hv & _ & E).
  apply (supply_insert _ _ _ _ Hc (proj1 (burned_spec _ _ _ (Hc _ _ Ht) Hv)) E).
Qed.
#[export] Hint Resolve supply_transfer supply_transferFrom supply_mint supply_burn supply_burnFrom : chain.

Ltac keep_supply := keep @supply_leaves; try (apply supply_store; done).
Lemma supply_approve this e s v : keeps supply_ok (approve this e s v).
Proof. unfold approve, _approve. keep_supply. Qed.
Lemma supply_authorizeBurner this e b : keeps supply_ok (authorizeBurner this e b).
Proof. unfold authorizeBurner. keep_supply. Qed.
Lemma supply_revokeBurner this e b : keeps supply_ok (revokeBurner this e b).
Proof. unfold revokeBurner. keep_supply. Qed.
Lemma supply_authorizeMinter this e b : keeps supply_ok (authorizeMinter this e b).
Proof. unfold authorizeMinter. keep_supply. Qed.
Lemma supply_revokeMinter this e b : keeps supply_ok (revokeMinter this e b).
Proof. unfold revokeMinter. keep_supply. Qed.
Lemma supply_updateInflationRate this e : keeps supply_ok (updateInflationRate this e).
Proof. unfold updateInflationRate, load. keep_supply. Qed.
Lemma supply_batchTransfer this e rs vs : keeps supply_ok (batchTransfer this e rs vs).
Proof. unfold batchTransfer. keep_supply. Qed.
#[export] Hint Resolve supply_approve supply_authorizeBurner supply_revokeBurner supply_authorizeMinter
  supply_revokeMinter supply_updateInflationRate supply_batchTransfer : chain.

Lemma token_created_ok e : token_ok (token_created e).
Proof. split; [|by vm_compute]. simpl. unfold msum. by rewrite map_fold_singleton. Qed.

(** * Progress *)

Lemma transfer_total this e b v t c :
  c_tokens c !! this = Some t → v ≤ balanceOf t (msg_sender e) →
  msg_sender e ≠ address0 → b ≠ address0 → ∃ c', transfer this e b v c = (Ok true, c').
Proof.
  intros Ht Hv Hs Hb. unfold transfer, _transfer, _update.
  rewrite !bool_decide_eq_false_2 by done.
  rewrite !bind_assoc_run. erewrite bind_ok by (apply sload_run; exact Ht). cbv zeta.
  rewrite (proj2 (N.ltb_ge _ _)) by done. by eexists.
Qed.

(** * Frame *)
Section Frame.
  Context {B : Type} (f : chain → B) `{!∀ a, Ignores f StorageToken a} `{!IgnoresEvents f ByToken}.

Lemma leaves_token_transfer this e a v : leaves f (transfer this e a v).
Proof. unfold transfer, _transfer, _update, load, store. leave. Qed.
Lemma leaves_token_transferFrom this e a b v : leaves f (transferFrom this e a b v).
Proof. unfold transferFrom, _spendAllowance, _approve, _transfer, _update, load, store. leave. Qed.
Lemma leaves_token_mint this e a v : leaves f (mint this e a v).
Proof. unfold mint, _mint, _update, load, store. leave. Qed.
Lemma leaves_token_burn this e v : leaves f (burn this e v).
Proof. unfold burn, _burn, count_burned, _update, load, store. leave. Qed.
Lemma leaves_token_burnFrom this e a v : leaves f (burnFrom this e a v).
Proof. unfold burnFrom, _burn, count_burned, _update, load, store. leave. Qed.
Lemma leaves_token_approve this e s v : leaves f (approve this e s v).
Proof. unfold approve, _approve, store. leave. Qed.
Lemma leaves_token_authorizeBurner this e b : leaves f (authorizeBurner this e b).
Proof. unfold authorizeBurner, store. leave. Qed.
Lemma leaves_token_revokeBurner this e b : leaves f (revokeBurner this e b).
Proof. unfold revokeBurner, store. leave. Qed.
Lemma leaves_token_authorizeMinter this e b : leaves f (authorizeMinter this e b).
Proof. unfold authorizeMinter, store. leave. Qed.
Lemma leaves_token_revokeMinter this e b : leaves f (revokeMinter this e b).
Proof. unfold revokeMinter, store. leave. Qed.
Lemma leaves_token_updateInflationRate this e : leaves f (updateInflationRate this e).
Proof. unfold updateInflationRate, load, store. leave. Qed.
End Frame.
#[export] Hint Resolve leaves_token_transfer leaves_token_transferFrom leaves_token_mint
  leaves_token_burn leaves_token_burnFrom leaves_token_approve leaves_token_authorizeBurner
  leaves_token_revokeBurner leaves_token_authorizeMinter leaves_token_revokeMinter
  leaves_token_updateInflationRate : chain.
