(* ===== verification/Registry.v ===== *)
(** ProviderRegistry.sol: registration, reputation, cool-down, eligibility. *)

From S2P Require Import Prelude Contracts ChainRules.

Local Open Scope N_scope.

Definition INITIAL_REPUTATION : N := 50.
Definition MAX_REPUTATION : N := 100.
Definition MIN_REPUTATION : N := 0.
Definition COOLDOWN_PERIOD : N := days 7.

Definition registry_created (e : env) : ProviderRegistry := MkRegistry (msg_sender e) ∅ [] ∅.

(** [providers[provider]] *)
Definition provider_of (r : ProviderRegistry) (provider : address) : Provider :=
  at_ provider0 (rg_providers r) provider.

Definition isProviderActive (r : ProviderRegistry) (provider : address) : bool :=
  pr_registered (provider_of r provider) && pr_active (provider_of r provider).
Definition getProvider (r : ProviderRegistry) (provider : address) : Provider := provider_of r provider.
Definition getProviderCount (r : ProviderRegistry) : N := N.of_nat (length (rg_providerList r)).

(** The condition both loops of [getEligibleProviders] test. *)
Definition eligible (r : ProviderRegistry) (maxPriceUSD minReputation : N) (provider : address) : bool :=
  pr_active (provider_of r provider) &&
  (minReputation <=? pr_reputationScore (provider_of r provider)) &&
  (pr_minPriceUSD (provider_of r provider) <=? maxPriceUSD).

(** Two passes: count, allocate an array of zero addresses, then fill it at [index]. *)
Definition count_eligible (r : ProviderRegistry) (maxPriceUSD minReputation : N) : nat :=
  foldl (λ n p, if eligible r maxPriceUSD minReputation p then S n else n) 0%nat (rg_providerList r).
Definition fill_eligible (r : ProviderRegistry) (maxPriceUSD minReputation : N) (a : list address)
    : list address * nat :=
  foldl (λ '(a, i) p, if eligible r maxPriceUSD minReputation p then (<[i := p]> a, S i) else (a, i))
    (a, 0%nat) (rg_providerList r).
Definition getEligibleProviders (r : ProviderRegistry) (maxPriceUSD minReputation : N) : list address :=
  fst (fill_eligible r maxPriceUSD minReputation
         (replicate (count_eligible r maxPriceUSD minReputation) address0)).

Section Operations.
  Context (this : address).

Definition load : M chain ProviderRegistry := sload this.
(** A write to fields of [providers[provider]]. *)
Definition update (provider : address) (f : Provider → Provider) : M chain unit :=
  sstore this (with_rg_providers (λ m, <[provider := f (at_ provider0 m provider)]> m)).

Definition registerProvider (e : env) (peerId endpoint region : string) (minPriceUSD : N) : M chain unit :=
  r ← load;
  require (negb (pr_registered (provider_of r (msg_sender e)))) "Already registered" ;;
  require (negb (bool_decide (peerId = ""))) "Invalid peer ID" ;;
  update (msg_sender e) (λ _, MkProvider true (block_timestamp e) 0 INITIAL_REPUTATION
    peerId endpoint region 0 0 0 true 0 minPriceUSD) ;;
  sstore this (with_rg_providerList (λ l, l ++ [msg_sender e])) ;;
  emit (ProviderRegistered (msg_sender e) peerId region).

Definition updateProvider (e : env) (endpoint region : string) (minPriceUSD : N) : M chain unit :=
  r ← load;
  require (pr_registered (provider_of r (msg_sender e))) "Not registered" ;;
  update (msg_sender e) (with_pr_endpoint (λ _, endpoint)) ;;
  update (msg_sender e) (with_pr_region (λ _, region)) ;;
  update (msg_sender e) (with_pr_minPriceUSD (λ _, minPriceUSD)) ;;
  emit (ProviderUpdated (msg_sender e)).

Definition updateCapacity (e : env) (provider : address) (newTotalCapacityGB : N) : M chain unit :=
  onlyOwner ProviderRegistry this e ;;
  r ← load;
  require (pr_registered (provider_of r provider)) "Provider not registered" ;;
  update provider (with_pr_totalCapacityGB (λ _, newTotalCapacityGB)).

Definition onlyAuthorizedKeeper (e : env) : M chain unit :=
  r ← load;
  require (bool_decide (msg_sender e = rg_owner r) || at_ false (rg_keepers r) (msg_sender e))
    "Not authorized".

Definition deactivateProvider (e : env) (provider : address) : M chain unit :=
  update provider (with_pr_active (λ _, false)) ;;
  until ← add_u (block_timestamp e) COOLDOWN_PERIOD;
  update provider (with_pr_deactivatedUntil (λ _, until)) ;;
  emit (ProviderDeactivated provider until).

Definition increaseReputation (e : env) (provider : address) (amount : N) (reason : string) : M chain unit :=
  onlyAuthorizedKeeper e ;;
  r ← load;
  require (pr_registered (provider_of r provider)) "Provider not registered" ;;
  sum ← add_u (pr_reputationScore (provider_of r provider)) amount;
  let newScore := if MAX_REPUTATION <? sum then MAX_REPUTATION else sum in
  update provider (with_pr_reputationScore (λ _, newScore)) ;;
  emit (ReputationUpdated provider newScore reason).

Definition decreaseReputation (e : env) (provider : address) (amount : N) (reason : string) : M chain unit :=
  onlyAuthorizedKeeper e ;;
  r ← load;
  require (pr_registered (provider_of r provider)) "Provider not registered" ;;
  let currentScore := pr_reputationScore (provider_of r provider) in
  newScore ← (if amount <? currentScore then sub_u currentScore amount else mret MIN_REPUTATION);
  update provider (with_pr_reputationScore (λ _, newScore)) ;;
  emit (ReputationUpdated provider newScore reason) ;;
  if newScore <? 20 then deactivateProvider e provider else mret tt.

Definition authorizeRecordKeeper (e : env) (keeper : address) : M chain unit :=
  onlyOwner ProviderRegistry this e ;;
  sstore this (with_rg_keepers (insert keeper true)).
Definition revokeRecordKeeper (e : env) (keeper : address) : M chain unit :=
  onlyOwner ProviderRegistry this e ;;
  sstore this (with_rg_keepers (insert keeper false)).

Definition recordDealCompleted (e : env) (provider : address) : M chain unit :=
  onlyAuthorizedKeeper e ;;
  r ← load;
  require (pr_registered (provider_of r provider)) "Provider not registered" ;;
  n ← add_u (pr_totalDealsCompleted (provider_of r provider)) 1;
  update provider (with_pr_totalDealsCompleted (λ _, n)) ;;
  increaseReputation e provider 1 "Successful deal completion".

Definition recordDealFailed (e : env) (provider : address) : M chain unit :=
  onlyAuthorizedKeeper e ;;
  r ← load;
  require (pr_registered (provider_of r provider)) "Provider not registered" ;;
  n ← add_u (pr_totalDealsFailed (provider_of r provider)) 1;
  update provider (with_pr_totalDealsFailed (λ _, n)) ;;
  decreaseReputation e provider 5 "Failed deal".

Definition recordSlashing (e : env) (provider : address) : M chain unit :=
  onlyAuthorizedKeeper e ;;
  r ← load;
  require (pr_registered (provider_of r provider)) "Provider not registered" ;;
  n ← add_u (pr_totalSlashingEvents (provider_of r provider)) 1;
  update provider (with_pr_totalSlashingEvents (λ _, n)) ;;
  decreaseReputation e provider 20 "Slashing event" ;;
  r ← load;
  if 5 <=? pr_totalSlashingEvents (provider_of r provider) then deactivateProvider e provider else mret tt.

Definition reactivateProvider (e : env) : M chain unit :=
  r ← load;
  require (pr_registered (provider_of r (msg_sender e))) "Not registered" ;;
  require (negb (pr_active (provider_of r (msg_sender e)))) "Already active" ;;
  require (pr_deactivatedUntil (provider_of r (msg_sender e)) <=? block_timestamp e) "Cooldown not complete" ;;
  update (msg_sender e) (with_pr_active (λ _, true)) ;;
  update (msg_sender e) (with_pr_reputationScore (λ _, INITIAL_REPUTATION)) ;;
  update (msg_sender e) (with_pr_totalSlashingEvents (λ _, 0)) ;;
  emit (ProviderReactivated (msg_sender e)).
End Operations.

(** * Frame *)
Section Frame.
  Context {B : Type} (f : chain → B) `{!∀ a, Ignores f ProviderRegistry a} `{!IgnoresEvents f ByRegistry}.

Lemma leaves_keeper this e : leaves f (onlyAuthorizedKeeper this e).
Proof. unfold onlyAuthorizedKeeper, load. leave. Qed.
Lemma leaves_deactivate this e p : leaves f (deactivateProvider this e p).
Proof. unfold deactivateProvider, update. leave. Qed.
Lemma leaves_increase this e p n r : leaves f (increaseReputation this e p n r).
Proof. unfold increaseReputation, onlyAuthorizedKeeper, load, update. leave. Qed.
Lemma leaves_decrease this e p n r : leaves f (decreaseReputation this e p n r).
Proof. unfold decreaseReputation, onlyAuthorizedKeeper, deactivateProvider, load, update. leave. Qed.
#[local] Hint Resolve leaves_keeper leaves_deactivate leaves_increase leaves_decrease : chain.
Lemma leaves_dealCompleted this e p : leaves f (recordDealCompleted this e p).
Proof. unfold recordDealCompleted, load, update. leave. Qed.
Lemma leaves_dealFailed this e p : leaves f (recordDealFailed this e p).
Proof. unfold recordDealFailed, load, update. leave. Qed.
Lemma leaves_recordSlashing this e p : leaves f (recordSlashing this e p).
Proof. unfold recordSlashing, load, update. leave. Qed.
End Frame.
#[export] Hint Resolve leaves_increase leaves_decrease leaves_dealCompleted leaves_dealFailed
  leaves_recordSlashing : chain.
