(* ===== verification/Pool.v ===== *)
(** CapacityPledge.sol: collateral locked for a pledged capacity. *)

From S2P Require Import Prelude Contracts ChainRules Token.

Local Open Scope N_scope.

Definition DURATION_30_DAYS : N := days 30.
Definition DURATION_90_DAYS : N := days 90.
Definition DURATION_180_DAYS : N := days 180.
Definition DURATION_365_DAYS : N := days 365.
Definition MULTIPLIER_30 : N := 100.
Definition MULTIPLIER_90 : N := 110.
Definition MULTIPLIER_180 : N := 120.
Definition MULTIPLIER_365 : N := 130.
Definition EARLY_EXIT_PENALTY_PERCENT : N := 20.

Definition pool_created (e : env) (token : address) : CapacityPledge :=
  MkPool (msg_sender e) token ∅ ∅ 0 0.

(** [pledges[provider][pledgeId]] *)
Definition getPledge (p : CapacityPledge) (provider : address) (pledgeId : N) : Pledge :=
  at_ pledge0 (cp_pledges p) (provider, pledgeId).

Definition multiplier_of (duration : N) : option N :=
  if duration =? DURATION_30_DAYS then Some MULTIPLIER_30
  else if duration =? DURATION_90_DAYS then Some MULTIPLIER_90
  else if duration =? DURATION_180_DAYS then Some MULTIPLIER_180
  else if duration =? DURATION_365_DAYS then Some MULTIPLIER_365
  else None.

Section Operations.
  Context (this : address).

Definition load : M chain CapacityPledge := sload this.
Definition set_pledge (provider : address) (pledgeId : N) (f : Pledge → Pledge) : M chain unit :=
  sstore this (with_cp_pledges (λ m, <[(provider, pledgeId) := f (at_ pledge0 m (provider, pledgeId))]> m)).

Definition calculateMinimumCollateral (capacityGB duration : N) : M chain N :=
  x ← mul_u capacityGB 75;
  mul_u x (10 ^ 16).

Definition createPledge (e : env) (capacityGB duration collateralAmount : N) : M chain unit :=
  require (0 <? capacityGB) "Capacity must be > 0" ;;
  multiplier ← match multiplier_of duration with
               | Some m => mret m
               | None => revert "Invalid duration"
               end;
  minCollateral ← calculateMinimumCollateral capacityGB duration;
  require (minCollateral <=? collateralAmount) "Insufficient collateral" ;;
  p ← load;
  ok ← Token.transferFrom (cp_token p) (sent_by this e) (msg_sender e) this collateralAmount;
  require ok "Collateral transfer failed" ;;
  p ← load;
  let pledgeId := at_ 0 (cp_pledgeCount p) (msg_sender e) in
  next ← add_u pledgeId 1;
  sstore this (with_cp_pledgeCount (insert (msg_sender e) next)) ;;
  set_pledge (msg_sender e) pledgeId (λ _,
    MkPledge capacityGB collateralAmount (block_timestamp e) duration multiplier 0 true) ;;
  p ← load;
  total ← add_u (cp_totalPledgedCapacityGB p) capacityGB;
  sstore this (with_cp_totalPledgedCapacityGB (λ _, total)) ;;
  locked ← add_u (cp_totalActiveCollateral p) collateralAmount;
  sstore this (with_cp_totalActiveCollateral (λ _, locked)) ;;
  emit (PledgeCreated (msg_sender e) pledgeId capacityGB duration collateralAmount).

(** [pledge.active = false] and the two totals, in [completePledge] and
    [exitPledgeEarly]. *)
Definition release_pledge (provider : address) (pledgeId : N) (pledge : Pledge) : M chain unit :=
  set_pledge provider pledgeId (with_pg_active (λ _, false)) ;;
  p ← load;
  total ← sub_u (cp_totalPledgedCapacityGB p) (pg_capacityGB pledge);
  sstore this (with_cp_totalPledgedCapacityGB (λ _, total)) ;;
  locked ← sub_u (cp_totalActiveCollateral p) (pg_collateral pledge);
  sstore this (with_cp_totalActiveCollateral (λ _, locked)).

Definition completePledge (e : env) (pledgeId : N) : M chain unit :=
  p ← load;
  let pledge := getPledge p (msg_sender e) pledgeId in
  require (pg_active pledge) "Pledge not active" ;;
  finish ← add_u (pg_startTime pledge) (pg_duration pledge);
  require (finish <=? block_timestamp e) "Pledge period not complete" ;;
  let returnAmount := pg_collateral pledge in
  release_pledge (msg_sender e) pledgeId pledge ;;
  ok ← Token.transfer (cp_token p) (sent_by this e) (msg_sender e) returnAmount;
  require ok "Collateral return failed" ;;
  emit (PledgeCompleted (msg_sender e) pledgeId returnAmount).

(** The penalty of [exitPledgeEarly], with its floor of one per cent. *)
Definition exit_penalty (e : env) (pledge : Pledge) : M chain N :=
  elapsed ← sub_u (block_timestamp e) (pg_startTime pledge);
  remaining ← (if elapsed <? pg_duration pledge then sub_u (pg_duration pledge) elapsed else mret 0);
  x ← mul_u (pg_collateral pledge) remaining;
  y ← mul_u x EARLY_EXIT_PENALTY_PERCENT;
  d ← mul_u (pg_duration pledge) 100;
  penalty ← div_u y d;
  minPenalty ← div_u (pg_collateral pledge) 100;
  mret (if (penalty <? minPenalty) && (0 <? remaining) then minPenalty else penalty).

Definition exitPledgeEarly (e : env) (pledgeId : N) : M chain unit :=
  p ← load;
  let pledge := getPledge p (msg_sender e) pledgeId in
  require (pg_active pledge) "Pledge not active" ;;
  penalty ← exit_penalty e pledge;
  returnAmount ← sub_u (pg_collateral pledge) penalty;
  release_pledge (msg_sender e) pledgeId pledge ;;
  (if 0 <? penalty then Token.burn (cp_token p) (sent_by this e) penalty else mret tt) ;;
  (if 0 <? returnAmount then
     ok ← Token.transfer (cp_token p) (sent_by this e) (msg_sender e) returnAmount;
     require ok "Return failed"
   else mret tt) ;;
  emit (PledgeExitedEarly (msg_sender e) pledgeId penalty returnAmount).

Definition updateUtilization (e : env) (provider : address) (pledgeId newUtilizationGB : N) : M chain unit :=
  onlyOwner CapacityPledge this e ;;
  p ← load;
  let pledge := getPledge p provider pledgeId in
  require (pg_active pledge) "Pledge not active" ;;
  require (newUtilizationGB <=? pg_capacityGB pledge) "Utilization exceeds capacity" ;;
  set_pledge provider pledgeId (with_pg_utilizationGB (λ _, newUtilizationGB)) ;;
  emit (UtilizationUpdated provider pledgeId newUtilizationGB).

Definition getAvailableCapacity (provider : address) (pledgeId : N) : M chain N :=
  p ← load;
  let pledge := getPledge p provider pledgeId in
  if negb (pg_active pledge) then mret 0 else sub_u (pg_capacityGB pledge) (pg_utilizationGB pledge).
End Operations.
