(* ===== verification/Market.v ===== *)
(** StorageMarketplace.sol: deals, escrow, shards, retrievals, fees. *)

From S2P Require Import Prelude Contracts ChainRules Token Registry.

Local Open Scope N_scope.

Definition MAX_FEE_BASIS_POINTS : N := 1000.
Definition MIN_PRICE_USD : N := 5000.
Definition SHARDS_PER_FILE : N := 15.
Definition MIN_PROVIDERS : N := 10.
Definition GRACE_PERIOD : N := days 7.

Definition market_created (e : env) (token registry pledges treasury : address) : StorageMarketplace :=
  MkMarket (msg_sender e) false token registry pledges treasury 300 100000 0 address0 ∅ 0 ∅ ∅ 0.

(** [deals[dealId]], [retrievals[id]], [providerDeals[provider]] and
    [deal.shardAllocations[provider]]. *)
Definition deal_of (m : StorageMarketplace) (dealId : N) : Deal := at_ deal0 (mk_deals m) dealId.
Definition retrieval_of (m : StorageMarketplace) (id : N) : Retrieval :=
  at_ retrieval0 (mk_retrievals m) id.
Definition deals_of (m : StorageMarketplace) (provider : address) : list N :=
  at_ [] (mk_providerDeals m) provider.
Definition shard_of (d : Deal) (provider : address) : ShardAllocation :=
  at_ shard0 (dl_shardAllocations d) provider.

Definition getDeal (m : StorageMarketplace) (dealId : N)
    : address * string * N * N * N * N * N * N * DealStatus :=
  let deal := deal_of m dealId in
  (dl_client deal, dl_fileCID deal, dl_fileSizeGB deal, dl_duration deal, dl_totalCost deal,
   dl_startTime deal, dl_endTime deal, dl_activeShards deal, dl_status deal).
Definition getDealProviders (m : StorageMarketplace) (dealId : N) : list address :=
  dl_providers (deal_of m dealId).
Definition getShardAllocation (m : StorageMarketplace) (dealId : N) (provider : address) : ShardAllocation :=
  shard_of (deal_of m dealId) provider.
Definition getProviderDeals (m : StorageMarketplace) (provider : address) : list N := deals_of m provider.

(** The two states in which a deal runs. *)
Definition running_status (s : DealStatus) : bool :=
  bool_decide (s = Active) || bool_decide (s = InGracePeriod).

(** [providerDealList[i] = last; pop()] at the first [i] that holds the deal. *)
Fixpoint remove_deal (dealId : N) (l : list N) : list N :=
  match l with
  | [] => []
  | x :: l' => if x =? dealId then match last l' with
                                   | Some y => y :: take (length l' - 1) l'
                                   | None => []
                                   end
               else x :: remove_deal dealId l'
  end.

(** The first entry that is [old] becomes [new]. *)
Fixpoint replace_provider (old new : address) (l : list address) : list address :=
  match l with
  | [] => []
  | x :: l' => if bool_decide (x = old) then new :: l' else x :: replace_provider old new l'
  end.

Section Operations.
  Context (this : address).

Definition load : M chain StorageMarketplace := sload this.
Definition store (f : StorageMarketplace → StorageMarketplace) : M chain unit := sstore this f.
Definition set_deal (dealId : N) (f : Deal → Deal) : M chain unit :=
  store (with_mk_deals (λ m, <[dealId := f (at_ deal0 m dealId)]> m)).
Definition guarded {A} (m : M chain A) : M chain A := nonReentrant StorageMarketplace this m.

Definition initiateRetrieval (e : env) (dealId : N) (provider : address) (amount : N) : M chain N :=
  guarded (
    m ← load;
    require (bool_decide (dl_status (deal_of m dealId) = Active)) "Deal not active" ;;
    require (0 <? amount) "Amount must be > 0" ;;
    ok ← Token.transferFrom (mk_token m) (sent_by this e) (msg_sender e) this amount;
    require ok "Payment failed" ;;
    m ← load;
    let retrievalId := mk_retrievalCount m in
    next ← add_u retrievalId 1;
    store (with_mk_retrievalCount (λ _, next)) ;;
    store (with_mk_retrievals (insert retrievalId (MkRetrieval dealId (msg_sender e) provider amount false))) ;;
    emit (RetrievalInitiated retrievalId dealId (msg_sender e) provider amount) ;;
    mret retrievalId).

Definition claimRetrievalPayment (e : env) (retrievalId : N) : M chain unit :=
  guarded (
    m ← load;
    let retrieval := retrieval_of m retrievalId in
    require (negb (rt_completed retrieval)) "Already claimed" ;;
    require (bool_decide (msg_sender e = rt_provider retrieval)) "Not the provider" ;;
    store (with_mk_retrievals (insert retrievalId (with_rt_completed (λ _, true) retrieval))) ;;
    ok ← Token.transfer (mk_token m) (sent_by this e) (rt_provider retrieval) (rt_amount retrieval);
    require ok "Transfer failed" ;;
    emit (RetrievalClaimed retrievalId (msg_sender e))).

(** The loop that checks the selected providers: [seen] are those with a smaller
    index. *)
Fixpoint check_providers (registry : address) (seen ps : list address) : M chain unit :=
  match ps with
  | [] => mret tt
  | provider :: ps' =>
      require (bool_decide (provider ≠ address0)) "Invalid provider" ;;
      r ← sload (T := ProviderRegistry) registry;
      require (Registry.isProviderActive r provider) "Provider not active" ;;
      require (bool_decide (provider ∉ seen)) "Duplicate provider" ;;
      check_providers registry (seen ++ [provider]) ps'
  end.

(** [providerPayment], [protocolFee] and [totalCost] of [createDeal] and [renewDeal]. *)
Definition deal_cost (m : StorageMarketplace) (sizeGB pricePerGBMonth nDays : N) : M chain (N * N) :=
  d ← add_u nDays 29;
  let totalMonths := d / 30 in
  x ← mul_u sizeGB pricePerGBMonth;
  providerPayment ← mul_u x totalMonths;
  y ← mul_u providerPayment (mk_protocolFeeBasisPoints m);
  let protocolFee := y / 10000 in
  totalCost ← add_u providerPayment protocolFee;
  mret (protocolFee, totalCost).

(** One turn of the loop that assigns the shards. *)
Definition assign_shard (dealId : N) (params : DealParams) (i : nat) : M chain unit :=
  match dp_selectedProviders params !! i, dp_shardCIDs params !! i, dp_shardSizes params !! i with
  | Some p, Some cid, Some size =>
      set_deal dealId (with_dl_providers (λ l, l ++ [p])) ;;
      set_deal dealId (with_dl_shardAllocations (insert p (MkShard (N.of_nat i) cid size true))) ;;
      store (with_mk_providerDeals (λ m, <[p := at_ [] m p ++ [dealId]]> m)) ;;
      emit (ShardAssigned dealId p (N.of_nat i) cid)
  | _, _, _ => revert "panic 0x32"
  end.

Definition createDeal (e : env) (params : DealParams) : M chain N :=
  guarded (
    require (N.of_nat (length (dp_selectedProviders params)) =? SHARDS_PER_FILE) "Must have 15 providers" ;;
    require (N.of_nat (length (dp_shardCIDs params)) =? SHARDS_PER_FILE) "Must have 15 shard CIDs" ;;
    require (N.of_nat (length (dp_shardSizes params)) =? SHARDS_PER_FILE) "Must have 15 shard sizes" ;;
    require (MIN_PRICE_USD <=? dp_pricePerGBMonthUSD params) "Price too low" ;;
    m ← load;
    x ← mul_u (dp_pricePerGBMonthUSD params) (10 ^ 18);
    pricePerGBMonth ← div_u x (mk_kynPriceUSD m);
    check_providers (mk_registry m) [] (dp_selectedProviders params) ;;
    '(protocolFee, totalCost) ← deal_cost m (dp_fileSizeGB params) pricePerGBMonth (dp_durationDays params);
    ok ← Token.transferFrom (mk_token m) (sent_by this e) (msg_sender e) this totalCost;
    require ok "Payment failed" ;;
    m ← load;
    fees ← add_u (mk_totalFeesCollected m) protocolFee;
    store (with_mk_totalFeesCollected (λ _, fees)) ;;
    let dealId := mk_dealCount m in
    next ← add_u dealId 1;
    store (with_mk_dealCount (λ _, next)) ;;
    span ← mul_u (dp_durationDays params) (days 1);
    endTime ← add_u (block_timestamp e) span;
    set_deal dealId (λ d, MkDeal (msg_sender e) (dp_fileCID params) (dp_fileSizeGB params)
      (dp_durationDays params) pricePerGBMonth totalCost (block_timestamp e) endTime (dl_providers d)
      (dl_shardAllocations d) SHARDS_PER_FILE Active totalCost (dp_alertDays params)) ;;
    for_each (seq 0 (N.to_nat SHARDS_PER_FILE)) (assign_shard dealId params) ;;
    emit (DealCreated dealId (msg_sender e) (dp_fileSizeGB params) totalCost) ;;
    mret dealId).

(** [deal.shardAllocations[provider].active = false; deal.activeShards--] *)
Definition drop_shard (dealId : N) (provider : address) : M chain unit :=
  set_deal dealId (with_dl_shardAllocations (λ a,
    <[provider := with_sa_active (λ _, false) (at_ shard0 a provider)]> a)) ;;
  m ← load;
  n ← sub_u (dl_activeShards (deal_of m dealId)) 1;
  set_deal dealId (with_dl_activeShards (λ _, n)).

Definition completeDeal (e : env) (dealId : N) : M chain unit :=
  guarded (
    m ← load;
    let deal := deal_of m dealId in
    require (bool_decide (dl_status deal = Active)) "Deal not active" ;;
    require (dl_endTime deal <=? block_timestamp e) "Deal not expired" ;;
    require (MIN_PROVIDERS <=? dl_activeShards deal) "Too many shard failures" ;;
    set_deal dealId (with_dl_status (λ _, Completed)) ;;
    for_each (dl_providers deal) (λ provider,
      m ← load;
      if sa_active (shard_of (deal_of m dealId) provider) then
        Registry.recordDealCompleted (mk_registry m) (sent_by this e) provider ;;
        drop_shard dealId provider
      else mret tt) ;;
    m ← load;
    x ← mul_u (dl_totalCost (deal_of m dealId)) (mk_protocolFeeBasisPoints m);
    let protocolFee := x / 10000 in
    providerPayment ← sub_u (dl_escrowedAmount (deal_of m dealId)) protocolFee;
    set_deal dealId (with_dl_escrowedAmount (λ _, 0)) ;;
    (if (0 <? providerPayment) && bool_decide (mk_paymentDistributor m ≠ address0) then
       ok ← Token.transfer (mk_token m) (sent_by this e) (mk_paymentDistributor m) providerPayment;
       require ok "Provider payment transfer failed"
     else mret tt) ;;
    emit (DealCompleted dealId)).

Definition cancelDeal (e : env) (dealId : N) : M chain unit :=
  guarded (
    m ← load;
    let deal := deal_of m dealId in
    require (running_status (dl_status deal)) "Deal not active" ;;
    require (bool_decide (dl_client deal = msg_sender e)) "Not your deal" ;;
    set_deal dealId (with_dl_status (λ _, Cancelled)) ;;
    for_each (dl_providers deal) (λ provider,
      m ← load;
      if sa_active (shard_of (deal_of m dealId) provider) then drop_shard dealId provider
      else mret tt) ;;
    elapsed ← (if dl_startTime deal <? block_timestamp e then sub_u (block_timestamp e) (dl_startTime deal)
               else mret 0);
    totalDuration ← sub_u (dl_endTime deal) (dl_startTime deal);
    refundAmount ← (if (elapsed <? totalDuration) && (0 <? dl_escrowedAmount deal) then
                      remaining ← sub_u totalDuration elapsed;
                      x ← mul_u (dl_escrowedAmount deal) remaining;
                      div_u x totalDuration
                    else mret 0);
    (if 0 <? refundAmount then
       rest ← sub_u (dl_escrowedAmount deal) refundAmount;
       set_deal dealId (with_dl_escrowedAmount (λ _, rest)) ;;
       ok ← Token.transfer (mk_token m) (sent_by this e) (dl_client deal) refundAmount;
       require ok "Refund failed"
     else mret tt) ;;
    emit (DealCancelled dealId (dl_client deal))).

Definition renewDeal (e : env) (dealId additionalDays : N) : M chain unit :=
  guarded (
    m ← load;
    let deal := deal_of m dealId in
    require (running_status (dl_status deal)) "Deal not renewable" ;;
    require (bool_decide (dl_client deal = msg_sender e)) "Not your deal" ;;
    '(protocolFee, totalCost) ← deal_cost m (dl_fileSizeGB deal) (dl_pricePerGBMonth deal) additionalDays;
    ok ← Token.transferFrom (mk_token m) (sent_by this e) (msg_sender e) this totalCost;
    require ok "Payment failed" ;;
    fees ← add_u (mk_totalFeesCollected m) protocolFee;
    store (with_mk_totalFeesCollected (λ _, fees)) ;;
    span ← mul_u additionalDays (days 1);
    endTime ← add_u (dl_endTime deal) span;
    set_deal dealId (with_dl_endTime (λ _, endTime)) ;;
    duration ← add_u (dl_duration deal) additionalDays;
    set_deal dealId (with_dl_duration (λ _, duration)) ;;
    escrow ← add_u (dl_escrowedAmount deal) totalCost;
    set_deal dealId (with_dl_escrowedAmount (λ _, escrow)) ;;
    set_deal dealId (with_dl_status (λ _, Active)) ;;
    emit (DealRenewed dealId endTime totalCost)).

Definition reportLostShard (e : env) (dealId : N) (provider : address) : M chain unit :=
  onlyOwner StorageMarketplace this e ;;
  m ← load;
  let deal := deal_of m dealId in
  require (running_status (dl_status deal)) "Deal not active" ;;
  require (sa_active (shard_of deal provider)) "Shard already inactive" ;;
  drop_shard dealId provider ;;
  emit (ShardLost dealId provider (sa_shardIndex (shard_of deal provider))) ;;
  m ← load;
  if dl_activeShards (deal_of m dealId) <? MIN_PROVIDERS then
    set_deal dealId (with_dl_status (λ _, Failed)) ;;
    (let refundAmount := dl_escrowedAmount deal in
     if 0 <? refundAmount then
       set_deal dealId (with_dl_escrowedAmount (λ _, 0)) ;;
       ok ← Token.transfer (mk_token m) (sent_by this e) (dl_client deal) refundAmount;
       require ok "Refund failed"
     else mret tt) ;;
    emit (DealFailed dealId "Too many shard failures") ;;
    Registry.recordDealFailed (mk_registry m) (sent_by this e) provider
  else mret tt.

Definition repairShard (e : env) (dealId : N) (oldProvider newProvider : address) (newShardCID : string)
    : M chain unit :=
  onlyOwner StorageMarketplace this e ;;
  m ← load;
  let deal := deal_of m dealId in
  require (running_status (dl_status deal)) "Deal not active" ;;
  require (negb (sa_active (shard_of deal oldProvider))) "Old shard still active" ;;
  r ← sload (T := ProviderRegistry) (mk_registry m);
  require (Registry.isProviderActive r newProvider) "New provider not active" ;;
  let shardIndex := sa_shardIndex (shard_of deal oldProvider) in
  let shardSize := sa_sizeGB (shard_of deal oldProvider) in
  set_deal dealId (with_dl_shardAllocations (delete oldProvider)) ;;
  set_deal dealId (with_dl_shardAllocations (insert newProvider (MkShard shardIndex newShardCID shardSize true))) ;;
  set_deal dealId (with_dl_providers (replace_provider oldProvider newProvider)) ;;
  n ← add_u (dl_activeShards deal) 1;
  set_deal dealId (with_dl_activeShards (λ _, n)) ;;
  store (with_mk_providerDeals (λ m, <[newProvider := at_ [] m newProvider ++ [dealId]]> m)) ;;
  store (with_mk_providerDeals (λ m, <[oldProvider := remove_deal dealId (at_ [] m oldProvider)]> m)) ;;
  emit (ShardRepaired dealId newProvider shardIndex).

Definition setProtocolFee (e : env) (_feeBasisPoints : N) : M chain unit :=
  onlyOwner StorageMarketplace this e ;;
  require (_feeBasisPoints <=? MAX_FEE_BASIS_POINTS) "Fee too high" ;;
  store (with_mk_protocolFeeBasisPoints (λ _, _feeBasisPoints)) ;;
  emit (ProtocolFeeUpdated _feeBasisPoints).

Definition setTreasury (e : env) (_treasury : address) : M chain unit :=
  onlyOwner StorageMarketplace this e ;;
  require (bool_decide (_treasury ≠ address0)) "Invalid address" ;;
  store (with_mk_treasury (λ _, _treasury)) ;;
  emit (TreasuryUpdated _treasury).

Definition updateKynPrice (e : env) (_priceUSD : N) : M chain unit :=
  onlyOwner StorageMarketplace this e ;;
  require (0 <? _priceUSD) "Invalid price" ;;
  store (with_mk_kynPriceUSD (λ _, _priceUSD)) ;;
  emit (KynPriceUpdated _priceUSD).

Definition setPaymentDistributor (e : env) (_paymentDistributor : address) : M chain unit :=
  onlyOwner StorageMarketplace this e ;;
  m ← load;
  require (bool_decide (mk_paymentDistributor m = address0)) "Already set" ;;
  require (bool_decide (_paymentDistributor ≠ address0)) "Invalid address" ;;
  store (with_mk_paymentDistributor (λ _, _paymentDistributor)) ;;
  emit (PaymentDistributorUpdated _paymentDistributor).

Definition withdrawFees (e : env) : M chain unit :=
  onlyOwner StorageMarketplace this e ;;
  guarded (
    m ← load;
    let amount := mk_totalFeesCollected m in
    require (0 <? amount) "No fees to withdraw" ;;
    store (with_mk_totalFeesCollected (λ _, 0)) ;;
    ok ← Token.transfer (mk_token m) (sent_by this e) (mk_treasury m) amount;
    require ok "Transfer failed" ;;
    emit (FeesWithdrawn (mk_treasury m) amount)).
End Operations.
