(* ===== verification/Distributor.v ===== *)
(** PaymentDistributor.sol: rewards and their withdrawal. *)

From S2P Require Import Prelude Contracts ChainRules Token Registry Pool Market.

Local Open Scope N_scope.

Definition PROTOCOL_FEE_RATE : N := 300.
Definition RESERVE_RATE : N := 500.
Definition DISTRIBUTION_INTERVAL : N := days 30.

Definition distributor_created (e : env) (token marketplace pledges registry : address) : PaymentDistributor :=
  MkDistributor (msg_sender e) false token marketplace pledges registry
    1000000000000000 3000000000000000 100000000000000000 0 0 ∅ (block_timestamp e).

(** [earnings[provider]] *)
Definition earnings_of (d : PaymentDistributor) (provider : address) : ProviderEarnings :=
  at_ earnings0 (pd_earnings d) provider.

Section Operations.
  Context (this : address).

Definition load : M chain PaymentDistributor := sload this.
Definition store (f : PaymentDistributor → PaymentDistributor) : M chain unit := sstore this f.
Definition set_earnings (provider : address) (f : ProviderEarnings → ProviderEarnings) : M chain unit :=
  store (with_pd_earnings (λ m, <[provider := f (at_ earnings0 m provider)]> m)).
Definition guarded {A} (m : M chain A) : M chain A := nonReentrant PaymentDistributor this m.

Definition _getPledgeInfo (provider : address) (pledgeId : N) : M chain Pledge :=
  d ← load;
  p ← sload (T := CapacityPledge) (pd_pledges d);
  mret (Pool.getPledge p provider pledgeId).

(** [earnings[provider].x += amount] for one kind of reward and for the total. *)
Definition earn (get : ProviderEarnings → N)
    (set : (N → N) → ProviderEarnings → ProviderEarnings) (provider : address) (amount : N) : M chain unit :=
  d ← load;
  x ← add_u (get (earnings_of d provider)) amount;
  set_earnings provider (set (λ _, x)) ;;
  d ← load;
  y ← add_u (er_totalEarned (earnings_of d provider)) amount;
  set_earnings provider (with_er_totalEarned (λ _, y)).
Definition earn_capacity := earn er_capacityRewards with_er_capacityRewards.
Definition earn_usage := earn er_usageRewards with_er_usageRewards.
Definition earn_proof := earn er_proofBonuses with_er_proofBonuses.

Definition distributeCapacityRewards (e : env) (provider : address) (pledgeId : N) : M chain unit :=
  onlyOwner PaymentDistributor this e ;;
  guarded (
    pledge ← _getPledgeInfo provider pledgeId;
    require (pg_active pledge) "Pledge not active" ;;
    d ← load;
    r ← sload (T := ProviderRegistry) (pd_registry d);
    require (Registry.isProviderActive r provider) "Provider not active" ;;
    baseReward ← mul_u (pg_capacityGB pledge) (pd_capacityRatePerGBMonth d);
    x ← mul_u baseReward (pg_multiplier pledge);
    let reward := x / 100 in
    Token.mint (pd_token d) (sent_by this e) this reward ;;
    earn_capacity provider reward ;;
    emit (CapacityRewardPaid provider reward)).

Definition distributeUsageRewards (e : env) (dealId : N) : M chain unit :=
  onlyOwner PaymentDistributor this e ;;
  guarded (
    d ← load;
    m ← sload (T := StorageMarketplace) (pd_marketplace d);
    let '(_, _, _, _, totalCost, _, _, activeShards, status) := Market.getDeal m dealId in
    require (bool_decide (status = Completed)) "Deal not completed" ;;
    require (10 <=? activeShards) "Too many failures" ;;
    let providers := Market.getDealProviders m dealId in
    x ← mul_u totalCost PROTOCOL_FEE_RATE;
    let protocolFee := x / 10000 in
    y ← mul_u totalCost RESERVE_RATE;
    let reserve := y / 10000 in
    z ← sub_u totalCost protocolFee;
    providerPool ← sub_u z reserve;
    let perShardReward := providerPool / 15 in
    t ← sload (T := StorageToken) (pd_token d);
    require (providerPool <=? Token.balanceOf t this) "Insufficient balance for usage rewards" ;;
    fees ← add_u (pd_protocolFeeCollected d) protocolFee;
    store (with_pd_protocolFeeCollected (λ _, fees)) ;;
    saved ← add_u (pd_repairReserve d) reserve;
    store (with_pd_repairReserve (λ _, saved)) ;;
    emit (ProtocolFeeCollected protocolFee) ;;
    emit (RepairFunded reserve) ;;
    for_each providers (λ provider,
      m ← sload (T := StorageMarketplace) (pd_marketplace d);
      if sa_active (Market.getShardAllocation m dealId provider) then
        earn_usage provider perShardReward ;;
        emit (UsageRewardPaid provider dealId perShardReward)
      else mret tt)).

Definition payProofBonus (e : env) (provider : address) : M chain unit :=
  onlyOwner PaymentDistributor this e ;;
  d ← load;
  r ← sload (T := ProviderRegistry) (pd_registry d);
  require (Registry.isProviderActive r provider) "Provider not active" ;;
  earn_proof provider (pd_postBonusPerSubmission d) ;;
  Token.mint (pd_token d) (sent_by this e) this (pd_postBonusPerSubmission d) ;;
  emit (ProofBonusPaid provider (pd_postBonusPerSubmission d)).

Definition getAvailableEarnings (provider : address) : M chain N :=
  d ← load;
  sub_u (er_totalEarned (earnings_of d provider)) (er_totalWithdrawn (earnings_of d provider)).

Definition withdrawEarnings (e : env) : M chain unit :=
  guarded (
    d ← load;
    let earned := earnings_of d (msg_sender e) in
    available ← sub_u (er_totalEarned earned) (er_totalWithdrawn earned);
    require (0 <? available) "No earnings available" ;;
    x ← add_u (er_totalWithdrawn earned) available;
    set_earnings (msg_sender e) (with_er_totalWithdrawn (λ _, x)) ;;
    set_earnings (msg_sender e) (with_er_lastClaimTimestamp (λ _, block_timestamp e)) ;;
    ok ← Token.transfer (pd_token d) (sent_by this e) (msg_sender e) available;
    require ok "Transfer failed" ;;
    emit (RewardsWithdrawn (msg_sender e) available)).

Definition getEarningsBreakdown (provider : address) : M chain (N * N * N * N * N * N) :=
  d ← load;
  let e := earnings_of d provider in
  available ← sub_u (er_totalEarned e) (er_totalWithdrawn e);
  mret (er_capacityRewards e, er_usageRewards e, er_proofBonuses e, er_totalEarned e,
        er_totalWithdrawn e, available).

Definition withdrawProtocolFees (e : env) (recipient : address) : M chain unit :=
  onlyOwner PaymentDistributor this e ;;
  d ← load;
  require (0 <? pd_protocolFeeCollected d) "No fees to withdraw" ;;
  let amount := pd_protocolFeeCollected d in
  store (with_pd_protocolFeeCollected (λ _, 0)) ;;
  ok ← Token.transfer (pd_token d) (sent_by this e) recipient amount;
  require ok "Transfer failed".

Definition useRepairReserve (e : env) (newProvider : address) (amount : N) : M chain unit :=
  onlyOwner PaymentDistributor this e ;;
  d ← load;
  require (amount <=? pd_repairReserve d) "Insufficient reserve" ;;
  x ← sub_u (pd_repairReserve d) amount;
  store (with_pd_repairReserve (λ _, x)) ;;
  earn_usage newProvider amount.

Definition updateRates (e : env) (newCapacityRate newUsageRate newPostBonus : N) : M chain unit :=
  onlyOwner PaymentDistributor this e ;;
  store (with_pd_capacityRatePerGBMonth (λ _, newCapacityRate)) ;;
  store (with_pd_usageRatePerGBMonth (λ _, newUsageRate)) ;;
  store (with_pd_postBonusPerSubmission (λ _, newPostBonus)).
End Operations.
