(* ===== verification/Slashing.v ===== *)
(** SlashingManager.sol: penalties, their history, appeals. *)

From S2P Require Import Prelude Contracts ChainRules Token Registry.

Local Open Scope N_scope.

Definition MISSED_POST_PENALTY_RATE : N := 100.
Definition MAX_CONSECUTIVE_MISSES : N := 5.
Definition REPEAT_WINDOW : N := days 30.
Definition APPEAL_WINDOW : N := hours 48.

Definition slashing_created (e : env) (token registry : address) : SlashingManager :=
  MkSlashing (msg_sender e) token registry ∅ ∅ ∅.

Definition getPenaltyState (s : SlashingManager) (provider : address) : ProviderPenaltyState :=
  at_ penalty0 (sm_penaltyStates s) provider.
Definition getSlashingHistory (s : SlashingManager) (provider : address) : list SlashingRecord :=
  at_ [] (sm_slashingHistory s) provider.

Section Operations.
  Context (this : address).

Definition load : M chain SlashingManager := sload this.
Definition store (f : SlashingManager → SlashingManager) : M chain unit := sstore this f.
Definition set_state (provider : address) (f : ProviderPenaltyState → ProviderPenaltyState) : M chain unit :=
  store (with_sm_penaltyStates (λ m, <[provider := f (at_ penalty0 m provider)]> m)).
Definition set_record (provider : address) (i : N) (f : SlashingRecord → SlashingRecord) : M chain unit :=
  store (with_sm_slashingHistory (λ m,
    <[provider := alter f (N.to_nat i) (at_ [] m provider)]> m)).

Definition calculateRepeatMultiplier (e : env) (provider : address) : M chain N :=
  s ← load;
  let state := getPenaltyState s provider in
  since ← sub_u (block_timestamp e) (ps_lastSlashTime state);
  if REPEAT_WINDOW <? since then mret 1
  else
    multiplier ← pow_u 2 (ps_slashCountInWindow state);
    mret (if 8 <? multiplier then 8 else multiplier).

Definition _applySlashing (e : env) (provider : address) (amount : N) (reason : string) : M chain unit :=
  s ← load;
  Token.burnFrom (sm_token s) (sent_by this e) provider amount ;;
  let state := getPenaltyState s provider in
  total ← add_u (ps_totalSlashed state) amount;
  set_state provider (with_ps_totalSlashed (λ _, total)) ;;
  since ← sub_u (block_timestamp e) (ps_lastSlashTime state);
  count ← (if since <=? REPEAT_WINDOW then add_u (ps_slashCountInWindow state) 1 else mret 1);
  set_state provider (with_ps_slashCountInWindow (λ _, count)) ;;
  set_state provider (with_ps_lastSlashTime (λ _, block_timestamp e)) ;;
  s ← load;
  let recordIndex := N.of_nat (length (getSlashingHistory s provider)) in
  store (with_sm_slashingHistory (λ m,
    <[provider := at_ [] m provider ++ [MkSlash (block_timestamp e) amount reason false false]]> m)) ;;
  deadline ← add_u (block_timestamp e) APPEAL_WINDOW;
  store (with_sm_appealDeadlines (insert (provider, recordIndex) deadline)) ;;
  emit (ProviderSlashed provider amount reason).

Definition _deregisterProvider (provider : address) (reason : string) : M chain unit :=
  emit (ProviderDeregistered provider reason).

Definition slashMissedPost (e : env) (provider : address) (collateral : N) : M chain unit :=
  onlyOwner SlashingManager this e ;;
  s ← load;
  let state := getPenaltyState s provider in
  since ← sub_u (block_timestamp e) (ps_lastMissedPostTime state);
  misses ← (if since <=? hours 48 then add_u (ps_consecutiveMissedPosts state) 1 else mret 1);
  set_state provider (with_ps_consecutiveMissedPosts (λ _, misses)) ;;
  set_state provider (with_ps_lastMissedPostTime (λ _, block_timestamp e)) ;;
  x ← mul_u collateral MISSED_POST_PENALTY_RATE;
  let basePenalty := x / 10000 in
  multiplier ← calculateRepeatMultiplier e provider;
  penalty ← mul_u basePenalty multiplier;
  _applySlashing e provider penalty "Missed PoSt proof" ;;
  (if MAX_CONSECUTIVE_MISSES <=? misses then
     _deregisterProvider provider "Exceeded maximum consecutive missed proofs"
   else mret tt) ;;
  Registry.recordSlashing (sm_registry s) (sent_by this e) provider.

Definition slashDataLoss (e : env) (provider : address) (dealCollateral : N) : M chain unit :=
  onlyOwner SlashingManager this e ;;
  _applySlashing e provider dealCollateral "Data loss" ;;
  s ← load;
  Registry.decreaseReputation (sm_registry s) (sent_by this e) provider 50 "Data loss" ;;
  Registry.recordSlashing (sm_registry s) (sent_by this e) provider.

Definition slashEarlyExit (e : env) (provider : address) (penaltyAmount : N) : M chain unit :=
  onlyOwner SlashingManager this e ;;
  _applySlashing e provider penaltyAmount "Early pledge exit".

Definition submitAppeal (e : env) (slashingIndex : N) (evidence : string) : M chain unit :=
  s ← load;
  let history := getSlashingHistory s (msg_sender e) in
  require (slashingIndex <? N.of_nat (length history)) "Invalid index" ;;
  let record := default slash0 (history !! N.to_nat slashingIndex) in
  require (negb (sr_appealed record)) "Already appealed" ;;
  require (negb (sr_resolved record)) "Already resolved" ;;
  require (block_timestamp e <=? at_ 0 (sm_appealDeadlines s) (msg_sender e, slashingIndex))
    "Appeal window closed" ;;
  set_record (msg_sender e) slashingIndex (with_sr_appealed (λ _, true)) ;;
  emit (AppealSubmitted (msg_sender e) slashingIndex evidence).

Definition resolveAppeal (e : env) (provider : address) (slashingIndex : N) (upheld : bool) : M chain unit :=
  onlyOwner SlashingManager this e ;;
  s ← load;
  let history := getSlashingHistory s provider in
  require (slashingIndex <? N.of_nat (length history)) "Invalid index" ;;
  let record := default slash0 (history !! N.to_nat slashingIndex) in
  require (sr_appealed record) "Not appealed" ;;
  require (negb (sr_resolved record)) "Already resolved" ;;
  set_record provider slashingIndex (with_sr_resolved (λ _, true)) ;;
  (if negb upheld then
     Token.mint (sm_token s) (sent_by this e) provider (sr_amount record) ;;
     Registry.increaseReputation (sm_registry s) (sent_by this e) provider 10 "Appeal upheld"
   else mret tt) ;;
  emit (AppealResolved provider slashingIndex upheld).
End Operations.
