(* ===== verification/Verifier.v ===== *)
(** ProofVerifier.sol: proofs of replication and of spacetime. *)

From S2P Require Import Prelude Contracts ChainRules.

Local Open Scope N_scope.

Definition POST_INTERVAL : N := hours 24.
Definition GRACE_PERIOD : N := hours 2.
Definition CHALLENGE_SECTORS : N := 10.

Definition verifier_created (e : env) : ProofVerifier :=
  MkVerifier (msg_sender e) 20 ∅ ∅ 0 ∅ ∅ ∅.

(** The fixed-size arguments of [abi.encodePacked]. *)
Inductive packed : Type := Word (n : N) | Addr (a : address).

(** The hash of the machine, and the Merkle check of OpenZeppelin's library. *)
Class Hashing : Type := {
  keccak256 : list packed → N;
  merkle_verify : list N → N → N → bool      (* MerkleProof.verify(proof, root, leaf) *)
}.

(** Byte [i] of a [bytes32], and the word a [calldataload] reads. *)
Definition byte_of (value : N) (i : N) : N := (value / 256 ^ (31 - i)) mod 256.
Definition calldataload (data : list N) (offset : nat) : N :=
  foldl (λ acc b, acc * 256 + b) 0 (take 32 (drop offset data)).

Definition porep_of (v : ProofVerifier) (dealId : N) (provider : address) : PoRepProof :=
  at_ porep0 (pv_porepProofs v) (dealId, provider).
Definition challenge_of (v : ProofVerifier) (id : N) : PoStChallenge :=
  at_ challenge0 (pv_postChallenges v) id.

(** The loop over the full bytes returns at the first byte that is not zero. *)
Definition _hasLeadingZeroBits {S} (value bits : N) : M S bool :=
  require (bits <=? 256) "Invalid bit count" ;;
  let fullBytes := bits / 8 in
  if existsb (λ i, negb (byte_of value (N.of_nat i) =? 0)) (seq 0 (N.to_nat fullBytes)) then mret false
  else
    let remainingBits := bits mod 8 in
    if 0 <? remainingBits then
      let mask := N.shiftr 255 remainingBits in
      mret (N.land (byte_of value fullBytes) mask =? 0)
    else mret true.

Section Operations.
  Context `{Hashing} (this : address).

Definition load : M chain ProofVerifier := sload this.
Definition store (f : ProofVerifier → ProofVerifier) : M chain unit := sstore this f.
Definition set_challenge (id : N) (f : PoStChallenge → PoStChallenge) : M chain unit :=
  store (with_pv_postChallenges (λ m, <[id := f (at_ challenge0 m id)]> m)).

Definition setPoRepDifficulty (e : env) (bits : N) : M chain unit :=
  onlyOwner ProofVerifier this e ;;
  require (bits <=? 256) "Invalid difficulty" ;;
  store (with_pv_difficultyBits (λ _, bits)) ;;
  emit (DifficultyUpdated bits).

Definition _verifyPoRepProof (e : env) (sealedCID unsealedCID : N) (proofData : list N) : M chain bool :=
  if (length proofData <? 96)%nat then mret false
  else if (sealedCID =? 0) || (unsealedCID =? 0) then mret false
  else if sealedCID =? unsealedCID then mret false
  else
    let commitment := calldataload proofData 0 in
    let nonce := calldataload proofData 32 in
    let powHash := calldataload proofData 64 in
    v ← load;
    if at_ false (pv_usedPoRepNonces v) (msg_sender e, nonce) then mret false
    else
      let expectedCommitment := keccak256 [Word sealedCID; Addr (msg_sender e); Word (block_chainid e)] in
      if negb (commitment =? expectedCommitment) then mret false
      else
        let workHash := keccak256 [Word nonce; Word sealedCID; Word unsealedCID; Word (last_blockhash e)] in
        if negb (workHash =? powHash) then mret false
        else
          z ← _hasLeadingZeroBits powHash (pv_difficultyBits v);
          mret z.

Definition submitPoRep (e : env) (dealId sealedCID unsealedCID : N) (proofData : list N) : M chain unit :=
  v ← load;
  require (negb (po_verified (porep_of v dealId (msg_sender e)))) "PoRep already verified" ;;
  isValid ← _verifyPoRepProof e sealedCID unsealedCID proofData;
  require isValid "Invalid PoRep proof" ;;
  store (with_pv_porepProofs (insert (dealId, msg_sender e)
    (MkPoRep sealedCID unsealedCID (block_timestamp e) true))) ;;
  emit (PoRepSubmitted dealId (msg_sender e) sealedCID) ;;
  emit (PoRepVerified dealId (msg_sender e)).

Definition createPoStChallenge (e : env) (dealId : N) (provider : address) (leafIndices : list N)
    (seedCommitment : N) : M chain N :=
  onlyOwner ProofVerifier this e ;;
  require (N.of_nat (length leafIndices) =? CHALLENGE_SECTORS) "Invalid sector count" ;;
  v ← load;
  let challengeId := pv_challengeCount v in
  next ← add_u challengeId 1;
  store (with_pv_challengeCount (λ _, next)) ;;
  x ← add_u (block_timestamp e) POST_INTERVAL;
  deadline ← add_u x GRACE_PERIOD;
  store (with_pv_postChallenges (insert challengeId
    (MkChallenge dealId provider (block_timestamp e) deadline leafIndices false false false seedCommitment))) ;;
  emit (PoStChallengeCreated challengeId dealId provider) ;;
  mret challengeId.

Definition submitPoSt (e : env) (challengeId : N) (leafData : list N) (proofs : list (list N))
    (providerSeed : N) : M chain unit :=
  v ← load;
  let challenge := challenge_of v challengeId in
  require (bool_decide (pc_provider challenge = msg_sender e)) "Not challenge owner" ;;
  require (negb (pc_submitted challenge)) "Already submitted" ;;
  require (block_timestamp e <=? pc_deadline challenge) "Deadline passed" ;;
  require (N.of_nat (length leafData) =? CHALLENGE_SECTORS) "Invalid leaf count" ;;
  require (keccak256 [Word providerSeed] =? pc_commitment challenge) "Seed reveal does not match commitment" ;;
  let challengeEntropy := keccak256
    [Word providerSeed; Word challengeId; Word (pc_dealId challenge); Addr (msg_sender e)] in
  let root := po_sealedCID (porep_of v (pc_dealId challenge) (msg_sender e)) in
  require (negb (root =? 0)) "PoRep not found" ;;
  for_each (seq 0 (N.to_nat CHALLENGE_SECTORS)) (λ i,
    match leafData !! i, proofs !! i with
    | Some d, Some proof =>
        let leaf := keccak256 [Word d; Word challengeEntropy; Word (N.of_nat i)] in
        require (merkle_verify proof root leaf) "Invalid Merkle proof"
    | _, _ => revert "panic 0x32"
    end) ;;
  set_challenge challengeId (with_pc_submitted (λ _, true)) ;;
  set_challenge challengeId (with_pc_verified (λ _, true)) ;;
  store (with_pv_lastPostSubmission (insert (msg_sender e, pc_dealId challenge) (block_timestamp e))) ;;
  store (with_pv_consecutiveMisses (insert (msg_sender e) 0)) ;;
  emit (PoStSubmitted challengeId (msg_sender e)) ;;
  emit (PoStVerified challengeId).

Definition checkMissedPoSt (e : env) (challengeId : N) : M chain bool :=
  onlyOwner ProofVerifier this e ;;
  v ← load;
  let challenge := challenge_of v challengeId in
  require (pc_deadline challenge <? block_timestamp e) "Deadline not passed" ;;
  require (negb (pc_submitted challenge)) "Already submitted" ;;
  require (negb (pc_checked challenge)) "Already checked" ;;
  set_challenge challengeId (with_pc_checked (λ _, true)) ;;
  misses ← add_u (at_ 0 (pv_consecutiveMisses v) (pc_provider challenge)) 1;
  store (with_pv_consecutiveMisses (insert (pc_provider challenge) misses)) ;;
  emit (PoStMissed challengeId (pc_provider challenge)) ;;
  mret true.

Definition markNonceUsed (e : env) (provider : address) (nonce : N) : M chain unit :=
  onlyOwner ProofVerifier this e ;;
  store (with_pv_usedPoRepNonces (insert (provider, nonce) true)).

Definition needsPoSt (e : env) (provider : address) (dealId : N) : M chain bool :=
  v ← load;
  let lastSubmission := at_ 0 (pv_lastPostSubmission v) (provider, dealId) in
  if lastSubmission =? 0 then mret true
  else
    next ← add_u lastSubmission POST_INTERVAL;
    mret (next <=? block_timestamp e).
End Operations.

Definition getPoRepProof (v : ProofVerifier) (dealId : N) (provider : address) : N * N * N * bool :=
  let proof := porep_of v dealId provider in
  (po_sealedCID proof, po_unsealedCID proof, po_timestamp proof, po_verified proof).
Definition getPoStChallenge (v : ProofVerifier) (challengeId : N) : N * address * N * N * bool * bool :=
  let challenge := challenge_of v challengeId in
  (pc_dealId challenge, pc_provider challenge, pc_challengeTimestamp challenge, pc_deadline challenge,
   pc_submitted challenge, pc_verified challenge).
Definition getChallengeIndices (v : ProofVerifier) (challengeId : N) : list N :=
  pc_leafIndices (challenge_of v challengeId).
Definition getConsecutiveMisses (v : ProofVerifier) (provider : address) : N :=
  at_ 0 (pv_consecutiveMisses v) provider.
