(* ===== verification/Vesting.v ===== *)
(** TokenVesting.sol: gradual release with a cliff, and revocation. *)

From S2P Require Import Prelude Contracts ChainRules Token.

Local Open Scope N_scope.

(** The constructor, which refuses the zero address. *)
Definition vesting_created (e : env) (token : address) : option TokenVesting :=
  if bool_decide (token = address0) then None
  else Some (MkVesting (msg_sender e) false token ∅ []).

Definition schedule_of (v : TokenVesting) (beneficiary : address) : VestingSchedule :=
  at_ schedule0 (tv_vestingSchedules v) beneficiary.

Section Operations.
  Context (this : address).

Definition load : M chain TokenVesting := sload this.
Definition store (f : TokenVesting → TokenVesting) : M chain unit := sstore this f.
Definition set_schedule (beneficiary : address) (f : VestingSchedule → VestingSchedule) : M chain unit :=
  store (with_tv_vestingSchedules (λ m, <[beneficiary := f (at_ schedule0 m beneficiary)]> m)).

Definition createVestingSchedule (e : env) (_beneficiary : address) (_start _cliff _duration _amount : N)
    : M chain unit :=
  onlyOwner TokenVesting this e ;;
  require (bool_decide (_beneficiary ≠ address0)) "TokenVesting: beneficiary is the zero address" ;;
  require (0 <? _amount) "TokenVesting: amount must be greater than 0" ;;
  v ← load;
  require (vs_totalAmount (schedule_of v _beneficiary) =? 0) "TokenVesting: schedule already exists" ;;
  cliffTimestamp ← add_u _start _cliff;
  set_schedule _beneficiary (λ _,
    MkSchedule _beneficiary _start cliffTimestamp _duration _amount 0 false) ;;
  store (with_tv_beneficiaries (λ l, l ++ [_beneficiary])) ;;
  emit (VestingScheduleCreated _beneficiary _amount _start cliffTimestamp _duration).

Definition _calculateVestedAmount (e : env) (schedule : VestingSchedule) : M chain N :=
  if block_timestamp e <? vs_cliff schedule then mret 0
  else
    finish ← add_u (vs_start schedule) (vs_duration schedule);
    if finish <=? block_timestamp e then mret (vs_totalAmount schedule)
    else
      elapsed ← sub_u (block_timestamp e) (vs_start schedule);
      x ← mul_u (vs_totalAmount schedule) elapsed;
      div_u x (vs_duration schedule).

Definition release (e : env) : M chain unit :=
  nonReentrant TokenVesting this (
    v ← load;
    let schedule := schedule_of v (msg_sender e) in
    require (0 <? vs_totalAmount schedule) "TokenVesting: no vesting schedule found" ;;
    require (negb (vs_revoked schedule)) "TokenVesting: vesting schedule revoked" ;;
    vestedAmount ← _calculateVestedAmount e schedule;
    releasableAmount ← sub_u vestedAmount (vs_releasedAmount schedule);
    require (0 <? releasableAmount) "TokenVesting: no tokens releasable" ;;
    x ← add_u (vs_releasedAmount schedule) releasableAmount;
    set_schedule (msg_sender e) (with_vs_releasedAmount (λ _, x)) ;;
    ok ← Token.transfer (tv_token v) (sent_by this e) (vs_beneficiary schedule) releasableAmount;
    require ok "TokenVesting: transfer failed" ;;
    emit (TokensReleased (vs_beneficiary schedule) releasableAmount)).

Definition revoke (e : env) (_beneficiary : address) : M chain unit :=
  onlyOwner TokenVesting this e ;;
  v ← load;
  let schedule := schedule_of v _beneficiary in
  require (0 <? vs_totalAmount schedule) "TokenVesting: no vesting schedule found" ;;
  require (negb (vs_revoked schedule)) "TokenVesting: vesting schedule already revoked" ;;
  set_schedule _beneficiary (with_vs_revoked (λ _, true)) ;;
  unvestedAmount ← sub_u (vs_totalAmount schedule) (vs_releasedAmount schedule);
  (if 0 <? unvestedAmount then
     ok ← Token.transfer (tv_token v) (sent_by this e) (tv_owner v) unvestedAmount;
     require ok "TokenVesting: refund failed"
   else mret tt) ;;
  emit (VestingScheduleRevoked _beneficiary).

Definition getReleasableAmount (e : env) (_beneficiary : address) : M chain N :=
  v ← load;
  let schedule := schedule_of v _beneficiary in
  if (vs_totalAmount schedule =? 0) || vs_revoked schedule then mret 0
  else
    vested ← _calculateVestedAmount e schedule;
    sub_u vested (vs_releasedAmount schedule).
End Operations.
