(* ===== verification/Protocol.v ===== *)
(** All contracts together: every external function as a call, transactions, and
    the invariants every sequence of transactions keeps. *)

From S2P Require Import Prelude Contracts ChainRules Token Registry Pool Market Distributor Slashing Verifier Vesting.

Local Open Scope N_scope.

(** * Calls *)

Inductive token_call : Type :=
| TTransfer (to : address) (value : N)
| TApprove (spender : address) (value : N)
| TTransferFrom (from to : address) (value : N)
| TMint (to : address) (amount : N)
| TBurn (amount : N)
| TBurnFrom (from : address) (amount : N)
| TAuthorizeBurner (burner : address)
| TRevokeBurner (burner : address)
| TAuthorizeMinter (minter : address)
| TRevokeMinter (minter : address)
| TUpdateInflationRate
| TBatchTransfer (recipients : list address) (amounts : list N).

Inductive registry_call : Type :=
| RRegister (peerId endpoint region : string) (minPriceUSD : N)
| RUpdate (endpoint region : string) (minPriceUSD : N)
| RUpdateCapacity (provider : address) (newTotalCapacityGB : N)
| RIncrease (provider : address) (amount : N) (reason : string)
| RDecrease (provider : address) (amount : N) (reason : string)
| RAuthorizeKeeper (keeper : address)
| RRevokeKeeper (keeper : address)
| RDealCompleted (provider : address)
| RDealFailed (provider : address)
| RSlashing (provider : address)
| RReactivate.

Inductive pool_call : Type :=
| PCreate (capacityGB duration collateralAmount : N)
| PComplete (pledgeId : N)
| PExit (pledgeId : N)
| PUtilization (provider : address) (pledgeId newUtilizationGB : N).

Inductive market_call : Type :=
| MInitiateRetrieval (dealId : N) (provider : address) (amount : N)
| MClaimRetrieval (retrievalId : N)
| MCreateDeal (params : DealParams)
| MCompleteDeal (dealId : N)
| MCancelDeal (dealId : N)
| MRenewDeal (dealId additionalDays : N)
| MReportLostShard (dealId : N) (provider : address)
| MRepairShard (dealId : N) (oldProvider newProvider : address) (newShardCID : string)
| MSetProtocolFee (feeBasisPoints : N)
| MSetTreasury (treasury : address)
| MUpdateKynPrice (priceUSD : N)
| MSetPaymentDistributor (distributor : address)
| MWithdrawFees.

Inductive distributor_call : Type :=
| DCapacity (provider : address) (pledgeId : N)
| DUsage (dealId : N)
| DProofBonus (provider : address)
| DWithdraw
| DWithdrawFees (recipient : address)
| DUseReserve (newProvider : address) (amount : N)
| DUpdateRates (newCapacityRate newUsageRate newPostBonus : N).

Inductive slashing_call : Type :=
| SMissedPost (provider : address) (collateral : N)
| SDataLoss (provider : address) (dealCollateral : N)
| SEarlyExit (provider : address) (penaltyAmount : N)
| SAppeal (slashingIndex : N) (evidence : string)
| SResolve (provider : address) (slashingIndex : N) (upheld : bool).

Inductive verifier_call : Type :=
| VSetDifficulty (bits : N)
| VSubmitPoRep (dealId sealedCID unsealedCID : N) (proofData : list N)
| VCreateChallenge (dealId : N) (provider : address) (leafIndices : list N) (seedCommitment : N)
| VSubmitPoSt (challengeId : N) (leafData : list N) (proofs : list (list N)) (providerSeed : N)
| VCheckMissed (challengeId : N)
| VMarkNonce (provider : address) (nonce : N).

Inductive vesting_call : Type :=
| WCreate (beneficiary : address) (start cliff duration amount : N)
| WRelease
| WRevoke (beneficiary : address).

Inductive kind : Type :=
| KToken | KRegistry | KPool | KMarket | KDistributor | KSlashing | KVerifier | KVesting.

(** A call names the contract; every contract is Ownable. *)
Inductive call : Type :=
| CallToken (this : address) (k : token_call)
| CallRegistry (this : address) (k : registry_call)
| CallPool (this : address) (k : pool_call)
| CallMarket (this : address) (k : market_call)
| CallDistributor (this : address) (k : distributor_call)
| CallSlashing (this : address) (k : slashing_call)
| CallVerifier (this : address) (k : verifier_call)
| CallVesting (this : address) (k : vesting_call)
| CallTransferOwnership (k : kind) (this newOwner : address)
| CallRenounceOwnership (k : kind) (this : address).

Definition discard {A} (m : M chain A) : M chain unit := m ;; mret tt.

Definition run_token (e : env) (this : address) (k : token_call) : M chain unit :=
  match k with
  | TTransfer to v => discard (Token.transfer this e to v)
  | TApprove s v => discard (Token.approve this e s v)
  | TTransferFrom a b v => discard (Token.transferFrom this e a b v)
  | TMint to v => Token.mint this e to v
  | TBurn v => Token.burn this e v
  | TBurnFrom a v => Token.burnFrom this e a v
  | TAuthorizeBurner b => Token.authorizeBurner this e b
  | TRevokeBurner b => Token.revokeBurner this e b
  | TAuthorizeMinter b => Token.authorizeMinter this e b
  | TRevokeMinter b => Token.revokeMinter this e b
  | TUpdateInflationRate => Token.updateInflationRate this e
  | TBatchTransfer rs vs => Token.batchTransfer this e rs vs
  end.

Definition run_registry (e : env) (this : address) (k : registry_call) : M chain unit :=
  match k with
  | RRegister peer ep reg price => Registry.registerProvider this e peer ep reg price
  | RUpdate ep reg price => Registry.updateProvider this e ep reg price
  | RUpdateCapacity p n => Registry.updateCapacity this e p n
  | RIncrease p n r => Registry.increaseReputation this e p n r
  | RDecrease p n r => Registry.decreaseReputation this e p n r
  | RAuthorizeKeeper a => Registry.authorizeRecordKeeper this e a
  | RRevokeKeeper a => Registry.revokeRecordKeeper this e a
  | RDealCompleted p => Registry.recordDealCompleted this e p
  | RDealFailed p => Registry.recordDealFailed this e p
  | RSlashing p => Registry.recordSlashing this e p
  | RReactivate => Registry.reactivateProvider this e
  end.

Definition run_pool (e : env) (this : address) (k : pool_call) : M chain unit :=
  match k with
  | PCreate cap dur coll => Pool.createPledge this e cap dur coll
  | PComplete i => Pool.completePledge this e i
  | PExit i => Pool.exitPledgeEarly this e i
  | PUtilization p i u => Pool.updateUtilization this e p i u
  end.

Definition run_market (e : env) (this : address) (k : market_call) : M chain unit :=
  match k with
  | MInitiateRetrieval d p a => discard (Market.initiateRetrieval this e d p a)
  | MClaimRetrieval i => Market.claimRetrievalPayment this e i
  | MCreateDeal params => discard (Market.createDeal this e params)
  | MCompleteDeal d => Market.completeDeal this e d
  | MCancelDeal d => Market.cancelDeal this e d
  | MRenewDeal d n => Market.renewDeal this e d n
  | MReportLostShard d p => Market.reportLostShard this e d p
  | MRepairShard d old new cid => Market.repairShard this e d old new cid
  | MSetProtocolFee n => Market.setProtocolFee this e n
  | MSetTreasury a => Market.setTreasury this e a
  | MUpdateKynPrice n => Market.updateKynPrice this e n
  | MSetPaymentDistributor a => Market.setPaymentDistributor this e a
  | MWithdrawFees => Market.withdrawFees this e
  end.

Definition run_distributor (e : env) (this : address) (k : distributor_call) : M chain unit :=
  match k with
  | DCapacity p i => Distributor.distributeCapacityRewards this e p i
  | DUsage d => Distributor.distributeUsageRewards this e d
  | DProofBonus p => Distributor.payProofBonus this e p
  | DWithdraw => Distributor.withdrawEarnings this e
  | DWithdrawFees a => Distributor.withdrawProtocolFees this e a
  | DUseReserve p n => Distributor.useRepairReserve this e p n
  | DUpdateRates x y z => Distributor.updateRates this e x y z
  end.

Definition run_slashing (e : env) (this : address) (k : slashing_call) : M chain unit :=
  match k with
  | SMissedPost p n => Slashing.slashMissedPost this e p n
  | SDataLoss p n => Slashing.slashDataLoss this e p n
  | SEarlyExit p n => Slashing.slashEarlyExit this e p n
  | SAppeal i ev => Slashing.submitAppeal this e i ev
  | SResolve p i u => Slashing.resolveAppeal this e p i u
  end.

Definition run_vesting (e : env) (this : address) (k : vesting_call) : M chain unit :=
  match k with
  | WCreate b s cl d a => Vesting.createVestingSchedule this e b s cl d a
  | WRelease => Vesting.release this e
  | WRevoke b => Vesting.revoke this e b
  end.

Section Calls.
  Context `{Hashing}.

Definition run_verifier (e : env) (this : address) (k : verifier_call) : M chain unit :=
  match k with
  | VSetDifficulty n => Verifier.setPoRepDifficulty this e n
  | VSubmitPoRep d s u data => Verifier.submitPoRep this e d s u data
  | VCreateChallenge d p is_ c => discard (Verifier.createPoStChallenge this e d p is_ c)
  | VSubmitPoSt i data proofs seed => Verifier.submitPoSt this e i data proofs seed
  | VCheckMissed i => discard (Verifier.checkMissedPoSt this e i)
  | VMarkNonce p n => Verifier.markNonceUsed this e p n
  end.

Definition run_call (e : env) (k : call) : M chain unit :=
  match k with
  | CallToken this k => run_token e this k
  | CallRegistry this k => run_registry e this k
  | CallPool this k => run_pool e this k
  | CallMarket this k => run_market e this k
  | CallDistributor this k => run_distributor e this k
  | CallSlashing this k => run_slashing e this k
  | CallVerifier this k => run_verifier e this k
  | CallVesting this k => run_vesting e this k
  | CallTransferOwnership k this a =>
      match k with
      | KToken => transferOwnership StorageToken this e a
      | KRegistry => transferOwnership ProviderRegistry this e a
      | KPool => transferOwnership CapacityPledge this e a
      | KMarket => transferOwnership StorageMarketplace this e a
      | KDistributor => transferOwnership PaymentDistributor this e a
      | KSlashing => transferOwnership SlashingManager this e a
      | KVerifier => transferOwnership ProofVerifier this e a
      | KVesting => transferOwnership TokenVesting this e a
      end
  | CallRenounceOwnership k this =>
      match k with
      | KToken => renounceOwnership StorageToken this e
      | KRegistry => renounceOwnership ProviderRegistry this e
      | KPool => renounceOwnership CapacityPledge this e
      | KMarket => renounceOwnership StorageMarketplace this e
      | KDistributor => renounceOwnership PaymentDistributor this e
      | KSlashing => renounceOwnership SlashingManager this e
      | KVerifier => renounceOwnership ProofVerifier this e
      | KVesting => renounceOwnership TokenVesting this e
      end
  end.

(** A block of transactions, in order; those that revert change nothing. *)
Definition apply_tx (c : chain) (tx : env * call) : chain :=
  snd (transact (run_call (fst tx) (snd tx)) c).
Definition apply_txs (c : chain) (txs : list (env * call)) : chain := foldl apply_tx c txs.

(** An invariant of every call is an invariant of every sequence of transactions. *)
Lemma apply_txs_keeps (I : chain → Prop) (ok : env → call → Prop) :
    (∀ e k, ok e k → keeps I (run_call e k)) →
    ∀ txs c, Forall (λ tx, ok (fst tx) (snd tx)) txs → I c → I (apply_txs c txs).
Proof.
    intros Hk txs. induction txs as [|tx txs IH]; intros c Htxs Hc; [done|].
    apply Forall_cons in Htxs as [Htx Htxs]. apply IH; [done|].
    by apply (transact_keeps I _ (Hk _ _ Htx)).
  Qed.
End Calls.

(** * What each contract leaves alone *)

(** [open_<kind>]: the bodies of the functions of a contract. *)
Ltac open_pool :=
  unfold run_pool, Pool.createPledge, Pool.completePledge, Pool.exitPledgeEarly, Pool.updateUtilization,
    Pool.calculateMinimumCollateral, Pool.exit_penalty, Pool.release_pledge, Pool.set_pledge, Pool.load.
Ltac open_market :=
  unfold run_market, discard, Market.initiateRetrieval, Market.claimRetrievalPayment, Market.createDeal,
    Market.completeDeal, Market.cancelDeal, Market.renewDeal, Market.reportLostShard, Market.repairShard,
    Market.setProtocolFee, Market.setTreasury, Market.updateKynPrice, Market.setPaymentDistributor,
    Market.withdrawFees, Market.deal_cost, Market.assign_shard, Market.drop_shard, Market.set_deal,
    Market.guarded, Market.load, Market.store, nonReentrant.
Ltac open_distributor :=
  unfold run_distributor, Distributor.distributeCapacityRewards, Distributor.distributeUsageRewards,
    Distributor.payProofBonus, Distributor.withdrawEarnings, Distributor.withdrawProtocolFees,
    Distributor.useRepairReserve, Distributor.updateRates, Distributor._getPledgeInfo, Distributor.earn_capacity,
    Distributor.earn_usage, Distributor.earn_proof, Distributor.earn, Distributor.set_earnings,
    Distributor.guarded, Distributor.load, Distributor.store, nonReentrant.
Ltac open_slashing :=
  unfold run_slashing, Slashing.slashMissedPost, Slashing.slashDataLoss, Slashing.slashEarlyExit,
    Slashing.submitAppeal, Slashing.resolveAppeal, Slashing._applySlashing, Slashing._deregisterProvider,
    Slashing.calculateRepeatMultiplier, Slashing.set_state, Slashing.set_record, Slashing.load, Slashing.store.
Ltac open_verifier :=
  unfold run_verifier, discard, Verifier.setPoRepDifficulty, Verifier.submitPoRep, Verifier._verifyPoRepProof,
    Verifier._hasLeadingZeroBits, Verifier.createPoStChallenge, Verifier.submitPoSt, Verifier.checkMissedPoSt,
    Verifier.markNonceUsed, Verifier.set_challenge, Verifier.load, Verifier.store.
Ltac open_vesting :=
  unfold run_vesting, Vesting.createVestingSchedule, Vesting.release, Vesting.revoke,
    Vesting._calculateVestedAmount, Vesting.set_schedule, Vesting.load, Vesting.store, nonReentrant.

Section Frames.
  Context `{Hashing} {B : Type} (f : chain → B).

Lemma leaves_run_token `{!IgnoresEvents f ByToken}
      `{!∀ a, Ignores f StorageToken a} e this k : leaves f (run_token e this k).
Proof. destruct k; unfold run_token, discard, Token.batchTransfer; leave. Qed.

Lemma leaves_run_registry `{!IgnoresEvents f ByRegistry}
      `{!∀ a, Ignores f ProviderRegistry a} e this k : leaves f (run_registry e this k).
Proof.
    destruct k; unfold run_registry, Registry.registerProvider, Registry.updateProvider,
      Registry.updateCapacity, Registry.authorizeRecordKeeper, Registry.revokeRecordKeeper,
      Registry.reactivateProvider, Registry.load, Registry.update; leave.
  Qed.

Lemma leaves_run_pool `{!IgnoresEvents f ByToken} `{!IgnoresEvents f ByPool}
      `{!∀ a, Ignores f StorageToken a} e this k `{!Ignores f CapacityPledge this} :
    leaves f (run_pool e this k).
Proof.
    destruct k; open_pool; leave.
  Qed.

Lemma leaves_run_market `{!IgnoresEvents f ByToken} `{!IgnoresEvents f ByRegistry} `{!IgnoresEvents f ByMarket}
      `{!∀ a, Ignores f StorageToken a} `{!∀ a, Ignores f ProviderRegistry a}
      e this k `{!Ignores f StorageMarketplace this} : leaves f (run_market e this k).
Proof.
    assert (∀ r ps seen, leaves f (Market.check_providers r seen ps)) as Hc.
    { intros r ps. induction ps as [|p ps IH]; intros seen; simpl; leave. }
    destruct k; open_market; leave.
  Qed.

Lemma leaves_run_distributor `{!IgnoresEvents f ByToken} `{!IgnoresEvents f ByDistributor}
      `{!∀ a, Ignores f StorageToken a} e this k `{!Ignores f PaymentDistributor this} :
    leaves f (run_distributor e this k).
Proof.
    destruct k; open_distributor; leave.
  Qed.

Lemma leaves_run_slashing `{!IgnoresEvents f ByToken} `{!IgnoresEvents f ByRegistry} `{!IgnoresEvents f BySlashing}
      `{!∀ a, Ignores f StorageToken a} `{!∀ a, Ignores f ProviderRegistry a}
      e this k `{!Ignores f SlashingManager this} : leaves f (run_slashing e this k).
Proof.
    destruct k; open_slashing; leave.
  Qed.

Lemma leaves_run_verifier `{!IgnoresEvents f ByVerifier}
      e this k `{!Ignores f ProofVerifier this} : leaves f (run_verifier e this k).
Proof.
    destruct k; open_verifier; leave.
  Qed.

Lemma leaves_run_vesting `{!IgnoresEvents f ByToken} `{!IgnoresEvents f ByVesting}
      `{!∀ a, Ignores f StorageToken a} e this k `{!Ignores f TokenVesting this} :
    leaves f (run_vesting e this k).
Proof.
    destruct k; open_vesting; leave.
  Qed.
End Frames.
#[export] Hint Resolve leaves_run_token leaves_run_registry leaves_run_pool leaves_run_market
  leaves_run_distributor leaves_run_slashing leaves_run_verifier leaves_run_vesting : chain.

(** * The supply of the token *)

Section Supply.
  Context `{Hashing}.

Lemma supply_run_token e this k : keeps supply_ok (run_token e this k).
Proof. destruct k; unfold run_token, discard; keep_supply. Qed.
Lemma supply_run_pool e this k : keeps supply_ok (run_pool e this k).
Proof.
    destruct k; open_pool; keep_supply.
  Qed.
Lemma supply_run_market e this k : keeps supply_ok (run_market e this k).
Proof.
    assert (∀ r ps seen, keeps supply_ok (Market.check_providers r seen ps)) as Hc.
    { intros r ps. induction ps as [|p ps IH]; intros seen; simpl; keep_supply. }
    destruct k; open_market; keep_supply.
  Qed.
Lemma supply_run_distributor e this k : keeps supply_ok (run_distributor e this k).
Proof.
    destruct k; open_distributor; keep_supply.
  Qed.
Lemma supply_run_slashing e this k : keeps supply_ok (run_slashing e this k).
Proof.
    destruct k; open_slashing; keep_supply.
  Qed.
Lemma supply_run_vesting e this k : keeps supply_ok (run_vesting e this k).
Proof.
    destruct k; open_vesting; keep_supply.
  Qed.

Lemma supply_run_call e k : keeps supply_ok (run_call e k).
Proof.
    destruct k as [| | | | | | | |k ? ?|k ?]; simpl;
      auto using supply_run_token, supply_run_pool, supply_run_market, supply_run_distributor,
        supply_run_slashing, supply_run_vesting;
      try solve [apply supply_leaves; eauto with chain];
      destruct k; unfold transferOwnership, renounceOwnership, _transferOwnership; keep_supply.
  Qed.
End Supply.


(** The addresses where contracts of one kind live, and the storage of another
    instance, as views. *)
#[export] Hint Extern 1 (Ignores (λ c, dom (_ c)) _ _) =>
  (intros ? ?; simpl; apply dom_alter_L) : chain typeclass_instances.
#[export] Hint Extern 1 (Ignores (λ c, _ c !! _) _ _) =>
  (intros ? ?; simpl; apply lookup_alter_ne; assumption) : chain typeclass_instances.

Section Addresses.
  Context `{Hashing} {B : Type} (f : chain → B) `{!IgnoresLogs f} `{!∀ a, Ignores f StorageToken a}
    `{!∀ a, Ignores f ProviderRegistry a} `{!∀ a, Ignores f CapacityPledge a}
    `{!∀ a, Ignores f StorageMarketplace a} `{!∀ a, Ignores f PaymentDistributor a}
    `{!∀ a, Ignores f SlashingManager a} `{!∀ a, Ignores f ProofVerifier a}
    `{!∀ a, Ignores f TokenVesting a}.
Lemma leaves_run_call e k : leaves f (run_call e k).
Proof.
    destruct k as [| | | | | | | |k ? ?|k ?]; simpl; eauto with chain typeclass_instances;
      destruct k; unfold transferOwnership, renounceOwnership, _transferOwnership; leave.
  Qed.
End Addresses.

(** * The supply over transactions *)

(** C8. Whatever transactions are sent to the contracts, the supply of a token is the
    sum of its balances and never exceeds the maximum; so no balance overflows and
    the unchecked arithmetic of ERC20.sol is exact. *)
Theorem supply_is_conserved `{Hashing} c txs :
  supply_ok c → ∀ a t, c_tokens (apply_txs c txs) !! a = Some t →
  msum (λ _ v, v) (tk_balances t) = tk_totalSupply t ∧ tk_totalSupply t ≤ MAX_SUPPLY ∧
  ∀ x, balanceOf t x ≤ MAX_SUPPLY.
Proof.
  intros Hc a t Ht.
  assert (supply_ok (apply_txs c txs)) as Hs.
  { apply (apply_txs_keeps supply_ok (λ _ _, True)); [|by apply Forall_true|done].
    intros. apply supply_run_call. }
  pose proof (Hs a t Ht) as [E Hm]. split_and!; [done|done|]. intros x.
  pose proof (balance_bounded t x (conj E Hm)). lia.
Qed.

Definition one_token : chain :=
  Chain {[ "T" := token_created (Env "owner" 0 31337 0) ]} ∅ ∅ ∅ ∅ ∅ ∅ ∅ [] ∅.
Definition some_hashing : Hashing := {| keccak256 := λ _, 1; merkle_verify := λ _ _ _, true |}.
Definition mint_and_move : list (env * call) :=
  [(Env "owner" 1 31337 0, CallToken "T" (TAuthorizeMinter "owner"));
   (Env "owner" 2 31337 0, CallToken "T" (TMint "alice" 7));
   (Env "alice" 3 31337 0, CallToken "T" (TTransfer "bob" 5))].

Lemma supply_is_conserved_witness :
  let t := default (token_created (Env "owner" 0 31337 0))
             (c_tokens (apply_txs (H := some_hashing) one_token mint_and_move) !! "T") in
  balanceOf t "alice" = 2 ∧
  msum (λ _ v, v) (tk_balances t) = tk_totalSupply t ∧ tk_totalSupply t ≤ MAX_SUPPLY ∧
  ∀ x, balanceOf t x ≤ MAX_SUPPLY.
Proof.
  split; [by vm_compute|].
  apply (supply_is_conserved (H := some_hashing) one_token mint_and_move
    ltac:(by apply map_Forall_singleton, token_created_ok) "T").
  vm_compute. reflexivity.
Defined.
