(* ===== verification/Collateral.v ===== *)
(** The collateral of the pledges: what CapacityPledge.sol owes is locked in it,
    over every sequence of transactions of all contracts. *)

From S2P Require Import Prelude Contracts ChainRules Token Registry Pool Market Distributor Slashing Verifier Vesting Protocol.

Local Open Scope N_scope.

(** * Tokens of an account that never acts *)

(** [T] has [n] tokens of [a], and [a] has allowed nobody to spend them. *)
Definition holds (T a : address) (n : N) (c : chain) : Prop :=
  supply_ok c ∧ ∃ t, c_tokens c !! T = Some t ∧ n ≤ balanceOf t a ∧ ∀ s, allowance t a s = 0.

Section Holds.
  Context (T a : address) (n : N).

Lemma holds_leaves {A} (m : M chain A) : leaves c_tokens m → keeps (holds T a n) m.
Proof. intros Hm c r c' Hc Hr. unfold holds, supply_ok. by rewrite (Hm _ _ _ Hr). Qed.

(** A token operation keeps [holds] when it keeps it on the token it changes. *)
Lemma holds_insert this t t' c c' :
    supply_ok c' → c_tokens c !! this = Some t → c_tokens c' = <[this := t']> (c_tokens c) →
    balanceOf t a ≤ balanceOf t' a → (∀ s, allowance t a s = 0 → allowance t' a s = 0) →
    holds T a n c → holds T a n c'.
Proof.
    intros Hs Ht E Hb Ha [_ (t0 & H0 & Hn & Hall)]. split; [done|]. rewrite E.
    destruct (decide (T = this)) as [->|Hne].
    - simplify_eq. exists t'. rewrite lookup_insert_eq. split_and!; [done|lia|auto].
    - exists t0. by rewrite lookup_insert_ne.
  Qed.

Lemma holds_transfer this e b v : msg_sender e ≠ a → keeps (holds T a n) (Token.transfer this e b v).
Proof.
    intros He c r c' Hc Hr. pose proof (supply_transfer _ _ _ _ _ _ _ (proj1 Hc) Hr) as Hs.
    apply transfer_returns in Hr as (t & Ht & Hv & _ & _ & _ & E).
    destruct (moved_spec t (msg_sender e) b v (proj1 Hc _ _ Ht) Hv) as [_ Hx]. specialize (Hx a).
    apply (holds_insert this t _ c c' Hs Ht E); [|done|done].
    rewrite decide_False in Hx by congruence. destruct (decide (a = b)); lia.
  Qed.

Lemma holds_transferFrom this e b d v : keeps (holds T a n) (Token.transferFrom this e b d v).
Proof.
    intros c r c' Hc Hr. pose proof (supply_transferFrom _ _ _ _ _ _ _ _ (proj1 Hc) Hr) as Hs.
    apply transferFrom_returns in Hr as (t & Ht & Hv & _ & _ & Hal & _ & E).
    destruct (moved_spec (spent b (msg_sender e) v t) b d v) as [_ Hx];
      [by apply spent_ok, (proj1 Hc _ _ Ht)|by rewrite spent_balance|].
    specialize (Hx a). rewrite spent_balance in Hx.
    destruct (decide (T = this)) as [HT|Hne].
    2: { destruct Hc as [_ (t0 & H0 & Hn & Hall)]. split; [done|]. rewrite E.
         exists t0. by rewrite lookup_insert_ne. }
    assert (∀ s, allowance t a s = 0) as Hall by (destruct Hc as [_ (t0 & H0 & _ & ?)]; rewrite HT in H0; by simplify_eq).
    assert (a = b → v = 0) as Hz.
    { intros ->. rewrite Hall in Hal. assert (0 < MAX_UINT) as Hm by by vm_compute. specialize (Hal Hm). lia. }
    apply (holds_insert this t _ c c' Hs Ht E); [..|done].
    - destruct (decide (a = b)) as [Hab|]; [rewrite (Hz Hab) in *|]; destruct (decide (a = d)); lia.
    - intros s _. change (allowance (spent b (msg_sender e) v t) a s = 0).
      unfold spent. destruct (_ <? _); [|apply Hall].
      destruct (decide ((b, msg_sender e) = (a, s))) as [Hk|Hk].
      + unfold allowance at 1, at_. simpl. rewrite Hk, lookup_insert_eq. simpl.
        simplify_eq. rewrite (Hz eq_refl), Hall. by vm_compute.
      + unfold allowance, at_. simpl. rewrite lookup_insert_ne by done. apply Hall.
  Qed.

Lemma holds_mint this e b v : keeps (holds T a n) (Token.mint this e b v).
Proof.
    intros c r c' Hc Hr. pose proof (supply_mint _ _ _ _ _ _ _ (proj1 Hc) Hr) as Hs.
    apply mint_returns in Hr as (t & Ht & _ & Hv & _ & E).
    destruct (minted_spec t b v (proj1 Hc _ _ Ht) Hv) as (_ & _ & Hx). specialize (Hx a).
    apply (holds_insert this t _ c c' Hs Ht E); [lia|done|done].
  Qed.

Lemma holds_burn this e v : msg_sender e ≠ a → keeps (holds T a n) (Token.burn this e v).
Proof.
    intros He c r c' Hc Hr. pose proof (supply_burn _ _ _ _ _ _ (proj1 Hc) Hr) as Hs.
    apply burn_returns in Hr as (t & Ht & Hv & _ & E).
    destruct (burned_spec t _ v (proj1 Hc _ _ Ht) Hv) as (_ & _ & Hx). specialize (Hx a).
    rewrite decide_False in Hx by congruence.
    apply (holds_insert this t _ c c' Hs Ht E); [lia|done|done].
  Qed.

Lemma holds_burnFrom this e b v : b ≠ a → keeps (holds T a n) (Token.burnFrom this e b v).
Proof.
    intros He c r c' Hc Hr. pose proof (supply_burnFrom _ _ _ _ _ _ _ (proj1 Hc) Hr) as Hs.
    apply burnFrom_returns in Hr as (t & Ht & _ & Hv & _ & E).
    destruct (burned_spec t _ v (proj1 Hc _ _ Ht) Hv) as (_ & _ & Hx). specialize (Hx a).
    rewrite decide_False in Hx by congruence.
    apply (holds_insert this t _ c c' Hs Ht E); [lia|done|done].
  Qed.

Lemma holds_approve this e s v : msg_sender e ≠ a → keeps (holds T a n) (Token.approve this e s v).
Proof.
    intros He c r c' Hc Hr. pose proof (supply_approve _ _ _ _ _ _ _ (proj1 Hc) Hr) as Hs.
    apply approve_returns in Hr as (t & [[Ht E]|E]).
    - apply (holds_insert this t _ c c' Hs Ht E); [done| |done].
      intros s' Hz. unfold allowance, at_. simpl. rewrite lookup_insert_ne by congruence. exact Hz.
    - destruct Hc as [_ Hc]. split; [done|]. by rewrite E.
  Qed.

(** Writes that touch neither balances, supply nor allowances. *)
Lemma holds_store this f :
    (∀ t, tk_balances (f t) = tk_balances t ∧ tk_totalSupply (f t) = tk_totalSupply t ∧
          tk_allowances (f t) = tk_allowances t) → keeps (holds T a n) (Token.store this f).
Proof.
    intros Hf c r c' Hc Hr.
    assert (supply_ok c') as Hs.
    { refine (supply_store this f _ c r c' (proj1 Hc) Hr). intros t. unfold token_ok.
      by destruct (Hf t) as (-> & -> & _). }
    unfold Token.store in Hr. run_inv. split; [done|]. destruct Hc as [_ (t & Ht & Hn & Hall)].
    destruct (Hf t) as (Hb & _ & Hal). simpl. destruct (decide (T = this)) as [->|Hne].
    - exists (f t). rewrite lookup_alter_eq, Ht. unfold balanceOf, allowance in *. by rewrite Hb, Hal.
    - exists t. by rewrite lookup_alter_ne.
  Qed.
End Holds.
#[export] Hint Resolve holds_transferFrom holds_mint : chain.
#[export] Hint Resolve holds_transfer holds_burn holds_burnFrom holds_approve : chain.

Ltac keep_holds := keep @holds_leaves; try (apply holds_store; done).

(** No call burns tokens of [a]: burning is the one operation on the tokens of
    another account that needs no allowance. *)
Definition spares (a : address) (k : call) : bool :=
  match k with
  | CallToken _ (TBurnFrom from _) => negb (bool_decide (from = a))
  | CallSlashing _ (SMissedPost p _ | SDataLoss p _ | SEarlyExit p _) => negb (bool_decide (p = a))
  | _ => true
  end.

(** The contract a call is for. *)
Definition callee (k : call) : address :=
  match k with
  | CallToken this _ | CallRegistry this _ | CallPool this _ | CallMarket this _
  | CallDistributor this _ | CallSlashing this _ | CallVerifier this _ | CallVesting this _
  | CallTransferOwnership _ this _ | CallRenounceOwnership _ this => this
  end.

Section HoldsCalls.
  Context `{Hashing} (T a : address) (n : N).
  #[local] Abbreviation I := (holds T a n).

Lemma holds_run_token e this k :
    msg_sender e ≠ a → spares a (CallToken this k) = true → keeps I (run_token e this k).
Proof.
    intros He Hk. destruct k; simpl in Hk; unfold run_token, discard, Token.batchTransfer,
      Token.authorizeBurner, Token.revokeBurner, Token.authorizeMinter, Token.revokeMinter,
      Token.updateInflationRate, Token.load;
      try apply negb_true_iff, bool_decide_eq_false in Hk; keep_holds.
  Qed.
Lemma holds_run_pool e this k : this ≠ a → keeps I (run_pool e this k).
Proof.
    intros Ha. destruct k; open_pool; keep_holds.
  Qed.
Lemma holds_run_market e this k : this ≠ a → keeps I (run_market e this k).
Proof.
    intros Ha. assert (∀ r ps seen, keeps I (Market.check_providers r seen ps)) as Hc.
    { intros r ps. induction ps as [|p ps IH]; intros seen; simpl; keep_holds. }
    destruct k; open_market; keep_holds.
  Qed.
Lemma holds_run_distributor e this k : this ≠ a → keeps I (run_distributor e this k).
Proof.
    intros Ha. destruct k; open_distributor; keep_holds.
  Qed.
Lemma holds_run_slashing e this k :
    spares a (CallSlashing this k) = true → keeps I (run_slashing e this k).
Proof.
    intros Hk. destruct k; simpl in Hk; open_slashing;
      try apply negb_true_iff, bool_decide_eq_false in Hk; keep_holds.
  Qed.
Lemma holds_run_vesting e this k : this ≠ a → keeps I (run_vesting e this k).
Proof.
    intros Ha. destruct k; open_vesting; keep_holds.
  Qed.

(** An account that sends nothing and is no contract of the call keeps its tokens. *)
Lemma holds_run_call e k :
    msg_sender e ≠ a → callee k ≠ a → spares a k = true → keeps I (run_call e k).
Proof.
    intros He Hk Hs. destruct k as [| | | | | | | |k ? ?|k ?]; simpl in *;
      auto using holds_run_token, holds_run_pool, holds_run_market, holds_run_distributor,
        holds_run_slashing, holds_run_vesting;
      try solve [apply holds_leaves; eauto with chain];
      destruct k; unfold transferOwnership, renounceOwnership, _transferOwnership; keep_holds.
  Qed.
End HoldsCalls.

(** * The pledges of a pool *)

Definition locked (_ : address * N) (pl : Pledge) : N := if pg_active pl then pg_collateral pl else 0.
Definition offered (_ : address * N) (pl : Pledge) : N := if pg_active pl then pg_capacityGB pl else 0.

(** The totals are the sums over the active pledges; identifiers are never reused. *)
Definition pool_ok (p : CapacityPledge) : Prop :=
  msum locked (cp_pledges p) = cp_totalActiveCollateral p ∧
  msum offered (cp_pledges p) = cp_totalPledgedCapacityGB p ∧
  ∀ a i, is_Some (cp_pledges p !! (a, i)) → i < at_ 0 (cp_pledgeCount p) a.

Definition solvent (T P : address) (c : chain) : Prop :=
  ∃ p, c_pools c !! P = Some p ∧ cp_token p = T ∧ pool_ok p ∧
       holds T P (cp_totalActiveCollateral p) c.

(** ** Effects on the storage of the pool *)

Definition pledge_added (who : address) (pl : Pledge) (p : CapacityPledge) : CapacityPledge :=
  let i := at_ 0 (cp_pledgeCount p) who in
  MkPool (cp_owner p) (cp_token p) (<[(who, i) := pl]> (cp_pledges p))
    (<[who := i + 1]> (cp_pledgeCount p)) (cp_totalPledgedCapacityGB p + pg_capacityGB pl)
    (cp_totalActiveCollateral p + pg_collateral pl).
Definition pledge_ended (who : address) (i : N) (p : CapacityPledge) : CapacityPledge :=
  let pl := getPledge p who i in
  MkPool (cp_owner p) (cp_token p) (<[(who, i) := with_pg_active (λ _, false) pl]> (cp_pledges p))
    (cp_pledgeCount p) (cp_totalPledgedCapacityGB p - pg_capacityGB pl)
    (cp_totalActiveCollateral p - pg_collateral pl).

Lemma pledge_added_ok who pl p : pool_ok p → pg_active pl = true → pool_ok (pledge_added who pl p).
Proof.
  intros (Hl & Ho & Hid) Hpl. unfold pool_ok, pledge_added. simpl.
  set (i := at_ 0 (cp_pledgeCount p) who).
  assert (cp_pledges p !! (who, i) = None) as Hnew.
  { apply eq_None_not_Some. intros Hs. apply Hid in Hs. fold i in Hs. lia. }
  rewrite !msum_insert_new by done. unfold locked at 1, offered at 1. rewrite Hpl.
  split_and!; [lia|lia|]. intros a j Hs. unfold at_.
  destruct (decide (a = who)) as [->|Ha].
  - rewrite lookup_insert_eq. simpl. destruct (decide (j = i)) as [->|Hj]; [lia|].
    rewrite lookup_insert_ne in Hs by congruence. apply Hid in Hs. fold i in Hs. lia.
  - rewrite lookup_insert_ne in Hs by congruence. rewrite lookup_insert_ne by done. by apply Hid.
Qed.

Lemma active_pledge_stored p who i : pg_active (getPledge p who i) = true →
  cp_pledges p !! (who, i) = Some (getPledge p who i).
Proof. unfold getPledge, at_. by destruct (cp_pledges p !! (who, i)). Qed.

Lemma active_pledge_counted p who i : pool_ok p → pg_active (getPledge p who i) = true →
  pg_collateral (getPledge p who i) ≤ cp_totalActiveCollateral p ∧
  pg_capacityGB (getPledge p who i) ≤ cp_totalPledgedCapacityGB p.
Proof.
  intros (Hl & Ho & _) Hpl. pose proof (active_pledge_stored _ _ _ Hpl) as Hs. split.
  - pose proof (msum_term locked _ _ _ Hs) as Ht. unfold locked at 1 in Ht. rewrite Hpl in Ht. lia.
  - pose proof (msum_term offered _ _ _ Hs) as Ht. unfold offered at 1 in Ht. rewrite Hpl in Ht. lia.
Qed.

Lemma pledge_ended_ok who i p : pool_ok p → pg_active (getPledge p who i) = true →
  pool_ok (pledge_ended who i p).
Proof.
  intros Hok Hpl. pose proof (active_pledge_stored _ _ _ Hpl) as Hs.
  destruct Hok as (Hl & Ho & Hid). unfold pool_ok, pledge_ended. simpl.
  set (pl := getPledge p who i) in *.
  pose proof (msum_insert locked (cp_pledges p) (who, i) (with_pg_active (λ _, false) pl)) as H1.
  pose proof (msum_insert offered (cp_pledges p) (who, i) (with_pg_active (λ _, false) pl)) as H2.
  rewrite Hs in H1, H2. simpl in H1, H2. unfold locked at 2 4 in H1. unfold offered at 2 4 in H2.
  simpl in H1, H2. rewrite Hpl in H1, H2. split_and!; [lia|lia|].
  intros a j Hj. destruct (decide ((a, j) = (who, i))) as [[= -> ->]|Hne]; [by apply Hid|].
  rewrite lookup_insert_ne in Hj by congruence. by apply Hid.
Qed.

Lemma createPledge_returns P e cap dur coll u c c' :
  createPledge P e cap dur coll c = (Ok u, c') →
  ∃ p m c1, c_pools c !! P = Some p ∧ multiplier_of dur = Some m ∧ 0 < cap ∧
    cap * 75 * 10 ^ 16 ≤ coll ∧
    Token.transferFrom (cp_token p) (sent_by P e) (msg_sender e) P coll c = (Ok true, c1) ∧
    c_pools c' = <[P := pledge_added (msg_sender e)
                     (MkPledge cap coll (block_timestamp e) dur m 0 true) p]> (c_pools c) ∧
    c_tokens c' = c_tokens c1.
Proof.
  unfold createPledge, calculateMinimumCollateral, set_pledge, Pool.load. intros Hr.
  destruct (multiplier_of dur) as [m|]; run_inv.
  match goal with
  | H : Token.transferFrom _ _ _ _ _ _ = (Ok _, ?c2) |- _ =>
      pose proof (leaves_token_transferFrom c_pools _ _ _ _ _ _ _ _ H) as Hl
  end.
  settle. rewrite Hl in *. settle. eexists _, m, _. split_and!; [done|done|lia|done|eassumption| |done].
  rewrite !alter_alter_eq. erewrite alter_alt_Some by eassumption. done.
Qed.

Lemma release_pledge_returns P who i p u c c' :
  c_pools c !! P = Some p →
  release_pledge P who i (getPledge p who i) c = (Ok u, c') →
  c_pools c' = <[P := pledge_ended who i p]> (c_pools c) ∧ c_tokens c' = c_tokens c.
Proof.
  unfold release_pledge, set_pledge, Pool.load. intros Hp Hr. run_inv. settle. split; [|done].
  rewrite !alter_alter_eq. erewrite alter_alt_Some by eassumption. done.
Qed.

Lemma completePledge_returns P e i u c c' :
  completePledge P e i c = (Ok u, c') →
  ∃ p c1 c2, c_pools c !! P = Some p ∧
    pg_active (getPledge p (msg_sender e) i) = true ∧
    pg_startTime (getPledge p (msg_sender e) i) + pg_duration (getPledge p (msg_sender e) i)
      ≤ block_timestamp e ∧
    c_tokens c1 = c_tokens c ∧
    Token.transfer (cp_token p) (sent_by P e) (msg_sender e)
      (pg_collateral (getPledge p (msg_sender e) i)) c1 = (Ok true, c2) ∧
    c_pools c' = <[P := pledge_ended (msg_sender e) i p]> (c_pools c) ∧ c_tokens c' = c_tokens c2.
Proof.
  unfold completePledge, Pool.load. intros Hr. run_inv.
  match goal with
  | Hp : slot c !! P = Some ?p, H : release_pledge _ _ _ _ _ = (Ok _, ?c1),
    Ht : Token.transfer _ _ _ _ ?c1 = (Ok _, ?c2) |- _ =>
      destruct (release_pledge_returns P _ i p _ _ _ Hp H) as [Hpool Htok];
      pose proof (leaves_token_transfer c_pools _ _ _ _ _ _ _ Ht) as Hl; exists p, c1, c2
  end.
  settle. split_and!; try done. by rewrite Hl.
Qed.

Lemma exitPledgeEarly_returns P e i u c c' :
  exitPledgeEarly P e i c = (Ok u, c') →
  ∃ p penalty c1 c2 c3, let pl := getPledge p (msg_sender e) i in
    c_pools c !! P = Some p ∧ pg_active pl = true ∧
    exit_penalty e pl c = (Ok penalty, c) ∧ penalty ≤ pg_collateral pl ∧
    c_tokens c1 = c_tokens c ∧
    (if 0 <? penalty then Token.burn (cp_token p) (sent_by P e) penalty else mret tt) c1 = (Ok tt, c2) ∧
    (if 0 <? pg_collateral pl - penalty
     then discard (Token.transfer (cp_token p) (sent_by P e) (msg_sender e) (pg_collateral pl - penalty))
     else mret tt) c2 = (Ok tt, c3) ∧
    c_pools c' = <[P := pledge_ended (msg_sender e) i p]> (c_pools c) ∧ c_tokens c' = c_tokens c3.
Proof.
  unfold exitPledgeEarly, Pool.load. intros Hr. run_step Hr. run_step H. run_step Hr. run_step H0.
  run_step Hr. run_step Hr. run_step H2. do 3 (run_step Hr). run_step Hr.
  rename a into p, a1 into penalty.
  assert (c0 = c) as -> by (unfold exit_penalty in H1; by run_inv).
  destruct (release_pledge_returns P _ i p _ _ _ H H3) as [Hpool Htok].
  assert (c_pools c2 = c_pools c1) as Hb.
  { destruct (0 <? penalty); [exact (leaves_token_burn c_pools _ _ _ _ _ _ H4) | by run_inv]. }
  destruct a3. exists p, penalty, c1, c2, c3.
  destruct (0 <? pg_collateral (getPledge p (msg_sender e) i) - penalty).
  - run_step H5. pose proof (leaves_token_transfer c_pools _ _ _ _ _ _ _ H6) as Hl. run_step H5.
    split_and!; try done; [|simpl; by rewrite Hl, Hb]. unfold discard. by rewrite (bind_ok _ _ _ _ _ H6).
  - run_step H5. split_and!; try done. simpl. by rewrite Hb.
Qed.

(** ** The operations of the pool keep it solvent *)

Section Solvency.
  Context (T P : address).

Lemma solvent_intro p c : c_pools c !! P = Some p → cp_token p = T → pool_ok p →
    holds T P (cp_totalActiveCollateral p) c → solvent T P c.
Proof. intros. by exists p. Qed.

(** Tokens that leave the pool account, or reach it. *)
Lemma holds_out e b v n r c c' :
    msg_sender e = P → v ≤ n → holds T P n c → Token.transfer T e b v c = (Ok r, c') →
    holds T P (n - v) c'.
Proof.
    intros He Hvn Hc Hr. pose proof (supply_transfer _ _ _ _ _ _ _ (proj1 Hc) Hr) as Hs.
    apply transfer_returns in Hr as (t & Ht & Hv & _ & _ & _ & E).
    destruct (moved_spec t (msg_sender e) b v (proj1 Hc _ _ Ht) Hv) as [_ Hx]. specialize (Hx P).
    destruct Hc as [_ (t0 & H0 & Hn & Hall)]. assert (t0 = t) as -> by congruence. split; [done|].
    exists (moved (msg_sender e) b v t). rewrite E, lookup_insert_eq. split_and!; [done| |exact Hall].
    rewrite He, (decide_True (P := P = P)) in Hx by done. rewrite He. destruct (decide (P = b)); lia.
  Qed.
Lemma holds_burned e v n r c c' :
    msg_sender e = P → v ≤ n → holds T P n c → Token.burn T e v c = (Ok r, c') → holds T P (n - v) c'.
Proof.
    intros He Hvn Hc Hr. pose proof (supply_burn _ _ _ _ _ _ (proj1 Hc) Hr) as Hs.
    apply burn_returns in Hr as (t & Ht & Hv & _ & E).
    destruct (burned_spec t (msg_sender e) v (proj1 Hc _ _ Ht) Hv) as (_ & _ & Hx). specialize (Hx P).
    destruct Hc as [_ (t0 & H0 & Hn & Hall)]. assert (t0 = t) as -> by congruence. split; [done|].
    exists (burned (msg_sender e) v t). rewrite E, lookup_insert_eq. split_and!; [done| |exact Hall].
    rewrite He, decide_True in Hx by done. rewrite He. lia.
  Qed.
Lemma holds_in e b v n r c c' :
    b ≠ P → holds T P n c → Token.transferFrom T e b P v c = (Ok r, c') → holds T P (n + v) c'.
Proof.
    intros Hb Hc Hr. pose proof (holds_transferFrom T P n _ _ _ _ _ _ _ _ Hc Hr) as [Hs (t1 & H1 & _ & Hall)].
    split; [done|]. exists t1. split_and!; [done| |done].
    apply transferFrom_returns in Hr as (t & Ht & Hv & _ & _ & _ & _ & E).
    destruct (moved_spec (spent b (msg_sender e) v t) b P v) as [_ Hx];
      [by apply spent_ok, (proj1 Hc _ _ Ht)|by rewrite spent_balance|].
    specialize (Hx P). rewrite spent_balance in Hx. rewrite E, lookup_insert_eq in H1. injection H1 as <-.
    destruct Hc as [_ (t0 & H0 & Hn & _)]. assert (t0 = t) as -> by congruence.
    rewrite decide_False, decide_True in Hx by done. lia.
  Qed.

Lemma holds_same n c c' : c_tokens c' = c_tokens c → holds T P n c → holds T P n c'.
Proof. unfold holds, supply_ok. by intros ->. Qed.
Lemma holds_le n n' c : n' ≤ n → holds T P n c → holds T P n' c.
Proof. intros Hn [Hs (t & Ht & Hb & Ha)]. split; [done|]. exists t. split_and!; [done|lia|done]. Qed.

Lemma solvent_create e cap dur coll : msg_sender e ≠ P →
    keeps (solvent T P) (Pool.createPledge P e cap dur coll).
Proof.
    intros He c u c' (p & Hp & Htk & Hok & Hh) Hr.
    apply createPledge_returns in Hr as (p' & m & c1 & Hp' & Hm & Hc & Hmin & Ht & E1 & E2).
    assert (p' = p) as -> by congruence. rewrite Htk in Ht.
    refine (solvent_intro _ c' _ _ (pledge_added_ok _ _ _ Hok _) _);
      [by rewrite E1, lookup_insert_eq|done|done|].
    apply (holds_same _ c1); [done|]. simpl. by apply (holds_in (sent_by P e) (msg_sender e) coll _ true c).
  Qed.

Lemma solvent_complete e i : keeps (solvent T P) (Pool.completePledge P e i).
Proof.
    intros c u c' (p & Hp & Htk & Hok & Hh) Hr.
    apply completePledge_returns in Hr as (p' & c1 & c2 & Hp' & Ha & _ & E1 & Ht & E2 & E3).
    assert (p' = p) as -> by congruence. rewrite Htk in Ht.
    refine (solvent_intro _ c' _ _ (pledge_ended_ok _ _ _ Hok Ha) _);
      [by rewrite E2, lookup_insert_eq|done|].
    destruct (active_pledge_counted _ _ _ Hok Ha) as [Hl _].
    apply (holds_same _ c2); [done|]. simpl.
    eapply (holds_out (sent_by P e)); [done|done| |exact Ht]. by apply (holds_same _ c).
  Qed.

Lemma solvent_exit e i : keeps (solvent T P) (Pool.exitPledgeEarly P e i).
Proof.
    intros c u c' (p & Hp & Htk & Hok & Hh) Hr.
    apply exitPledgeEarly_returns in Hr as (p' & pen & c1 & c2 & c3 & Hp' & Ha & _ & Hpen & E1 & Hb & Ht & E2 & E3).
    assert (p' = p) as -> by congruence. rewrite Htk in Ht, Hb.
    refine (solvent_intro _ c' _ _ (pledge_ended_ok _ _ _ Hok Ha) _);
      [by rewrite E2, lookup_insert_eq|done|].
    destruct (active_pledge_counted _ _ _ Hok Ha) as [Hl _].
    set (coll := pg_collateral (getPledge p (msg_sender e) i)) in *.
    apply (holds_same _ c3); [done|]. simpl. fold coll.
    apply (holds_same _ c c1 E1) in Hh.
    assert (holds T P (cp_totalActiveCollateral p - pen) c2) as H2.
    { destruct (N.ltb_spec 0 pen) as [Hp0|Hp0].
      - by eapply (holds_burned (sent_by P e)); [|lia| |exact Hb].
      - run_step Hb. eapply holds_le; [|exact Hh]. lia. }
    destruct (N.ltb_spec 0 (coll - pen)) as [Hp1|Hp1].
    - unfold discard in Ht. run_step Ht. run_step Ht.
      replace (cp_totalActiveCollateral p - coll) with (cp_totalActiveCollateral p - pen - (coll - pen)) by lia.
      by eapply (holds_out (sent_by P e)); [|lia|exact H2|eassumption].
    - run_step Ht. eapply holds_le; [|exact H2]. lia.
  Qed.

Lemma solvent_utilization e a i n : keeps (solvent T P) (Pool.updateUtilization P e a i n).
Proof.
    intros c u c' (p & Hp & Htk & Hok & Hh) Hr.
    unfold Pool.updateUtilization, set_pledge, Pool.load in Hr. run_inv.
    apply onlyOwner_returns in H as (p0 & Hp0 & _ & ->). settle.
    eexists. split_and!; [simpl; by rewrite lookup_alter_eq, Hp|done| |done..].
    pose proof (active_pledge_stored _ _ _ H1) as Hs. destruct Hok as (Hl & Ho & Hid). simpl.
    set (pl := with_pg_utilizationGB (λ _, n) (getPledge p a i)). split_and!; simpl.
    - pose proof (msum_insert locked (cp_pledges p) (a, i) pl) as Hm. rewrite Hs in Hm.
      change (locked (a, i) pl) with (locked (a, i) (getPledge p a i)) in Hm. simpl in Hm.
      change (msum locked (<[(a, i) := pl]> (cp_pledges p)) = cp_totalActiveCollateral p). lia.
    - pose proof (msum_insert offered (cp_pledges p) (a, i) pl) as Hm. rewrite Hs in Hm.
      change (offered (a, i) pl) with (offered (a, i) (getPledge p a i)) in Hm. simpl in Hm.
      change (msum offered (<[(a, i) := pl]> (cp_pledges p)) = cp_totalPledgedCapacityGB p). lia.
    - intros b j Hj. destruct (decide ((b, j) = (a, i))) as [[= -> ->]|Hne]; [by apply Hid|].
      rewrite lookup_insert_ne in Hj by congruence. by apply Hid.
  Qed.
End Solvency.

(** * The pool among all contracts *)

(** A call of a contract that is not there reverts. *)
Ltac first_load :=
  repeat match goal with
  | H : nonReentrant _ _ _ _ = (Ok _, _) |- _ =>
      let H' := fresh in apply nonReentrant_returns in H as (? & ? & H' & _); eexists; exact H'
  | H : (_ ≫= _) _ = (Ok _, _) |- _ => run_step H
  | H : sload _ ?c = (Ok _, _) |- is_Some (_ ?c !! _) => apply sload_returns in H as [H _]; eexists; exact H
  | H : onlyOwner _ _ _ ?c = (Ok _, _) |- is_Some (_ ?c !! _) =>
      let H' := fresh in apply onlyOwner_returns in H as (? & H' & _); eexists; exact H'
  end.
Lemma market_needed e this k c u c' : run_market e this k c = (Ok u, c') → is_Some (c_markets c !! this).
Proof.
  destruct k; unfold run_market, discard, Market.initiateRetrieval, Market.claimRetrievalPayment,
    Market.createDeal, Market.completeDeal, Market.cancelDeal, Market.renewDeal,
    Market.reportLostShard, Market.repairShard, Market.setProtocolFee, Market.setTreasury,
    Market.updateKynPrice, Market.setPaymentDistributor, Market.withdrawFees, Market.guarded;
    intros Hr; first_load.
Qed.
Lemma distributor_needed e this k c u c' :
  run_distributor e this k c = (Ok u, c') → is_Some (c_distributors c !! this).
Proof.
  destruct k; unfold run_distributor, Distributor.distributeCapacityRewards,
    Distributor.distributeUsageRewards, Distributor.payProofBonus, Distributor.withdrawEarnings,
    Distributor.withdrawProtocolFees, Distributor.useRepairReserve, Distributor.updateRates,
    Distributor.guarded; intros Hr; first_load.
Qed.
Lemma vesting_needed e this k c u c' :
  run_vesting e this k c = (Ok u, c') → is_Some (c_vestings c !! this).
Proof.
  destruct k; unfold run_vesting, Vesting.createVestingSchedule, Vesting.release, Vesting.revoke;
    intros Hr; first_load.
Qed.

(** [P] is a pool and no other contract that moves tokens. *)
Definition only_pool (P : address) (c : chain) : Prop :=
  (P ∉ dom (c_markets c)) ∧ (P ∉ dom (c_distributors c)) ∧ (P ∉ dom (c_vestings c)).

Definition pool_inv (T P : address) (c : chain) : Prop := only_pool P c ∧ solvent T P c.

Section PoolSafety.
  Context `{Hashing} (T P : address).

Lemma only_pool_run_call e k : keeps (only_pool P) (run_call e k).
Proof.
    intros c u c' Hc Hr. unfold only_pool.
    rewrite (leaves_run_call (λ c, dom (c_markets c)) e k _ _ _ Hr),
      (leaves_run_call (λ c, dom (c_distributors c)) e k _ _ _ Hr),
      (leaves_run_call (λ c, dom (c_vestings c)) e k _ _ _ Hr).
    exact Hc.
  Qed.

(** Whatever leaves the storage of the pool alone and spares its tokens. *)
Lemma solvent_other {A} (m : M chain A) :
    leaves (λ c, c_pools c !! P) m → (∀ n, keeps (holds T P n) m) → keeps (solvent T P) m.
Proof.
    intros Hl Hh c u c' (p & Hp & Htk & Hok & Hn) Hr. exists p.
    rewrite (Hl _ _ _ Hr). split_and!; [done..|]. by apply (Hh _ c u c').
  Qed.

Lemma solvent_ownership f : (∀ p, pool_ok p → pool_ok (f p)) →
    (∀ p, cp_token (f p) = cp_token p ∧ cp_totalActiveCollateral (f p) = cp_totalActiveCollateral p) →
    keeps (solvent T P) (sstore P f).
Proof.
    intros Hf Hg c u c' (p & Hp & Htk & Hok & Hn) Hr. run_inv. exists (f p). simpl.
    rewrite lookup_alter_eq, Hp. destruct (Hg p) as [-> ->]. split_and!; [done|done|auto|done].
  Qed.

Lemma solvent_leaves {A} (m : M chain A) :
    leaves (λ c, (c_pools c, c_tokens c)) m → keeps (solvent T P) m.
Proof.
    intros Hl c u c' (p & Hp & Htk & Hok & Hn) Hr. injection (Hl _ _ _ Hr) as E1 E2.
    exists p. rewrite E1. split_and!; [done..|]. by apply (holds_same T P _ c).
  Qed.

Ltac apply_solvent :=
  match goal with |- ?I ?c → ?m ?c = (Ok ?u, ?c') → _ => revert c u c'; change (keeps (solvent T P) m) end;
  keep @solvent_leaves;
  try (apply solvent_ownership; done);
  try (apply solvent_other; [leave | intros ?; apply holds_store; done]).

Lemma pool_inv_run_call e k :
    msg_sender e ≠ P → spares P k = true → keeps (pool_inv T P) (run_call e k).
Proof.
    intros He Hs c u c' [Ho Hc] Hr. split; [by apply (only_pool_run_call e k c u c')|].
    destruct (decide (callee k = P)) as [HP|HP].
    2: { refine (solvent_other _ _ _ c u c' Hc Hr); [|intros n; by apply holds_run_call].
         destruct k as [| | | | | | | |k ? ?|k ?]; simpl in *; eauto with chain typeclass_instances;
           destruct k; unfold transferOwnership, renounceOwnership, _transferOwnership; leave.
         all: apply leaves_sstore; intros ?; by apply lookup_alter_ne. }
    destruct Ho as (Hm & Hd & Hv). rewrite !not_elem_of_dom in *.
    destruct k as [this k|this k|this k|this k|this k|this k|this k|this k|k this a|k this]; simpl in *; subst this.
    - refine (solvent_other _ _ _ c u c' Hc Hr); [eauto with chain|]. intros n. by apply holds_run_token.
    - refine (solvent_other _ _ _ c u c' Hc Hr); [eauto with chain|]. intros n. apply holds_leaves. eauto with chain.
    - destruct k; simpl in Hr; revert Hr; [by apply solvent_create|by apply solvent_complete|
        by apply solvent_exit|by apply solvent_utilization].
    - apply market_needed in Hr as [? ?]. congruence.
    - apply distributor_needed in Hr as [? ?]. congruence.
    - refine (solvent_other _ _ _ c u c' Hc Hr); [eauto with chain|]. intros n. by apply holds_run_slashing.
    - refine (solvent_other _ _ _ c u c' Hc Hr); [eauto with chain|]. intros n. apply holds_leaves. eauto with chain.
    - apply vesting_needed in Hr as [? ?]. congruence.
    - clear Hm Hd Hv. revert Hc Hr. destruct k; unfold transferOwnership, _transferOwnership; apply_solvent.
    - clear Hm Hd Hv. revert Hc Hr. destruct k; unfold renounceOwnership, _transferOwnership; apply_solvent.
  Qed.
End PoolSafety.

(** * Theorems *)

(** A chain with a token [T], a registry [R] and a pool [P], owned by [owner]; [alice]
    has a thousand tokens and has allowed the pool all of them. *)
Definition demo_env (sender : address) (t : N) : env := Env sender t 31337 0.
Definition kyn (n : N) : N := n * 10 ^ 18.
Definition demo_hashing : Hashing := {| keccak256 := λ _, 1; merkle_verify := λ _ _ _, true |}.
Definition demo0 : chain :=
  Chain {[ "T" := token_created (demo_env "owner" 0) ]} {[ "R" := registry_created (demo_env "owner" 0) ]}
    {[ "P" := pool_created (demo_env "owner" 0) "T" ]} ∅ ∅ ∅ ∅ ∅ [] ∅.
Definition demo : chain :=
  apply_txs (H := demo_hashing) demo0
    [(demo_env "owner" 1, CallToken "T" (TTransfer "alice" (kyn 1000)));
     (demo_env "alice" 2, CallToken "T" (TApprove "P" (kyn 1000)));
     (demo_env "alice" 3, CallPool "P" (PCreate 100 (days 30) (kyn 100)))].

Lemma demo0_inv : pool_inv "T" "P" demo0.
Proof.
  split; [by repeat split; vm_compute|]. exists (pool_created (demo_env "owner" 0) "T").
  split_and!; [done|done| |].
  - repeat split; try done. intros a i [? Hs]. done.
  - split; [by apply map_Forall_singleton, token_created_ok|].
    eexists. split_and!; [done|apply N.le_0_l|done].
Qed.

Lemma pool_inv_txs `{Hashing} T P c txs :
  pool_inv T P c → Forall (λ tx, msg_sender (fst tx) ≠ P ∧ spares P (snd tx) = true) txs →
  pool_inv T P (apply_txs c txs).
Proof.
  intros Hc Htxs.
  eapply (apply_txs_keeps _ (λ e k, msg_sender e ≠ P ∧ spares P k = true)); [|exact Htxs|exact Hc].
  intros e k [He Hk]. by apply pool_inv_run_call.
Qed.

Lemma demo_inv : pool_inv "T" "P" demo.
Proof. apply pool_inv_txs; [exact demo0_inv | repeat constructor; done]. Qed.

(** C6. Collateral is never lost.  From a state in which a pool owes no more than it
    holds, every sequence of transactions of all contracts, sent by anybody but the
    pool itself and not burning tokens of the pool, leads to a state in which the
    recorded total is the sum over the active pledges and the pool has at least that
    many tokens. *)
Theorem collateral_stays_locked `{Hashing} T P c txs :
  pool_inv T P c →
  Forall (λ tx, msg_sender (fst tx) ≠ P ∧ spares P (snd tx) = true) txs →
  ∃ p t, c_pools (apply_txs c txs) !! P = Some p ∧ c_tokens (apply_txs c txs) !! T = Some t ∧
    msum locked (cp_pledges p) = cp_totalActiveCollateral p ∧
    msum offered (cp_pledges p) = cp_totalPledgedCapacityGB p ∧
    cp_totalActiveCollateral p ≤ balanceOf t P.
Proof.
  intros Hc Htxs. destruct (pool_inv_txs T P c txs Hc Htxs)
    as [_ (p & Hp & _ & (Hl & Ho & _) & _ & (t & Ht & Hb & _))].
  exists p, t. done.
Qed.

Lemma collateral_stays_locked_witness :
  ∃ p t, c_pools demo !! "P" = Some p ∧ c_tokens demo !! "T" = Some t ∧
    msum locked (cp_pledges p) = cp_totalActiveCollateral p ∧
    msum offered (cp_pledges p) = cp_totalPledgedCapacityGB p ∧
    cp_totalActiveCollateral p ≤ balanceOf t "P".
Proof.
  unfold demo. apply (collateral_stays_locked (H := demo_hashing) "T" "P" demo0).
  - exact demo0_inv.
  - repeat constructor; done.
Defined.

(** ** Getting collateral back *)

Lemma release_pledge_total P who i p c :
  c_pools c !! P = Some p → pool_ok p → pg_active (getPledge p who i) = true →
  ∃ c', release_pledge P who i (getPledge p who i) c = (Ok tt, c').
Proof.
  intros Hp Hok Ha. destruct (active_pledge_counted _ _ _ Hok Ha) as [Hl Ho].
  unfold release_pledge, set_pledge, Pool.load, sub_u, sstore. rewrite modify_bind.
  erewrite bind_ok by (apply sload_run; simpl; rewrite lookup_alter_eq, Hp; reflexivity).
  simpl. rewrite !(proj2 (N.leb_le _ _)) by done. by eexists.
Qed.

(** C31. A pledge whose time is over is paid back in full: from every state of the
    invariant the provider's [completePledge] succeeds, ends the pledge and moves
    exactly its collateral from the pool to the provider. *)
Theorem due_pledge_is_returned T P c e i p t :
  pool_inv T P c → c_pools c !! P = Some p → c_tokens c !! T = Some t →
  pg_active (getPledge p (msg_sender e) i) = true →
  pg_startTime (getPledge p (msg_sender e) i) + pg_duration (getPledge p (msg_sender e) i)
    ≤ block_timestamp e →
  block_timestamp e ≤ MAX_UINT →
  msg_sender e ≠ address0 → P ≠ address0 → msg_sender e ≠ P →
  ∃ c' p' t', transact (completePledge P e i) c = (Ok tt, c') ∧
    c_pools c' !! P = Some p' ∧ c_tokens c' !! T = Some t' ∧
    pg_active (getPledge p' (msg_sender e) i) = false ∧
    balanceOf t' (msg_sender e) = balanceOf t (msg_sender e) + pg_collateral (getPledge p (msg_sender e) i) ∧
    balanceOf t' P + pg_collateral (getPledge p (msg_sender e) i) = balanceOf t P.
Proof.
  intros [_ (p0 & Hp0 & Htk & Hok & Hs & (t0 & Ht0 & Hb & _))] Hp Ht Ha Hdue Hnow Hz HPz HP.
  assert (p0 = p) as -> by congruence. assert (t0 = t) as -> by congruence.
  destruct (active_pledge_counted _ _ _ Hok Ha) as [Hl _].
  destruct (release_pledge_total P (msg_sender e) i p c Hp Hok Ha) as [c1 H1].
  destruct (release_pledge_returns P _ i p _ _ _ Hp H1) as [_ E1].
  destruct (transfer_total T (sent_by P e) (msg_sender e)
    (pg_collateral (getPledge p (msg_sender e) i)) t c1) as [c2 H2]; [by rewrite E1|simpl; lia|done..|].
  assert (∃ c', completePledge P e i c = (Ok tt, c')) as [c' Hr].
  { unfold completePledge, Pool.load, require, add_u.
    erewrite bind_ok by (apply sload_run; exact Hp). cbv zeta. rewrite Ha.
    rewrite (proj2 (N.leb_le _ MAX_UINT)) by lia. unfold mbind at 1 2, M_bind at 1 2, mret at 1 2, M_ret at 1 2.
    rewrite (proj2 (N.leb_le _ (block_timestamp e))) by lia.
    unfold mbind at 1, M_bind at 1, mret at 1, M_ret at 1.
    rewrite (bind_ok _ _ _ _ _ H1), Htk, (bind_ok _ _ _ _ _ H2). by eexists. }
  rewrite (transact_returns _ _ _ _ Hr). exists c'.
  apply completePledge_returns in Hr as (p' & d1 & d2 & Hp' & _ & _ & E2 & Ht2 & E3 & E4).
  assert (p' = p) as -> by congruence. rewrite Htk in Ht2.
  apply transfer_returns in Ht2 as (t1 & Ht1 & Hv & _ & _ & _ & E5). rewrite E2 in Ht1.
  assert (t1 = t) as -> by congruence.
  destruct (moved_spec t P (msg_sender e) (pg_collateral (getPledge p (msg_sender e) i)))
    as [_ Hx]; [by apply (Hs T)|done|].
  eexists _, _. rewrite E3, E4, E5, E2, !lookup_insert_eq. split_and!; [done..| | |].
  - unfold getPledge at 1, pledge_ended, at_. simpl. by rewrite lookup_insert_eq.
  - specialize (Hx (msg_sender e)). simpl. rewrite decide_False, decide_True in Hx by done. lia.
  - specialize (Hx P). simpl. rewrite decide_True, decide_False in Hx by congruence. lia.
Qed.

Definition demo_pool : CapacityPledge := default (pool_created (demo_env "owner" 0) "T") (c_pools demo !! "P").
Definition demo_token : StorageToken := default (token_created (demo_env "owner" 0)) (c_tokens demo !! "T").

Lemma due_pledge_is_returned_witness :
  ∃ c' p' t', transact (completePledge "P" (demo_env "alice" (days 31)) 0) demo = (Ok tt, c') ∧
    c_pools c' !! "P" = Some p' ∧ c_tokens c' !! "T" = Some t' ∧
    pg_active (getPledge p' "alice" 0) = false ∧
    balanceOf t' "alice" = balanceOf demo_token "alice" + pg_collateral (getPledge demo_pool "alice" 0) ∧
    balanceOf t' "P" + pg_collateral (getPledge demo_pool "alice" 0) = balanceOf demo_token "P".
Proof.
  apply (due_pledge_is_returned "T" "P" demo (demo_env "alice" (days 31)) 0 demo_pool demo_token);
    [exact demo_inv|vm_compute; reflexivity..|by vm_compute|by vm_compute|done|done|done].
Defined.

(** ** Leaving early *)

(** The time a pledge still has to run. *)
Definition remaining_time (e : env) (pl : Pledge) : N :=
  pg_duration pl - (block_timestamp e - pg_startTime pl).

Lemma exit_penalty_bounds e pl pen c c' :
  exit_penalty e pl c = (Ok pen, c') →
  pen ≤ pg_collateral pl / 5 ∧
  (0 < remaining_time e pl → pg_collateral pl / 100 ≤ pen) ∧
  (remaining_time e pl = 0 → pen = 0).
Proof.
  unfold exit_penalty, EARLY_EXIT_PENALTY_PERCENT, remaining_time. intros Hr. run_inv; settle.
  all: set (C := pg_collateral pl) in *; set (D := pg_duration pl) in *;
    set (L := block_timestamp e - pg_startTime pl) in *.
  - assert (C * (D - L) * 20 / (D * 100) ≤ C / 5) as Hq.
    { apply N.div_le_lower_bound; [lia|].
      assert (5 * (C * (D - L) * 20 / (D * 100)) * D ≤ C * D) as Hm; [|nia].
      pose proof (N.Div0.mul_div_le (C * (D - L) * 20) (D * 100)). nia. }
    assert (C / 100 ≤ C / 5) as Hc by (apply N.div_le_compat_l; lia).
    destruct (N.ltb_spec (C * (D - L) * 20 / (D * 100)) (C / 100)), (N.ltb_spec 0 (D - L)); simpl; lia.
  - assert (D - L = 0) as -> by lia. rewrite N.mul_0_r, N.mul_0_l, N.Div0.div_0_l.
    rewrite andb_false_r. split_and!; [apply N.le_0_l|lia|done].
Qed.

(** What an exit does to the token: the penalty is burned, the rest is paid. *)
Lemma exit_moves T P e coll pen c1 c2 c3 t :
  supply_ok c1 → c_tokens c1 !! T = Some t → msg_sender e ≠ P → pen ≤ coll →
  (if 0 <? pen then Token.burn T (sent_by P e) pen else mret tt) c1 = (Ok tt, c2) →
  (if 0 <? coll - pen then discard (Token.transfer T (sent_by P e) (msg_sender e) (coll - pen))
   else mret tt) c2 = (Ok tt, c3) →
  ∃ t', c_tokens c3 !! T = Some t' ∧
    tk_totalSupply t' + pen = tk_totalSupply t ∧
    balanceOf t' (msg_sender e) = balanceOf t (msg_sender e) + (coll - pen) ∧
    balanceOf t' P + coll = balanceOf t P.
Proof.
  intros Hs Ht He Hpc Hb Hm.
  assert (∃ t1, c_tokens c2 !! T = Some t1 ∧ supply_ok c2 ∧ tk_totalSupply t1 + pen = tk_totalSupply t ∧
    ∀ x, balanceOf t1 x + (if decide (x = P) then pen else 0) = balanceOf t x)
    as (t1 & Ht1 & Hs2 & Hsup & Hx).
  { destruct (N.ltb_spec 0 pen) as [Hp|Hp].
    - pose proof (supply_burn _ _ _ _ _ _ Hs Hb) as Hs2.
      apply burn_returns in Hb as (t0 & Ht0 & Hv & _ & E). assert (t0 = t) as -> by congruence.
      destruct (burned_spec t P pen (Hs _ _ Ht) Hv) as (_ & Hsup & Hx).
      exists (burned P pen t). rewrite E. by rewrite lookup_insert_eq.
    - run_step Hb. exists t. split_and!; [done|done|lia|]. intros x. destruct (decide _); lia. }
  destruct (N.ltb_spec 0 (coll - pen)) as [Hr|Hr].
  - unfold discard in Hm. run_step Hm. run_step Hm.
    match goal with H : Token.transfer _ _ _ _ _ = _ |- _ =>
      apply transfer_returns in H as (t0 & Ht0 & Hv & _ & _ & _ & E) end.
    assert (t0 = t1) as -> by congruence.
    destruct (moved_spec t1 P (msg_sender e) (coll - pen) (Hs2 _ _ Ht1) Hv) as [_ Hy].
    eexists. rewrite E, lookup_insert_eq. split_and!; [done|done| |].
    + specialize (Hx (msg_sender e)). specialize (Hy (msg_sender e)).
      rewrite decide_False in Hx by done. rewrite decide_False, decide_True in Hy by done. simpl. lia.
    + specialize (Hx P). specialize (Hy P). rewrite decide_True in Hx by done.
      rewrite decide_True, decide_False in Hy by congruence. simpl. lia.
  - run_step Hm. exists t1. split_and!; [done|done| |].
    + specialize (Hx (msg_sender e)). rewrite decide_False in Hx by done. lia.
    + specialize (Hx P). rewrite decide_True in Hx by done. lia.
Qed.

(** Leaving a pledge early costs between one and twenty per cent of its
    collateral, nothing once the time is over; the penalty is burned, the rest is
    paid to the provider, and the pool gives up exactly the collateral. *)
Theorem early_exit_is_bounded T P c e i u c' :
  pool_inv T P c → msg_sender e ≠ P → exitPledgeEarly P e i c = (Ok u, c') →
  ∃ p t t' pen, let pl := getPledge p (msg_sender e) i in
    c_pools c !! P = Some p ∧ c_tokens c !! T = Some t ∧ c_tokens c' !! T = Some t' ∧
    pen ≤ pg_collateral pl / 5 ∧
    (0 < remaining_time e pl → pg_collateral pl / 100 ≤ pen) ∧
    (remaining_time e pl = 0 → pen = 0) ∧
    tk_totalSupply t' + pen = tk_totalSupply t ∧
    balanceOf t' (msg_sender e) = balanceOf t (msg_sender e) + (pg_collateral pl - pen) ∧
    balanceOf t' P + pg_collateral pl = balanceOf t P.
Proof.
  intros [_ (p & Hp & Htk & Hok & Hs & (t & Ht & _))] He Hr.
  apply exitPledgeEarly_returns in Hr
    as (p' & pen & c1 & c2 & c3 & Hp' & Ha & Hpen & Hle & E1 & Hb & Hm & _ & E3).
  assert (p' = p) as -> by congruence. rewrite Htk in Hb, Hm.
  destruct (exit_penalty_bounds _ _ _ _ _ Hpen) as (Hu & Hl & Hz).
  destruct (exit_moves T P e (pg_collateral (getPledge p (msg_sender e) i)) pen c1 c2 c3 t)
    as (t' & Ht' & Hsup & Hx & Hy);
    [unfold supply_ok in *; by rewrite E1|by rewrite E1|done..|].
  exists p, t, t', pen. rewrite E3. split_and!; try done.
Qed.

Lemma early_exit_is_bounded_witness :
  ∃ c' p t t' pen, exitPledgeEarly "P" (demo_env "alice" (days 10)) 0 demo = (Ok tt, c') ∧
    let pl := getPledge p "alice" 0 in
    c_pools demo !! "P" = Some p ∧ c_tokens demo !! "T" = Some t ∧ c_tokens c' !! "T" = Some t' ∧
    pen ≤ pg_collateral pl / 5 ∧
    (0 < remaining_time (demo_env "alice" (days 10)) pl → pg_collateral pl / 100 ≤ pen) ∧
    (remaining_time (demo_env "alice" (days 10)) pl = 0 → pen = 0) ∧
    tk_totalSupply t' + pen = tk_totalSupply t ∧
    balanceOf t' "alice" = balanceOf t "alice" + (pg_collateral pl - pen) ∧
    balanceOf t' "P" + pg_collateral pl = balanceOf t "P".
Proof.
  destruct (exitPledgeEarly "P" (demo_env "alice" (days 10)) 0 demo) as [[[]|err] c'] eqn:Hr;
    [|vm_compute in Hr; discriminate].
  exists c'. destruct (early_exit_is_bounded "T" "P" demo (demo_env "alice" (days 10)) 0 tt c' demo_inv
    ltac:(done) Hr) as (p & t & t' & pen & H). exists p, t, t', pen. split; [reflexivity|exact H].
Defined.

(** The owner can take the collateral out of a pool: [slashEarlyExit] burns from any
    address, and the pool is an address. *)
Definition drained : chain :=
  apply_txs (H := demo_hashing)
    (with_c_slashers (λ _, {[ "S" := slashing_created (demo_env "owner" 0) "T" "R" ]}) demo)
    [(demo_env "owner" 5, CallToken "T" (TAuthorizeBurner "S"));
     (demo_env "owner" (days 31), CallSlashing "S" (SEarlyExit "P" (kyn 100)))].
Example owner_can_drain_pool :
  balanceOf (default demo_token (c_tokens drained !! "T")) "P" = 0 ∧
  fst (completePledge "P" (demo_env "alice" (days 31)) 0 drained) = Throw (Error "ERC20InsufficientBalance").
Proof. by vm_compute. Qed.
