(* ===== verification/Escrow.v ===== *)
(** The escrow of the marketplace: what StorageMarketplace.sol owes to the clients of
    its deals and to providers of retrievals, against the tokens it has. *)

From S2P Require Import Prelude Contracts ChainRules Token Registry Pool Market Distributor Slashing Verifier Vesting Protocol Collateral.

Local Open Scope N_scope.

Definition escrow (_ : N) (d : Deal) : N := dl_escrowedAmount d.
Definition unclaimed (_ : N) (r : Retrieval) : N := if rt_completed r then 0 else rt_amount r.

(** Escrow of all deals and payments of open retrievals. *)
Definition owed (m : StorageMarketplace) : N :=
  msum escrow (mk_deals m) + msum unclaimed (mk_retrievals m).

Section Ledger.
  Context (T K : address).     (* the token and the marketplace *)

(** Deal [id] has [x] in escrow, and the market has [n] tokens more than it owes. *)
Definition ledger (id x n : N) (c : chain) : Prop :=
  ∃ m, c_markets c !! K = Some m ∧ mk_token m = T ∧ dl_escrowedAmount (deal_of m id) = x ∧
       holds T K (owed m + n) c.

Lemma ledger_leaves id x n {A} (m : M chain A) :
    leaves (λ c, (c_markets c, c_tokens c)) m → keeps (ledger id x n) m.
Proof.
    intros Hl c u c' (k & Hk & Htk & Hx & Hn) Hr. injection (Hl _ _ _ Hr) as E1 E2.
    exists k. rewrite E1. split_and!; [done..|]. by apply (holds_same T K _ c).
  Qed.

(** Writes to the market that do not touch its debts. *)
Lemma ledger_store id x n f :
    (∀ m, mk_token (f m) = mk_token m ∧ mk_deals (f m) = mk_deals m ∧ mk_retrievals (f m) = mk_retrievals m) →
    keeps (ledger id x n) (sstore K f).
Proof.
    intros Hf c u c' (m & Hm & Htk & Hx & Hn) Hr. run_inv. exists (f m). simpl.
    rewrite lookup_alter_eq, Hm. destruct (Hf m) as (E1 & E2 & E3).
    unfold deal_of, owed in *. rewrite E1, E2, E3. done.
  Qed.

Lemma escrow_insert m id d :
    msum escrow (<[id := d]> (mk_deals m)) + dl_escrowedAmount (deal_of m id) =
    msum escrow (mk_deals m) + dl_escrowedAmount d.
Proof.
    pose proof (msum_insert escrow (mk_deals m) id d) as H. unfold deal_of, at_.
    by destruct (mk_deals m !! id).
  Qed.

(** A write to deal [id] that leaves [y] in escrow. *)
Lemma ledger_set id x y n n' f c u c' :
    (∀ d, dl_escrowedAmount d = x → dl_escrowedAmount (f d) = y) → y + n' ≤ x + n →
    ledger id x n c → set_deal K id f c = (Ok u, c') → ledger id y n' c'.
Proof.
    intros Hf Hn (m & Hm & Htk & Hx & Hh) Hr. unfold set_deal, Market.store in Hr. run_inv. eexists. simpl.
    rewrite lookup_alter_eq, Hm. split_and!; [done|done| |].
    - unfold deal_of, at_. simpl. rewrite lookup_insert_eq. apply Hf, Hx.
    - pose proof (escrow_insert m id (f (deal_of m id))) as E. rewrite (Hf _ Hx), Hx in E.
      eapply holds_le; [|apply (holds_same T K _ c); [done|exact Hh]].
      unfold owed. simpl. change (at_ deal0 (mk_deals m) id) with (deal_of m id). lia.
  Qed.

Lemma ledger_set_deal id x n i f :
    (∀ d, dl_escrowedAmount (f d) = dl_escrowedAmount d) → keeps (ledger id x n) (set_deal K i f).
Proof.
    intros Hf c u c' Hc Hr. destruct Hc as (m & Hm & Htk & Hx & Hh).
    destruct (decide (i = id)) as [->|Hi].
    - refine (ledger_set id x x n n f c u c' _ _ _ Hr); [intros d Hd; by rewrite Hf|done|]. by exists m.
    - assert (ledger i (dl_escrowedAmount (deal_of m i)) n c) as Hi' by (by exists m).
      refine (match ledger_set i _ (dl_escrowedAmount (deal_of m i)) n n f c u c' _ _ Hi' Hr with ex_intro _ m' (conj Hm' (conj Ht' (conj _ Hh'))) => _ end);
        [intros d Hd; by rewrite Hf|done|].
      exists m'. split_and!; [done|done| |done].
      unfold set_deal, Market.store in Hr. run_inv. simpl in Hm'. rewrite lookup_alter_eq, Hm in Hm'. simplify_eq/=.
      unfold deal_of, at_. simpl. by rewrite lookup_insert_ne by congruence.
  Qed.

Lemma ledger_in id x n e b v r c c' :
    b ≠ K → ledger id x n c → Token.transferFrom T e b K v c = (Ok r, c') → ledger id x (n + v) c'.
Proof.
    intros Hb (m & Hm & Htk & Hx & Hh) Hr. exists m.
    rewrite (leaves_token_transferFrom c_markets _ _ _ _ _ _ _ _ Hr). split_and!; [done..|].
    rewrite N.add_assoc. by apply (holds_in T K e b v _ r c).
  Qed.
Lemma ledger_out id x n n' e b v r c c' :
    msg_sender e = K → n' + v ≤ n → ledger id x n c → Token.transfer T e b v c = (Ok r, c') → ledger id x n' c'.
Proof.
    intros He Hn (m & Hm & Htk & Hx & Hh) Hr. exists m.
    rewrite (leaves_token_transfer c_markets _ _ _ _ _ _ _ Hr). split_and!; [done..|].
    eapply holds_le; [|eapply (holds_out T K e b v (owed m + n) r c); [done|lia|done|done]]. lia.
  Qed.
Lemma ledger_le id x n n' c : n' ≤ n → ledger id x n c → ledger id x n' c.
Proof.
    intros Hn (m & Hm & Htk & Hx & Hh). exists m. split_and!; [done..|]. eapply holds_le; [|done]. lia.
  Qed.
(** What a load reads. *)
Lemma ledger_load id x n m c : c_markets c !! K = Some m → ledger id x n c →
    mk_token m = T ∧ dl_escrowedAmount (deal_of m id) = x.
Proof. intros Hm (m' & Hm' & ? & ? & _). by simplify_eq. Qed.
Lemma ledger_other id id' x n c : ledger id x n c → ∃ x', ledger id' x' n c.
Proof. intros (m & ? & ? & _ & ?). eexists. by exists m. Qed.
End Ledger.

Ltac keep_ledger :=
  keep @ledger_leaves; try (apply ledger_store; done); try (apply ledger_set_deal; done).

(** [next Hr a c H]: the first step of the run [Hr] returned [a] in the state [c]. *)
Tactic Notation "next" hyp(Hr) ident(a) ident(c) ident(H) :=
  apply bind_returns in Hr as (a & c & H & Hr).
(** [advance HJ H]: the step [H] does not touch the debts. *)
Ltac advance HJ H :=
  lazymatch type of H with ?m ?c = (Ok ?a, ?c1) =>
  lazymatch type of HJ with ledger ?T ?K ?id ?x ?n _ =>
    let HJ' := fresh in
    assert (ledger T K id x n c1) as HJ'
      by (refine ((_ : keeps (ledger T K id x n) m) c a c1 HJ H); keep_ledger);
    clear HJ; rename HJ' into HJ; try clear H
  end end.
Ltac advance_loop HJ H := unfold drop_shard, Market.load in H; advance HJ H.
Ltac skip Hr HJ := let a := fresh in let c := fresh in let H := fresh in next Hr a c H; advance HJ H.

Section Operations.
  Context (T K : address).
  #[local] Abbreviation ledger := (ledger T K).

(** Solvent: [owed] is covered; every deal has some escrow. *)
Definition covered (c : chain) : Prop := ∃ x, ledger 0 x 0 c.

Lemma covered_at id c : covered c → ∃ x, ledger id x 0 c.
Proof. intros [x Hx]. by apply (ledger_other _ _ 0 id x). Qed.
Lemma covered_from id x n c : ledger id x n c → covered c.
Proof.
    intros Hc. destruct (ledger_other _ _ id 0 x n c Hc) as [x' Hx'].
    exists x'. by apply (ledger_le _ _ 0 x' n); [apply N.le_0_l|].
  Qed.

Lemma check_providers_leaves {B} (f : chain → B) r ps : ∀ seen, leaves f (check_providers r seen ps).
Proof. induction ps as [|p ps IH]; intros seen; simpl; leave. Qed.
Hint Resolve check_providers_leaves : chain.


Lemma covered_guarded {A} (m : M chain A) : keeps covered m → keeps covered (Market.guarded K m).
Proof.
    intros Hm c a c' [x HJ] Hr. unfold Market.guarded, nonReentrant in Hr.
    skip Hr HJ. skip Hr HJ. skip Hr HJ. next Hr b c1 Hb.
    destruct (Hm _ _ _ (ex_intro _ x HJ) Hb) as [x' HJ']. skip Hr HJ'. run_step Hr. by exists x'.
  Qed.

(** A program whose every step is neutral. *)
Lemma covered_neutral {A} (m : M chain A) : (∀ x, keeps (ledger 0 x 0) m) → keeps covered m.
Proof. intros Hm c a c' [x HJ] Hr. exists x. by apply (Hm x c a c'). Qed.

(** Reading the market. *)
Lemma load_market (m : StorageMarketplace) c c' id x n :
    Market.load K c = (Ok m, c') → ledger id x n c →
    c' = c ∧ c_markets c !! K = Some m ∧ mk_token m = T ∧ dl_escrowedAmount (deal_of m id) = x.
Proof.
    intros Hl HJ. apply sload_returns in Hl as [Hm ->]. split_and!; [done|done|..];
      by destruct (ledger_load T K id x n m c Hm HJ).
  Qed.

(** [x - v] stays in escrow and [v] is paid out. *)
Lemma ledger_pay id x y v e b c u c' (reason : string) :
    ledger id x 0 c → y + v ≤ x →
    (set_deal K id (with_dl_escrowedAmount (λ _, y)) ;;
     ok ← Token.transfer T (sent_by K e) b v;
     require ok reason) c = (Ok u, c') → covered c'.
Proof.
    intros HJ Hv Hr. next Hr s c1 Hs. eapply (ledger_set T K id x y 0 v) in Hs; [|done|lia|done].
    next Hr ok c2 Ht. run_step Hr. eapply (ledger_out T K id y v 0) in Ht; [|done|lia|done].
    by eapply covered_from.
  Qed.

Lemma covered_cancel e id : keeps covered (cancelDeal K e id).
Proof.
    apply covered_guarded. intros c u c' Hc Hr. destruct (covered_at id c Hc) as [x HJ]. clear Hc.
    next Hr m c0 Hl. destruct (load_market _ _ _ _ _ _ Hl HJ) as (-> & Hm & Htk & Hx).
    cbv zeta in Hr. rewrite Htk, Hx in Hr. unfold drop_shard, Market.load in Hr.
    skip Hr HJ. skip Hr HJ. skip Hr HJ. skip Hr HJ. skip Hr HJ. skip Hr HJ.
    next Hr refund c1 Hrf. advance HJ Hrf. next Hr z c2 Hz. run_step Hr.
    assert (covered c2) as Hc; [|refine (covered_neutral (emit _) _ c2 tt _ Hc eq_refl); intros; keep_ledger].
    destruct (0 <? refund); [|run_step Hz; by eapply covered_from].
    next Hz rest c3 Hs. run_step Hs. eapply (ledger_pay id x _ refund); [exact HJ| |exact Hz]. lia.
  Qed.

Lemma covered_emit ev c u c' : covered c → emit ev c = (Ok u, c') → covered c'.
Proof. apply (covered_neutral (emit ev)). intros x. keep_ledger. Qed.

Lemma covered_complete e id : keeps covered (completeDeal K e id).
Proof.
    apply covered_guarded. intros c u c' Hc Hr. destruct (covered_at id c Hc) as [x HJ]. clear Hc.
    next Hr m0 c0 Hl0. destruct (load_market _ _ _ _ _ _ Hl0 HJ) as (-> & _).
    cbv zeta in Hr.
    skip Hr HJ. skip Hr HJ. skip Hr HJ. skip Hr HJ.
    next Hr z c1 Hz. advance_loop HJ Hz.
    next Hr m c2 Hl. destruct (load_market _ _ _ _ _ _ Hl HJ) as (-> & Hm & Htk & Hx).
    cbv zeta in Hr. rewrite Htk, Hx in Hr. skip Hr HJ.
    next Hr pay c3 Hp. run_step Hp. next Hr s c4 Hs.
    eapply (ledger_set T K id x 0 0 x) in Hs; [|done|lia|exact HJ].
    next Hr q c5 Hq. apply (covered_emit _ c5 _ _ ) in Hr; [done|].
    destruct (_ && _); [|run_step Hq; by eapply covered_from].
    next Hq ok c6 Ht. run_step Hq. eapply (ledger_out T K id 0 x 0) in Ht; [|done|rewrite N.add_0_l; apply N.le_sub_l|exact Hs].
    by eapply covered_from.
  Qed.

Lemma covered_report e id p : keeps covered (reportLostShard K e id p).
Proof.
    intros c u c' Hc Hr. destruct (covered_at id c Hc) as [x HJ]. clear Hc.
    unfold reportLostShard in Hr. skip Hr HJ.
    next Hr m0 c0 Hl0. destruct (load_market _ _ _ _ _ _ Hl0 HJ) as (-> & _ & _ & Hx0).
    cbv zeta in Hr. rewrite Hx0 in Hr. skip Hr HJ. skip Hr HJ.
    next Hr d c1 Hd. unfold drop_shard, Market.load in Hd. advance HJ Hd. skip Hr HJ.
    next Hr m c2 Hl. destruct (load_market _ _ _ _ _ _ Hl HJ) as (-> & Hm & Htk & Hx).
    destruct (_ <? MIN_PROVIDERS); [|run_step Hr; by eapply covered_from].
    skip Hr HJ. next Hr z c3 Hz.
    assert (covered c3) as [y HJ3].
    { rewrite Htk in Hz. destruct (0 <? x); [|run_step Hz; by eapply covered_from].
      eapply (ledger_pay id x 0 x); [exact HJ| |exact Hz]. lia. }
    skip Hr HJ3. advance HJ3 Hr. by exists y.
  Qed.

Lemma covered_renew e id days : msg_sender e ≠ K → keeps covered (renewDeal K e id days).
Proof.
    intros He. apply covered_guarded. intros c u c' Hc Hr. destruct (covered_at id c Hc) as [x HJ]. clear Hc.
    next Hr m c0 Hl. destruct (load_market _ _ _ _ _ _ Hl HJ) as (-> & Hm & Htk & Hx).
    cbv zeta in Hr. rewrite Htk, Hx in Hr. unfold Market.deal_cost in Hr.
    skip Hr HJ. skip Hr HJ. next Hr fc c1 Hf. advance HJ Hf. destruct fc as [fee total].
    next Hr ok c2 Ht. eapply (ledger_in T K id x 0) in Ht; [|done|exact HJ]. clear HJ. rename Ht into HJ.
    unfold Market.store in Hr.
    do 8 (skip Hr HJ). next Hr es c3 Hes. run_step Hes. next Hr s c4 Hs.
    eapply (ledger_set T K id x (x + total) (0 + total) 0) in Hs; [|done|lia|exact HJ]. clear HJ.
    skip Hr Hs. advance Hs Hr. by eapply covered_from.
  Qed.

(** A write to one retrieval. *)
Lemma ledger_retrieval id x n n' i r c u c' :
    (∀ m, c_markets c !! K = Some m → unclaimed i r + n' ≤ unclaimed i (retrieval_of m i) + n) →
    ledger id x n c → Market.store K (with_mk_retrievals (insert i r)) c = (Ok u, c') → ledger id x n' c'.
Proof.
    intros Hn (m & Hm & Htk & Hx & Hh) Hr. specialize (Hn m Hm). unfold Market.store in Hr. run_inv.
    eexists. simpl. rewrite lookup_alter_eq, Hm. split_and!; [done|done|done|].
    eapply holds_le; [|apply (holds_same T K _ c); [done|exact Hh]]. unfold owed. simpl.
    pose proof (msum_insert unclaimed (mk_retrievals m) i r) as E.
    assert (oterm unclaimed i (mk_retrievals m !! i) = unclaimed i (retrieval_of m i)) as E2.
    { unfold retrieval_of, at_. by destruct (mk_retrievals m !! i). }
    lia.
  Qed.

Lemma covered_initiate e id p v : msg_sender e ≠ K → keeps covered (initiateRetrieval K e id p v).
Proof.
    intros He. apply covered_guarded. intros c u c' Hc Hr. destruct (covered_at id c Hc) as [x HJ]. clear Hc.
    next Hr m c0 Hl. destruct (load_market _ _ _ _ _ _ Hl HJ) as (-> & Hm & Htk & Hx).
    rewrite Htk in Hr. skip Hr HJ. skip Hr HJ.
    next Hr ok c1 Ht. eapply (ledger_in T K id x 0) in Ht; [|done|exact HJ]. clear HJ.
    skip Hr Ht. next Hr m1 c2 Hl1. destruct (load_market _ _ _ _ _ _ Hl1 Ht) as (-> & _).
    cbv zeta in Hr. skip Hr Ht. next Hr z c3 Hz. unfold Market.store in Hz. advance Ht Hz.
    next Hr w c4 Hw. eapply (ledger_retrieval id x (0 + v) 0) in Hw; [| |exact Ht].
    - skip Hr Hw. run_step Hr. by eapply covered_from.
    - intros m2 _. unfold unclaimed at 1. simpl. lia.
  Qed.

Lemma covered_claim e i : keeps covered (claimRetrievalPayment K e i).
Proof.
    apply covered_guarded. intros c u c' [x HJ] Hr.
    next Hr m c0 Hl. destruct (load_market _ _ _ _ _ _ Hl HJ) as (-> & Hm & Htk & Hx).
    cbv zeta in Hr. rewrite Htk in Hr.
    next Hr z c1 Hz. run_step Hz. next Hr q c2 Hq. run_step Hq. next Hr w c3 Hw.
    set (v := rt_amount (retrieval_of m i)) in *.
    eapply (ledger_retrieval 0 x 0 v) in Hw; [| |exact HJ].
    - next Hr ok c4 Ht. eapply (ledger_out T K 0 x v 0) in Ht; [|done|lia|exact Hw].
      skip Hr Ht. advance Ht Hr. by eapply covered_from.
    - intros m' Hm'. assert (m' = m) as -> by congruence. unfold unclaimed. simpl.
      apply negb_true_iff in Hz. rewrite Hz. fold v. lia.
  Qed.

Lemma covered_create e params : msg_sender e ≠ K → keeps covered (createDeal K e params).
Proof.
    intros He. apply covered_guarded. intros c u c' [x HJ] Hr. do 4 (skip Hr HJ).
    next Hr m c0 Hl. destruct (load_market _ _ _ _ _ _ Hl HJ) as (-> & Hm & Htk & Hx).
    rewrite Htk in Hr. unfold deal_cost, Market.store in Hr. do 3 (skip Hr HJ).
    next Hr fc c1 Hf. advance HJ Hf. destruct fc as [fee total].
    next Hr ok c2 Ht. eapply (ledger_in T K 0 x 0) in Ht; [|done|exact HJ]. clear HJ.
    skip Hr Ht. next Hr m1 c3 Hl1. destruct (load_market _ _ _ _ _ _ Hl1 Ht) as (-> & _).
    cbv zeta in Hr. do 6 (skip Hr Ht).
    destruct (ledger_other T K 0 (mk_dealCount m1) x _ _ Ht) as [y HJ].
    next Hr s c4 Hs. eapply (ledger_set T K _ y total (0 + total) 0) in Hs; [|done|lia|exact HJ].
    next Hr z c5 Hz. unfold assign_shard, Market.store in Hz. advance Hs Hz.
    skip Hr Hs. run_step Hr. by eapply covered_from.
  Qed.

(** Every call of the market except the withdrawal of fees. *)
Lemma covered_run_market e k : msg_sender e ≠ K → k ≠ MWithdrawFees → keeps covered (run_market e K k).
Proof.
    intros He Hk.
    destruct k; simpl; unfold discard;
      auto using covered_claim, covered_complete, covered_cancel, covered_renew, covered_report.
    1, 2: intros c u c' Hc Hr; run_step Hr; run_step Hr;
      first [by eapply covered_initiate | by eapply covered_create].
    all: apply covered_neutral; intros x.
    all: unfold repairShard, setProtocolFee, setTreasury, updateKynPrice, setPaymentDistributor,
      Market.load, Market.store; keep_ledger; done.
  Qed.
End Operations.

(** * The market among all contracts *)

Lemma pool_needed e this k c u c' : run_pool e this k c = (Ok u, c') → is_Some (c_pools c !! this).
Proof.
  destruct k; unfold run_pool, createPledge, completePledge, exitPledgeEarly, updateUtilization, Pool.load;
    intros Hr; [|first_load..].
  destruct (multiplier_of duration); unfold calculateMinimumCollateral in Hr; run_inv; by eexists.
Qed.

Definition only_market (K : address) (c : chain) : Prop :=
  (K ∉ dom (c_pools c)) ∧ (K ∉ dom (c_distributors c)) ∧ (K ∉ dom (c_vestings c)).
Definition market_inv (T K : address) (c : chain) : Prop := only_market K c ∧ covered T K c.

Section MarketSafety.
  Context `{Hashing} (T K : address).

Lemma only_market_run_call e k : keeps (only_market K) (run_call e k).
Proof.
    intros c u c' Hc Hr. unfold only_market.
    rewrite (leaves_run_call (λ c, dom (c_pools c)) e k _ _ _ Hr),
      (leaves_run_call (λ c, dom (c_distributors c)) e k _ _ _ Hr),
      (leaves_run_call (λ c, dom (c_vestings c)) e k _ _ _ Hr).
    exact Hc.
  Qed.

Lemma covered_other {A} (m : M chain A) :
    leaves (λ c, c_markets c !! K) m → (∀ n, keeps (holds T K n) m) → keeps (covered T K) m.
Proof.
    intros Hl Hh c u c' (x & p & Hp & Htk & Hx & Hn) Hr. exists x, p.
    rewrite (Hl _ _ _ Hr). split_and!; [done..|]. by apply (Hh _ c u c').
  Qed.

Lemma covered_leaves {A} (m : M chain A) :
    leaves (λ c, (c_markets c, c_tokens c)) m → keeps (covered T K) m.
Proof. intros Hl. apply covered_neutral. intros x. by apply ledger_leaves. Qed.

Ltac apply_covered :=
  match goal with |- ?I ?c → ?m ?c = (Ok ?u, ?c') → _ => revert c u c'; change (keeps (covered T K) m) end;
  keep @covered_leaves;
  try (apply covered_neutral; intros ?; apply ledger_store; done);
  try (apply covered_other; [leave | intros ?; apply holds_store; done]).

(** The fees of this market are not withdrawn. *)
Definition keeps_fees (k : call) : Prop := k ≠ CallMarket K MWithdrawFees.

Lemma market_inv_run_call e k :
    msg_sender e ≠ K → spares K k = true → keeps_fees k → keeps (market_inv T K) (run_call e k).
Proof.
    intros He Hs Hf c u c' [Ho Hc] Hr. split; [by apply (only_market_run_call e k c u c')|].
    destruct (decide (callee k = K)) as [HK|HK].
    2: { refine (covered_other _ _ _ c u c' Hc Hr); [|intros n; by apply holds_run_call].
         destruct k as [| | | | | | | |k ? ?|k ?]; simpl in *; eauto with chain typeclass_instances;
           destruct k; unfold transferOwnership, renounceOwnership, _transferOwnership; leave.
         all: apply leaves_sstore; intros ?; by apply lookup_alter_ne. }
    destruct Ho as (Hp & Hd & Hv). rewrite !not_elem_of_dom in *.
    destruct k as [this k|this k|this k|this k|this k|this k|this k|this k|k this a|k this]; simpl in *; subst this.
    - refine (covered_other _ _ _ c u c' Hc Hr); [eauto with chain|]. intros n. by apply holds_run_token.
    - refine (covered_other _ _ _ c u c' Hc Hr); [eauto with chain|]. intros n. apply holds_leaves. eauto with chain.
    - apply pool_needed in Hr as [? ?]. congruence.
    - refine (covered_run_market T K e k He _ c u c' Hc Hr). by intros ->.
    - apply distributor_needed in Hr as [? ?]. congruence.
    - refine (covered_other _ _ _ c u c' Hc Hr); [eauto with chain|]. intros n. by apply holds_run_slashing.
    - refine (covered_other _ _ _ c u c' Hc Hr); [eauto with chain|]. intros n. apply holds_leaves. eauto with chain.
    - apply vesting_needed in Hr as [? ?]. congruence.
    - clear Hp Hd Hv. revert Hc Hr. destruct k; unfold transferOwnership, _transferOwnership; apply_covered.
    - clear Hp Hd Hv. revert Hc Hr. destruct k; unfold renounceOwnership, _transferOwnership; apply_covered.
  Qed.
End MarketSafety.

(** * Theorems *)

(** A registry with fifteen active providers, a market and a client with tokens. *)
Definition demo_providers : list address :=
  ["p0"; "p1"; "p2"; "p3"; "p4"; "p5"; "p6"; "p7"; "p8"; "p9"; "p10"; "p11"; "p12"; "p13"; "p14"].
Definition demo_params : DealParams :=
  MkParams "QmFile" 10 30 5000 demo_providers (replicate 15 "QmShard") (replicate 15 1) 7.
Definition market0 : chain :=
  with_c_markets (λ _, {[ "K" := market_created (demo_env "owner" 0) "T" "R" "P" "treasury" ]}) demo0.
Definition market_setup : list (env * call) :=
  map (λ p, (demo_env p 1, CallRegistry "R" (RRegister "peer" "https://p" "EU" 1))) demo_providers ++
  [(demo_env "owner" 1, CallRegistry "R" (RAuthorizeKeeper "K"));
   (demo_env "owner" 1, CallToken "T" (TTransfer "client" (kyn 1000)));
   (demo_env "client" 2, CallToken "T" (TApprove "K" (kyn 1000)));
   (demo_env "client" 3, CallMarket "K" (MCreateDeal demo_params))].
Definition market1 : chain := apply_txs (H := demo_hashing) market0 market_setup.
Definition demo_market : StorageMarketplace :=
  default (market_created (demo_env "owner" 0) "T" "R" "P" "treasury") (c_markets market1 !! "K").
Definition market1_token : StorageToken :=
  default (token_created (demo_env "owner" 0)) (c_tokens market1 !! "T").

Lemma market0_inv : market_inv "T" "K" market0.
Proof.
  split; [by repeat split; vm_compute|]. exists 0, (market_created (demo_env "owner" 0) "T" "R" "P" "treasury").
  split_and!; [done..|]. split; [by apply map_Forall_singleton, token_created_ok|].
  eexists. split_and!; [done|apply N.le_0_l|done].
Qed.

(** C2. Escrow is covered until fees are withdrawn: in every sequence of transactions of
    all contracts that does not burn tokens of the market and does not withdraw its
    fees, the market has at least the escrow of all its deals and the payments of all
    open retrievals. *)
Theorem escrow_is_covered `{Hashing} T K c txs :
  market_inv T K c →
  Forall (λ tx, msg_sender (fst tx) ≠ K ∧ spares K (snd tx) = true ∧ keeps_fees K (snd tx)) txs →
  ∃ m t, c_markets (apply_txs c txs) !! K = Some m ∧ c_tokens (apply_txs c txs) !! T = Some t ∧
    msum escrow (mk_deals m) + msum unclaimed (mk_retrievals m) ≤ balanceOf t K.
Proof.
  intros Hc Htxs.
  assert (market_inv T K (apply_txs c txs)) as [_ (x & m & Hm & _ & _ & _ & (t & Ht & Hb & _))].
  { eapply (apply_txs_keeps _ (λ e k, msg_sender e ≠ K ∧ spares K k = true ∧ keeps_fees K k));
      [|exact Htxs|exact Hc]. intros e k (He & Hs & Hf). by apply market_inv_run_call. }
  exists m, t. split_and!; [done|done|]. unfold owed in Hb. lia.
Qed.

Lemma escrow_is_covered_witness :
  ∃ m t, c_markets market1 !! "K" = Some m ∧ c_tokens market1 !! "T" = Some t ∧
    msum escrow (mk_deals m) + msum unclaimed (mk_retrievals m) ≤ balanceOf t "K".
Proof.
  unfold market1. apply (escrow_is_covered (H := demo_hashing) "T" "K" market0 market_setup market0_inv).
  unfold market_setup, demo_providers. repeat constructor; done.
Defined.

(** Fees are paid out of the escrow: when the market has exactly what it owes,
    which is so after any deals were created, [withdrawFees] leaves it short of its
    debts by the whole amount of the fees, because the escrow of a deal includes its
    fee. *)
Theorem fees_come_out_of_escrow T K c e u c' m t :
  supply_ok c → c_markets c !! K = Some m → mk_token m = T → c_tokens c !! T = Some t →
  balanceOf t K = owed m → mk_treasury m ≠ K → withdrawFees K e c = (Ok u, c') →
  ∃ m' t', c_markets c' !! K = Some m' ∧ c_tokens c' !! T = Some t' ∧
    0 < mk_totalFeesCollected m ∧ owed m' = owed m ∧
    balanceOf t' K + mk_totalFeesCollected m = owed m'.
Proof.
  intros Hs Hm Htk Ht Hb Htr Hr. unfold withdrawFees, Market.guarded in Hr. run_step Hr.
  apply onlyOwner_returns in H as (m0 & _ & _ & ->).
  apply nonReentrant_returns in Hr as (m1 & c1 & _ & _ & Hr & ->).
  unfold Market.load, Market.store in Hr. run_inv.
  match goal with H : Token.transfer _ _ _ _ _ = (Ok _, ?d) |- _ =>
    pose proof (leaves_token_transfer c_markets _ _ _ _ _ _ _ H) as Hl;
    apply transfer_returns in H as (t1 & Ht1 & Hv & _ & _ & _ & E) end.
  settle. destruct (moved_spec t K (mk_treasury m) (mk_totalFeesCollected m)) as [_ Hx];
    [by apply (Hs (mk_token m))|done|].
  eexists _, (moved K (mk_treasury m) (mk_totalFeesCollected m) t).
  rewrite Hl, !lookup_alter_eq, Hm, E, lookup_insert_eq.
  split_and!; [done|done|done|done|]. unfold owed in *. simpl. specialize (Hx K).
  rewrite decide_True, decide_False in Hx by congruence. lia.
Qed.

Lemma fees_come_out_of_escrow_witness :
  ∃ c' m' t', withdrawFees "K" (demo_env "owner" 4) market1 = (Ok tt, c') ∧
    c_markets c' !! "K" = Some m' ∧ c_tokens c' !! "T" = Some t' ∧
    0 < mk_totalFeesCollected demo_market ∧ owed m' = owed demo_market ∧
    balanceOf t' "K" + mk_totalFeesCollected demo_market = owed m'.
Proof.
  destruct (withdrawFees "K" (demo_env "owner" 4) market1) as [[[]|err] c'] eqn:Hr;
    [|vm_compute in Hr; discriminate].
  destruct (fees_come_out_of_escrow "T" "K" market1 (demo_env "owner" 4) tt c' demo_market market1_token)
    as (m' & t' & H); [|vm_compute; reflexivity..|by vm_compute|exact Hr|].
  - unfold market1. apply (apply_txs_keeps (H := demo_hashing) supply_ok (λ _ _, True)).
    + intros. apply supply_run_call.
    + by apply Forall_true.
    + by apply map_Forall_singleton, token_created_ok.
  - exists c', m', t'. split; [reflexivity|exact H].
Defined.

(** After that the only client of the market cannot be refunded any more. *)
Example refund_fails_after_withdrawal :
  fst (cancelDeal "K" (demo_env "client" 3) 0 market1) = Ok tt ∧
  fst (cancelDeal "K" (demo_env "client" 3) 0
    (apply_txs (H := demo_hashing) market1 [(demo_env "owner" 3, CallMarket "K" MWithdrawFees)]))
  = Throw (Error "ERC20InsufficientBalance").
Proof. by vm_compute. Qed.
