(* ===== verification/Deals.v ===== *)
(** The life of a deal: StorageMarketplace.sol as an implementation of a state
    machine on single deals, and what follows for closed deals and rewards. *)

From S2P Require Import Prelude Contracts ChainRules Token Registry Pool Market Distributor Slashing Verifier Vesting Protocol Collateral Escrow.

Local Open Scope N_scope.

(** * The abstract machine *)

Definition drop_one (p : address) (d : Deal) : Deal :=
  with_dl_activeShards (λ n, n - 1)
    (with_dl_shardAllocations (λ a, <[p := with_sa_active (λ _, false) (at_ shard0 a p)]> a) d).
(** The loops of [completeDeal] and [cancelDeal]. *)
Fixpoint drop_all (ps : list address) (d : Deal) : Deal :=
  match ps with
  | [] => d
  | p :: ps' => drop_all ps' (if sa_active (shard_of d p) then drop_one p d else d)
  end.

Definition completed (d : Deal) : Deal :=
  with_dl_escrowedAmount (λ _, 0) (drop_all (dl_providers d) (with_dl_status (λ _, Completed) d)).
Definition cancelled (refund : N) (d : Deal) : Deal :=
  with_dl_escrowedAmount (λ x, x - refund) (drop_all (dl_providers d) (with_dl_status (λ _, Cancelled) d)).
Definition renewed (n cost : N) (d : Deal) : Deal :=
  with_dl_status (λ _, Active) (with_dl_escrowedAmount (λ x, x + cost)
    (with_dl_duration (λ x, x + n) (with_dl_endTime (λ x, x + n * days 1) d))).
Definition lost (p : address) (d : Deal) : Deal :=
  let d' := drop_one p d in
  if dl_activeShards d' <? MIN_PROVIDERS
  then with_dl_escrowedAmount (λ _, 0) (with_dl_status (λ _, Failed) d') else d'.
Definition repaired (old new : address) (cid : string) (d : Deal) : Deal :=
  let s := shard_of d old in
  with_dl_activeShards (λ n, n + 1) (with_dl_providers (replace_provider old new)
    (with_dl_shardAllocations (λ a, <[new := MkShard (sa_shardIndex s) cid (sa_sizeGB s) true]> (delete old a)) d)).

(** The shares of a new deal: shard [i] is with provider [i]. *)
Fixpoint assign_from (i : N) (ps cids : list string) (sizes : list N) (a : gmap address ShardAllocation)
    : gmap address ShardAllocation :=
  match ps, cids, sizes with
  | p :: ps', cid :: cids', size :: sizes' =>
      assign_from (i + 1) ps' cids' sizes' (<[p := MkShard i cid size true]> a)
  | _, _, _ => a
  end.
Definition opened (e : env) (params : DealParams) (price cost finish : N) : Deal :=
  MkDeal (msg_sender e) (dp_fileCID params) (dp_fileSizeGB params) (dp_durationDays params) price cost
    (block_timestamp e) finish (dp_selectedProviders params)
    (assign_from 0 (dp_selectedProviders params) (dp_shardCIDs params) (dp_shardSizes params) ∅)
    SHARDS_PER_FILE Active cost (dp_alertDays params).

(** What may become of a deal that exists; [R] says which repairs happen. *)
Inductive deal_move (R : Deal → address → address → Prop) (e : env) : Deal → Deal → Prop :=
| move_complete d :
    dl_status d = Active → dl_endTime d ≤ block_timestamp e → MIN_PROVIDERS ≤ dl_activeShards d →
    deal_move R e d (completed d)
| move_cancel d refund :
    running_status (dl_status d) = true → dl_client d = msg_sender e → refund ≤ dl_escrowedAmount d →
    deal_move R e d (cancelled refund d)
| move_renew d n cost :
    running_status (dl_status d) = true → dl_client d = msg_sender e → deal_move R e d (renewed n cost d)
| move_lose d p :
    running_status (dl_status d) = true → sa_active (shard_of d p) = true → deal_move R e d (lost p d)
| move_repair d old new cid :
    running_status (dl_status d) = true → sa_active (shard_of d old) = false → R d old new →
    deal_move R e d (repaired old new cid d).

(** A deal is opened once, with 15 distinct providers, or it moves. *)
Inductive deal_step (R : Deal → address → address → Prop) (e : env) : Deal → Deal → Prop :=
| step_open params price cost finish :
    length (dp_selectedProviders params) = 15%nat → length (dp_shardCIDs params) = 15%nat →
    length (dp_shardSizes params) = 15%nat → NoDup (dp_selectedProviders params) →
    deal_step R e deal0 (opened e params price cost finish)
| step_move d d' : deal_move R e d d' → deal_step R e d d'.

(** * Deals of a market *)

Section Deals.
  Context (K : address).

Definition deal_at (j : N) (c : chain) : Deal :=
  match c_markets c !! K with Some m => deal_of m j | None => deal0 end.

Lemma deal_at_Some j c m : c_markets c !! K = Some m → deal_at j c = deal_of m j.
Proof. unfold deal_at. by intros ->. Qed.

Lemma leaves_deal_at_store j this (f : StorageMarketplace → StorageMarketplace) :
    (∀ m, mk_deals (f m) = mk_deals m) → leaves (deal_at j) (sstore this f).
Proof.
    intros Hf. apply leaves_sstore. intros c. unfold deal_at, deal_of. simpl.
    destruct (decide (this = K)) as [->|Hne]; [rewrite lookup_alter_eq|by rewrite lookup_alter_ne].
    destruct (c_markets c !! K) as [m|]; simpl; [by rewrite Hf|done].
  Qed.

(** The market stays where it is. *)
Definition here (c : chain) : bool :=
  match c_markets c !! K with Some _ => true | None => false end.
Lemma leaves_here_store this (f : StorageMarketplace → StorageMarketplace) : leaves here (sstore this f).
Proof.
    apply leaves_sstore. intros c. unfold here. simpl.
    destruct (decide (this = K)) as [->|Hne]; [rewrite lookup_alter_eq|by rewrite lookup_alter_ne].
    by destruct (c_markets c !! K).
  Qed.

Lemma set_deal_at i f c u c' :
    here c = true → set_deal K i f c = (Ok u, c') →
    ∀ j, deal_at j c' = if decide (j = i) then f (deal_at i c) else deal_at j c.
Proof.
    unfold here. destruct (c_markets c !! K) as [m|] eqn:Hm; [|done]. intros _ Hr j.
    unfold set_deal, Market.store in Hr. run_inv. unfold deal_at, deal_of, at_. simpl.
    rewrite lookup_alter_eq, Hm. simpl. case_decide as Hj.
    - subst. by rewrite lookup_insert_eq.
    - by rewrite lookup_insert_ne.
  Qed.
End Deals.
#[export] Hint Resolve leaves_deal_at_store leaves_here_store : chain.
#[export] Hint Extern 1 (Ignores (deal_at _ _) _ _) => (intros ? ?; reflexivity) : chain typeclass_instances.
#[export] Hint Extern 1 (Ignores (here _) _ _) => (intros ? ?; reflexivity) : chain typeclass_instances.
#[export] Hint Extern 1 (IgnoresLogs (deal_at _ _)) => (intros ? ?; reflexivity) : chain typeclass_instances.
#[export] Hint Extern 1 (IgnoresLogs (here _)) => (intros ? ?; reflexivity) : chain typeclass_instances.

(** * Runs that change one deal *)

(** Since [c0], deal [i] has become [X] and the others are as they were. *)
Definition now_at (K : address) (i : N) (X : Deal) (c0 c : chain) : Prop :=
  here K c = true ∧ ∀ j, deal_at K j c = if decide (j = i) then X else deal_at K j c0.

Section NowAt.
  Context (K : address) (i : N) (c0 : chain).

Lemma now_start m : c_markets c0 !! K = Some m → now_at K i (deal_of m i) c0 c0.
Proof.
    intros Hm. split; [unfold here; by rewrite Hm|]. intros j. case_decide; [|done]. subst.
    by apply deal_at_Some.
  Qed.
Lemma now_leaves X {A} (m : M chain A) :
    leaves (here K) m → (∀ j, leaves (deal_at K j) m) → keeps (now_at K i X c0) m.
Proof.
    intros Hh Hd c u c' [H1 H2] Hr. split; [by rewrite (Hh _ _ _ Hr)|]. intros j.
    by rewrite (Hd j _ _ _ Hr), H2.
  Qed.
Lemma now_set X f c u c' : now_at K i X c0 c → set_deal K i f c = (Ok u, c') → now_at K i (f X) c0 c'.
Proof.
    intros [H1 H2] Hr. split.
    - rewrite <- H1. unfold set_deal, Market.store in Hr. by apply (leaves_here_store K _ _ _ _ _ Hr).
    - intros j. rewrite (set_deal_at K i f c u c' H1 Hr), !H2. case_decide; [|done].
      by rewrite decide_True.
  Qed.
Lemma now_load X (m : StorageMarketplace) c c' :
    now_at K i X c0 c → Market.load K c = (Ok m, c') →
    c' = c ∧ c_markets c !! K = Some m ∧ deal_of m i = X.
Proof.
    intros [H1 H2] Hl. apply sload_returns in Hl as [Hm ->]. split_and!; [done|done|].
    specialize (H2 i). rewrite decide_True in H2 by done. rewrite <- H2. symmetry. by apply deal_at_Some.
  Qed.
End NowAt.

Ltac keep_now :=
  repeat match goal with
  | |- keeps _ (_ ≫= _) => apply keeps_bind; [|intros ?]; cbv beta zeta
  | |- keeps _ (if ?b then _ else _) => destruct b
  | |- keeps _ (match ?x with _ => _ end) => destruct x
  end;
  try solve [apply now_leaves; [leave | intros ?; leave]].
Ltac go HN H :=
  lazymatch type of H with ?m ?c = (Ok ?a, ?c1) =>
  lazymatch type of HN with now_at ?K ?i ?X ?c0 _ =>
    let HN' := fresh in
    assert (now_at K i X c0 c1) as HN'
      by (refine ((_ : keeps (now_at K i X c0) m) c a c1 HN H); keep_now);
    clear HN; rename HN' into HN; try clear H
  end end.
Ltac pass Hr HN := let a := fresh in let c := fresh in let H := fresh in next Hr a c H; go HN H.
(** [put Hr HN]: the next step writes the deal. *)
Ltac put Hr HN :=
  let u := fresh in let c := fresh in let H := fresh in next Hr u c H;
  eapply now_set in H; [|exact HN]; clear HN; rename H into HN.
(** [look Hr HN m Hm Hd]: the next step reads the market. *)
Tactic Notation "look" hyp(Hr) hyp(HN) ident(m) ident(Hm) ident(Hd) :=
  let c := fresh in let H := fresh in next Hr m c H;
  destruct (now_load _ _ _ _ _ _ _ HN H) as (-> & Hm & Hd); clear H; cbv zeta in Hr.

Section Effects.
  Context (K : address) (R : Deal → address → address → Prop).

Lemma now_drop i X p c0 c u c' :
    now_at K i X c0 c → drop_shard K i p c = (Ok u, c') →
    1 ≤ dl_activeShards X ∧ now_at K i (drop_one p X) c0 c'.
Proof.
    intros HN Hr. unfold drop_shard in Hr. put Hr HN. look Hr HN m Hm Hd.
    next Hr n c1 Hn. run_step Hn. eapply now_set in Hr; [|exact HN]. rewrite Hd in *. simpl in *. by split.
  Qed.

Lemma now_drop_all i c0 (g : StorageMarketplace → address → M chain unit) :
    (∀ m p Y c u c', now_at K i Y c0 c → g m p c = (Ok u, c') → now_at K i (drop_one p Y) c0 c') →
    ∀ ps X c u c', now_at K i X c0 c →
    for_each ps (λ p, m ← Market.load K;
      if sa_active (shard_of (deal_of m i) p) then g m p else mret tt) c = (Ok u, c') →
    now_at K i (drop_all ps X) c0 c'.
Proof.
    intros Hg ps. induction ps as [|p ps IH]; intros X c u c' HN Hr; simpl in Hr.
    { by run_step Hr. }
    next Hr z c1 Hz. look Hz HN m Hm Hd. rewrite Hd in Hz. simpl.
    destruct (sa_active (shard_of X p)).
    - apply (Hg _ _ X) in Hz; [|done]. by eapply IH.
    - run_step Hz. by eapply IH.
  Qed.

(** Entering and leaving a guarded function. *)
Lemma guarded_effect {A} (m : M chain A) i (Q : A → Deal → Prop) c a c' :
    Market.guarded K m c = (Ok a, c') →
    (∀ c1 c2 k, c_markets c1 !! K = Some k → m c1 = (Ok a, c2) → (∀ j, deal_at K j c1 = deal_at K j c) →
       (∀ k0, c_markets c !! K = Some k0 → mk_dealCount k = mk_dealCount k0) →
       ∃ X, now_at K i X c1 c2 ∧ Q a X) →
    ∃ X, now_at K i X c c' ∧ Q a X.
Proof.
    intros Hr HQ. apply nonReentrant_returns in Hr as (k & c2 & Hk & _ & Hm & ->).
    set (c1 := with_slot (alter (with_entered (λ _, true)) K) c) in *.
    assert (∀ j, deal_at K j c1 = deal_at K j c) as Hc1.
    { intros j. by refine (leaves_deal_at_store K j K (with_mk_entered (λ _, true)) _ c tt c1 eq_refl). }
    destruct (HQ c1 c2 (with_entered (λ _, true) k)) as (X & [HX1 HX2] & HQX); [|done|done|intros k0 Hk0; simpl in Hk; by simplify_eq|].
    { simpl in Hk |- *. by rewrite lookup_alter_eq, Hk. }
    exists X. split; [|done]. split.
    - rewrite <- HX1. by refine (leaves_here_store K K (with_mk_entered (λ _, false)) c2 tt _ eq_refl).
    - intros j. rewrite <- Hc1, <- HX2.
      by refine (leaves_deal_at_store K j K (with_mk_entered (λ _, false)) _ c2 tt _ eq_refl).
  Qed.

(** What a run did to the deals: one of them made a step, or none changed. *)
Definition one_step (S : Deal → Deal → Prop) (i : N) (c c' : chain) : Prop :=
    ∃ X, now_at K i X c c' ∧ (X = deal_at K i c ∨ S (deal_at K i c) X).

Lemma drop_all_fields ps : ∀ d,
    dl_escrowedAmount (drop_all ps d) = dl_escrowedAmount d ∧ dl_totalCost (drop_all ps d) = dl_totalCost d ∧
    dl_status (drop_all ps d) = dl_status d ∧ dl_providers (drop_all ps d) = dl_providers d.
Proof.
    induction ps as [|p ps IH]; intros d; simpl; [done|].
    destruct (IH (if sa_active (shard_of d p) then drop_one p d else d)) as (-> & -> & -> & ->).
    by destruct (sa_active (shard_of d p)).
  Qed.

Lemma cancel_steps e i c u c' : cancelDeal K e i c = (Ok u, c') → one_step (deal_move R e) i c c'.
Proof.
    intros Hr. unfold one_step.
    refine (guarded_effect _ i (λ _ X, X = deal_at K i c ∨ deal_move R e (deal_at K i c) X) _ _ _ Hr _). clear Hr.
    intros c1 c2 k Hk Hr Hc1 _. pose proof (now_start K i c1 k Hk) as HN.
    look Hr HN m Hm Hd. assert (m = k) as -> by congruence. clear Hd.
    rewrite <- Hc1, (deal_at_Some K i c1 k Hk). set (d := deal_of k i) in *.
    next Hr z c3 Hz. run_step Hz. next Hr q c4 Hq. run_step Hq. apply bool_decide_eq_true in Hq.
    put Hr HN. next Hr y c5 Hy.
    apply (now_drop_all i c1 (λ _ p, drop_shard K i p)) with (X := with_dl_status (λ _, Cancelled) d) in Hy;
      [|intros ? p Y ? ? ? HY HYr; by eapply now_drop|done].
    clear HN. pass Hr Hy. pass Hr Hy. next Hr refund c6 Hrf. go Hy Hrf.
    destruct (drop_all_fields (dl_providers d) (with_dl_status (λ _, Cancelled) d)) as (Ees & _).
    next Hr w c7 Hw. destruct (N.ltb_spec 0 refund) as [Hpos|Hzero].
    - next Hw rest c8 Hs. run_step Hs. put Hw Hy. go Hy Hw. go Hy Hr.
      eexists. split; [exact Hy|]. right.
      replace (with_dl_escrowedAmount (λ _, dl_escrowedAmount d - refund) _) with (cancelled refund d);
        [by constructor|]. unfold cancelled, with_dl_escrowedAmount. rewrite Ees. done.
    - run_step Hw. go Hy Hr. eexists. split; [exact Hy|]. right.
      assert (refund = 0) as -> by lia.
      replace (drop_all _ _) with (cancelled 0 d); [constructor; [done|done|lia]|].
      unfold cancelled. set (Y := drop_all _ _). destruct Y. unfold with_dl_escrowedAmount. simpl. by rewrite N.sub_0_r.
  Qed.

Lemma complete_steps e i c u c' : completeDeal K e i c = (Ok u, c') → one_step (deal_move R e) i c c'.
Proof.
    intros Hr. unfold one_step.
    refine (guarded_effect _ i (λ _ X, X = deal_at K i c ∨ deal_move R e (deal_at K i c) X) _ _ _ Hr _). clear Hr.
    intros c1 c2 k Hk Hr Hc1 _. pose proof (now_start K i c1 k Hk) as HN.
    look Hr HN m Hm Hd. assert (m = k) as -> by congruence. clear Hd.
    rewrite <- Hc1, (deal_at_Some K i c1 k Hk). set (d := deal_of k i) in *.
    next Hr z c3 Hz. run_step Hz. next Hr q c4 Hq. run_step Hq. next Hr r c5 Hn. run_step Hn. settle.
    put Hr HN. next Hr y c6 Hy.
    apply (now_drop_all i c1 (λ m p, Registry.recordDealCompleted (mk_registry m) (sent_by K e) p ;; drop_shard K i p))
      with (X := with_dl_status (λ _, Completed) d) in Hy;
      [|intros ? p Y ? ? ? HY HYr; pass HYr HY; by eapply now_drop|done].
    clear HN. look Hr Hy m Hm2 Hd2. pass Hr Hy. pass Hr Hy. put Hr Hy. pass Hr Hy. go Hy Hr.
    eexists. split; [exact Hy|]. right. by constructor.
  Qed.

Lemma renew_steps e i n c u c' : renewDeal K e i n c = (Ok u, c') → one_step (deal_move R e) i c c'.
Proof.
    intros Hr. unfold one_step.
    refine (guarded_effect _ i (λ _ X, X = deal_at K i c ∨ deal_move R e (deal_at K i c) X) _ _ _ Hr _). clear Hr.
    intros c1 c2 k Hk Hr Hc1 _. pose proof (now_start K i c1 k Hk) as HN.
    look Hr HN m Hm Hd. assert (m = k) as -> by congruence. clear Hd.
    rewrite <- Hc1, (deal_at_Some K i c1 k Hk). set (d := deal_of k i) in *.
    next Hr z c3 Hz. run_step Hz. next Hr q c4 Hq. run_step Hq. apply bool_decide_eq_true in Hq.
    unfold deal_cost, Market.store in Hr.
    next Hr fc c5 Hf. go HN Hf. destruct fc as [fee total]. do 3 (pass Hr HN). pass Hr HN.
    next Hr span c6 Hs. run_step Hs. next Hr fin c7 Hs2. run_step Hs2. put Hr HN.
    next Hr dur c8 Hs3. run_step Hs3. put Hr HN. next Hr esc c9 Hs4. run_step Hs4. put Hr HN. put Hr HN. go HN Hr.
    eexists. split; [exact HN|]. right. by apply (move_renew R e d n total).
  Qed.

Lemma report_steps e i p c u c' : reportLostShard K e i p c = (Ok u, c') → one_step (deal_move R e) i c c'.
Proof.
    intros Hr. unfold reportLostShard in Hr. next Hr o c1 Ho.
    apply onlyOwner_returns in Ho as (k & Hk & _ & ->). change (c_markets c !! K = Some k) in Hk.
    pose proof (now_start K i c k Hk) as HN.
    look Hr HN m Hm Hd. assert (m = k) as -> by congruence. clear Hd.
    unfold one_step. rewrite (deal_at_Some K i c k Hk). set (d := deal_of k i) in *.
    next Hr z c3 Hz. run_step Hz. next Hr q c4 Hq. run_step Hq. next Hr y c5 Hy.
    destruct (now_drop _ _ _ _ _ _ _ HN Hy) as [_ HN2]. clear HN Hy. pass Hr HN2. look Hr HN2 m2 Hm2 Hd2.
    rewrite Hd2 in Hr. exists (lost p d). split; [|right; by constructor]. unfold lost.
    destruct (dl_activeShards (drop_one p d) <? MIN_PROVIDERS); [|by run_step Hr].
    put Hr HN2. next Hr w c6 Hw.
    assert (now_at K i (with_dl_escrowedAmount (λ _, 0) (with_dl_status (λ _, Failed) (drop_one p d))) c c6) as HN.
    { destruct (N.ltb_spec 0 (dl_escrowedAmount d)) as [|Hz0].
      - put Hw HN2. go HN2 Hw. exact HN2.
      - run_step Hw. replace (with_dl_escrowedAmount _ _) with (with_dl_status (λ _, Failed) (drop_one p d)); [done|].
        unfold with_dl_escrowedAmount, with_dl_status. simpl. by replace (dl_escrowedAmount d) with 0 by lia. }
    pass Hr HN. go HN Hr. exact HN.
  Qed.

Lemma repair_steps e i old new cid c u c' :
    R (deal_at K i c) old new → repairShard K e i old new cid c = (Ok u, c') → one_step (deal_move R e) i c c'.
Proof.
    intros HR Hr. unfold repairShard in Hr. next Hr o c1 Ho.
    apply onlyOwner_returns in Ho as (k & Hk & _ & ->). change (c_markets c !! K = Some k) in Hk.
    pose proof (now_start K i c k Hk) as HN.
    look Hr HN m Hm Hd. assert (m = k) as -> by congruence. clear Hd.
    unfold one_step. rewrite (deal_at_Some K i c k Hk) in *. set (d := deal_of k i) in *.
    next Hr z c3 Hz. run_step Hz. next Hr q c4 Hq. run_step Hq. apply negb_true_iff in Hq.
    pass Hr HN. pass Hr HN. cbv zeta in Hr. put Hr HN. put Hr HN. put Hr HN.
    next Hr n c5 Hn. run_step Hn. put Hr HN. unfold Market.store in Hr. pass Hr HN. pass Hr HN. go HN Hr.
    eexists. split; [exact HN|]. right. by apply (move_repair R e d old new cid).
  Qed.
End Effects.

(** ** Opening a deal *)

Definition with_shards (i : N) (ps cids : list string) (sizes : list N) (d : Deal) : Deal :=
  with_dl_shardAllocations (assign_from i ps cids sizes) (with_dl_providers (λ l, l ++ ps) d).

Lemma check_providers_distinct r ps : ∀ seen c u c',
  check_providers r seen ps c = (Ok u, c') → NoDup ps ∧ (∀ p, p ∈ ps → p ∉ seen) ∧ c' = c.
Proof.
  induction ps as [|p ps IH]; intros seen c u c' Hr; simpl in Hr.
  { run_inv. split_and!; [constructor|set_solver|done]. }
  next Hr z c1 Hz. run_step Hz. next Hr y c2 Hy. run_step Hy. next Hr x c3 Hx. run_step Hx.
  next Hr w c4 Hw. run_step Hw. apply bool_decide_eq_true in Hw.
  apply IH in Hr as (Hnd & Hs & ->). split_and!; [|set_solver|done].
  constructor; [|done]. intros Hp. specialize (Hs p Hp). set_solver.
Qed.

Lemma assign_loop K i params c0 n : ∀ s X c u c',
  length (dp_selectedProviders params) = (s + n)%nat → length (dp_shardCIDs params) = (s + n)%nat →
  length (dp_shardSizes params) = (s + n)%nat →
  now_at K i X c0 c → for_each (seq s n) (assign_shard K i params) c = (Ok u, c') →
  now_at K i (with_shards (N.of_nat s) (drop s (dp_selectedProviders params)) (drop s (dp_shardCIDs params))
    (drop s (dp_shardSizes params)) X) c0 c'.
Proof.
  induction n as [|n IH]; intros s X c u c' H1 H2 H3 HN Hr; simpl in Hr.
  { run_step Hr. rewrite !drop_ge by lia. destruct X.
    unfold with_shards, with_dl_shardAllocations, with_dl_providers. simpl. by rewrite app_nil_r. }
  next Hr z c1 Hz. unfold assign_shard in Hz.
  destruct (dp_selectedProviders params !! s) as [p|] eqn:Hp; [|apply lookup_ge_None in Hp; lia].
  destruct (dp_shardCIDs params !! s) as [cid|] eqn:Hc; [|apply lookup_ge_None in Hc; lia].
  destruct (dp_shardSizes params !! s) as [size|] eqn:Hs; [|apply lookup_ge_None in Hs; lia].
  put Hz HN. put Hz HN. unfold Market.store in Hz. pass Hz HN. go HN Hz.
  eapply IH in Hr; [|lia..|exact HN].
  rewrite (drop_S _ _ _ Hp), (drop_S _ _ _ Hc), (drop_S _ _ _ Hs).
  unfold with_shards, with_dl_shardAllocations, with_dl_providers in *. destruct X. simpl in *.
  replace (N.of_nat s + 1) with (N.of_nat (S s)) by lia. by rewrite <- app_assoc in Hr.
Qed.

Lemma create_steps K R e params c r c' m :
  createDeal K e params c = (Ok r, c') → c_markets c !! K = Some m → deal_of m (mk_dealCount m) = deal0 →
  one_step K (deal_step R e) (mk_dealCount m) c c'.
Proof.
  intros Hr Hm0 Hfresh. unfold one_step. set (i := mk_dealCount m).
  refine (guarded_effect K _ i (λ _ X, X = deal_at K i c ∨ deal_step R e (deal_at K i c) X) _ _ _ Hr _).
  clear Hr. intros c1 c2 k Hk Hr Hc1 Hcount. specialize (Hcount m Hm0). fold i in Hcount.
  rewrite (deal_at_Some K i c m Hm0). fold i in Hfresh. rewrite Hfresh.
  pose proof (now_start K i c1 k Hk) as HN.
  rewrite <- (deal_at_Some K i c1 k Hk), Hc1, (deal_at_Some K i c m Hm0), Hfresh in HN.
  next Hr z1 d1 Hz1. run_step Hz1. next Hr z2 d2 Hz2. run_step Hz2. next Hr z3 d3 Hz3. run_step Hz3.
  apply N.eqb_eq in Hz1, Hz2, Hz3. unfold SHARDS_PER_FILE in *.
  next Hr z0 d0 Hz0. run_step Hz0. look Hr HN m1 Hm1 Hd1. assert (m1 = k) as -> by congruence.
  next Hr x d4 Hx. run_step Hx. next Hr price d5 Hp. run_step Hp.
  next Hr z d6 Hch. apply check_providers_distinct in Hch as (Hnd & _ & ->).
  next Hr fc d7 Hf. assert (d7 = c1) as -> by (unfold deal_cost in Hf; by run_inv). clear Hf. destruct fc as [fee total].
  next Hr ok d8 Ht. pose proof (leaves_token_transferFrom c_markets _ _ _ _ _ _ _ _ Ht) as Ek.
  go HN Ht. next Hr z4 d9 Hz4. run_step Hz4. look Hr HN m2 Hm2 Hd2. assert (m2 = k) as -> by congruence.
  rewrite Hcount in Hr. unfold Market.store in Hr. do 4 (pass Hr HN).
  next Hr span d10 Hs. go HN Hs. next Hr finish d11 Hfin. go HN Hfin. put Hr HN.
  next Hr y d12 Hy. eapply (assign_loop K i params c1 15 0) in Hy; [|lia..|exact HN]. clear HN.
  pass Hr Hy. run_step Hr. eexists. split; [exact Hy|]. right.
  apply (step_open R e params _ total finish); [lia..|done].
Qed.

(** ** The number of deals *)

Definition count_at (K : address) (c : chain) : N :=
  match c_markets c !! K with Some m => mk_dealCount m | None => 0 end.
Lemma leaves_count_store K this (f : StorageMarketplace → StorageMarketplace) :
  (∀ m, mk_dealCount (f m) = mk_dealCount m) → leaves (count_at K) (sstore this f).
Proof.
  intros Hf. apply leaves_sstore. intros c. unfold count_at. simpl.
  destruct (decide (this = K)) as [->|Hne]; [rewrite lookup_alter_eq|by rewrite lookup_alter_ne].
  destruct (c_markets c !! K) as [m|]; simpl; [by rewrite Hf|done].
Qed.
#[export] Hint Resolve leaves_count_store : chain.
#[export] Hint Extern 1 (Ignores (count_at _) _ _) => (intros ? ?; reflexivity) : chain typeclass_instances.
#[export] Hint Extern 1 (IgnoresLogs (count_at _)) => (intros ? ?; reflexivity) : chain typeclass_instances.

Lemma set_count K n c u c' : here K c = true →
  sstore K (with_mk_dealCount (λ _, n)) c = (Ok u, c') → count_at K c' = n.
Proof.
  unfold here, count_at. intros Hh Hr. run_inv. simpl. rewrite lookup_alter_eq.
  by destruct (c_markets c !! K).
Qed.

Lemma create_counts K e params c r c' :
  createDeal K e params c = (Ok r, c') → count_at K c' = count_at K c + 1.
Proof.
  intros Hr. apply nonReentrant_returns in Hr as (k & c2 & Hk & _ & Hr & ->).
  change (c_markets c !! K = Some k) in Hk.
  change (count_at K (with_slot (alter (with_mk_entered (λ _, false)) K) c2) = count_at K c + 1).
  rewrite (leaves_count_store K K (with_mk_entered (λ _, false)) (λ _, eq_refl) c2 tt _ eq_refl).
  set (c1 := with_slot _ c) in Hr.
  assert (c_markets c1 !! K = Some (with_mk_entered (λ _, true) k)) as Hk1
    by (simpl; by rewrite lookup_alter_eq, Hk).
  assert (count_at K c = mk_dealCount k) as -> by (unfold count_at; by rewrite Hk).
  pose proof (now_start K 0 c1 _ Hk1) as HN.
  next Hr z1 d1 Hz1. run_step Hz1. next Hr z2 d2 Hz2. run_step Hz2. next Hr z3 d3 Hz3. run_step Hz3.
  next Hr z0 d0 Hz0. run_step Hz0. look Hr HN m1 Hm1 Hd1.
  next Hr x d4 Hx. run_step Hx. next Hr price d5 Hp. run_step Hp.
  next Hr z d6 Hch. apply check_providers_distinct in Hch as (_ & _ & ->).
  next Hr fc d7 Hf. assert (d7 = c1) as -> by (unfold deal_cost in Hf; by run_inv). clear Hf. destruct fc as [fee total].
  next Hr ok d8 Ht. pose proof (leaves_token_transferFrom c_markets _ _ _ _ _ _ _ _ Ht) as Ek.
  go HN Ht. next Hr z4 d9 Hz4. run_step Hz4. look Hr HN m2 Hm2 Hd2.
  assert (m2 = with_mk_entered (λ _, true) k) as -> by congruence.
  unfold Market.store in Hr. pass Hr HN. pass Hr HN. next Hr n d10 Hn. run_step Hn.
  next Hr u d11 Hu. apply set_count in Hu; [|by destruct HN]. simpl in Hu.
  unfold set_deal, assign_shard, set_deal, Market.store in Hr.
  rewrite <- Hu. lazymatch type of Hr with ?m ?s = _ =>
    refine ((_ : leaves (count_at K) m) s _ c2 Hr) end. leave.
Qed.

(** * Every call moves at most one deal, by one step *)

Section Calls.
  Context `{Hashing} (K : address) (R : Deal → address → address → Prop).

Definition moves_one (e : env) (c c' : chain) : Prop :=
    ∃ i, one_step K (deal_move R e) i c c' ∧ count_at K c' = count_at K c ∨
         one_step K (deal_step R e) i c c' ∧ i = count_at K c ∧ count_at K c' = count_at K c + 1.

(** Identifiers that were not given out yet are unused. *)
Definition fresh_ids (c : chain) : Prop :=
    here K c = true ∧ ∀ j, count_at K c ≤ j → deal_at K j c = deal0.

Lemma moves_none {A} (m : M chain A) e c u c' :
    leaves (here K) m → (∀ j, leaves (deal_at K j) m) → leaves (count_at K) m →
    here K c = true → m c = (Ok u, c') → moves_one e c c'.
Proof.
    intros Hh Hd Hn Hc Hr. exists 0. left. split; [|by apply (Hn _ _ _ Hr)].
    exists (deal_at K 0 c). split; [|by left]. split; [by rewrite (Hh _ _ _ Hr)|].
    intros j. rewrite (Hd j _ _ _ Hr). case_decide; by subst.
  Qed.

(** The repairs a call asks for are those [R] allows. *)
Definition allowed (c : chain) (k : call) : Prop :=
    match k with
    | CallMarket this (MRepairShard i old new _) => this = K → R (deal_at K i c) old new
    | _ => True
    end.

Lemma moves_market e k c u c' :
    fresh_ids c → allowed c (CallMarket K k) → run_market e K k c = (Ok u, c') → moves_one e c c'.
Proof.
    intros [Hh Hf] HR Hr. simpl in HR.
    assert (∀ m i, leaves (count_at K) m → m = run_market e K k → one_step K (deal_move R e) i c c' → moves_one e c c') as Hone.
    { intros m i Hl -> Hs. exists i. left. split; [done|]. by apply (Hl _ _ _ Hr). }
    destruct k; simpl in Hr; unfold discard in *.
    - refine (moves_none _ e c u c' _ _ _ Hh Hr); [|intros j|]; unfold initiateRetrieval, Market.guarded,
        nonReentrant, Market.load, Market.store; leave.
    - refine (moves_none _ e c u c' _ _ _ Hh Hr); [|intros j|]; unfold claimRetrievalPayment, Market.guarded,
        nonReentrant, Market.load, Market.store; leave.
    - run_step Hr. run_step Hr. unfold here in Hh. destruct (c_markets c !! K) as [m|] eqn:Hm; [|done].
      match goal with Hc : createDeal _ _ _ _ = _ |- _ => pose proof (create_counts _ _ _ _ _ _ Hc) as Hn;
        apply (create_steps _ R _ _ _ _ _ m) in Hc; [|done|] end.
      + exists (mk_dealCount m). right. split; [done|]. unfold count_at at 1. by rewrite Hm.
      + rewrite <- (deal_at_Some K _ c m Hm). apply Hf. unfold count_at. by rewrite Hm.
    - eapply Hone; [|reflexivity|by eapply complete_steps]. simpl.
      unfold completeDeal, Market.guarded, nonReentrant, drop_shard, set_deal, Market.load, Market.store. leave.
    - eapply Hone; [|reflexivity|by eapply cancel_steps]. simpl.
      unfold cancelDeal, Market.guarded, nonReentrant, drop_shard, set_deal, Market.load, Market.store. leave.
    - eapply Hone; [|reflexivity|by eapply renew_steps]. simpl.
      unfold renewDeal, Market.guarded, nonReentrant, deal_cost, set_deal, Market.load, Market.store. leave.
    - eapply Hone; [|reflexivity|by eapply report_steps]. simpl.
      unfold reportLostShard, drop_shard, set_deal, Market.load, Market.store. leave.
    - eapply Hone; [|reflexivity|eapply repair_steps; [by apply HR|done]]. simpl.
      unfold repairShard, set_deal, Market.load, Market.store. leave.
    - refine (moves_none _ e c u c' _ _ _ Hh Hr); [|intros j|]; unfold setProtocolFee, Market.store; leave.
    - refine (moves_none _ e c u c' _ _ _ Hh Hr); [|intros j|]; unfold setTreasury, Market.store; leave.
    - refine (moves_none _ e c u c' _ _ _ Hh Hr); [|intros j|]; unfold updateKynPrice, Market.store; leave.
    - refine (moves_none _ e c u c' _ _ _ Hh Hr); [|intros j|]; unfold setPaymentDistributor, Market.load, Market.store; leave.
    - refine (moves_none _ e c u c' _ _ _ Hh Hr); [|intros j|]; unfold withdrawFees, Market.guarded,
        nonReentrant, Market.load, Market.store; leave.
  Qed.

Lemma moves_call e k c u c' : fresh_ids c → allowed c k → run_call e k c = (Ok u, c') → moves_one e c c'.
Proof.
    intros Hf HR Hr. pose proof (proj1 Hf) as Hh.
    destruct k as [this k|this k|this k|this k|this k|this k|this k|this k|k this a|k this]; simpl in Hr.
    4: { destruct (decide (this = K)) as [->|Hne]; [by eapply moves_market|].
         assert (Ignores (here K) StorageMarketplace this)
           by (intros h d; unfold here; simpl; by rewrite lookup_alter_ne).
         assert (∀ j, Ignores (deal_at K j) StorageMarketplace this)
           by (intros j h d; unfold deal_at; simpl; by rewrite lookup_alter_ne).
         assert (Ignores (count_at K) StorageMarketplace this)
           by (intros h d; unfold count_at; simpl; by rewrite lookup_alter_ne).
         refine (moves_none _ e c u c' _ _ _ Hh Hr); [|intros j|]; eauto with chain typeclass_instances. }
    1-7: refine (moves_none _ e c u c' _ _ _ Hh Hr); [|intros j|]; eauto with chain.
    all: destruct k; (refine (moves_none _ e c u c' _ _ _ Hh Hr); [|intros j|]);
      unfold transferOwnership, renounceOwnership, _transferOwnership; leave.
  Qed.
End Calls.
