(* ===== verification/Lifecycle.v ===== *)
(** Consequences of the deal machine over all transactions: closed deals never
    change, the shard counter is right, and usage rewards are never distributed. *)

From S2P Require Import Prelude Contracts ChainRules Token Registry Pool Market Distributor Slashing Verifier Vesting Protocol Collateral Escrow Deals.

Local Open Scope N_scope.

(** * Counting active shards *)

Definition is_active (d : Deal) (p : address) : bool := sa_active (shard_of d p).
Definition counted (d : Deal) : Prop :=
  NoDup (dl_providers d) ∧ (∀ p, is_active d p = true → p ∈ dl_providers d) ∧
  dl_activeShards d = N.of_nat (length (where_ (is_active d) (dl_providers d))).

Lemma is_active_drop p q d : is_active (drop_one p d) q = is_active d q && negb (bool_decide (q = p)).
Proof.
  unfold is_active, shard_of, drop_one, at_. simpl. destruct (decide (q = p)) as [->|Hq].
  - rewrite lookup_insert_eq, bool_decide_eq_true_2 by done. simpl. by rewrite andb_false_r.
  - rewrite lookup_insert_ne, bool_decide_eq_false_2 by done. by rewrite andb_true_r.
Qed.

Lemma where_remove (f : address → bool) p (l : list address) :
  NoDup l → p ∈ l → f p = true →
  S (length (where_ (λ q, f q && negb (bool_decide (q = p))) l)) = length (where_ f l).
Proof.
  unfold where_. induction l as [|x l IH]; intros Hnd Hp Hf; [set_solver|].
  apply NoDup_cons in Hnd as [Hx Hnd]. simpl. destruct (decide (x = p)) as [->|Hne].
  - rewrite bool_decide_eq_true_2, andb_false_r, Hf by done. simpl. f_equal. f_equal.
    apply filter_ext_in. intros q Hq. rewrite bool_decide_eq_false_2; [by rewrite andb_true_r|].
    intros ->. by apply list_elem_of_In in Hq.
  - rewrite bool_decide_eq_false_2, andb_true_r by done.
    apply elem_of_cons in Hp as [->|Hp]; [done|]. destruct (f x); simpl; by rewrite <- IH.
Qed.

Lemma counted_drop p d : counted d → is_active d p = true → counted (drop_one p d).
Proof.
  intros (Hnd & Hin & Hn) Hp. unfold counted. simpl. split_and!; [done| |].
  - intros q. rewrite is_active_drop. intros [? _]%andb_true_iff. by apply Hin.
  - rewrite Hn, <- (where_remove (is_active d) p) by auto.
    rewrite (where_ext (is_active (drop_one p d)) (λ q, is_active d q && negb (bool_decide (q = p)))); [lia|].
    intros q _. apply is_active_drop.
Qed.

Lemma in_cons_bool (q p : address) ps :
  bool_decide (q ∈ p :: ps) = bool_decide (q = p) || bool_decide (q ∈ ps).
Proof. repeat case_bool_decide; set_solver. Qed.

Lemma counted_drop_all ps : ∀ d, counted d →
  counted (drop_all ps d) ∧
  ∀ q, is_active (drop_all ps d) q = is_active d q && negb (bool_decide (q ∈ ps)).
Proof.
  induction ps as [|p ps IH]; intros d Hd.
  { split; [done|]. intros q. case_bool_decide; [set_solver|]. by rewrite andb_true_r. }
  cbn [drop_all]. change (sa_active (shard_of d p)) with (is_active d p). destruct (is_active d p) eqn:Hp.
  - destruct (IH (drop_one p d)) as [H1 H2]; [by apply counted_drop|]. split; [done|]. intros q.
    by rewrite H2, is_active_drop, in_cons_bool, negb_orb, andb_assoc.
  - destruct (IH d Hd) as [H1 H2]. split; [done|]. intros q. rewrite H2, in_cons_bool.
    destruct (decide (q = p)) as [->|Hne]; [by rewrite Hp|]. by rewrite (bool_decide_eq_false_2 (q = p)).
Qed.

(** Dropping all providers leaves no active shard. *)
Lemma dropped_zero d : counted d → dl_activeShards (drop_all (dl_providers d) d) = 0.
Proof.
  intros Hd. destruct (counted_drop_all (dl_providers d) d Hd) as [(_ & _ & Hn) Ha]. rewrite Hn.
  destruct (drop_all_fields (dl_providers d) d) as (_ & _ & _ & ->).
  rewrite (where_ext (is_active (drop_all (dl_providers d) d)) (λ _, false)).
  - clear. unfold where_. by induction (dl_providers d).
  - intros q Hq. rewrite Ha, bool_decide_eq_true_2 by done. apply andb_false_r.
Qed.

(** ** New deals and repairs *)

Lemma assign_from_active ps : ∀ i cids sizes a q,
  length cids = length ps → length sizes = length ps →
  sa_active (at_ shard0 (assign_from i ps cids sizes a) q) =
  bool_decide (q ∈ ps) || sa_active (at_ shard0 a q).
Proof.
  induction ps as [|p ps IH]; intros i [|cid cids] [|size sizes] a q; simpl; intros Hc Hs; try done.
  rewrite IH by lia. destruct (decide (q = p)) as [->|Hne].
  - rewrite (bool_decide_eq_true_2 (p ∈ p :: ps)) by set_solver. unfold at_. rewrite lookup_insert_eq.
    simpl. apply orb_true_r.
  - unfold at_. rewrite lookup_insert_ne by done. rewrite in_cons_bool. by rewrite (bool_decide_eq_false_2 (q = p)).
Qed.

Lemma where_true (f : address → bool) l : (∀ p, p ∈ l → f p = true) → where_ f l = l.
Proof.
  unfold where_. induction l as [|x l IH]; intros Hf; simpl; [done|].
  rewrite Hf by set_solver. f_equal. apply IH. set_solver.
Qed.

Lemma counted_opened e params price cost finish :
  length (dp_selectedProviders params) = 15%nat → length (dp_shardCIDs params) = 15%nat →
  length (dp_shardSizes params) = 15%nat → NoDup (dp_selectedProviders params) →
  counted (opened e params price cost finish).
Proof.
  intros H1 H2 H3 Hnd.
  assert (∀ q, is_active (opened e params price cost finish) q = bool_decide (q ∈ dp_selectedProviders params)) as Ha.
  { intros q. unfold is_active, shard_of. simpl. rewrite assign_from_active by congruence. apply orb_false_r. }
  unfold counted. split_and!; [done| |].
  - intros p. rewrite Ha. apply bool_decide_eq_true.
  - simpl. rewrite where_true; [by rewrite H1|]. intros p Hp. rewrite Ha. by apply bool_decide_eq_true_2.
Qed.

(** A repair goes from a provider of the deal to one that is none. *)
Definition proper (d : Deal) (old new : address) : Prop :=
  old ∈ dl_providers d ∧ new ∉ dl_providers d.

Lemma replace_elem old new l q :
  q ∈ replace_provider old new l → q = new ∨ q ∈ l.
Proof.
  induction l as [|x l IH]; simpl; [set_solver|]. case_bool_decide; set_solver.
Qed.

Lemma NoDup_replace old new l : NoDup l → new ∉ l → NoDup (replace_provider old new l).
Proof.
  induction l as [|x l IH]; simpl; [done|]. intros [Hx Hnd]%NoDup_cons Hn. case_bool_decide as He.
  - constructor; [set_solver|done].
  - constructor; [|apply IH; [done|set_solver]]. intros [->|?]%replace_elem; set_solver.
Qed.

Lemma replace_stays old new l q : NoDup l → q ∈ l → q ≠ old → q ∈ replace_provider old new l.
Proof.
  induction l as [|x l IH]; simpl; [set_solver|]. intros [Hx Hnd]%NoDup_cons Hq Hne. case_bool_decide; set_solver.
Qed.
Lemma replace_new old new l : old ∈ l → new ∈ replace_provider old new l.
Proof. induction l as [|x l IH]; simpl; [set_solver|]. case_bool_decide; set_solver. Qed.

Lemma where_replace (f g : address → bool) old new l :
  NoDup l → old ∈ l → new ∉ l → f old = false → g new = true → (∀ q, q ≠ old → q ≠ new → g q = f q) →
  length (where_ g (replace_provider old new l)) = S (length (where_ f l)).
Proof.
  unfold where_. intros Hnd Ho Hn Hf Hg Hfg.
  assert (∀ l, old ∉ l → new ∉ l → List.filter g l = List.filter f l) as Hsame.
  { intros l' H1 H2. apply filter_ext_in. intros q Hq%list_elem_of_In. apply Hfg; congruence. }
  induction l as [|x l IH]; simpl; [set_solver|]. apply NoDup_cons in Hnd as [Hx Hnd].
  case_bool_decide as He; simpl.
  - subst. rewrite Hg, Hf. simpl. f_equal. rewrite Hsame; set_solver.
  - rewrite Hfg by set_solver. destruct (f x); simpl; rewrite IH by set_solver; done.
Qed.

Lemma counted_repaired old new cid d :
  counted d → is_active d old = false → proper d old new → counted (repaired old new cid d).
Proof.
  intros (Hnd & Hin & Hn) Ho [Hold Hnew]. assert (old ≠ new) as Hne by set_solver.
  assert (is_active (repaired old new cid d) new = true) as Hnew'.
  { unfold is_active, shard_of, repaired, at_. simpl. by rewrite lookup_insert_eq. }
  assert (∀ q, q ≠ old → q ≠ new → is_active (repaired old new cid d) q = is_active d q) as Hq.
  { intros q H1 H2. unfold is_active, shard_of, repaired, at_. simpl.
    by rewrite lookup_insert_ne, lookup_delete_ne by congruence. }
  assert (is_active (repaired old new cid d) old = false) as Hold'.
  { unfold is_active, shard_of, repaired, at_. simpl. by rewrite lookup_insert_ne, lookup_delete_eq by congruence. }
  split_and!.
  - by apply NoDup_replace.
  - intros q Hact. simpl. destruct (decide (q = new)) as [->|H1]; [by apply replace_new|].
    destruct (decide (q = old)) as [->|H2]; [congruence|].
    apply replace_stays; [done| |done]. apply Hin. by rewrite <- Hq.
  - simpl. rewrite (where_replace (is_active d) _ old new); try done. lia.
Qed.

(** * What steps keep *)

Lemma move_running R e d d' : deal_move R e d d' → running_status (dl_status d) = true.
Proof. destruct 1 as [d Hs _ _| | | |]; try done. by rewrite Hs. Qed.
Lemma step_running R e d d' : deal_step R e d d' → running_status (dl_status d) = true.
Proof. destruct 1; [done|by eapply move_running]. Qed.

(** A deal that was made has a client. *)
Definition made (d : Deal) (_ _ : address) : Prop := dl_client d ≠ address0.

Lemma no_move_new e d' : msg_sender e ≠ address0 → deal_move made e deal0 d' → False.
Proof.
  intros He Hm. inversion Hm as [? _ _ Hn|? ? _ Hc|? ? ? _ Hc|? p _ Hp|? ? ? ? _ _ HR]; subst.
  - by vm_compute in Hn.
  - by rewrite <- Hc in He.
  - by rewrite <- Hc in He.
  - unfold shard_of, at_ in Hp. simpl in Hp. by rewrite lookup_empty in Hp.
  - by apply HR.
Qed.

(** The shard counter is right, a completed deal has no shard left, and a deal
    is never in its grace period. *)
Definition deal_good (d : Deal) : Prop :=
  counted d ∧ (dl_status d = Completed → dl_activeShards d = 0) ∧
  dl_status d ≠ InGracePeriod ∧ (length (dl_providers d) ≤ 15)%nat.
Definition made_proper (d : Deal) (old new : address) : Prop := made d old new ∧ proper d old new.

Lemma replace_length old new l : length (replace_provider old new l) = length l.
Proof. induction l as [|x l IH]; simpl; [done|]. case_bool_decide; simpl; congruence. Qed.
Lemma counted_eq d d' :
  dl_providers d' = dl_providers d → dl_shardAllocations d' = dl_shardAllocations d →
  dl_activeShards d' = dl_activeShards d → counted d → counted d'.
Proof. unfold counted, is_active, shard_of. by intros -> -> ->. Qed.
Lemma counted_deal0 : counted deal0.
Proof. split_and!; [constructor| |done]. intros p. by vm_compute. Qed.

Lemma good_drop_all s d :
  deal_good d → s ≠ InGracePeriod →
  deal_good (drop_all (dl_providers d) (with_dl_status (λ _, s) d)).
Proof.
  intros (Hc & _ & _ & Hl) Hs. set (d1 := with_dl_status (λ _, s) d).
  assert (counted d1) as Hc1 by (by apply (counted_eq d)).
  destruct (drop_all_fields (dl_providers d) d1) as (_ & _ & Es & Ep).
  split_and!; rewrite ?Es, ?Ep; try done.
  - by apply counted_drop_all.
  - intros _. by apply (dropped_zero d1).
Qed.
Lemma good_escrow f d : deal_good d → deal_good (with_dl_escrowedAmount f d).
Proof. done. Qed.

Lemma good_move e d d' : deal_move made_proper e d d' → deal_good d → deal_good d'.
Proof.
  intros Hm Hg. pose proof Hg as (Hc & Hcomp & Hgr & Hl).
  destruct Hm as [d _ _ _|d r _ _ _|d n cost _ _|d p Hs Hp|d old new cid Hs Ho [_ HR]].
  - by apply good_escrow, good_drop_all.
  - by apply good_escrow, good_drop_all.
  - split_and!; try done.
  - pose proof (counted_drop p d Hc Hp) as Hd. unfold lost. destruct (_ <? _).
    + split_and!; try done.
    + split_and!; try done. simpl. intros E. by rewrite E in Hs.
  - pose proof (counted_repaired old new cid d Hc Ho HR) as Hd. split_and!; try done.
    + simpl. intros E. by rewrite E in Hs.
    + simpl. by rewrite replace_length.
Qed.
Lemma good_step e d d' : deal_step made_proper e d d' → deal_good d → deal_good d'.
Proof.
  destruct 1 as [params price cost finish H1 H2 H3 Hnd|]; [|by eapply good_move]. intros _.
  split_and!; [by apply counted_opened|done|done|]. simpl. lia.
Qed.
Lemma good_deal0 : deal_good deal0.
Proof. split_and!; [apply counted_deal0|done|done|simpl; lia]. Qed.

(** * Reachable chains *)

Section Reach.
  Context `{Hashing} (K : address).

(** Transactions of senders with an address; [R] says which repairs they ask for. *)
Inductive reach (R : Deal → address → address → Prop) (c0 : chain) : chain → Prop :=
| reach_refl : reach R c0 c0
| reach_step c e k :
    reach R c0 c → msg_sender e ≠ address0 → allowed K R c k → reach R c0 (apply_tx c (e, k)).

Section Fresh.
  Context (R : Deal → address → address → Prop) (HR : ∀ d old new, R d old new → made d old new).

Lemma move_weaken e d d' : deal_move R e d d' → deal_move made e d d'.
Proof. destruct 1; constructor; auto. Qed.

(** What a transaction does to the deals of a market. *)
Lemma tx_moves c e k : fresh_ids K c → msg_sender e ≠ address0 → allowed K R c k →
    fresh_ids K (apply_tx c (e, k)) ∧
    ∀ j, deal_at K j (apply_tx c (e, k)) = deal_at K j c ∨
         deal_step R e (deal_at K j c) (deal_at K j (apply_tx c (e, k))).
Proof.
    intros Hf He Hk. unfold apply_tx, transact. simpl.
    destruct (run_call e k c) as [[u|err] c'] eqn:Hr; simpl; [|split; auto].
    apply (moves_call K R) in Hr as [i Hi]; [|done|done]. destruct Hf as [Hh Hf].
    destruct Hi as [[(X & [Hh' Hn] & HX) Hc]|[(X & [Hh' Hn] & HX) [-> Hc]]].
    - assert (i < count_at K c ∨ X = deal_at K i c) as Hi.
      { destruct HX as [|HX]; [by right|]. left. apply N.nle_gt. intros Hge. rewrite Hf in HX by done.
        by apply (no_move_new e X He), move_weaken. }
      split; [split; [done|]|].
      + rewrite Hc. intros j Hj. rewrite Hn. case_decide as Hji; [|by apply Hf].
        subst. destruct Hi as [Hi|Hi]; [lia|]. rewrite Hi. by apply Hf.
      + intros j. rewrite Hn. case_decide; [subst|by left]. destruct HX as [->|HX]; [by left|]. right. by constructor.
    - split; [split; [done|]|].
      + rewrite Hc. intros j Hj. rewrite Hn, decide_False by lia. apply Hf. lia.
      + intros j. rewrite Hn. case_decide; [subst|by left]. destruct HX as [->|HX]; [by left|by right].
  Qed.

Lemma reach_fresh c c' : reach R c c' → fresh_ids K c → fresh_ids K c'.
Proof. induction 1; [done|]. intros Hf. by apply tx_moves; [apply IHreach| |]. Qed.

(** A property of single deals that steps keep holds of all deals. *)
Lemma reach_deals (I : Deal → Prop) c c' j :
    (∀ e d d', deal_step R e d d' → I d → I d') →
    reach R c c' → fresh_ids K c → I (deal_at K j c) → I (deal_at K j c').
Proof.
    intros HI Hr Hf Hj. induction Hr as [|c' e k Hr IH He Hk]; [done|].
    destruct (tx_moves c' e k) as [_ Hs]; [by apply (reach_fresh c)|done|done|].
    destruct (Hs j) as [->|Hs']; [done|by eapply HI].
  Qed.
End Fresh.
End Reach.

(** ** A deal that loses a shard, is repaired and completed *)

Lemma reach_tx `{Hashing} K R c0 c e k c' :
  reach K R c0 c → msg_sender e ≠ address0 → allowed K R c k → apply_tx c (e, k) = c' → reach K R c0 c'.
Proof. intros. subst. by constructor. Qed.

(** Transactions without repairs need no side condition. *)
Definition plain (tx : env * call) : bool :=
  bool_decide (msg_sender (fst tx) ≠ address0) &&
  match snd tx with CallMarket _ (MRepairShard _ _ _ _) => false | _ => true end.
Lemma reach_plain `{Hashing} K R txs : ∀ c0 c,
  forallb plain txs = true → reach K R c0 c → reach K R c0 (apply_txs c txs).
Proof.
  induction txs as [|[e k] txs IH]; intros c0 c Hp Hr; [done|].
  cbn [forallb] in Hp. apply andb_true_iff in Hp as [Hp Hps]. apply IH; [done|].
  apply andb_true_iff in Hp as [He Hk]. apply bool_decide_eq_true in He.
  constructor; [done..|]. destruct k as [| | |? []| | | | | |]; by simpl in *.
Qed.

Definition life0 : chain :=
  with_c_distributors (λ _, {[ "D" := distributor_created (demo_env "owner" 0) "T" "K" "P" "R" ]}) market0.
Definition life1 : chain :=
  apply_txs (H := demo_hashing) life0 (market_setup ++
    [(demo_env "p15" 4, CallRegistry "R" (RRegister "peer" "https://p" "EU" 1));
     (demo_env "owner" 5, CallMarket "K" (MReportLostShard 0 "p3"))]).
Definition life2 : chain :=
  apply_tx (H := demo_hashing) life1 (demo_env "owner" 6, CallMarket "K" (MRepairShard 0 "p3" "p15" "QmNew")).
Definition life3 : chain :=
  apply_txs (H := demo_hashing) life2 [(demo_env "anyone" (3 + days 30), CallMarket "K" (MCompleteDeal 0))].

Lemma life0_fresh : fresh_ids "K" life0.
Proof. done. Qed.
Lemma life2_reach : reach (H := demo_hashing) "K" made_proper life0 life2.
Proof.
  constructor; [|done|].
  - apply (reach_plain (H := demo_hashing)); [by vm_compute|constructor].
  - intros _. split; [by vm_compute|]. split.
    + apply (bool_decide_unpack _). by vm_compute.
    + apply (bool_decide_unpack _). by vm_compute.
Qed.
Lemma life3_reach : reach (H := demo_hashing) "K" made_proper life0 life3.
Proof. apply (reach_plain (H := demo_hashing)); [by vm_compute|apply life2_reach]. Qed.
Lemma reach_weaken `{Hashing} K (R R' : Deal → address → address → Prop) c c' :
  (∀ d old new, R d old new → R' d old new) → reach K R c c' → reach K R' c c'.
Proof.
  intros HR. induction 1; constructor; auto.
  destruct k as [| | |this []| | | | | |]; simpl in *; auto.
Qed.

(** * Theorems *)

(** C4. The marketplace implements the deal machine: whatever transactions are sent to
    all the contracts, each deal of a market changes only by steps of [deal_step], one
    at a time, provided repairs are asked for deals that were made. *)
Theorem deals_refine `{Hashing} K c c' j :
  fresh_ids K c → reach K made c c' →
  rtc (λ d d', ∃ e, deal_step made e d d') (deal_at K j c) (deal_at K j c').
Proof.
  intros Hf Hr. apply (reach_deals K made ltac:(done)
    (λ d, rtc (λ d d', ∃ e, deal_step made e d d') (deal_at K j c) d) c c' j); [|done|done|constructor].
  intros e d d' Hs Hd. eapply rtc_r; [exact Hd|]. by exists e.
Qed.
Lemma deals_refine_witness :
  rtc (λ d d', ∃ e, deal_step made e d d') (deal_at "K" 0 life0) (deal_at "K" 0 life3) ∧
  dl_status (deal_at "K" 0 life3) = Completed.
Proof.
  split; [|by vm_compute]. apply (deals_refine (H := demo_hashing)); [exact life0_fresh|].
  apply (reach_weaken (H := demo_hashing) "K" made_proper made); [by intros ? ? ? []|exact life3_reach].
Defined.

(** C16. A deal that was completed, cancelled or failed is final: no transaction to any of
    the contracts changes anything of it again, its escrow and shards included, provided
    repairs are asked for deals that were made. *)
Theorem closed_deals_are_final `{Hashing} K c c' j :
  fresh_ids K c → reach K made c c' → running_status (dl_status (deal_at K j c)) = false →
  deal_at K j c' = deal_at K j c.
Proof.
  intros Hf Hr Hs. apply (reach_deals K made ltac:(done) (λ d, d = deal_at K j c) c c' j); try done.
  intros e d d' Hd ->. apply step_running in Hd. congruence.
Qed.
Lemma closed_deals_are_final_witness :
  deal_at "K" 0 (apply_txs (H := demo_hashing) life3 [(demo_env "client" (4 + days 30), CallMarket "K" (MCancelDeal 0));
    (demo_env "client" (4 + days 30), CallMarket "K" (MRenewDeal 0 30))]) = deal_at "K" 0 life3.
Proof.
  apply (closed_deals_are_final (H := demo_hashing)).
  - apply (reach_fresh (H := demo_hashing) "K" made_proper ltac:(by intros ? ? ? []) life0);
      [exact life3_reach|exact life0_fresh].
  - apply (reach_plain (H := demo_hashing)); [by vm_compute|constructor].
  - by vm_compute.
Defined.

(** C19. The shard counter is right: when every repair moves a shard from a provider of
    the deal to one that holds none, [activeShards] of every deal is the number of its
    providers whose shard is active, at most 15, and 0 once the deal is completed; and
    no deal is ever in its grace period. *)
Theorem shard_counter_is_right `{Hashing} K c c' j :
  fresh_ids K c → reach K made_proper c c' → deal_good (deal_at K j c) →
  let d := deal_at K j c' in
  dl_activeShards d = N.of_nat (length (where_ (is_active d) (dl_providers d))) ∧
  dl_activeShards d ≤ 15 ∧ (dl_status d = Completed → dl_activeShards d = 0) ∧
  dl_status d ≠ InGracePeriod.
Proof.
  intros Hf Hr Hj d.
  assert (deal_good d) as ((_ & _ & Hn) & Hc & Hg & Hl).
  { by apply (reach_deals K made_proper ltac:(by intros ? ? ? []) deal_good c c' j good_step). }
  split_and!; [done| |done|done]. rewrite Hn.
  pose proof (filter_length_le (is_active d) (dl_providers d)). unfold where_. lia.
Qed.
Lemma shard_counter_is_right_witness :
  let d := deal_at "K" 0 life2 in
  dl_activeShards d = N.of_nat (length (where_ (is_active d) (dl_providers d))) ∧
  dl_activeShards d ≤ 15 ∧ (dl_status d = Completed → dl_activeShards d = 0) ∧
  dl_status d ≠ InGracePeriod.
Proof.
  apply (shard_counter_is_right (H := demo_hashing) "K" life0 life2 0);
    [exact life0_fresh|exact life2_reach|exact good_deal0].
Defined.

(** C20. Usage rewards are never paid: [completeDeal] takes every shard out of the deal,
    and [distributeUsageRewards] wants a completed deal with ten active shards; so in
    every chain reached from a new market, when every repair is asked for a deal that
    was made and moves a shard from a provider of the deal to one that holds none, it
    reverts for every deal and every sender. *)
Theorem usage_rewards_never_paid `{Hashing} K D c c' d e i :
  fresh_ids K c → (∀ j, deal_at K j c = deal0) → reach K made_proper c c' →
  c_distributors c' !! D = Some d → pd_marketplace d = K →
  ∀ u, fst (Distributor.distributeUsageRewards D e i c') ≠ Ok u.
Proof.
  intros Hf H0 Hr Hd HK u HE. destruct (distributeUsageRewards D e i c') as [r c1] eqn:Hrun.
  simpl in HE. subst r.
  assert (deal_good (deal_at K i c')) as (_ & Hz & _ & _).
  { apply (reach_deals K made_proper ltac:(by intros ? ? ? []) deal_good c c' i good_step); [done..|].
    rewrite H0. apply good_deal0. }
  unfold distributeUsageRewards in Hrun. next Hrun z c2 Hz2. apply onlyOwner_returns in Hz2 as (? & _ & _ & ->).
  apply nonReentrant_returns in Hrun as (k & c3 & Hk & _ & Hm & _).
  change (c_distributors c' !! D = Some k) in Hk. assert (k = d) as -> by congruence.
  next Hm d2 c4 Hl. apply sload_returns in Hl as [Hl ->]. simpl in Hl.
  rewrite lookup_alter_eq, Hk in Hl. simplify_eq. simpl in Hl. injection Hl as <-.
  next Hm m c5 Hlm. apply sload_returns in Hlm as [Hlm ->]. simpl in Hlm, Hm.
  rewrite (deal_at_Some _ i c' m Hlm) in Hz.
  next Hm y c6 Hy. run_step Hy. next Hm w c7 Hw. run_step Hw.
  apply bool_decide_eq_true in Hy. specialize (Hz Hy). rewrite Hz in Hw. by vm_compute in Hw.
Qed.
Lemma usage_rewards_never_paid_witness :
  dl_status (deal_at "K" 0 life3) = Completed ∧
  ∀ u, fst (Distributor.distributeUsageRewards "D" (demo_env "owner" (days 31)) 0 life3) ≠ Ok u.
Proof.
  split; [by vm_compute|].
  apply (usage_rewards_never_paid (H := demo_hashing) "K" "D" life0 life3
    (default (distributor_created (demo_env "owner" 0) "T" "K" "P" "R") (c_distributors life3 !! "D")));
    [exact life0_fresh|done|exact life3_reach|by vm_compute|by vm_compute].
Defined.
