(* ===== verification/Roster.v ===== *)
(** The provider registry over all transactions: who is in the list, reputation and
    cool-down; the two loops of [getEligibleProviders] are a filter. *)

From S2P Require Import Prelude Contracts ChainRules Token Registry Pool Market Distributor Slashing Verifier Vesting Protocol Collateral Escrow.

Local Open Scope N_scope.

(** * Invariants of registries *)

(** The functions other contracts call. *)
Definition internal (k : registry_call) : bool :=
  match k with
  | RIncrease _ _ _ | RDecrease _ _ _ | RDealCompleted _ | RDealFailed _ | RSlashing _ => true
  | _ => false
  end.

(** [I] depends on the part [f] of the chain, which only registries write, and is kept
    by the calls of registries that are [ok]. *)
Section Invariants.
  Context `{Hashing} {B : Type} (f : chain → B) (I : chain → Prop) (ok : env → registry_call → Prop)
    `{!∀ a, Ignores f StorageToken a} `{!∀ a, Ignores f CapacityPledge a} `{!∀ a, Ignores f StorageMarketplace a}
    `{!∀ a, Ignores f PaymentDistributor a} `{!∀ a, Ignores f SlashingManager a} `{!∀ a, Ignores f ProofVerifier a}
    `{!∀ a, Ignores f TokenVesting a} `{!IgnoresEvents f ByOwnable} `{!IgnoresEvents f ByToken}
    `{!IgnoresEvents f ByPool} `{!IgnoresEvents f ByMarket} `{!IgnoresEvents f ByDistributor}
    `{!IgnoresEvents f BySlashing} `{!IgnoresEvents f ByVerifier} `{!IgnoresEvents f ByVesting}
    (I_leaves : ∀ A (m : M chain A), leaves f m → keeps I m)
    (I_run : ∀ e this k, ok e k → keeps I (run_registry e this k)).

(** What a transaction may do to a registry, directly or through other contracts. *)
Definition tx_ok (e : env) (k : call) : Prop :=
  (∀ a j, internal j = true → ok (sent_by a e) j) ∧ (∀ this j, k = CallRegistry this j → ok e j).

Lemma I_increase e this p n r : ok e (RIncrease p n r) → keeps I (increaseReputation this e p n r).
Proof. apply (I_run e this (RIncrease p n r)). Qed.
Lemma I_decrease e this p n r : ok e (RDecrease p n r) → keeps I (decreaseReputation this e p n r).
Proof. apply (I_run e this (RDecrease p n r)). Qed.
Lemma I_completed e this p : ok e (RDealCompleted p) → keeps I (recordDealCompleted this e p).
Proof. apply (I_run e this (RDealCompleted p)). Qed.
Lemma I_failed e this p : ok e (RDealFailed p) → keeps I (recordDealFailed this e p).
Proof. apply (I_run e this (RDealFailed p)). Qed.
Lemma I_slashed e this p : ok e (RSlashing p) → keeps I (recordSlashing this e p).
Proof. apply (I_run e this (RSlashing p)). Qed.
#[local] Hint Resolve I_increase I_decrease I_completed I_failed I_slashed : chain.

Lemma I_market e this k : tx_ok e (CallMarket this k) → keeps I (run_market e this k).
Proof.
    intros [He _].
    assert (∀ r ps seen, keeps I (check_providers r seen ps)) as Hc.
    { intros r ps. induction ps as [|p ps IH]; intros seen; simpl; keep I_leaves. }
    destruct k; open_market; keep I_leaves.
  Qed.
Lemma I_slashing e this k : tx_ok e (CallSlashing this k) → keeps I (run_slashing e this k).
Proof. intros [He _]. destruct k; open_slashing; keep I_leaves. Qed.

(** Ownership of a registry is not part of the invariant. *)
Context (I_owner : ∀ this o, keeps I (sstore this (with_rg_owner (λ _, o)))).

Lemma I_run_call e k : tx_ok e k → keeps I (run_call e k).
Proof.
    intros He. destruct k as [|this k| | | | | | |k ? ?|k ?]; simpl;
      auto using I_market, I_slashing; try solve [apply I_leaves; eauto with chain].
    - apply I_run, (proj2 He this k eq_refl).
    - destruct k; unfold transferOwnership, _transferOwnership; keep I_leaves; apply I_owner.
    - destruct k; unfold renounceOwnership, _transferOwnership; keep I_leaves; apply I_owner.
  Qed.
Lemma I_txs txs c : Forall (λ tx, tx_ok (fst tx) (snd tx)) txs → I c → I (apply_txs c txs).
Proof. apply (apply_txs_keeps I tx_ok), I_run_call. Qed.
End Invariants.

(** * The list of providers *)

Definition registry_ok (r : ProviderRegistry) : Prop :=
  NoDup (rg_providerList r) ∧
  (∀ p, p ∈ rg_providerList r ↔ pr_registered (provider_of r p) = true) ∧
  ∀ p, pr_reputationScore (provider_of r p) ≤ MAX_REPUTATION.
Definition registries_ok (c : chain) : Prop := map_Forall (λ _, registry_ok) (c_registries c).

Lemma provider_of_update r p f q :
  provider_of (with_rg_providers (λ m, <[p := f (at_ provider0 m p)]> m) r) q =
  if decide (q = p) then f (provider_of r p) else provider_of r q.
Proof.
  unfold provider_of, at_. simpl. case_decide as Hq; [subst; by rewrite lookup_insert_eq|].
  by rewrite lookup_insert_ne.
Qed.

(** A write to a provider that does not touch its registration. *)
Definition tame (f : Provider → Provider) : Prop :=
  ∀ x, pr_registered (f x) = pr_registered x ∧
       (pr_reputationScore x ≤ MAX_REPUTATION → pr_reputationScore (f x) ≤ MAX_REPUTATION).
Lemma tame_ok f r p : tame f → registry_ok r →
  registry_ok (with_rg_providers (λ m, <[p := f (at_ provider0 m p)]> m) r).
Proof.
  intros Hf (Hnd & Hin & Hsc). split_and!; [done| |]; intros q; rewrite provider_of_update; case_decide; subst.
  - by rewrite (proj1 (Hf _)).
  - apply Hin.
  - by apply Hf.
  - apply Hsc.
Qed.

Lemma registries_leaves A (m : M chain A) : leaves c_registries m → keeps registries_ok m.
Proof. intros Hm c a c' Hc Hr. unfold registries_ok. by rewrite (Hm _ _ _ Hr). Qed.
Lemma registries_store this (f : ProviderRegistry → ProviderRegistry) :
  (∀ r, registry_ok r → registry_ok (f r)) → keeps registries_ok (sstore this f).
Proof.
  intros Hf c a c' Hc Hr. run_inv. unfold registries_ok. simpl. intros k r Hk.
  apply lookup_alter_Some in Hk as [(-> & r0 & Hr0 & ->)|[_ Hk]]; [apply Hf|]; by eapply Hc.
Qed.
Lemma registries_update this p f : tame f → keeps registries_ok (update this p f).
Proof. intros Hf. apply registries_store. intros r. by apply tame_ok. Qed.
#[local] Hint Resolve registries_update : chain.
#[local] Hint Extern 2 (tame _) => (intros ?; simpl; split; [done|try done]) : chain.

Lemma registries_deactivate this e p : keeps registries_ok (deactivateProvider this e p).
Proof. unfold deactivateProvider. keep registries_leaves. Qed.
Lemma registries_increase this e p n s : keeps registries_ok (increaseReputation this e p n s).
Proof.
  unfold increaseReputation, onlyAuthorizedKeeper, Registry.load. keep registries_leaves.
  all: apply registries_update; intros x; split; [done|]; intros _; cbn [pr_reputationScore with_pr_reputationScore].
  all: case_match eqn:E; [done|by apply N.ltb_ge in E].
Qed.
#[local] Hint Resolve registries_deactivate registries_increase : chain.

(** The guard of the record keepers reads only. *)
Lemma keeper_returns this e u c c' :
  onlyAuthorizedKeeper this e c = (Ok u, c') → c' = c.
Proof. unfold onlyAuthorizedKeeper, Registry.load. intros Hr. by run_inv. Qed.

(** What [decreaseReputation] writes, before it deactivates. *)
Lemma decrease_returns this e p n s u c c' :
  decreaseReputation this e p n s c = (Ok u, c') →
  ∃ r c1, c_registries c !! this = Some r ∧ pr_registered (provider_of r p) = true ∧
    let score := pr_reputationScore (provider_of r p) - n in
    c_registries c1 = alter (with_rg_providers (λ m,
      <[p := with_pr_reputationScore (λ _, score) (at_ provider0 m p)]> m)) this (c_registries c) ∧
    (if score <? 20 then deactivateProvider this e p else mret tt) c1 = (Ok u, c').
Proof.
  intros Hr. unfold decreaseReputation, Registry.load, update in Hr. next Hr z c0 Hz. apply keeper_returns in Hz as ->.
  next Hr r c1 Hl. apply sload_returns in Hl as [Hl ->]. next Hr y c2 Hy. run_step Hy. cbv zeta in Hr.
  next Hr k c3 Hk.
  assert (c3 = c ∧ k = pr_reputationScore (provider_of r p) - n) as [-> ->].
  { destruct (N.ltb_spec n (pr_reputationScore (provider_of r p))); run_step Hk; [done|].
    split; [done|]. unfold MIN_REPUTATION. lia. }
  next Hr v c4 Hv. apply sstore_returns in Hv as ->. next Hr w c5 Hw. apply emit_returns in Hw as ->.
  eexists r, _. cbv zeta. split_and!; [done|done| |exact Hr]; done.
Qed.

Lemma registries_decrease this e p n s : keeps registries_ok (decreaseReputation this e p n s).
Proof.
  intros c u c' Hc Hr. apply decrease_returns in Hr as (r & c1 & Hl & _ & E & Hr).
  assert (registries_ok c1) as Hc1.
  { unfold registries_ok. rewrite E. intros k x Hx.
    apply lookup_alter_Some in Hx as [(-> & r0 & Hr0 & ->)|[_ Hx]]; [|by eapply Hc].
    assert (r0 = r) as -> by congruence.
    pose proof (Hc _ _ Hr0) as Hok. pose proof (proj2 (proj2 Hok) p) as Hs.
    apply tame_ok; [|done]. intros y. split; [done|]. intros _. simpl. lia. }
  refine ((_ : keeps registries_ok _) c1 u c' Hc1 Hr). destruct (_ <? _); [auto with chain|].
  apply registries_leaves. leave.
Qed.
#[local] Hint Resolve registries_decrease : chain.

Lemma registered_ok r p x :
  registry_ok r → pr_registered (provider_of r p) = false →
  pr_registered x = true → pr_reputationScore x ≤ MAX_REPUTATION →
  registry_ok (with_rg_providerList (λ l, l ++ [p]) (with_rg_providers (insert p x) r)).
Proof.
  intros (Hnd & Hin & Hsc) Hp Hx Hs.
  assert (∀ q, provider_of (with_rg_providerList (λ l, l ++ [p]) (with_rg_providers (insert p x) r)) q =
    if decide (q = p) then x else provider_of r q) as Hq.
  { intros q. unfold provider_of, at_. simpl. case_decide as Hqp; [subst; by rewrite lookup_insert_eq|].
    by rewrite lookup_insert_ne. }
  split_and!.
  - apply NoDup_app. split_and!; [done| |apply NoDup_singleton]. intros q Hq1 ->%list_elem_of_singleton.
    apply Hin in Hq1. congruence.
  - intros q. rewrite Hq. simpl. rewrite elem_of_app, list_elem_of_singleton, Hin. case_decide; subst; naive_solver.
  - intros q. rewrite Hq. case_decide; [done|apply Hsc].
Qed.
Lemma registries_register this e a b d n : keeps registries_ok (registerProvider this e a b d n).
Proof.
  intros c u c' Hc Hr. unfold registerProvider, Registry.load, update in Hr. run_inv. settle.
  unfold registries_ok. simpl. rewrite alter_alter_eq. intros k x Hx.
  apply lookup_alter_Some in Hx as [(-> & r & Hr & ->)|[_ Hx]]; [|by eapply Hc]. simplify_eq.
  by apply registered_ok; [eapply Hc|..].
Qed.
#[local] Hint Resolve registries_register : chain.

Lemma registries_run e this k : keeps registries_ok (run_registry e this k).
Proof.
  destruct k; simpl; unfold updateProvider, updateCapacity, authorizeRecordKeeper, revokeRecordKeeper,
    recordDealCompleted, recordDealFailed, recordSlashing, reactivateProvider, onlyAuthorizedKeeper, Registry.load;
    keep registries_leaves.
  all: by apply registries_store.
Qed.
Lemma registries_owner this o : keeps registries_ok (sstore this (with_rg_owner (λ _, o))).
Proof. by apply registries_store. Qed.

(** ** The two passes of [getEligibleProviders] *)

Lemma count_from r x y l : ∀ n,
  foldl (λ n p, if eligible r x y p then S n else n) n l = (n + length (where_ (eligible r x y) l))%nat.
Proof.
  unfold where_. induction l as [|p l IH]; intros n; simpl; [lia|]. rewrite IH.
  destruct (eligible r x y p); simpl; lia.
Qed.
(** The second pass writes the next eligible provider at the next free place. *)
Lemma fill_from r x y l : ∀ done z,
  length (where_ (eligible r x y) l) = length z →
  fst (foldl (λ '(a, i) p, if eligible r x y p then (<[i := p]> a, S i) else (a, i))
    (done ++ z, length done) l) = done ++ where_ (eligible r x y) l.
Proof.
  unfold where_. induction l as [|p l IH]; intros d z Hz; simpl in *.
  { by destruct z. }
  destruct (eligible r x y p); simpl in *; [|by apply IH].
  destruct z as [|z0 z]; [done|].
  replace (<[length d := p]> (d ++ z0 :: z)) with ((d ++ [p]) ++ z)
    by (rewrite <- app_assoc; replace (length d) with (length d + 0)%nat at 1 by lia; by rewrite insert_app_r).
  replace (S (length d)) with (length (d ++ [p])) by (rewrite length_app; simpl; lia).
  rewrite IH by (simpl in Hz; lia). by rewrite <- app_assoc.
Qed.

(** * Cool-down *)

(** Provider [p] of the registry at [R] is inactive, at least until [t]. *)
Definition cooling (R p : address) (t : N) (c : chain) : Prop :=
  ∃ r, c_registries c !! R = Some r ∧ pr_registered (provider_of r p) = true ∧
    pr_active (provider_of r p) = false ∧ t ≤ pr_deactivatedUntil (provider_of r p).

Section Cooling.
  Context (R p : address) (t : N).

Lemma cooling_leaves A (m : M chain A) : leaves c_registries m → keeps (cooling R p t) m.
Proof. intros Hm c a c' Hc Hr. unfold cooling. by rewrite (Hm _ _ _ Hr). Qed.

(** Writes that keep a provider cooling. *)
Definition calm (f : Provider → Provider) : Prop :=
    ∀ x, pr_registered (f x) = pr_registered x ∧
      (pr_active x = false → pr_active (f x) = false) ∧
      (t ≤ pr_deactivatedUntil x → t ≤ pr_deactivatedUntil (f x)).
Lemma cooling_update this q f : (this = R → q = p → calm f) → keeps (cooling R p t) (update this q f).
Proof.
    intros Hf c a c' (r & Hr & H1 & H2 & H3) Hrun. unfold update in Hrun. run_inv. unfold cooling. simpl.
    destruct (decide (this = R)) as [->|Hne].
    - rewrite lookup_alter_eq, Hr. eexists. split; [done|]. rewrite provider_of_update.
      case_decide as Hq; [|done]. subst. destruct (Hf eq_refl eq_refl (provider_of r q)) as (-> & Ha & Hu). auto.
    - rewrite lookup_alter_ne by done. eauto.
  Qed.
Lemma cooling_store this (f : ProviderRegistry → ProviderRegistry) :
    (∀ r, rg_providers (f r) = rg_providers r) → keeps (cooling R p t) (sstore this f).
Proof.
    intros Hf c a c' (r & Hr & Hp) Hrun. run_inv. unfold cooling. simpl.
    destruct (decide (this = R)) as [->|Hne]; [rewrite lookup_alter_eq, Hr|rewrite lookup_alter_ne by done; eauto].
    eexists. split; [done|]. unfold provider_of in *. by rewrite Hf.
  Qed.
Hint Resolve cooling_update cooling_store : chain.
Hint Extern 2 (calm _) => (intros ?; simpl; by split_and!) : chain.

Lemma cooling_deactivate this e q : t ≤ block_timestamp e + COOLDOWN_PERIOD →
    keeps (cooling R p t) (deactivateProvider this e q).
Proof.
    intros Ht c u c' Hc Hr. unfold deactivateProvider in Hr. next Hr z c1 Hz.
    eapply cooling_update in Hz; [|auto with chain|exact Hc].
    next Hr y c2 Hy. run_step Hy. revert u c' Hz Hr. apply (λ H : keeps _ _, H c1).
    keep cooling_leaves.
  Qed.
Hint Resolve cooling_deactivate : chain.

(** What a transaction to the registry cannot do for [p] while it is cooling. *)
Lemma cooling_sender this (r : ProviderRegistry) c :
    cooling R p t c → slot c !! this = Some r →
    this = R → pr_registered (provider_of r p) = true ∧ t ≤ pr_deactivatedUntil (provider_of r p).
Proof. intros (r0 & Hr & H1 & _ & H3) Hl ->. simpl in Hl. by simplify_eq. Qed.

Lemma cooling_register this e a b d n : keeps (cooling R p t) (registerProvider this e a b d n).
Proof.
    intros c u c' Hc Hr. unfold registerProvider, Registry.load in Hr. next Hr r c1 Hl. run_step Hl.
    pose proof (cooling_sender _ _ _ Hc Hl) as Hp.
    next Hr z c2 Hz. run_step Hz. next Hr y c3 Hy. run_step Hy.
    revert u c' Hc Hr. apply (λ H : keeps _ _, H c). keep cooling_leaves.
    apply cooling_update. intros -> <-. destruct (Hp eq_refl) as [E _]. by rewrite E in Hz.
  Qed.
Lemma cooling_reactivate this e : block_timestamp e < t → keeps (cooling R p t) (reactivateProvider this e).
Proof.
    intros Ht c u c' Hc Hr. unfold reactivateProvider, Registry.load in Hr. next Hr r c1 Hl. run_step Hl.
    pose proof (cooling_sender _ _ _ Hc Hl) as Hp.
    next Hr z c2 Hz. run_step Hz. next Hr y c3 Hy. run_step Hy. next Hr x c4 Hx. run_step Hx. apply N.leb_le in Hx.
    revert u c' Hc Hr. apply (λ H : keeps _ _, H c). keep cooling_leaves.
    all: apply cooling_update; intros -> <-; destruct (Hp eq_refl); lia.
  Qed.
Hint Resolve cooling_register cooling_reactivate : chain.

Lemma cooling_run e this k : block_timestamp e < t ∧ t ≤ block_timestamp e + COOLDOWN_PERIOD →
    keeps (cooling R p t) (run_registry e this k).
Proof.
    intros [H1 H2].
    destruct k; simpl; unfold updateProvider, updateCapacity, authorizeRecordKeeper, revokeRecordKeeper,
      recordDealCompleted, recordDealFailed, recordSlashing, increaseReputation, decreaseReputation,
      onlyAuthorizedKeeper, Registry.load; keep cooling_leaves.
  Qed.
End Cooling.

(** A score below 20 deactivates the provider for seven days. *)
Lemma deactivate_cools this e p u c c' r :
  deactivateProvider this e p c = (Ok u, c') → c_registries c !! this = Some r →
  pr_registered (provider_of r p) = true → cooling this p (block_timestamp e + COOLDOWN_PERIOD) c'.
Proof.
  intros Hr Hl Hreg. unfold deactivateProvider, update in Hr. run_inv. unfold cooling. simpl.
  rewrite alter_alter_eq, lookup_alter_eq, Hl. eexists. split; [done|]. cbn [compose].
  rewrite provider_of_update, decide_True, provider_of_update, decide_True by done. by split_and!.
Qed.
Lemma decrease_cools this e p n s u c c' r :
  decreaseReputation this e p n s c = (Ok u, c') → c_registries c' !! this = Some r →
  pr_reputationScore (provider_of r p) < 20 → cooling this p (block_timestamp e + COOLDOWN_PERIOD) c'.
Proof.
  intros Hr Hl Hs. apply decrease_returns in Hr as (r0 & c1 & H0 & Hreg & E & Hr). cbv zeta in *.
  destruct (N.ltb_spec (pr_reputationScore (provider_of r0 p) - n) 20).
  - eapply deactivate_cools; [exact Hr|by rewrite E, lookup_alter_eq, H0|].
    by rewrite provider_of_update, decide_True.
  - run_step Hr. rewrite E, lookup_alter_eq, H0 in Hl. simpl in Hl. simplify_eq.
    rewrite provider_of_update, decide_True in Hs by done. simpl in Hs. lia.
Qed.

Lemma registry_created_ok e : registry_ok (registry_created e).
Proof.
  split_and!; [apply NoDup_nil_2| |done]. intros p. split; [|done]. intros Hp. by apply elem_of_nil in Hp.
Qed.

(** * Theorems *)

(** C32. The registry stays consistent: whatever transactions are sent to the contracts,
    its list holds every registered provider exactly once and nobody else, and no
    reputation exceeds 100. *)
Theorem registry_is_consistent `{Hashing} c txs :
  registries_ok c → ∀ R r, c_registries (apply_txs c txs) !! R = Some r →
  NoDup (rg_providerList r) ∧
  (∀ p, p ∈ rg_providerList r ↔ pr_registered (provider_of r p) = true) ∧
  ∀ p, pr_reputationScore (provider_of r p) ≤ MAX_REPUTATION.
Proof.
  intros Hc R r Hr. refine (I_txs c_registries registries_ok (λ _ _, True) registries_leaves _ _ txs c _ Hc R r Hr).
  - intros. apply registries_run.
  - apply registries_owner.
  - by apply Forall_true.
Qed.
Definition roster_end : ProviderRegistry :=
  default (registry_created (demo_env "owner" 0)) (c_registries market1 !! "R").
Lemma registry_is_consistent_witness :
  length (rg_providerList roster_end) = 15%nat ∧ NoDup (rg_providerList roster_end) ∧
  (∀ p, p ∈ rg_providerList roster_end ↔ pr_registered (provider_of roster_end p) = true) ∧
  ∀ p, pr_reputationScore (provider_of roster_end p) ≤ MAX_REPUTATION.
Proof.
  split; [by vm_compute|].
  apply (registry_is_consistent (H := demo_hashing) market0 market_setup) with (R := "R"); [|by vm_compute].
  apply map_Forall_singleton, registry_created_ok.
Defined.

(** [getEligibleProviders] is a filter: counting the eligible providers, allocating
    an array of that length and filling it in a second pass gives the active providers
    with the wanted reputation and price, in the order of the list, with no entry left
    empty. *)
Theorem eligible_is_filter r maxPriceUSD minReputation :
  getEligibleProviders r maxPriceUSD minReputation =
  where_ (eligible r maxPriceUSD minReputation) (rg_providerList r).
Proof.
  unfold getEligibleProviders, fill_eligible, count_eligible. rewrite count_from. simpl.
  apply (fill_from _ _ _ _ [] (replicate _ address0)). by rewrite length_replicate.
Qed.

(** C33. Cool-down holds: when [decreaseReputation] leaves a provider below 20 at time
    [t], no transactions to any of the contracts in the seven days from [t] on make it
    active again, so the market accepts it for no new deal. *)
Theorem cooldown_holds `{Hashing} R e p n reason u c c' r txs :
  decreaseReputation R e p n reason c = (Ok u, c') → c_registries c' !! R = Some r →
  pr_reputationScore (provider_of r p) < 20 →
  Forall (λ tx, block_timestamp e ≤ block_timestamp (fst tx) < block_timestamp e + COOLDOWN_PERIOD) txs →
  ∃ r', c_registries (apply_txs c' txs) !! R = Some r' ∧ isProviderActive r' p = false.
Proof.
  intros Hr Hl Hs Htxs. pose proof (decrease_cools _ _ _ _ _ _ _ _ _ Hr Hl Hs) as Hc.
  set (t := block_timestamp e + COOLDOWN_PERIOD) in *.
  assert (cooling R p t (apply_txs c' txs)) as (r' & Hr' & _ & Ha & _).
  { refine (I_txs c_registries (cooling R p t) (λ e' _, block_timestamp e ≤ block_timestamp e' < t)
      (cooling_leaves R p t) _ _ txs c' _ Hc).
    - intros e' this k He. apply cooling_run. lia.
    - intros. by apply cooling_store.
    - eapply Forall_impl; [exact Htxs|]. by intros tx Htx. }
  exists r'. split; [done|]. unfold isProviderActive. by rewrite Ha, andb_false_r.
Qed.
Definition bad_day : chain := snd (decreaseReputation "R" (demo_env "owner" 10) "p3" 31 "missed" market1).
Lemma cooldown_holds_witness :
  ∃ r', c_registries (apply_txs (H := demo_hashing) bad_day
    [(demo_env "p3" (days 5), CallRegistry "R" RReactivate)]) !! "R" = Some r' ∧ isProviderActive r' "p3" = false.
Proof.
  apply (cooldown_holds (H := demo_hashing) "R" (demo_env "owner" 10) "p3" 31 "missed" tt market1 bad_day
    (default (registry_created (demo_env "owner" 0)) (c_registries bad_day !! "R"))).
  - unfold bad_day. destruct (decreaseReputation _ _ _ _ _ market1) as [[[]|] c'] eqn:E; [done|by vm_compute in E].
  - by vm_compute.
  - by vm_compute.
  - repeat constructor; by vm_compute.
Defined.

(** After seven days the provider can return. *)
Example cooldown_ends :
  let c := apply_txs (H := demo_hashing) bad_day [(demo_env "p3" (10 + days 7), CallRegistry "R" RReactivate)] in
  isProviderActive (default (registry_created (demo_env "owner" 0)) (c_registries c !! "R")) "p3" = true.
Proof. by vm_compute. Qed.
