(* ===== verification/Penalties.v ===== *)
(** Penalties and proofs over transactions: what a slashing takes and from where,
    appeals, the difficulty check and the challenges of ProofVerifier.sol. *)

From S2P Require Import Prelude Contracts ChainRules Token Registry Pool Market Distributor Slashing Verifier Vesting Protocol Collateral Escrow.

Local Open Scope N_scope.

(** * Slashing *)

(** The multiplier for repeated offences, as a function of the state. *)
Definition repeat_multiplier (e : env) (state : ProviderPenaltyState) : N :=
  if REPEAT_WINDOW <? block_timestamp e - ps_lastSlashTime state then 1
  else N.min 8 (2 ^ ps_slashCountInWindow state).

Lemma multiplier_run S e p s c :
  c_slashers c !! S = Some s → ps_lastSlashTime (getPenaltyState s p) ≤ block_timestamp e →
  calculateRepeatMultiplier S e p c =
    if (block_timestamp e - ps_lastSlashTime (getPenaltyState s p) <=? REPEAT_WINDOW) &&
       (256 <=? ps_slashCountInWindow (getPenaltyState s p))
    then (Throw (Error "panic 0x11"), c) else (Ok (repeat_multiplier e (getPenaltyState s p)), c).
Proof.
  intros Hs Ht. set (x := getPenaltyState s p) in *.
  assert (Slashing.load S c = (Ok s, c)) as Hl by (by apply sload_run).
  unfold calculateRepeatMultiplier. rewrite (bind_ok _ _ _ _ _ Hl).
  cbv beta zeta. fold x. rewrite (bind_ok _ _ _ _ _ (sub_run _ _ c Ht)).
  unfold repeat_multiplier. rewrite (N.leb_antisym REPEAT_WINDOW).
  destruct (REPEAT_WINDOW <? _) eqn:Hw; cbn [negb andb]; [done|].
  destruct (N.leb_spec 256 (ps_slashCountInWindow x)) as [Hn|Hn].
  - apply bind_throws, pow_panics. apply N.lt_le_trans with (2 ^ 256); [by vm_compute|].
    by apply N.pow_le_mono_r.
  - assert (2 ^ ps_slashCountInWindow x < 2 ^ 256) by (by apply N.pow_lt_mono_r).
    rewrite (bind_ok _ _ _ _ _ (pow_run 2 (ps_slashCountInWindow x) c ltac:(unfold MAX_UINT, WORD; lia))).
    destruct (N.ltb_spec 8 (2 ^ ps_slashCountInWindow x)); [rewrite N.min_l by lia|rewrite N.min_r by lia]; done.
Qed.

Lemma repeat_multiplier_cases e x : repeat_multiplier e x ∈ [1; 2; 4; 8].
Proof.
  unfold repeat_multiplier. destruct (_ <? _); [set_solver|].
  destruct (ps_slashCountInWindow x) as [|n] eqn:E; [set_solver|].
  destruct (decide (N.pos n = 1)) as [->|]; [set_solver|]. destruct (decide (N.pos n = 2)) as [->|]; [set_solver|].
  assert (8 ≤ 2 ^ N.pos n) by (change 8 with (2 ^ 3); apply N.pow_le_mono_r; lia).
  rewrite N.min_l by done. set_solver.
Qed.

(** What [_applySlashing] leaves behind. *)
Lemma apply_slashing_returns S e p n reason u c c' s :
  c_slashers c !! S = Some s → _applySlashing S e p n reason c = (Ok u, c') →
  ∃ t, c_tokens c !! sm_token s = Some t ∧ n ≤ balanceOf t p ∧
    c_tokens c' = <[sm_token s := burned p n t]> (c_tokens c) ∧
    ∃ s', c_slashers c' !! S = Some s' ∧ sm_registry s' = sm_registry s ∧ sm_token s' = sm_token s ∧
      getSlashingHistory s' p = getSlashingHistory s p ++ [MkSlash (block_timestamp e) n reason false false].
Proof.
  intros Hs Hr. unfold _applySlashing, Slashing.load, Slashing.store, set_state, Slashing.store in Hr.
  next Hr s0 c0 Hl. run_step Hl. simpl in Hl. simplify_eq.
  next Hr z c1 Hb. pose proof (leaves_token_burnFrom c_slashers _ _ _ _ _ _ _ Hb) as Es.
  apply burnFrom_returns in Hb as (t & Ht & _ & Hn & _ & Et). rewrite <- Es in Hs.
  exists t. run_inv; split_and!; try done; simpl;
  rewrite ?alter_alter_eq, ?lookup_alter_eq, Hs; (eexists; split; [reflexivity|]);
  (split_and!; [done..|]); unfold getSlashingHistory, at_; simpl; by rewrite lookup_insert_eq.
Qed.

Lemma leaves_apply_slashing {B} (f : chain → B) `{!∀ a, Ignores f StorageToken a} S
  `{!Ignores f SlashingManager S} `{!IgnoresEvents f ByToken} `{!IgnoresEvents f BySlashing} e p n reason : leaves f (_applySlashing S e p n reason).
Proof. unfold _applySlashing, Slashing.load, set_state, Slashing.store. leave. Qed.

Definition penalty_for (e : env) (s : SlashingManager) (p : address) (collateral : N) : N :=
  collateral * MISSED_POST_PENALTY_RATE / 10000 * repeat_multiplier e (getPenaltyState s p).

(** Recording a miss does not change what the multiplier reads. *)
Lemma miss_recorded S p (f : ProviderPenaltyState → ProviderPenaltyState) u c c' s :
  (∀ x, ps_lastSlashTime (f x) = ps_lastSlashTime x ∧ ps_slashCountInWindow (f x) = ps_slashCountInWindow x) →
  set_state S p f c = (Ok u, c') → c_slashers c !! S = Some s →
  c_tokens c' = c_tokens c ∧ ∃ s', c_slashers c' !! S = Some s' ∧ sm_token s' = sm_token s ∧
    sm_registry s' = sm_registry s ∧ sm_slashingHistory s' = sm_slashingHistory s ∧
    ∀ e, repeat_multiplier e (getPenaltyState s' p) = repeat_multiplier e (getPenaltyState s p).
Proof.
  intros Hf Hr Hs. unfold set_state, Slashing.store in Hr. run_inv. split; [done|]. simpl.
  rewrite lookup_alter_eq, Hs. eexists. split_and!; [done..|]. intros e. unfold getPenaltyState, at_. simpl.
  rewrite lookup_insert_eq. unfold repeat_multiplier. simpl. destruct (Hf (at_ penalty0 (sm_penaltyStates s) p)) as [E1 E2].
  unfold at_ in E1, E2. by rewrite E1, E2.
Qed.

Lemma multiplier_returns S e p s m c c' :
  c_slashers c !! S = Some s → calculateRepeatMultiplier S e p c = (Ok m, c') →
  m = repeat_multiplier e (getPenaltyState s p) ∧ c' = c.
Proof.
  intros Hs Hr. assert (ps_lastSlashTime (getPenaltyState s p) ≤ block_timestamp e) as Ht.
  { unfold calculateRepeatMultiplier, Slashing.load in Hr. next Hr s0 c0 Hl. run_step Hl. simpl in Hl. simplify_eq.
    next Hr z c1 Hz. by run_step Hz. }
  rewrite (multiplier_run S e p s c Hs Ht) in Hr. destruct (_ && _); [done|]. by simplify_eq.
Qed.

Lemma slash_missed_returns S e p collateral u c c' s :
  c_slashers c !! S = Some s → slashMissedPost S e p collateral c = (Ok u, c') →
  ∃ t, c_tokens c !! sm_token s = Some t ∧ penalty_for e s p collateral ≤ balanceOf t p ∧
    c_tokens c' = <[sm_token s := burned p (penalty_for e s p collateral) t]> (c_tokens c) ∧
    ∃ s', c_slashers c' !! S = Some s' ∧ getSlashingHistory s' p = getSlashingHistory s p ++
      [MkSlash (block_timestamp e) (penalty_for e s p collateral) "Missed PoSt proof" false false].
Proof.
  intros Hs Hr. unfold slashMissedPost, Slashing.load, _deregisterProvider in Hr.
  next Hr o c0 Ho. apply onlyOwner_returns in Ho as (o1 & _ & _ & ->).
  next Hr s0 c1 Hl. run_step Hl. simpl in Hl. simplify_eq.
  next Hr since c2 Hsi. run_step Hsi. next Hr misses c3 Hm. assert (c3 = c) as -> by (run_step Hm; by run_step Hm).
  next Hr z c4 Hz. apply miss_recorded with (s := s) in Hz as (Et1 & s1 & Hs1 & Tk1 & Rg1 & Hi1 & Mu1); [|done|done].
  next Hr y c5 Hy. apply miss_recorded with (s := s1) in Hy as (Et2 & s2 & Hs2 & Tk2 & Rg2 & Hi2 & Mu2); [|done|done].
  next Hr x c6 Hx. run_step Hx. cbv zeta in Hr.
  next Hr m c7 Hmu. apply multiplier_returns with (s := s2) in Hmu as [-> ->]; [|done].
  next Hr pen c8 Hp. run_step Hp. next Hr w c9 Hw.
  rewrite Mu2, Mu1 in Hw. fold (penalty_for e s p collateral) in Hw.
  eapply apply_slashing_returns in Hw as (t & Ht & Hn & Et & s3 & Hs3 & _ & _ & Hh); [|done].
  rewrite Tk2, Tk1, Et2, Et1 in *. exists t. split_and!; [done|done| |].
  - rewrite <- Et. refine ((_ : leaves c_tokens _) _ _ _ Hr). leave.
  - exists s3. split.
    + rewrite <- Hs3. refine ((_ : leaves (λ c, c_slashers c !! S) _) _ _ _ Hr). leave.
    + unfold getSlashingHistory in *. by rewrite Hh, Hi2, Hi1.
Qed.

(** ** Appeals *)

(** Record [i] of provider [p] is resolved. *)
Definition settled (S p : address) (i : nat) (c : chain) : Prop :=
  ∃ s r, c_slashers c !! S = Some s ∧ getSlashingHistory s p !! i = Some r ∧ sr_resolved r = true.

Section Settled.
  Context (S p : address) (i : nat).

Lemma settled_leaves A (m : M chain A) : leaves (λ c, c_slashers c !! S) m → keeps (settled S p i) m.
Proof. intros Hm c a c' Hc Hr. unfold settled. by rewrite (Hm _ _ _ Hr). Qed.
Lemma settled_store this (f : SlashingManager → SlashingManager) :
    (∀ s r, getSlashingHistory s p !! i = Some r → sr_resolved r = true →
       ∃ r', getSlashingHistory (f s) p !! i = Some r' ∧ sr_resolved r' = true) →
    keeps (settled S p i) (sstore this f).
Proof.
    intros Hf c a c' (s & r & Hs & Hr & Hd) Hrun. run_inv. unfold settled. simpl.
    destruct (decide (this = S)) as [->|]; [rewrite lookup_alter_eq, Hs|rewrite lookup_alter_ne by done; eauto].
    destruct (Hf s r Hr Hd) as (r' & ? & ?). simpl. eauto.
  Qed.
Lemma settled_same this f : (∀ s, sm_slashingHistory (f s) = sm_slashingHistory s) →
    keeps (settled S p i) (sstore this f).
Proof. intros Hf. apply settled_store. intros s r. unfold getSlashingHistory. rewrite Hf. eauto. Qed.
Lemma settled_record this q j f : (∀ r, sr_resolved r = true → sr_resolved (f r) = true) →
    keeps (settled S p i) (set_record this q j f).
Proof.
    intros Hf. apply settled_store. intros s r. unfold getSlashingHistory, at_. simpl.
    destruct (decide (q = p)) as [->|]; [rewrite lookup_insert_eq|rewrite lookup_insert_ne by done; eauto]. simpl.
    intros Hr Hd. destruct (decide (N.to_nat j = i)) as [->|].
    - rewrite list_lookup_alter_eq, Hr. simpl. eauto.
    - rewrite list_lookup_alter_ne by done. eauto.
  Qed.
Lemma settled_append this q x :
    keeps (settled S p i) (sstore this (with_sm_slashingHistory (λ m, <[q := at_ [] m q ++ [x]]> m))).
Proof.
    apply settled_store. intros s r. unfold getSlashingHistory, at_. simpl.
    destruct (decide (q = p)) as [->|]; [rewrite lookup_insert_eq|rewrite lookup_insert_ne by done; eauto]. simpl.
    intros Hr Hd. exists r. split; [|done]. by apply lookup_app_l_Some.
  Qed.
Hint Resolve settled_append : chain.
Hint Extern 3 (keeps _ (sstore _ _)) => (apply settled_same; done) : chain.
Hint Extern 3 (keeps _ (set_record _ _ _ _)) => (apply settled_record; done) : chain.

Lemma settled_run e this k : keeps (settled S p i) (run_slashing e this k).
Proof.
    destruct k; unfold run_slashing, Slashing.slashMissedPost, Slashing.slashDataLoss,
      Slashing.slashEarlyExit, Slashing.submitAppeal, Slashing.resolveAppeal, Slashing._applySlashing,
      Slashing._deregisterProvider, Slashing.calculateRepeatMultiplier, Slashing.set_state,
      Slashing.load, Slashing.store; keep settled_leaves.
  Qed.
Lemma settled_call `{Hashing} e k : keeps (settled S p i) (run_call e k).
Proof.
    destruct k as [| | | | | | | |k ? ?|k ?]; simpl; auto using settled_run;
      try solve [apply settled_leaves; eauto with chain].
    all: destruct k; unfold transferOwnership, renounceOwnership, _transferOwnership; keep settled_leaves.
  Qed.
End Settled.

(** ** Theorems on slashing *)

(** C28. A missed proof costs 1 % of the given collateral times 1, 2, 4 or 8: exactly this
    is burned, out of the provider's wallet (so a provider that has less is not slashed
    at all), nobody else's balance changes, and the pledged collateral stays as it was;
    the slashing is appended to the provider's history. *)
Theorem slashing_burns_the_wallet S e p collateral u c c' s :
  supply_ok c → c_slashers c !! S = Some s → slashMissedPost S e p collateral c = (Ok u, c') →
  ∃ t t', c_tokens c !! sm_token s = Some t ∧ c_tokens c' !! sm_token s = Some t' ∧
    balanceOf t' p + penalty_for e s p collateral = balanceOf t p ∧
    tk_totalSupply t' + penalty_for e s p collateral = tk_totalSupply t ∧
    (∀ x, x ≠ p → balanceOf t' x = balanceOf t x) ∧
    repeat_multiplier e (getPenaltyState s p) ∈ [1; 2; 4; 8] ∧ c_pools c' = c_pools c ∧
    ∃ s', c_slashers c' !! S = Some s' ∧ getSlashingHistory s' p = getSlashingHistory s p ++
      [MkSlash (block_timestamp e) (penalty_for e s p collateral) "Missed PoSt proof" false false].
Proof.
  intros Hok Hs Hr.
  assert (c_pools c' = c_pools c) as Ep.
  { refine ((_ : leaves c_pools (run_slashing e S (SMissedPost p collateral))) c u c' Hr). eauto with chain. }
  apply (slash_missed_returns _ _ _ _ _ _ _ s) in Hr as (t & Ht & Hn & Et & Hh); [|done].
  exists t, (burned p (penalty_for e s p collateral) t). rewrite Et, lookup_insert_eq.
  destruct (burned_spec t p _ (Hok _ _ Ht) Hn) as (_ & Hsup & Hb).
  split_and!; [done|done| |done| |apply repeat_multiplier_cases|done|done].
  - specialize (Hb p). by rewrite decide_True in Hb.
  - intros x Hx. specialize (Hb x). rewrite decide_False in Hb by done. lia.
Qed.

Definition court0 : chain :=
  apply_txs (H := demo_hashing)
    (with_c_slashers (λ _, {[ "S" := slashing_created (demo_env "owner" 0) "T" "R" ]}) market0)
    [(demo_env "p3" 1, CallRegistry "R" (RRegister "peer" "https://p" "EU" 1));
     (demo_env "owner" 1, CallToken "T" (TAuthorizeBurner "S"));
     (demo_env "owner" 1, CallToken "T" (TAuthorizeMinter "S"));
     (demo_env "owner" 1, CallRegistry "R" (RAuthorizeKeeper "S"))].
Definition court1 : chain :=
  apply_txs (H := demo_hashing) court0 [(demo_env "owner" 1, CallToken "T" (TTransfer "p3" (kyn 5)))].
Definition court_slashers : SlashingManager := slashing_created (demo_env "owner" 0) "T" "R".
Definition court2 : chain := snd (slashMissedPost "S" (demo_env "owner" 10) "p3" (kyn 100) court1).

Lemma slashing_burns_the_wallet_witness :
  penalty_for (demo_env "owner" 10) court_slashers "p3" (kyn 100) = kyn 1 ∧
  ∃ t t', c_tokens court1 !! "T" = Some t ∧ c_tokens court2 !! "T" = Some t' ∧
    balanceOf t' "p3" + kyn 1 = balanceOf t "p3".
Proof.
  assert (penalty_for (demo_env "owner" 10) court_slashers "p3" (kyn 100) = kyn 1) as Hp by (by vm_compute).
  split; [exact Hp|]. rewrite <- Hp.
  destruct (slashMissedPost "S" (demo_env "owner" 10) "p3" (kyn 100) court1) as [[[]|err] c'] eqn:Hr;
    [|by vm_compute in Hr].
  destruct (slashing_burns_the_wallet "S" (demo_env "owner" 10) "p3" (kyn 100) tt court1 c' court_slashers)
    as (t & t' & H1 & H2 & H3 & _); [|by vm_compute|exact Hr|].
  - unfold court1, court0. apply (apply_txs_keeps (H := demo_hashing) supply_ok (λ _ _, True));
      [intros; apply supply_run_call|by apply Forall_true|].
    apply (apply_txs_keeps (H := demo_hashing) supply_ok (λ _ _, True));
      [intros; apply supply_run_call|by apply Forall_true|].
    by apply map_Forall_singleton, token_created_ok.
  - exists t, t'. unfold court2. rewrite Hr. exact (conj H1 (conj H2 H3)).
Defined.

(** A provider with an empty wallet keeps its pledged collateral, its reputation and
    its clean record. *)
Example empty_wallet_is_not_slashed :
  fst (slashMissedPost "S" (demo_env "owner" 10) "p3" (kyn 100) court0) =
    Throw (Error "ERC20InsufficientBalance").
Proof. by vm_compute. Qed.

(** The multiplier for repeated offences is 1 after 30 days without a slashing and
    [min 8 (2 ^ n)] for [n] slashings in the window; from the 256th on the power
    overflows and the function reverts, and with it every slashing for a missed proof. *)
Theorem repeat_multiplier_is S e p s c :
  c_slashers c !! S = Some s → ps_lastSlashTime (getPenaltyState s p) ≤ block_timestamp e →
  let state := getPenaltyState s p in
  calculateRepeatMultiplier S e p c =
    if (block_timestamp e - ps_lastSlashTime state <=? REPEAT_WINDOW) && (256 <=? ps_slashCountInWindow state)
    then (Throw (Error "panic 0x11"), c)
    else (Ok (if REPEAT_WINDOW <? block_timestamp e - ps_lastSlashTime state then 1
              else N.min 8 (2 ^ ps_slashCountInWindow state)), c).
Proof. exact (multiplier_run S e p s c). Qed.
Lemma repeat_multiplier_is_witness :
  calculateRepeatMultiplier "S" (demo_env "owner" 20) "p3" court2 = (Ok 2, court2).
Proof.
  set (s := default court_slashers (c_slashers court2 !! "S")).
  rewrite (repeat_multiplier_is "S" (demo_env "owner" 20) "p3" s court2); by vm_compute.
Defined.

(** An appeal is settled once: after [resolveAppeal] has returned for a record, no
    transactions to any of the contracts let it return for that record again, so a
    penalty is refunded at most once. *)
Theorem appeals_settle_once `{Hashing} S e p i upheld u c c' txs :
  resolveAppeal S e p i upheld c = (Ok u, c') →
  ∀ e' upheld' v, fst (resolveAppeal S e' p i upheld' (apply_txs c' txs)) ≠ Ok v.
Proof.
  intros Hr e' upheld' v. assert (settled S p (N.to_nat i) c') as Hc.
  { unfold resolveAppeal, Slashing.load, set_record, Slashing.store in Hr.
    next Hr o c0 Ho. apply onlyOwner_returns in Ho as (o1 & _ & _ & ->).
    next Hr s c1 Hl. run_step Hl. cbv zeta in Hr. next Hr y c2 Hy. run_step Hy.
    next Hr z c3 Hz. run_step Hz. next Hr w c4 Hw. run_step Hw. next Hr x c5 Hx. run_step Hx.
    assert (N.to_nat i < length (getSlashingHistory s p))%nat as [r Hi]%lookup_lt_is_Some by (apply N.ltb_lt in Hy; lia).
    match type of Hr with ?m ?d = _ => assert (settled S p (N.to_nat i) d) as Hd end.
    { eexists _, _. simpl in *. rewrite lookup_alter_eq, Hl. split_and!; [done| |].
      - unfold getSlashingHistory, at_ in *. simpl. rewrite lookup_insert_eq. simpl.
        by rewrite list_lookup_alter_eq, Hi.
      - done. }
    revert Hd Hr. apply (λ H : keeps _ _, H _ _ _). keep settled_leaves. }
  assert (settled S p (N.to_nat i) (apply_txs c' txs)) as (s & r & Hs & Hi & Hd).
  { apply (apply_txs_keeps _ (λ _ _, True)); [intros; apply settled_call|by apply Forall_true|done]. }
  destruct (resolveAppeal S e' p i upheld' (apply_txs c' txs)) as [res c2] eqn:Hr2. simpl. intros ->.
  unfold resolveAppeal, Slashing.load in Hr2.
  next Hr2 o c0 Ho. apply onlyOwner_returns in Ho as (o1 & _ & _ & ->).
  next Hr2 s1 c1 Hl. run_step Hl. simpl in Hl. assert (s1 = s) as -> by congruence. cbv zeta in Hr2.
  next Hr2 y c3 Hy. run_step Hy. next Hr2 z c4 Hz. run_step Hz. next Hr2 w c5 Hw. run_step Hw.
  rewrite Hi in Hw. simpl in Hw. by rewrite Hd in Hw.
Qed.
Definition court3 : chain :=
  apply_txs (H := demo_hashing) court2 [(demo_env "p3" 11, CallSlashing "S" (SAppeal 0 "power cut"))].
Lemma appeals_settle_once_witness :
  ∀ e' upheld' v, fst (resolveAppeal "S" e' "p3" 0 upheld'
    (apply_txs (H := demo_hashing) (snd (resolveAppeal "S" (demo_env "owner" 12) "p3" 0 false court3))
      [(demo_env "p3" 13, CallSlashing "S" (SAppeal 0 "again"))])) ≠ Ok v.
Proof.
  destruct (resolveAppeal "S" (demo_env "owner" 12) "p3" 0 false court3) as [[[]|err] c'] eqn:Hr;
    [|by vm_compute in Hr].
  exact (appeals_settle_once (H := demo_hashing) "S" (demo_env "owner" 12) "p3" 0 false tt court3 c' _ Hr).
Defined.

(** * The difficulty of proofs of replication *)

Lemma leading_bytes value q :
  value < 256 ^ 32 → (q ≤ 32)%nat →
  existsb (λ i, negb (byte_of value (N.of_nat i) =? 0)) (seq 0 q) = negb (value <? 256 ^ (32 - N.of_nat q)).
Proof.
  intros Hv. induction q as [|q IH]; intros Hq; [by rewrite (proj2 (N.ltb_lt _ _))|].
  rewrite seq_S, existsb_app, IH by lia. simpl. rewrite orb_false_r. unfold byte_of.
  replace (32 - N.of_nat (S q)) with (31 - N.of_nat q) by lia.
  replace (32 - N.of_nat q) with (N.succ (31 - N.of_nat q)) by lia. set (k := 31 - N.of_nat q).
  rewrite N.pow_succ_r'. assert (0 < 256 ^ k) as Hk by (apply N.neq_0_lt_0, N.pow_nonzero; lia).
  rewrite <- negb_andb. f_equal.
  destruct (N.ltb_spec value (256 * 256 ^ k)) as [H1|H1]; simpl.
  - assert (value / 256 ^ k < 256) by (apply N.Div0.div_lt_upper_bound; lia).
    rewrite N.mod_small by done. destruct (N.ltb_spec value (256 ^ k)) as [H2|H2].
    + by rewrite N.div_small.
    + apply N.eqb_neq. intros E. apply N.div_small_iff in E; lia.
  - symmetry. apply N.ltb_ge. lia.
Qed.

(** The mask keeps the low bits of the byte. *)
Lemma mask_low b r : 0 < r → r < 8 → N.land b (N.shiftr 255 r) = b mod 2 ^ (8 - r).
Proof.
  intros H1 H2. assert (N.shiftr 255 r = N.ones (8 - r)) as ->; [|apply N.land_ones].
  destruct (decide (r = 1)) as [->|]; [done|]. destruct (decide (r = 2)) as [->|]; [done|].
  destruct (decide (r = 3)) as [->|]; [done|]. destruct (decide (r = 4)) as [->|]; [done|].
  destruct (decide (r = 5)) as [->|]; [done|]. destruct (decide (r = 6)) as [->|]; [done|].
  by assert (r = 7) as -> by lia.
Qed.

(** What the difficulty check of proofs of replication accepts: for whole bytes it is
    "the hash has [bits] leading zero bits"; for [r] further bits it asks for the LOW
    [8 - r] bits of the next byte to be zero, not for its high [r] bits. *)
Theorem difficulty_check_is (st : chain) value bits :
  value < 256 ^ 32 → bits ≤ 256 →
  _hasLeadingZeroBits value bits st =
    (Ok ((value <? 256 ^ (32 - bits / 8)) &&
         ((bits mod 8 =? 0) || (byte_of value (bits / 8) mod 2 ^ (8 - bits mod 8) =? 0))), st) ∧
  (bits mod 8 = 0 → _hasLeadingZeroBits value bits st = (Ok (value <? 2 ^ (256 - bits)), st)).
Proof.
  intros Hv Hb.
  assert (_hasLeadingZeroBits value bits st =
    (Ok ((value <? 256 ^ (32 - bits / 8)) &&
         ((bits mod 8 =? 0) || (byte_of value (bits / 8) mod 2 ^ (8 - bits mod 8) =? 0))), st)) as E.
  { unfold _hasLeadingZeroBits, require. rewrite (proj2 (N.leb_le _ _) Hb). rewrite (bind_ok _ _ st tt st) by done.
    pose proof (N.Div0.div_le_mono bits 256 8 Hb) as Hq. change (256 / 8) with 32 in Hq.
    pose proof (N.mod_lt bits 8 ltac:(lia)) as Hr.
    cbv zeta. rewrite leading_bytes by lia. rewrite N2Nat.id. destruct (value <? _); simpl; [|done].
    destruct (N.ltb_spec 0 (bits mod 8)) as [H1|H1].
    - rewrite mask_low by lia. destruct (N.eqb_spec (bits mod 8) 0) as [E0|_]; [by rewrite E0 in H1|done].
    - apply N.le_0_r in H1 as ->. done. }
  split; [done|]. intros Hm. rewrite E, Hm. simpl. rewrite andb_true_r. do 3 f_equal.
  pose proof (N.div_mod bits 8 ltac:(lia)) as Hd. rewrite Hm in Hd.
  change 256 with (2 ^ 8) at 1. rewrite <- N.pow_mul_r. f_equal. lia.
Qed.
Lemma difficulty_check_is_witness :
  _hasLeadingZeroBits (2 ^ 240 - 1) 16 one_token = (Ok true, one_token).
Proof.
  rewrite (proj2 (difficulty_check_is one_token (2 ^ 240 - 1) 16 ltac:(by vm_compute) ltac:(by vm_compute)) eq_refl).
  by vm_compute.
Defined.

(** At the default difficulty of 20, a hash with 16 leading zero bits passes and one
    with 20 does not. *)
Example difficulty_tests_the_wrong_bits :
  _hasLeadingZeroBits (240 * 2 ^ 232) 20 one_token = (Ok true, one_token) ∧
  _hasLeadingZeroBits (15 * 2 ^ 232) 20 one_token = (Ok false, one_token).
Proof. by vm_compute. Qed.

(** * Challenges *)

(** Challenge [id] was made and answered. *)
Definition answered (V : address) (id : N) (c : chain) : Prop :=
  ∃ v, c_verifiers c !! V = Some v ∧ id < pv_challengeCount v ∧ pc_submitted (challenge_of v id) = true.

Section Answered.
  Context (V : address) (id : N).

Lemma answered_leaves A (m : M chain A) : leaves (λ c, c_verifiers c !! V) m → keeps (answered V id) m.
Proof. intros Hm c a c' Hc Hr. unfold answered. by rewrite (Hm _ _ _ Hr). Qed.
Lemma answered_store this (f : ProofVerifier → ProofVerifier) :
    (∀ v, id < pv_challengeCount v → pc_submitted (challenge_of v id) = true →
       id < pv_challengeCount (f v) ∧ pc_submitted (challenge_of (f v) id) = true) →
    keeps (answered V id) (sstore this f).
Proof.
    intros Hf c a c' (v & Hv & Hid & Hs) Hrun. run_inv. unfold answered. simpl.
    destruct (decide (this = V)) as [->|]; [rewrite lookup_alter_eq, Hv|rewrite lookup_alter_ne by done; eauto].
    destruct (Hf v Hid Hs). simpl. eauto.
  Qed.
Lemma answered_set this j f : (∀ x, pc_submitted x = true → pc_submitted (f x) = true) →
    keeps (answered V id) (set_challenge this j f).
Proof.
    intros Hf. apply answered_store. intros v Hid Hs. split; [done|]. unfold challenge_of, at_ in *. simpl.
    destruct (decide (j = id)) as [->|]; [rewrite lookup_insert_eq; simpl; auto|by rewrite lookup_insert_ne].
  Qed.
Lemma answered_create `{Hashing} this e dealId p ls seed :
    keeps (answered V id) (createPoStChallenge this e dealId p ls seed).
Proof.
    intros c r c' (v & Hv & Hid & Hs) Hr.
    unfold createPoStChallenge, Verifier.load, Verifier.store in Hr.
    next Hr o c0 Ho. apply onlyOwner_returns in Ho as (o1 & _ & _ & ->).
    run_inv. settle. unfold answered. simpl. rewrite !alter_alter_eq.
    destruct (decide (this = V)) as [->|]; [|rewrite lookup_alter_ne by done; eauto].
    rewrite lookup_alter_eq, Hv. eexists. split; [done|]. simplify_eq. simpl. split; [lia|].
    unfold challenge_of, at_ in *. simpl. by rewrite lookup_insert_ne by lia.
  Qed.
Hint Resolve answered_create : chain.
Hint Extern 3 (keeps _ (sstore _ _)) => (apply answered_store; done) : chain.
Hint Extern 3 (keeps _ (set_challenge _ _ _)) => (apply answered_set; done) : chain.

Lemma answered_run `{Hashing} e this k : keeps (answered V id) (run_verifier e this k).
Proof.
    destruct k; unfold run_verifier, discard, Verifier.setPoRepDifficulty, Verifier.submitPoRep,
      Verifier._verifyPoRepProof, Verifier._hasLeadingZeroBits,
      Verifier.submitPoSt, Verifier.checkMissedPoSt, Verifier.markNonceUsed,
      Verifier.load, Verifier.store; keep answered_leaves.
  Qed.
Lemma answered_call `{Hashing} e k : keeps (answered V id) (run_call e k).
Proof.
    destruct k as [| | | | | | | |k ? ?|k ?]; simpl; auto using answered_run;
      try solve [apply answered_leaves; eauto with chain].
    all: destruct k; unfold transferOwnership, renounceOwnership, _transferOwnership; keep answered_leaves.
  Qed.
End Answered.

(** The loop over the leaves returns only when every leaf verifies. *)
Lemma for_each_requires {A S} (xs : list A) (f : A → M S unit) (P : A → Prop) c u c' :
  (∀ x c u c', f x c = (Ok u, c') → P x ∧ c' = c) →
  for_each xs f c = (Ok u, c') → Forall P xs ∧ c' = c.
Proof.
  intros Hf. revert c. induction xs as [|x xs IH]; intros c Hr; simpl in Hr; [by run_step Hr|].
  next Hr z c1 Hz. apply Hf in Hz as [Hx ->]. apply IH in Hr as [Hxs ->]. auto.
Qed.

(** C29. A proof of spacetime is accepted only from the challenged provider, before the
    deadline, with the committed seed and ten leaves that all verify against the sealed
    root of the deal; and an answered challenge stays answered: over any transactions
    of all contracts it can neither be answered again nor be counted as missed. *)
Theorem accepted_proof_settles `{Hashing} V e id leafData proofs seed u c c' v txs :
  c_verifiers c !! V = Some v → id < pv_challengeCount v →
  submitPoSt V e id leafData proofs seed c = (Ok u, c') →
  let ch := challenge_of v id in
  let root := po_sealedCID (porep_of v (pc_dealId ch) (msg_sender e)) in
  let entropy := keccak256 [Word seed; Word id; Word (pc_dealId ch); Addr (msg_sender e)] in
  pc_provider ch = msg_sender e ∧ block_timestamp e ≤ pc_deadline ch ∧ root ≠ 0 ∧
  keccak256 [Word seed] = pc_commitment ch ∧
  Forall (λ i, ∃ d proof, leafData !! i = Some d ∧ proofs !! i = Some proof ∧
    merkle_verify proof root (keccak256 [Word d; Word entropy; Word (N.of_nat i)]) = true) (seq 0 10) ∧
  (∀ e' x, fst (checkMissedPoSt V e' id (apply_txs c' txs)) ≠ Ok x) ∧
  (∀ e' ls ps sd x, fst (submitPoSt V e' id ls ps sd (apply_txs c' txs)) ≠ Ok x).
Proof.
  intros Hv Hid Hr ch root entropy. unfold submitPoSt, Verifier.load, Verifier.store, set_challenge, Verifier.store in Hr.
  next Hr v0 c0 Hl. run_step Hl. simpl in Hl. assert (v0 = v) as -> by congruence. clear Hl. cbv zeta in Hr.
  next Hr z1 d1 H1. run_step H1. next Hr z2 d2 H2. run_step H2. next Hr z3 d3 H3. run_step H3.
  next Hr z4 d4 H4. run_step H4. next Hr z5 d5 H5. run_step H5. next Hr z6 d6 H6. run_step H6.
  apply bool_decide_eq_true in H1. apply N.leb_le in H3. apply N.eqb_eq in H5.
  apply negb_true_iff, N.eqb_neq in H6.
  fold ch root entropy in Hr. next Hr z7 d7 H7.
  apply (for_each_requires _ _ (λ i, ∃ d proof, leafData !! i = Some d ∧ proofs !! i = Some proof ∧
    merkle_verify proof root (keccak256 [Word d; Word entropy; Word (N.of_nat i)]) = true)) in H7 as [Hall ->].
  2: { intros i s w s' Hi. destruct (leafData !! i) as [d|]; [|done]. destruct (proofs !! i) as [pf|]; [|done].
       run_step Hi. split; [|done]. eauto. }
  assert (answered V id c') as Hc'.
  { run_inv. exists (with_pv_consecutiveMisses (insert (msg_sender e) 0) (with_pv_lastPostSubmission
      (insert (msg_sender e, pc_dealId ch) (block_timestamp e)) (with_pv_postChallenges (λ m, <[id :=
      with_pc_verified (λ _, true) (at_ challenge0 m id)]> m) (with_pv_postChallenges (λ m, <[id :=
      with_pc_submitted (λ _, true) (at_ challenge0 m id)]> m) v)))).
    split_and!; [simpl; by rewrite !lookup_alter_eq, Hv|done|].
    unfold challenge_of, at_. simpl. by rewrite !lookup_insert_eq. }
  assert (answered V id (apply_txs c' txs)) as (w & Hw & _ & Hs).
  { apply (apply_txs_keeps _ (λ _ _, True)); [intros; apply answered_call|by apply Forall_true|done]. }
  split_and!; [done..| |].
  - intros e' x E. destruct (checkMissedPoSt V e' id (apply_txs c' txs)) as [r c2] eqn:Hrun. simpl in E. subst r.
    unfold checkMissedPoSt, Verifier.load in Hrun. next Hrun o c0 Ho. apply onlyOwner_returns in Ho as (o1 & _ & _ & ->).
    next Hrun w0 c1 Hl. run_step Hl. simpl in Hl. assert (w0 = w) as -> by congruence.
    next Hrun y1 k1 Hy1. run_step Hy1. next Hrun y2 k2 Hy2. run_step Hy2. by rewrite Hs in Hy2.
  - intros e' ls ps sd x E. destruct (submitPoSt V e' id ls ps sd (apply_txs c' txs)) as [r c2] eqn:Hrun. simpl in E. subst r.
    unfold submitPoSt, Verifier.load in Hrun.
    next Hrun w0 c1 Hl. run_step Hl. simpl in Hl. assert (w0 = w) as -> by congruence.
    next Hrun y1 k1 Hy1. run_step Hy1. next Hrun y2 k2 Hy2. run_step Hy2. by rewrite Hs in Hy2.
Qed.

Definition word1 : list N := replicate 31 0 ++ [1].
Definition proofs0 : chain :=
  apply_txs (H := demo_hashing)
    (with_c_verifiers (λ _, {[ "V" := verifier_created (demo_env "owner" 0) ]}) demo0)
    [(demo_env "p3" 1, CallVerifier "V" (VSubmitPoRep 0 5 6 (word1 ++ word1 ++ word1)));
     (demo_env "owner" 2, CallVerifier "V" (VCreateChallenge 0 "p3" (replicate 10 4) 1))].
Lemma accepted_proof_settles_witness :
  let r := submitPoSt (H := demo_hashing) "V" (demo_env "p3" 3) 0 (replicate 10 7) (replicate 10 []) 9 proofs0 in
  fst r = Ok tt ∧
  ∀ e' x, fst (checkMissedPoSt "V" e' 0 (apply_txs (H := demo_hashing) (snd r) [])) ≠ Ok x.
Proof.
  destruct (submitPoSt (H := demo_hashing) "V" (demo_env "p3" 3) 0 (replicate 10 7) (replicate 10 []) 9 proofs0)
    as [[[]|err] c'] eqn:Hr; [|by vm_compute in Hr]. cbn [fst snd]. split; [done|].
  destruct (accepted_proof_settles (H := demo_hashing) "V" (demo_env "p3" 3) 0 (replicate 10 7) (replicate 10 []) 9
    tt proofs0 c' (default (verifier_created (demo_env "owner" 0)) (c_verifiers proofs0 !! "V")) [])
    as (_ & _ & _ & _ & _ & Hm & _); [by vm_compute|by vm_compute|exact Hr|exact Hm].
Defined.

(** The nonce of an accepted proof of replication is not marked: after the same parent
    block the same proof data is accepted again for another deal. *)
Example porep_is_replayed :
  fst (submitPoRep (H := demo_hashing) "V" (demo_env "p3" 4) 1 5 6 (word1 ++ word1 ++ word1) proofs0) = Ok tt.
Proof. by vm_compute. Qed.
