(* ===== verification/Payouts.v ===== *)
(** Vesting and rewards over transactions: the tokens a schedule pays against what it
    records, revocation, and the accounts of PaymentDistributor.sol. *)

From S2P Require Import Prelude Contracts ChainRules Token Registry Pool Market Distributor Slashing Verifier Vesting Protocol Collateral Escrow.

Local Open Scope N_scope.

(** * Vesting *)

(** What has vested at a time, without the checks of the arithmetic. *)
Definition vested (now : N) (s : VestingSchedule) : N :=
  if now <? vs_cliff s then 0
  else if vs_start s + vs_duration s <=? now then vs_totalAmount s
  else vs_totalAmount s * (now - vs_start s) / vs_duration s.

Lemma vested_returns e s v c c' : _calculateVestedAmount e s c = (Ok v, c') →
  v = vested (block_timestamp e) s ∧ c' = c.
Proof.
  unfold _calculateVestedAmount, vested. intros Hr.
  destruct (block_timestamp e <? vs_cliff s); [by run_step Hr|].
  next Hr f c1 Hf. run_step Hf. destruct (_ <=? _); [by run_step Hr|]. by run_inv.
Qed.

Lemma vested_le now s : vested now s ≤ vs_totalAmount s.
Proof.
  unfold vested. destruct (_ <? _); [lia|]. destruct (N.leb_spec (vs_start s + vs_duration s) now) as [|Hf]; [done|].
  apply N.Div0.div_le_upper_bound. rewrite (N.mul_comm (vs_duration s)). apply N.mul_le_mono_l. lia.
Qed.
Lemma vested_mono t1 t2 s : t1 ≤ t2 → vested t1 s ≤ vested t2 s.
Proof.
  intros Ht. unfold vested. destruct (N.ltb_spec t1 (vs_cliff s)); [lia|].
  rewrite (proj2 (N.ltb_ge t2 (vs_cliff s))) by lia.
  destruct (N.leb_spec (vs_start s + vs_duration s) t1).
  { by rewrite (proj2 (N.leb_le _ _)) by lia. }
  destruct (N.leb_spec (vs_start s + vs_duration s) t2).
  - pose proof (vested_le t1 s) as Hle. unfold vested in Hle.
    rewrite (proj2 (N.ltb_ge t1 (vs_cliff s))), (proj2 (N.leb_gt _ _)) in Hle by lia. done.
  - apply N.Div0.div_le_mono, N.mul_le_mono_l. lia.
Qed.

(** ** Schedules over transactions *)

Lemma schedule_of_set v b f x :
  schedule_of (with_tv_vestingSchedules (λ m, <[b := f (at_ schedule0 m b)]> m) v) x =
  if decide (x = b) then f (schedule_of v b) else schedule_of v x.
Proof.
  unfold schedule_of, at_. simpl. case_decide as Hq; [subst; by rewrite lookup_insert_eq|].
  by rewrite lookup_insert_ne.
Qed.
(** What a release that returns did. *)
Lemma release_returns W e u c c' :
  release W e c = (Ok u, c') →
  ∃ v t, c_vestings c !! W = Some v ∧ c_tokens c !! tv_token v = Some t ∧
    let s := schedule_of v (msg_sender e) in
    let n := vested (block_timestamp e) s - vs_releasedAmount s in
    vs_revoked s = false ∧ vs_releasedAmount s < vested (block_timestamp e) s ∧ n ≤ balanceOf t W ∧
    c_tokens c' = <[tv_token v := moved W (vs_beneficiary s) n t]> (c_tokens c) ∧
    c_vestings c' = <[W := with_tv_vestingSchedules (λ m, <[msg_sender e :=
      with_vs_releasedAmount (λ _, vested (block_timestamp e) s) s]> m) v]> (c_vestings c).
Proof.
  intros Hr. apply nonReentrant_returns in Hr as (v & c1 & Hv & Hent & Hr & ->). simpl in Hv.
  unfold Vesting.load, set_schedule, Vesting.store in Hr.
  next Hr v1 c2 Hl. run_step Hl. simpl in Hl. rewrite lookup_alter_eq, Hv in Hl. injection Hl as <-. cbv zeta in Hr.
  change (schedule_of (with_tv_entered _ v)) with (schedule_of v) in Hr. set (s := schedule_of v (msg_sender e)) in *.
  next Hr x1 d1 H1. run_step H1. next Hr x2 d2 H2. run_step H2. apply negb_true_iff in H2.
  next Hr x3 d3 H3. apply vested_returns in H3 as [-> ->]. next Hr x4 d4 H4. run_step H4.
  next Hr x5 d5 H5. run_step H5. apply N.ltb_lt in H5. next Hr x6 d6 H6. run_step H6.
  next Hr x7 d7 H7. run_step H7. next Hr ok d8 H8.
  pose proof (leaves_token_transfer c_vestings _ _ _ _ _ _ _ H8) as Ev.
  apply transfer_returns in H8 as (t & Ht & Hn & _ & _ & _ & Et). simpl in Ht, Hn, Et, Ev.
  next Hr y d9 H9. run_step H9. run_step Hr. exists v, t. cbv zeta. fold s.
  split_and!; [done|done|done|lia|done|exact Et|]. simpl. rewrite Ev, !alter_alter_eq.
  rewrite (alter_alt_Some _ _ _ _ Hv). f_equal. destruct v. simpl in *. subst.
  unfold with_tv_vestingSchedules, with_tv_entered, at_. simpl. f_equal. f_equal. f_equal.
  replace (vs_releasedAmount s + (vested (block_timestamp e) s - vs_releasedAmount s))
    with (vested (block_timestamp e) s) by lia. done.
Qed.
(** ** What a schedule has paid *)

(** The schedule of [b] is in its name and has paid no more than its amount; an empty
    one, which has no name yet, has paid nothing. *)
Definition sound_schedule (b : address) (s : VestingSchedule) : Prop :=
  vs_releasedAmount s ≤ vs_totalAmount s ∧ (0 < vs_totalAmount s → vs_beneficiary s = b).
Definition paid_at (W b : address) (n : N) (c : chain) : Prop :=
  ∃ v, c_vestings c !! W = Some v ∧ sound_schedule b (schedule_of v b) ∧ vs_releasedAmount (schedule_of v b) = n.

(** The call by which [b] is paid. *)
Definition is_release (W b : address) (e : env) (k : call) : bool :=
  match k with
  | CallVesting this WRelease => bool_decide (this = W) && bool_decide (msg_sender e = b)
  | _ => false
  end.

(** The tokens an account has, and those that a transaction, or a sequence of them,
    has brought to [b] by releasing at [W]. *)
Definition holding (T a : address) (c : chain) : Z :=
  match c_tokens c !! T with Some t => Z.of_N (balanceOf t a) | None => 0 end.
Definition got `{Hashing} (W b : address) (c : chain) (tx : env * call) : Z :=
  match c_vestings c !! W with
  | Some v =>
      if is_release W b (fst tx) (snd tx)
      then holding (tv_token v) b (apply_tx c tx) - holding (tv_token v) b c else 0
  | None => 0
  end.
Fixpoint received `{Hashing} (W b : address) (c : chain) (txs : list (env * call)) : Z :=
  match txs with
  | [] => 0
  | tx :: txs => got W b c tx + received W b (apply_tx c tx) txs
  end.

Section Paid.
  Context (W b : address) (n : N).

Lemma paid_leaves A (m : M chain A) : leaves (λ c, c_vestings c !! W) m → keeps (paid_at W b n) m.
Proof. intros Hm c a c' Hc Hr. unfold paid_at. by rewrite (Hm _ _ _ Hr). Qed.
Lemma paid_store this (f : TokenVesting → TokenVesting) :
    (∀ v, tv_vestingSchedules (f v) = tv_vestingSchedules v) → keeps (paid_at W b n) (sstore this f).
Proof.
    intros Hf c a c' (v & Hv & Hp) Hr. run_inv. unfold paid_at. simpl.
    destruct (decide (this = W)) as [->|]; [rewrite lookup_alter_eq, Hv|rewrite lookup_alter_ne by done; eauto].
    eexists. split; [done|]. unfold schedule_of in *. by rewrite Hf.
  Qed.
(** A write to another schedule, or one that keeps what this one has paid. *)
Lemma paid_set this x f :
    (this = W → x = b → ∀ s, sound_schedule b s → vs_releasedAmount s = n →
       sound_schedule b (f s) ∧ vs_releasedAmount (f s) = n) →
    keeps (paid_at W b n) (set_schedule this x f).
Proof.
    intros Hf c a c' (v & Hv & Hs & Hn) Hrun. unfold set_schedule, Vesting.store in Hrun. run_inv.
    unfold paid_at. simpl.
    destruct (decide (this = W)) as [->|]; [rewrite lookup_alter_eq, Hv|rewrite lookup_alter_ne by done; eauto].
    eexists. split; [done|]. rewrite schedule_of_set. case_decide; [subst x; by apply Hf|done].
  Qed.
Hint Extern 3 (keeps _ (sstore _ _)) => (apply paid_store; done) : chain.
Hint Extern 3 (keeps _ (set_schedule _ _ (with_vs_revoked _))) => (apply paid_set; intros; by split) : chain.

Lemma paid_create this e x st cl du k : keeps (paid_at W b n) (createVestingSchedule this e x st cl du k).
Proof.
    intros c u c' Hc Hr. unfold createVestingSchedule, Vesting.load, Vesting.store in Hr.
    next Hr o c0 Ho. apply onlyOwner_returns in Ho as (o1 & _ & _ & ->).
    next Hr z1 d1 H1. run_step H1. next Hr z2 d2 H2. run_step H2. next Hr v d3 H3. run_step H3.
    next Hr z4 d4 H4. run_step H4. apply N.eqb_eq in H4. next Hr z5 d5 H5. run_step H5.
    pose proof Hc as (v0 & Hv0 & [Hs _] & Hn). simpl in H3.
    revert u c' Hc Hr. apply (λ H : keeps _ _, H c). keep paid_leaves.
    apply paid_set. intros -> -> s _ _. simplify_eq. unfold sound_schedule. simpl. split_and!; [lia|done|lia].
  Qed.
Lemma paid_release this e :
    is_release W b e (CallVesting this WRelease) = false → keeps (paid_at W b n) (release this e).
Proof.
    intros Hno c u c' (v & Hv & Hp) Hrun. apply release_returns in Hrun as (v1 & t & Hv1 & _ & _ & _ & _ & _ & E).
    unfold paid_at. rewrite E. destruct (decide (this = W)) as [->|]; [|rewrite lookup_insert_ne by done; eauto].
    rewrite lookup_insert_eq. eexists. split; [done|]. assert (v1 = v) as -> by congruence.
    assert (msg_sender e ≠ b) by (intros <-; simpl in Hno; by rewrite !bool_decide_true in Hno).
    unfold schedule_of, at_ in *. simpl. by rewrite lookup_insert_ne.
  Qed.
Hint Resolve paid_create paid_release : chain.

(** No other call changes what the schedule has paid. *)
Lemma paid_call `{Hashing} e k : is_release W b e k = false → keeps (paid_at W b n) (run_call e k).
Proof.
    intros Hno. destruct k as [| | | | | | |? k|k ? ?|k ?]; simpl; try solve [apply paid_leaves; eauto with chain].
    all: destruct k; unfold transferOwnership, renounceOwnership, _transferOwnership; simpl; auto with chain;
      unfold revoke, Vesting.load, Vesting.store; keep paid_leaves.
  Qed.
End Paid.

(** A release that returns moves exactly the vested rest of the schedule from the
    contract to the beneficiary and records it. *)
Lemma release_pays W e u c c' n :
  supply_ok c → msg_sender e ≠ W → paid_at W (msg_sender e) n c → release W e c = (Ok u, c') →
  ∃ v v' t t', c_vestings c !! W = Some v ∧ c_vestings c' !! W = Some v' ∧
    c_tokens c !! tv_token v = Some t ∧ c_tokens c' !! tv_token v = Some t' ∧
    let now := vested (block_timestamp e) (schedule_of v (msg_sender e)) in
    n < now ∧ vs_releasedAmount (schedule_of v' (msg_sender e)) = now ∧
    paid_at W (msg_sender e) now c' ∧
    balanceOf t' (msg_sender e) = balanceOf t (msg_sender e) + (now - n) ∧
    balanceOf t' W + (now - n) = balanceOf t W ∧
    (∀ x, x ≠ W → x ≠ msg_sender e → balanceOf t' x = balanceOf t x) ∧
    (∀ T, T ≠ tv_token v → c_tokens c' !! T = c_tokens c !! T).
Proof.
  intros Hok Hne (v0 & Hv0 & [Hle Hnm] & Hn) Hr.
  apply release_returns in Hr as (v & t & Hv & Ht & _ & Hlt & Hbal & Et & Ev). assert (v0 = v) as -> by congruence.
  set (s := schedule_of v (msg_sender e)) in *. set (now := vested (block_timestamp e) s) in *.
  pose proof (vested_le (block_timestamp e) s) as Hvl. fold now in Hvl.
  rewrite Hnm in Et by lia. rewrite Hn in Et, Hbal, Hlt.
  destruct (moved_spec t W (msg_sender e) (now - n) (Hok _ _ Ht) Hbal) as [_ Hx].
  eexists v, _, t, _. cbv zeta. fold s. fold now. rewrite Ev, Et, !lookup_insert_eq.
  split_and!; [done..| | | | | |].
  - unfold schedule_of, at_. simpl. by rewrite lookup_insert_eq.
  - eexists. rewrite Ev, lookup_insert_eq. split; [done|]. unfold schedule_of, at_. simpl. rewrite lookup_insert_eq.
    unfold sound_schedule. simpl. split_and!; [done|intros; apply Hnm; done|done].
  - specialize (Hx (msg_sender e)). rewrite decide_False, decide_True in Hx by done. lia.
  - specialize (Hx W). rewrite decide_True, decide_False in Hx by done. lia.
  - intros x H1 H2. specialize (Hx x). rewrite !decide_False in Hx by done. lia.
  - intros T HT. by rewrite lookup_insert_ne.
Qed.

(** A transaction brings the beneficiary what the schedule records. *)
Lemma got_spec `{Hashing} W b n c tx :
  supply_ok c → b ≠ W → paid_at W b n c →
  ∃ m, paid_at W b m (apply_tx c tx) ∧ Z.of_N m = (Z.of_N n + got W b c tx)%Z.
Proof.
  intros Hok Hne Hp. destruct tx as [e k]. unfold got. cbn [fst snd].
  pose proof Hp as (v & Hv & _). rewrite Hv. destruct (is_release W b e k) eqn:Hrel.
  - destruct k as [| | | | | | |this k| |]; try done. destruct k; try done. simpl in Hrel.
    apply andb_true_iff in Hrel as [->%bool_decide_eq_true <-%bool_decide_eq_true].
    unfold apply_tx, transact. cbn [fst snd run_call run_vesting].
    destruct (release W e c) as [[u|err] c'] eqn:Hr; cbn [snd]; [|exists n; split; [done|lia]].
    destruct (release_pays W e u c c' n Hok Hne Hp Hr) as (w & v' & t & t' & Hw & _ & Ht & Ht' & Hlt & _ & Hp' & Hb & _).
    assert (w = v) as -> by congruence. eexists. split; [exact Hp'|].
    unfold holding. rewrite Ht, Ht', Hb. lia.
  - exists n. split; [|lia]. unfold apply_tx. by apply (transact_keeps _ _ (paid_call W b n e k Hrel)).
Qed.

Lemma received_spec `{Hashing} W b txs : ∀ n c,
  supply_ok c → b ≠ W → paid_at W b n c →
  ∃ m, paid_at W b m (apply_txs c txs) ∧ Z.of_N m = (Z.of_N n + received W b c txs)%Z.
Proof.
  induction txs as [|tx txs IH]; intros n c Hok Hne Hp; simpl; [exists n; split; [done|lia]|].
  destruct (got_spec W b n c tx Hok Hne Hp) as (m & Hm & E).
  destruct (IH m (apply_tx c tx)) as (m' & Hm' & E'); [|done|done|exists m'; split; [done|lia]].
  by apply (transact_keeps _ _ (supply_run_call (fst tx) (snd tx))).
Qed.

(** ** Revoked schedules *)

Definition revoked_at (W b : address) (c : chain) : Prop :=
  ∃ v, c_vestings c !! W = Some v ∧ vs_revoked (schedule_of v b) = true ∧ 0 < vs_totalAmount (schedule_of v b).

Section Revoked.
  Context (W b : address).

Lemma revoked_leaves A (m : M chain A) : leaves (λ c, c_vestings c !! W) m → keeps (revoked_at W b) m.
Proof. intros Hm c a c' Hc Hr. unfold revoked_at. by rewrite (Hm _ _ _ Hr). Qed.
Lemma revoked_store this (f : TokenVesting → TokenVesting) :
    (∀ v, tv_vestingSchedules (f v) = tv_vestingSchedules v) → keeps (revoked_at W b) (sstore this f).
Proof.
    intros Hf c a c' (v & Hv & Hp) Hr. run_inv. unfold revoked_at. simpl.
    destruct (decide (this = W)) as [->|]; [rewrite lookup_alter_eq, Hv|rewrite lookup_alter_ne by done; eauto].
    eexists. split; [done|]. unfold schedule_of in *. by rewrite Hf.
  Qed.
(** A write to another schedule, or one that keeps this one revoked. *)
Lemma revoked_set this x f :
    (this = W → x = b → ∀ s, vs_revoked s = true → 0 < vs_totalAmount s →
       vs_revoked (f s) = true ∧ 0 < vs_totalAmount (f s)) →
    keeps (revoked_at W b) (set_schedule this x f).
Proof.
    intros Hf c a c' (v & Hv & Hr & Ht) Hrun. unfold set_schedule, Vesting.store in Hrun. run_inv.
    unfold revoked_at. simpl.
    destruct (decide (this = W)) as [->|]; [rewrite lookup_alter_eq, Hv|rewrite lookup_alter_ne by done; eauto].
    eexists. split; [done|]. rewrite schedule_of_set. case_decide; [subst; by apply Hf|done].
  Qed.
Hint Extern 3 (keeps _ (sstore _ _)) => (apply revoked_store; done) : chain.
Hint Extern 3 (keeps _ (set_schedule _ _ (with_vs_revoked _))) => (apply revoked_set; intros; by split) : chain.

Lemma revoked_create this e x st cl du n : keeps (revoked_at W b) (createVestingSchedule this e x st cl du n).
Proof.
    intros c u c' Hc Hr. unfold createVestingSchedule, Vesting.load, Vesting.store in Hr.
    next Hr o c0 Ho. apply onlyOwner_returns in Ho as (o1 & _ & _ & ->).
    next Hr z1 d1 H1. run_step H1. next Hr z2 d2 H2. run_step H2. next Hr v d3 H3. run_step H3.
    next Hr z4 d4 H4. run_step H4. apply N.eqb_eq in H4. next Hr z5 d5 H5. run_step H5.
    pose proof Hc as (v0 & Hv0 & _ & Ht).
    revert u c' Hc Hr. apply (λ H : keeps _ _, H c). keep revoked_leaves.
    apply revoked_set. intros -> ->. simpl in H3. simplify_eq. lia.
  Qed.
Lemma revoked_release this e : keeps (revoked_at W b) (release this e).
Proof.
    intros c u c' (v & Hv & Hr & Ht) Hrun. apply release_returns in Hrun as (v1 & t & Hv1 & _ & Hn & _ & _ & _ & E).
    unfold revoked_at. rewrite E. destruct (decide (this = W)) as [->|]; [|rewrite lookup_insert_ne by done; eauto].
    rewrite lookup_insert_eq. eexists. split; [done|]. assert (v1 = v) as -> by congruence.
    assert (msg_sender e ≠ b) by (intros <-; congruence).
    unfold schedule_of, at_ in *. simpl. by rewrite lookup_insert_ne.
  Qed.
Hint Resolve revoked_create revoked_release : chain.

Lemma revoked_call `{Hashing} e k : keeps (revoked_at W b) (run_call e k).
Proof.
    destruct k as [| | | | | | |? k|k ? ?|k ?]; simpl; try solve [apply revoked_leaves; eauto with chain].
    all: destruct k; unfold transferOwnership, renounceOwnership, _transferOwnership; simpl; auto with chain;
      unfold revoke, Vesting.load, Vesting.store; keep revoked_leaves.
  Qed.
End Revoked.

(** C34. A vesting schedule never pays more than it promises. Take any transactions of
    all contracts and a beneficiary other than the vesting contract itself, whose
    schedule, if it has one, is in its name and has paid at most its amount. The tokens
    the beneficiary's releases have brought to its balance, with what had been released
    before, are what the schedule records as released, and at most its amount. A
    release that returns moves exactly what has vested by then and was not yet released
    from the contract to the beneficiary and changes no other balance; what has vested
    only grows with time and never exceeds the amount. *)
Theorem vesting_never_overpays `{Hashing} c txs W v b :
  supply_ok c → b ≠ W → c_vestings c !! W = Some v → sound_schedule b (schedule_of v b) →
  let c' := apply_txs c txs in
  ∃ v', c_vestings c' !! W = Some v' ∧
    let s := schedule_of v' b in
    (Z.of_N (vs_releasedAmount (schedule_of v b)) + received W b c txs = Z.of_N (vs_releasedAmount s))%Z ∧
    vs_releasedAmount s ≤ vs_totalAmount s ∧
    (∀ e u c'', msg_sender e = b → release W e c' = (Ok u, c'') →
       let due := vested (block_timestamp e) s - vs_releasedAmount s in
       ∃ t t', c_tokens c' !! tv_token v' = Some t ∧ c_tokens c'' !! tv_token v' = Some t' ∧
         0 < due ∧ balanceOf t' b = balanceOf t b + due ∧ balanceOf t' W + due = balanceOf t W ∧
         ∀ x, x ≠ W → x ≠ b → balanceOf t' x = balanceOf t x) ∧
    (∀ t1 t2, t1 ≤ t2 → vested t1 s ≤ vested t2 s ≤ vs_totalAmount s).
Proof.
  intros Hok Hne Hv Hs c'.
  destruct (received_spec W b txs _ c Hok Hne (ex_intro _ v (conj Hv (conj Hs eq_refl)))) as (m & Hm & E).
  pose proof Hm as (v' & Hv' & [Hle _] & Hrel). exists v'. split; [done|]. cbv zeta. split_and!; [|done| |].
  - rewrite Hrel. lia.
  - intros e u c'' <- Hr. assert (supply_ok c') as Hok'.
    { apply (apply_txs_keeps _ (λ _ _, True)); [intros; apply supply_run_call|by apply Forall_true|done]. }
    destruct (release_pays W e u c' c'' m Hok' Hne Hm Hr) as (w & _ & t & t' & Hw & _ & Ht & Ht' & Hlt & _ & _ & Hb & HW & Hx & _).
    assert (w = v') as -> by (unfold c' in Hw; congruence). rewrite Hrel. exists t, t'.
    split_and!; [done|done|lia|done|done|done].
  - intros t1 t2 Ht. split; [by apply vested_mono|apply vested_le].
Qed.
Definition plan0 : chain :=
  with_c_vestings (λ _, {[ "W" := MkVesting "owner" false "T" ∅ [] ]}) demo0.
Definition plan1 : list (env * call) :=
  [(demo_env "owner" 1, CallVesting "W" (WCreate "dev" 0 (days 10) (days 100) (kyn 1000)));
   (demo_env "owner" 1, CallToken "T" (TTransfer "W" (kyn 1000)));
   (demo_env "dev" (days 40), CallVesting "W" WRelease)].
Definition plan0_vesting : TokenVesting := MkVesting "owner" false "T" ∅ [].
Lemma vesting_never_overpays_witness :
  received (H := demo_hashing) "W" "dev" plan0 plan1 = Z.of_N (kyn 400) ∧
  ∃ v', c_vestings (apply_txs (H := demo_hashing) plan0 plan1) !! "W" = Some v' ∧
    (0 + received (H := demo_hashing) "W" "dev" plan0 plan1 = Z.of_N (vs_releasedAmount (schedule_of v' "dev")))%Z ∧
    vs_releasedAmount (schedule_of v' "dev") ≤ vs_totalAmount (schedule_of v' "dev").
Proof.
  split; [by vm_compute|].
  destruct (vesting_never_overpays (H := demo_hashing) plan0 plan1 "W" plan0_vesting "dev") as (v' & Hv & Hr & Hle & _).
  - by apply map_Forall_singleton, token_created_ok.
  - done.
  - by vm_compute.
  - by vm_compute.
  - exists v'. split; [exact Hv|]. split; [exact Hr|exact Hle].
Defined.

(** Revoking takes everything not yet released, what has vested included: the owner
    gets the whole rest of the amount, and over any transactions of all contracts the
    beneficiary releases nothing any more. *)
Theorem revoke_takes_the_vested_rest `{Hashing} W e b u c c' v txs :
  supply_ok c → c_vestings c !! W = Some v → tv_owner v ≠ W →
  vs_releasedAmount (schedule_of v b) < vs_totalAmount (schedule_of v b) →
  revoke W e b c = (Ok u, c') →
  (∃ t t', c_tokens c !! tv_token v = Some t ∧ c_tokens c' !! tv_token v = Some t' ∧
     balanceOf t' (tv_owner v) =
       balanceOf t (tv_owner v) + (vs_totalAmount (schedule_of v b) - vs_releasedAmount (schedule_of v b))) ∧
  ∀ e' x, msg_sender e' = b → fst (release W e' (apply_txs c' txs)) ≠ Ok x.
Proof.
  intros Hok Hv Ho Hlt Hr. unfold revoke, Vesting.load in Hr.
  next Hr o c0 Hown. apply onlyOwner_returns in Hown as (o1 & _ & _ & ->).
  next Hr v1 c1 Hl. run_step Hl. simpl in Hl. assert (v1 = v) as -> by congruence. cbv zeta in Hr.
  next Hr z1 d1 H1. run_step H1. apply N.ltb_lt in H1. next Hr z2 d2 H2. run_step H2.
  next Hr z3 d3 H3. unfold set_schedule, Vesting.store in H3. run_step H3.
  next Hr z4 d4 H4. run_step H4. next Hr z5 d5 H5.
  rewrite (proj2 (N.ltb_lt 0 _)) in H5 by lia.
  assert (revoked_at W b (with_slot (alter (with_tv_vestingSchedules (λ m,
    <[b := with_vs_revoked (λ _, true) (at_ schedule0 m b)]> m)) W) c)) as Hrev.
  { eexists. simpl. rewrite lookup_alter_eq, Hv. split; [done|]. rewrite schedule_of_set, decide_True by done. by split. }
  next H5 ok d5' H6. pose proof H6 as H6'. apply transfer_returns in H6' as (t & Ht & Hn & _ & _ & _ & Et).
  assert (revoked_at W b d5') as Hrev5.
  { refine ((_ : keeps (revoked_at W b) _) _ _ _ Hrev H6). apply revoked_leaves. leave. }
  run_inv. split.
  - simpl in Ht, Et, Hn. exists t, (moved W (tv_owner v) (vs_totalAmount (schedule_of v b) - vs_releasedAmount (schedule_of v b)) t).
    simpl. rewrite Et, lookup_insert_eq. split_and!; [done..|].
    destruct (moved_spec t W (tv_owner v) _ (Hok _ _ Ht) Hn) as [_ Hx]. specialize (Hx (tv_owner v)).
    rewrite decide_False, decide_True in Hx by done. lia.
  - intros e' x He E. match type of E with context [apply_txs ?d txs] =>
      assert (revoked_at W b (apply_txs d txs)) as (w & Hw & Hrw & _) end.
    { apply (apply_txs_keeps _ (λ _ _, True)); [intros; apply revoked_call|by apply Forall_true|done]. }
    destruct (release W e' _) as [r c2] eqn:Hrun. simpl in E. subst r.
    apply release_returns in Hrun as (w1 & ? & Hw1 & _ & Hf & _). rewrite He in Hf. congruence.
Qed.
Definition plan2 : chain :=
  apply_txs (H := demo_hashing) plan0
    [(demo_env "owner" 1, CallVesting "W" (WCreate "dev" 0 (days 10) (days 100) (kyn 1000)));
     (demo_env "owner" 1, CallToken "T" (TTransfer "W" (kyn 1000)))].
Definition plan2_vesting : TokenVesting :=
  default (MkVesting "owner" false "T" ∅ []) (c_vestings plan2 !! "W").
Lemma revoke_takes_the_vested_rest_witness :
  let c' := snd (revoke "W" (demo_env "owner" (days 40)) "dev" plan2) in
  let s := schedule_of plan2_vesting "dev" in
  vested (days 40) s = kyn 400 ∧
  ∃ t t', c_tokens plan2 !! tv_token plan2_vesting = Some t ∧ c_tokens c' !! tv_token plan2_vesting = Some t' ∧
    balanceOf t' (tv_owner plan2_vesting) = balanceOf t (tv_owner plan2_vesting) +
      (vs_totalAmount s - vs_releasedAmount s).
Proof.
  cbv zeta. split; [by vm_compute|].
  destruct (revoke "W" (demo_env "owner" (days 40)) "dev" plan2) as [[[]|err] c'] eqn:Hr; [|by vm_compute in Hr].
  cbn [snd]. refine (proj1 (revoke_takes_the_vested_rest (H := demo_hashing) "W" (demo_env "owner" (days 40)) "dev"
    tt plan2 c' plan2_vesting [] _ _ _ _ Hr)).
  - apply (apply_txs_keeps (H := demo_hashing) supply_ok (λ _ _, True));
      [intros; apply supply_run_call|by apply Forall_true|by apply map_Forall_singleton, token_created_ok].
  - by vm_compute.
  - by vm_compute.
  - by vm_compute.
Defined.

(** * The accounts of the distributor *)

Definition earnings_ok (x : ProviderEarnings) : Prop :=
  er_totalEarned x = er_capacityRewards x + er_usageRewards x + er_proofBonuses x ∧
  er_totalWithdrawn x ≤ er_totalEarned x.
Definition accounts_ok (c : chain) : Prop :=
  map_Forall (λ _ d, ∀ p, earnings_ok (earnings_of d p)) (c_distributors c).

Lemma accounts_leaves A (m : M chain A) : leaves c_distributors m → keeps accounts_ok m.
Proof. intros Hm c a c' Hc Hr. unfold accounts_ok. by rewrite (Hm _ _ _ Hr). Qed.
Lemma accounts_store this (f : PaymentDistributor → PaymentDistributor) :
  (∀ d, pd_earnings (f d) = pd_earnings d) → keeps accounts_ok (sstore this f).
Proof.
  intros Hf c a c' Hc Hr. run_inv. unfold accounts_ok. simpl. intros k d Hk p.
  apply lookup_alter_Some in Hk as [(-> & d0 & Hd0 & ->)|[_ Hk]]; [|by eapply Hc].
  unfold earnings_of. rewrite Hf. by apply (Hc _ _ Hd0).
Qed.
Lemma earnings_of_set d p f x :
  earnings_of (with_pd_earnings (λ m, <[p := f (at_ earnings0 m p)]> m) d) x =
  if decide (x = p) then f (earnings_of d p) else earnings_of d x.
Proof.
  unfold earnings_of, at_. simpl. case_decide as Hq; [subst; by rewrite lookup_insert_eq|].
  by rewrite lookup_insert_ne.
Qed.

(** Two writes to one account: a kind of reward and the total, or what was
    withdrawn and when. *)
Lemma accounts_two this p (f g : ProviderEarnings → ProviderEarnings) c d :
  accounts_ok c → c_distributors c !! this = Some d → earnings_ok (g (f (earnings_of d p))) →
  accounts_ok (with_slot (alter (with_pd_earnings (λ m, <[p := g (at_ earnings0 m p)]> m)) this)
    (with_slot (alter (with_pd_earnings (λ m, <[p := f (at_ earnings0 m p)]> m)) this) c)).
Proof.
  intros Hc Hd Hok. unfold accounts_ok. simpl. rewrite alter_alter_eq. intros k x Hk q.
  apply lookup_alter_Some in Hk as [(-> & d0 & Hd0 & ->)|[_ Hk]]; [|by eapply Hc]. simplify_eq.
  cbn [compose]. rewrite !earnings_of_set. case_decide; [by rewrite decide_True|].
  by apply (Hc _ _ Hd).
Qed.

Lemma accounts_earn this get set p n :
  (∀ x, earnings_ok x → ∀ y, earnings_ok (with_er_totalEarned (λ _, er_totalEarned (set (λ _, get x + n) x) + y)
     (set (λ _, get x + y) x))) →
  keeps accounts_ok (earn this get set p n).
Proof.
  intros Hset c u c' Hc Hr. unfold earn, Distributor.load, set_earnings, Distributor.store in Hr.
  next Hr d c1 Hd. run_step Hd. next Hr x c2 Hx. run_step Hx. next Hr z c3 Hz. run_step Hz.
  next Hr d' c4 Hd'. run_step Hd'. next Hr y c5 Hy. run_step Hy. run_step Hr.
  simpl in Hd, Hd'. rewrite lookup_alter_eq, Hd in Hd'. simpl in Hd'. injection Hd' as <-.
  apply (accounts_two this p (set (λ _, get (earnings_of d p) + n)) _ c d Hc Hd).
  rewrite earnings_of_set, decide_True by done. apply Hset. by apply (Hc _ _ Hd).
Qed.
Lemma accounts_capacity this p n : keeps accounts_ok (earn_capacity this p n).
Proof. apply accounts_earn. unfold earnings_ok. simpl. lia. Qed.
Lemma accounts_usage this p n : keeps accounts_ok (earn_usage this p n).
Proof. apply accounts_earn. unfold earnings_ok. simpl. lia. Qed.
Lemma accounts_proof this p n : keeps accounts_ok (earn_proof this p n).
Proof. apply accounts_earn. unfold earnings_ok. simpl. lia. Qed.
#[local] Hint Resolve accounts_capacity accounts_usage accounts_proof : chain.
#[local] Hint Extern 3 (keeps accounts_ok (sstore _ _)) => (apply accounts_store; done) : chain.

Lemma accounts_withdraw this e : keeps accounts_ok (withdrawEarnings this e).
Proof.
  intros c u c' Hc Hr. apply nonReentrant_returns in Hr as (d & c1 & Hd & _ & Hr & ->). simpl in Hd.
  assert (accounts_ok (with_slot (alter (with_pd_entered (λ _, true)) this) c)) as Hc0.
  { by refine (accounts_store this (with_pd_entered (λ _, true)) _ c tt _ Hc eq_refl). }
  assert (accounts_ok c1) as Hc1; [|by refine (accounts_store this (with_pd_entered (λ _, false)) _ c1 tt _ Hc1 eq_refl)].
  unfold Distributor.load, set_earnings, Distributor.store in Hr. next Hr d1 d2 Hl. run_step Hl. cbv zeta in Hr.
  next Hr x1 k1 H1. run_step H1. next Hr x2 k2 H2. run_step H2. next Hr x3 k3 H3. run_step H3.
  next Hr x4 k4 H4. run_step H4. next Hr x5 k5 H5. run_step H5.
  match type of Hr with _ ?s = _ => assert (accounts_ok s) as Hs end.
  { apply (accounts_two this (msg_sender e) (with_er_totalWithdrawn (λ _, _)) (with_er_lastClaimTimestamp (λ _, _)) _ d1 Hc0 Hl).
    pose proof (Hc0 _ _ Hl (msg_sender e)) as [Ht Hw]. split; simpl; [done|lia]. }
  revert Hs Hr. apply (λ H : keeps _ _, H _ _ _). keep accounts_leaves.
Qed.
#[local] Hint Resolve accounts_withdraw : chain.

Lemma accounts_call `{Hashing} e k : keeps accounts_ok (run_call e k).
Proof.
  destruct k as [| | | |? k| | | |k ? ?|k ?]; simpl; try solve [apply accounts_leaves; eauto with chain].
  all: destruct k; unfold transferOwnership, renounceOwnership, _transferOwnership; simpl; auto with chain;
    unfold distributeCapacityRewards, distributeUsageRewards, payProofBonus, withdrawProtocolFees, useRepairReserve,
      updateRates, _getPledgeInfo, Distributor.guarded, nonReentrant, Distributor.load, Distributor.store;
    keep accounts_leaves.
Qed.

(** The accounts of the providers add up: over any transactions of all contracts,
    what a provider earned is the sum of its capacity rewards, usage rewards and proof
    bonuses, and it has not withdrawn more than that, so [getAvailableEarnings] never
    underflows. *)
Theorem accounts_add_up `{Hashing} c txs :
  accounts_ok c → ∀ D d p, c_distributors (apply_txs c txs) !! D = Some d →
  let x := earnings_of d p in
  er_totalEarned x = er_capacityRewards x + er_usageRewards x + er_proofBonuses x ∧
  er_totalWithdrawn x ≤ er_totalEarned x ∧
  getAvailableEarnings D p (apply_txs c txs) =
    (Ok (er_totalEarned x - er_totalWithdrawn x), apply_txs c txs).
Proof.
  intros Hc D d p Hd x. assert (accounts_ok (apply_txs c txs)) as Hok.
  { apply (apply_txs_keeps _ (λ _ _, True)); [intros; apply accounts_call|by apply Forall_true|done]. }
  destruct (Hok _ _ Hd p) as [Ht Hw]. split_and!; [done|done|].
  unfold getAvailableEarnings. rewrite (bind_ok _ _ (apply_txs c txs) d (apply_txs c txs)) by (by apply sload_run).
  by apply sub_run.
Qed.
Definition payday : list (env * call) :=
  [(demo_env "p3" 1, CallRegistry "R" (RRegister "peer" "https://p" "EU" 1));
   (demo_env "owner" 1, CallToken "T" (TAuthorizeMinter "D"));
   (demo_env "owner" 2, CallDistributor "D" (DProofBonus "p3"));
   (demo_env "p3" 3, CallDistributor "D" DWithdraw);
   (demo_env "owner" 4, CallDistributor "D" (DProofBonus "p3"))].
Definition payroll0 : chain :=
  with_c_distributors (λ _, {[ "D" := distributor_created (demo_env "owner" 0) "T" "K" "P" "R" ]}) demo0.
Definition payroll1 : PaymentDistributor :=
  default (distributor_created (demo_env "owner" 0) "T" "K" "P" "R")
    (c_distributors (apply_txs (H := demo_hashing) payroll0 payday) !! "D").
Lemma accounts_add_up_witness :
  er_totalWithdrawn (earnings_of payroll1 "p3") = 10 ^ 17 ∧
  er_totalEarned (earnings_of payroll1 "p3") = er_capacityRewards (earnings_of payroll1 "p3") +
    er_usageRewards (earnings_of payroll1 "p3") + er_proofBonuses (earnings_of payroll1 "p3").
Proof.
  split; [by vm_compute|].
  apply (accounts_add_up (H := demo_hashing) payroll0 payday) with (D := "D"); [|by vm_compute].
  apply map_Forall_singleton. intros p. by vm_compute.
Defined.
