(* ===== verification/Deploy.v ===== *)
(** The scripts that deploy and configure the contracts (smart-contracts/scripts/) and
    the key selection of hardhat.config.js, run against the contracts themselves.

    A session is the chain, the nonces of the accounts, the files the scripts write and
    the console.  Ethers and Hardhat are parameters: the address a deployment gets,
    the block of a transaction, wallets, units and the environment.  A deployment with
    a number of arguments that is not the constructor's throws, as ethers documents.
    The progress messages of the deployment scripts are left out. *)

From S2P Require Import Prelude JsNum JsFormat World Auth Contracts ChainRules Token Registry Pool Market Distributor Slashing Verifier Vesting Protocol.

Local Open Scope N_scope.

(** * hardhat.config.js *)

Definition is_hex (c : Ascii.ascii) : bool :=
  let n := Ascii.N_of_ascii c in
  ((48 <=? n) && (n <=? 57)) || ((65 <=? n) && (n <=? 70)) || ((97 <=? n) && (n <=? 102)).
Definition hex64 (s : string) : bool := (String.length s =? 64)%nat && forallb is_hex (String.list_ascii_of_string s).
(** [/^0x?[0-9a-fA-F]{64}$/.test(s)] *)
Definition key_pattern (s : string) : bool :=
  match s with
  | String c rest =>
      (Ascii.N_of_ascii c =? 48) &&
      (hex64 rest || match rest with String x rest' => (Ascii.N_of_ascii x =? 120) && hex64 rest' | _ => false end)
  | _ => false
  end.
Definition HARDHAT_KEY : string := "0xac0974bec39a17e36ba4a6b4d238ff944bacb478cbed5efcae784d7bf4f2ff80".
Definition getPrivateKey (pk : option string) : string :=
  match pk with
  | Some pk => if negb (bool_decide (pk = "")) && key_pattern pk
               then if String.prefix "0x" pk then pk else "0x" +:+ pk
               else HARDHAT_KEY
  | None => HARDHAT_KEY
  end.

(** * Sessions *)

Record session : Type := Session {
  ss_chain : chain;
  ss_sent : N;                        (* transactions mined in this session *)
  ss_nonces : gmap address N;
  ss_files : gmap string json;
  ss_out : list string;               (* console, oldest first *)
  ss_exit : option Z                  (* process.exit *)
}.

Class Host : Type := {
  create_address : address → N → address;      (* of the contract an account creates *)
  signers : list address;                      (* hre.ethers.getSigners() *)
  network_name : string;
  network_chainId : Z;
  block_at : N → N * N;                        (* time and parent hash of the n-th transaction *)
  iso_now : string;                            (* new Date().toISOString() *)
  getenv : string → option string;
  argv2 : option string;
  wallet_of : string → outcome address;        (* new ethers.Wallet(key).address *)
  pol_balance : address → outcome N;           (* provider.getBalance *)
  format18 : N → string;                       (* formatUnits(x, 18), formatEther(x) *)
  parse18 : string → outcome N                 (* parseUnits(s, 18) *)
}.

(** An address the sources write with this checksum case. *)
Definition KYN_TOKEN_ADDRESS : address := "0xC33eA878fC9819Fa2d60fD60EF6A89EbA871930A".
Definition CAPACITY_PLEDGE_ADDRESS : address := "0x16Af84FA7117152a48F49d2eACab961cbae0818b".
Definition MARKETPLACE_ADDRESS : address := "0xc19c805eAfeAe35839D4b27113ec2ca91E8dCa61".
Definition REGISTRY_ADDRESS : address := "0xad47e6E5cc48526aF2cA26E0BE40c5fE0B4a8027".

Section Scripts.
  Context `{Hashing} `{Host}.

Definition say (line : string) : M session unit :=
  modify (λ s, Session (ss_chain s) (ss_sent s) (ss_nonces s) (ss_files s) (ss_out s ++ [line]) (ss_exit s)).
Definition exit_with (code : Z) : M session unit :=
  modify (λ s, Session (ss_chain s) (ss_sent s) (ss_nonces s) (ss_files s) (ss_out s) (Some code)).
Definition writeFileSync (path : string) (j : json) : M session unit :=
  modify (λ s, Session (ss_chain s) (ss_sent s) (ss_nonces s) (<[path := j]> (ss_files s)) (ss_out s) (ss_exit s)).
Definition readJson (path : string) : M session json :=
  fs ← gets ss_files;
  match fs !! path with Some j => mret j | None => throw (Error ("ENOENT: " +:+ path)) end.
Definition lift {A} (r : outcome A) : M session A := λ s, (r, s).

Definition env_of (from : address) (s : session) : env :=
  Env from (fst (block_at (ss_sent s))) (Z.to_N network_chainId) (snd (block_at (ss_sent s))).
Definition mined (from : address) (c : chain) (s : session) : session :=
  Session c (ss_sent s + 1) (<[from := at_ 0 (ss_nonces s) from + 1]> (ss_nonces s))
    (ss_files s) (ss_out s) (ss_exit s).

(** [await contract.connect(from).method(...)] *)
Definition send (from : address) (k : call) : M session unit := λ s,
  match transact (run_call (env_of from s) k) (ss_chain s) with
  | (Ok _, c') => (Ok tt, mined from c' s)
  | (Throw err, _) => (Throw err, s)
  end.

(** What a constructor puts on the chain; [None] when the arguments are not its. *)
Definition construct (k : kind) (args : list address) (e : env) (a : address) (c : chain) : option chain :=
  match k, args with
  | KToken, [] => Some (with_c_tokens (insert a (token_created e)) c)
  | KRegistry, [] => Some (with_c_registries (insert a (registry_created e)) c)
  | KPool, [t] => Some (with_c_pools (insert a (pool_created e t)) c)
  | KVerifier, [] => Some (with_c_verifiers (insert a (verifier_created e)) c)
  | KSlashing, [t; r] => Some (with_c_slashers (insert a (slashing_created e t r)) c)
  | KMarket, [t; r; p; tr] => Some (with_c_markets (insert a (market_created e t r p tr)) c)
  | KDistributor, [t; m; p; r] => Some (with_c_distributors (insert a (distributor_created e t m p r)) c)
  | KVesting, [t] => (λ v, with_c_vestings (insert a v) c) <$> vesting_created e t
  | _, _ => None
  end.
(** [await Factory.deploy(...); await waitForDeployment(); await getAddress()] *)
Definition deploy (from : address) (k : kind) (args : list address) : M session address := λ s,
  let a := create_address from (at_ 0 (ss_nonces s) from) in
  match construct k args (env_of from s) a (ss_chain s) with
  | Some c' => (Ok a, mined from c' s)
  | None => (Throw (Error "incorrect number of arguments to constructor"), s)
  end.

(** The file of addresses. *)
Definition addresses_json (network : string) (chainId : Z) (deployer token registry pledges prover slashing
    marketplace payments : address) (rest : list (string * json)) : json :=
  JObj ([("network", JStr network); ("chainId", JInt chainId); ("deployer", JStr deployer);
    ("contracts", JObj [("token", JStr token); ("registry", JStr registry); ("pledges", JStr pledges);
       ("prover", JStr prover); ("slashing", JStr slashing); ("marketplace", JStr marketplace);
       ("payments", JStr payments)])] ++ rest).

(** [const [deployer] = await getSigners()]: without an account [deployer.address] throws. *)
Definition the_deployer : M session address :=
  match signers with d :: _ => mret d | [] => throw (Error "Cannot read properties of undefined") end.

(** Steps 1 to 5 of every deployment. *)
Definition deploy_base (deployer : address) : M session (address * address * address * address * address) :=
  token ← deploy deployer KToken [];
  registry ← deploy deployer KRegistry [];
  pledges ← deploy deployer KPool [token];
  prover ← deploy deployer KVerifier [];
  slashing ← deploy deployer KSlashing [token; registry];
  mret (token, registry, pledges, prover, slashing).

(** ** deploy.js *)
Definition deploy_js : M session unit :=
  deployer ← the_deployer;
  '(token, registry, pledges, prover, slashing) ← deploy_base deployer;
  marketplace ← deploy deployer KMarket [token; registry; pledges];
  payments ← deploy deployer KDistributor [token; marketplace; pledges; registry];
  send deployer (CallToken token (TAuthorizeMinter payments)) ;;
  send deployer (CallToken token (TAuthorizeMinter slashing)) ;;
  writeFileSync ("./deployed-addresses-" +:+ network_name +:+ ".json")
    (addresses_json network_name network_chainId deployer token registry pledges prover slashing marketplace
       payments [("deployedAt", JStr iso_now)]).

(** ** deploy-amoy.js *)
Definition deploy_amoy : M session unit :=
  deployer ← the_deployer;
  '(token, registry, pledges, prover, slashing) ← deploy_base deployer;
  marketplace ← deploy deployer KMarket [token; registry; pledges; deployer];
  payments ← deploy deployer KDistributor [token; marketplace; pledges; registry];
  send deployer (CallToken token (TAuthorizeMinter payments)) ;;
  send deployer (CallToken token (TAuthorizeMinter slashing)) ;;
  writeFileSync ("./deployed-addresses-" +:+ network_name +:+ ".json")
    (addresses_json network_name network_chainId deployer token registry pledges prover slashing marketplace
       payments [("deployedAt", JStr iso_now)]).

(** ** deploy-v2.js *)
Definition deploy_v2 : M session unit :=
  deployer ← the_deployer;
  '(token, registry, pledges, prover, slashing) ← deploy_base deployer;
  marketplace ← deploy deployer KMarket [token; registry; pledges; deployer];
  payments ← deploy deployer KDistributor [token; marketplace; pledges; registry];
  send deployer (CallMarket marketplace (MSetPaymentDistributor payments)) ;;
  send deployer (CallToken token (TAuthorizeMinter payments)) ;;
  send deployer (CallToken token (TAuthorizeBurner slashing)) ;;
  send deployer (CallRegistry registry (RAuthorizeKeeper slashing)) ;;
  send deployer (CallRegistry registry (RAuthorizeKeeper marketplace)) ;;
  writeFileSync ("./deployed-addresses-v2-" +:+ network_name +:+ ".json")
    (addresses_json network_name network_chainId deployer token registry pledges prover slashing marketplace
       payments [("deployedAt", JStr iso_now); ("version", JStr "2.0.0-renewals")]).

(** ** deploy-local.js *)

Definition ether (n : N) : N := n * 10 ^ 18.

(** Provider [i] registers and pledges. *)
Definition seed_provider (token registry pledges : address) (i : nat) (p : address) : M session unit :=
  let n := show_Z (Z.of_nat i) in
  send p (CallRegistry registry (RRegister ("12D3KooWTestProvider" +:+ n +:+ "PeerId")
    ("https://provider" +:+ n +:+ ".local") (if Nat.even i then "US-East" else "EU-West") 1)) ;;
  send p (CallToken token (TApprove pledges (ether 5000))) ;;
  send p (CallPool pledges (PCreate (500 + N.of_nat i * 10) (30 * 24 * 60 * 60) (ether 5000))).

Definition deploy_local : M session unit :=
  match signers with
  | deployer :: client :: others =>
      let providers := take 15 others in
      '(token, registry, pledges, prover, slashing) ← deploy_base deployer;
      marketplace ← deploy deployer KMarket [token; registry; pledges; deployer];
      payments ← deploy deployer KDistributor [token; marketplace; pledges; registry];
      send deployer (CallMarket marketplace (MSetPaymentDistributor payments)) ;;
      send deployer (CallToken token (TAuthorizeMinter payments)) ;;
      send deployer (CallToken token (TAuthorizeBurner slashing)) ;;
      send deployer (CallRegistry registry (RAuthorizeKeeper slashing)) ;;
      send deployer (CallRegistry registry (RAuthorizeKeeper marketplace)) ;;
      send deployer (CallToken token (TTransfer client (ether 100000))) ;;
      for_each providers (λ p, send deployer (CallToken token (TTransfer p (ether 100000)))) ;;
      for_each (zip (seq 0 (length providers)) providers)
        (λ ip, seed_provider token registry pledges (fst ip) (snd ip)) ;;
      let shardCIDs := map (λ i, "QmShardCID" +:+ show_Z (Z.of_nat i)) (seq 0 15) in
      send client (CallToken token (TApprove marketplace (ether 100))) ;;
      send client (CallMarket marketplace (MCreateDeal
        (MkParams "QmTestFileCID" 1 30 5000 providers shardCIDs (replicate 15 68) 7))) ;;
      writeFileSync "./deployed-addresses-local.json"
        (addresses_json "hardhat" 31337 deployer token registry pledges prover slashing marketplace payments
           [("testAccounts", JObj [("client", JStr client); ("providers", json_strs providers)])])
  | _ => throw (Error "Cannot read properties of undefined")
  end.

(** ** upgrade-marketplace.js *)

Definition object_field (j : json) (k : string) : option json :=
  match j with JObj fields => get_field k fields | _ => None end.
(** A field used as an address. *)
Definition address_field (j : json) (k : string) : M session address :=
  match object_field j k with
  | Some (JStr a) => mret a
  | _ => throw (Error "invalid address")
  end.
Definition set_object (k : string) (v j : json) : json :=
  match j with JObj fields => JObj (set_field k v fields) | _ => j end.

Definition upgrade_marketplace : M session unit :=
  deployer ← the_deployer;
  existing ← readJson "./deployed-addresses-v2-amoy.json";
  contracts ← match object_field existing "contracts" with
              | Some cs => mret cs
              | None => throw (Error "Cannot read properties of undefined")
              end;
  token ← address_field contracts "token";
  registry ← address_field contracts "registry";
  pledges ← address_field contracts "pledges";
  marketplace ← deploy deployer KMarket [token; registry; pledges; deployer];
  writeFileSync "./deployed-addresses-v2-amoy.json"
    (set_object "version" (JStr "2.1.0-delete-propagation")
      (set_object "deployedAt" (JStr iso_now)
        (set_object "contracts" (set_object "marketplace" (JStr marketplace) contracts) existing))).

(** * Wallet tools *)

(** A variable that is set and not empty. *)
Definition envvar (name : string) : option string :=
  match getenv name with Some s => if bool_decide (s = "") then None else Some s | None => None end.
(** [await contract.view(...)]: where no contract lives, ethers throws. *)
Definition view_token {A} (f : StorageToken → A) : M session A :=
  c ← gets ss_chain;
  match c_tokens c !! KYN_TOKEN_ADDRESS with
  | Some t => mret (f t)
  | None => throw (Error "could not decode result data")
  end.
(** [main().catch(console.error)] *)
Definition run_main (m : M session unit) : M session unit :=
  try_catch m (λ err, say (err_message err)).

(** ** approve-tokens.js *)
Definition approve_tokens : M session unit :=
  run_main (
    match envvar "PRIVATE_KEY" with
    | None => say "Error: PRIVATE_KEY not found in .env file" ;; exit_with 1
    | Some key =>
        wallet ← lift (wallet_of key);
        say ("Approving KYN token allowances for wallet: " +:+ wallet) ;;
        MAX_APPROVAL ← lift (parse18 "1000000000");
        try_catch (
          send wallet (CallToken KYN_TOKEN_ADDRESS (TApprove CAPACITY_PLEDGE_ADDRESS MAX_APPROVAL)) ;;
          say "CapacityPledge approved!" ;;
          send wallet (CallToken KYN_TOKEN_ADDRESS (TApprove MARKETPLACE_ADDRESS MAX_APPROVAL)) ;;
          say "Marketplace approved!" ;;
          say "All approvals complete! You can now stake and create deals.")
          (λ err, say ("Approval failed: " +:+ err_message err))
    end).

(** ** check-wallet.js *)
Definition check_wallet : M session unit :=
  run_main (
    match (match envvar "WALLET_ADDRESS" with
           | Some w => Some w
           | None => match argv2 with Some w => if bool_decide (w = "") then None else Some w | None => None end
           end) with
    | None => say "Usage: node scripts/check-wallet.js <YOUR_WALLET_ADDRESS>" ;; exit_with 1
    | Some w =>
        say ("Checking wallet: " +:+ w) ;;
        pol ← lift (pol_balance w);
        say ("POL Balance: " +:+ format18 pol +:+ " POL") ;;
        limit ← lift (parse18 "0.1");
        (if pol <? limit then say "WARNING: Low POL balance! You need POL for gas fees." else mret tt) ;;
        kyn ← view_token (λ t, balanceOf t w);
        say ("KYN Balance: " +:+ format18 kyn +:+ " KYN") ;;
        (if kyn =? 0 then say "WARNING: No KYN tokens! You need KYN to stake or create deals." else mret tt) ;;
        pledge ← view_token (λ t, allowance t w CAPACITY_PLEDGE_ADDRESS);
        market ← view_token (λ t, allowance t w MARKETPLACE_ADDRESS);
        say ("CapacityPledge: " +:+ format18 pledge +:+ " KYN") ;;
        say ("Marketplace: " +:+ format18 market +:+ " KYN") ;;
        (if pledge =? 0 then say "NOTE: No approval for CapacityPledge (needed for staking)" else mret tt) ;;
        (if market =? 0 then say "NOTE: No approval for Marketplace (needed for deals)" else mret tt) ;;
        say "Diagnosis complete!"
    end).

(** ** check-registration.js *)

(** [console.log("...", flag)] *)
Definition show_bool (b : bool) : string := if b then "true" else "false".
Definition check_registration : M session unit :=
  run_main (
    match (match envvar "WALLET_ADDRESS" with
           | Some w => Some w
           | None => match argv2 with Some w => if bool_decide (w = "") then None else Some w | None => None end
           end) with
    | None => say "Usage: node scripts/check-registration.js <YOUR_WALLET_ADDRESS>" ;; exit_with 1
    | Some w =>
        say ("Checking registration status for: " +:+ w) ;;
        try_catch (
          c ← gets ss_chain;
          match c_registries c !! REGISTRY_ADDRESS with
          | None => throw (Error "could not decode result data")
          | Some r =>
              let data := provider_of r w in
              say ("Registered: " +:+ show_bool (pr_registered data)) ;;
              say ("Active: " +:+ show_bool (isProviderActive r w)) ;;
              say ("Total Capacity: " +:+ show_Z (Z.of_N (pr_registrationTime data)) +:+ " GB") ;;
              say ("Available Capacity: " +:+ show_Z (Z.of_N (pr_totalCapacityGB data)) +:+ " GB") ;;
              say ("Peer ID: " +:+ pr_peerId data) ;;
              say ("Endpoint: " +:+ pr_endpoint data) ;;
              say ("Region: " +:+ pr_region data) ;;
              if pr_registered data then say "THIS WALLET IS ALREADY REGISTERED!"
              else say "This wallet is NOT registered. You can proceed with registration."
          end)
          (λ err, say ("Error checking registration: " +:+ err_message err))
    end).

(** ** debug-wallet.js *)
Definition debug_wallet : M session unit :=
  run_main (
    match envvar "PRIVATE_KEY" with
    | None => say "Error: PRIVATE_KEY not found." ;; exit_with 1
    | Some key =>
        wallet ← lift (wallet_of key);
        say ("Wallet Address: " +:+ wallet) ;;
        pol ← lift (pol_balance wallet);
        say ("POL Balance: " +:+ format18 pol) ;;
        kyn ← view_token (λ t, balanceOf t wallet);
        say ("KYN Balance: " +:+ format18 kyn)
    end).

(** ** faucet.js *)
Definition faucet : M session unit :=
  run_main (
    match envvar "TARGET_ADDRESS", envvar "PRIVATE_KEY" with
    | None, _ => say "Error: TARGET_ADDRESS environment variable is required." ;; exit_with 1
    | Some _, None =>
        say "Error: PRIVATE_KEY environment variable is required (check your .env file)." ;; exit_with 1
    | Some target, Some key =>
        let amount := default "10000" (envvar "AMOUNT") in
        say ("Sending " +:+ amount +:+ " KYN to " +:+ target +:+ " on Amoy...") ;;
        wallet ← lift (wallet_of key);
        try_catch (
          balance ← view_token (λ t, balanceOf t wallet);
          say ("Deployer Balance: " +:+ format18 balance +:+ " KYN") ;;
          amountWei ← lift (parse18 amount);
          if balance <? amountWei then
            say "Error: Insufficient balance in deployer account." ;; exit_with 1
          else
            send wallet (CallToken KYN_TOKEN_ADDRESS (TTransfer target amountWei)) ;;
            say ("Successfully sent " +:+ amount +:+ " KYN to " +:+ target))
          (λ err, say ("Transfer failed: " +:+ err_message err))
    end).
End Scripts.
