(* ===== verification/Wiring.v ===== *)
(** What the deployment scripts leave behind: which script completes, who may mint,
    burn and keep records afterwards, and which functions can never return until
    somebody changes that. *)

From S2P Require Import Prelude JsNum JsFormat World Contracts ChainRules Token Registry Pool Market Distributor Slashing Verifier Vesting Protocol Collateral Escrow Deals Lifecycle Deploy.

Local Open Scope N_scope.

(** * Running the scripts *)

Lemma bind_at {S A B} (m : M S A) (k : A → M S B) s a s' r :
  m s = (Ok a, s') → k a s' = r → (m ≫= k) s = r.
Proof. intros Hm <-. by apply bind_ok. Qed.
Lemma onlyOwner_run T `{Contract T} `{Ownable T} this e t c :
  slot c !! this = Some t → owner t = msg_sender e → onlyOwner T this e c = (Ok tt, c).
Proof.
  intros Ht Ho. unfold onlyOwner. eapply bind_at; [by apply sload_run|]. by rewrite Ho, bool_decide_eq_true_2.
Qed.

Section Sends.
  Context `{Hashing} `{Host}.

Lemma send_ok from k s u c' :
    run_call (env_of from s) k (ss_chain s) = (Ok u, c') → send from k s = (Ok tt, mined from c' s).
Proof. intros Hr. unfold send. by rewrite (transact_returns _ _ _ _ Hr). Qed.

Lemma send_minter from T t x s :
    c_tokens (ss_chain s) !! T = Some t → tk_owner t = from →
    send from (CallToken T (TAuthorizeMinter x)) s =
      (Ok tt, mined from (with_c_logs (λ l, l ++ [MinterAuthorized x])
        (with_c_tokens (alter (with_tk_minters (insert x true)) T) (ss_chain s))) s).
Proof.
    intros Ht Ho. apply send_ok with (u := tt). simpl. unfold authorizeMinter.
    eapply bind_at; [by eapply (onlyOwner_run StorageToken)|]. reflexivity.
  Qed.
Lemma send_burner from T t x s :
    c_tokens (ss_chain s) !! T = Some t → tk_owner t = from →
    send from (CallToken T (TAuthorizeBurner x)) s =
      (Ok tt, mined from (with_c_logs (λ l, l ++ [BurnerAuthorized x])
        (with_c_tokens (alter (with_tk_burners (insert x true)) T) (ss_chain s))) s).
Proof.
    intros Ht Ho. apply send_ok with (u := tt). simpl. unfold authorizeBurner.
    eapply bind_at; [by eapply (onlyOwner_run StorageToken)|]. reflexivity.
  Qed.
Lemma send_keeper from R r x s :
    c_registries (ss_chain s) !! R = Some r → rg_owner r = from →
    send from (CallRegistry R (RAuthorizeKeeper x)) s =
      (Ok tt, mined from (with_c_registries (alter (with_rg_keepers (insert x true)) R) (ss_chain s)) s).
Proof.
    intros Hr Ho. apply send_ok with (u := tt). simpl. unfold authorizeRecordKeeper.
    eapply bind_at; [by eapply (onlyOwner_run ProviderRegistry)|]. reflexivity.
  Qed.
Lemma send_distributor from K m x s :
    c_markets (ss_chain s) !! K = Some m → mk_owner m = from → mk_paymentDistributor m = address0 →
    x ≠ address0 →
    send from (CallMarket K (MSetPaymentDistributor x)) s =
      (Ok tt, mined from (with_c_logs (λ l, l ++ [PaymentDistributorUpdated x])
        (with_c_markets (alter (with_mk_paymentDistributor (λ _, x)) K) (ss_chain s))) s).
Proof.
    intros Hm Ho Hp Hx. apply send_ok with (u := tt). simpl. unfold setPaymentDistributor.
    eapply bind_at; [by eapply (onlyOwner_run StorageMarketplace)|].
    eapply bind_at; [by eapply (sload_run (T := StorageMarketplace))|].
    rewrite Hp, !bool_decide_eq_true_2 by done. reflexivity.
  Qed.
End Sends.

(** ** What a deployment has built *)

Record contracts : Type := Contracts {
  k_token : address; k_registry : address; k_pledges : address; k_prover : address;
  k_slashing : address; k_market : address; k_payments : address }.

(** The seven contracts point at each other and belong to the deployer; [minters],
    [burners] and [keepers] have the roles, [paid] is where the market sends payments. *)
Definition built (d : address) (a : contracts) (minters burners keepers : gmap address bool) (paid : address)
    (c : chain) : Prop :=
  (∃ t, c_tokens c !! k_token a = Some t ∧ tk_owner t = d ∧ tk_minters t = minters ∧ tk_burners t = burners ∧
     balanceOf t d = INITIAL_SUPPLY) ∧
  (∃ r, c_registries c !! k_registry a = Some r ∧ rg_owner r = d ∧ rg_keepers r = keepers ∧ rg_providerList r = []) ∧
  (∃ p, c_pools c !! k_pledges a = Some p ∧ cp_owner p = d ∧ cp_token p = k_token a) ∧
  (∃ v, c_verifiers c !! k_prover a = Some v ∧ pv_owner v = d) ∧
  (∃ s, c_slashers c !! k_slashing a = Some s ∧ sm_owner s = d ∧ sm_token s = k_token a ∧ sm_registry s = k_registry a) ∧
  (∃ m, c_markets c !! k_market a = Some m ∧ mk_owner m = d ∧ mk_token m = k_token a ∧
     mk_registry m = k_registry a ∧ mk_treasury m = d ∧ mk_paymentDistributor m = paid ∧ mk_dealCount m = 0) ∧
  (∃ p, c_distributors c !! k_payments a = Some p ∧ pd_owner p = d ∧ pd_token p = k_token a ∧
     pd_marketplace p = k_market a ∧ pd_registry p = k_registry a).
Definition saved (d : address) (a : contracts) `{Host} (rest : list (string * json)) : json :=
  addresses_json network_name network_chainId d (k_token a) (k_registry a) (k_pledges a) (k_prover a)
    (k_slashing a) (k_market a) (k_payments a) rest.

Ltac on_chain := simpl; rewrite ?lookup_alter_eq, ?lookup_insert_eq; simpl; reflexivity.

Section Results.
  Context `{Hashing} `{Host}.

Lemma built_minter d a mi bu ke paid x s :
    built d a mi bu ke paid (ss_chain s) →
    ∃ s', send d (CallToken (k_token a) (TAuthorizeMinter x)) s = (Ok tt, s') ∧
      built d a (<[x := true]> mi) bu ke paid (ss_chain s') ∧ ss_files s' = ss_files s.
Proof.
    intros ((t & Ht & Ho & Hm & Hb & Hs) & Hrest). eexists. split; [by apply (send_minter d _ t)|].
    split; [|done]. split; [|done]. simpl. rewrite lookup_alter_eq, Ht. eexists. split; [done|]. simpl. by rewrite Hm.
  Qed.
Lemma built_burner d a mi bu ke paid x s :
    built d a mi bu ke paid (ss_chain s) →
    ∃ s', send d (CallToken (k_token a) (TAuthorizeBurner x)) s = (Ok tt, s') ∧
      built d a mi (<[x := true]> bu) ke paid (ss_chain s') ∧ ss_files s' = ss_files s.
Proof.
    intros ((t & Ht & Ho & Hm & Hb & Hs) & Hrest). eexists. split; [by apply (send_burner d _ t)|].
    split; [|done]. split; [|done]. simpl. rewrite lookup_alter_eq, Ht. eexists. split; [done|]. simpl. by rewrite Hb.
  Qed.
Lemma built_keeper d a mi bu ke paid x s :
    built d a mi bu ke paid (ss_chain s) →
    ∃ s', send d (CallRegistry (k_registry a) (RAuthorizeKeeper x)) s = (Ok tt, s') ∧
      built d a mi bu (<[x := true]> ke) paid (ss_chain s') ∧ ss_files s' = ss_files s.
Proof.
    intros (Htok & (r & Hr & Ho & Hk & Hl) & Hrest). eexists. split; [by apply (send_keeper d _ r)|].
    split; [|done]. split; [done|]. split; [|done]. simpl. rewrite lookup_alter_eq, Hr. eexists. split; [done|].
    simpl. by rewrite Hk.
  Qed.
Lemma built_paid d a mi bu ke x s :
    built d a mi bu ke address0 (ss_chain s) → x ≠ address0 →
    ∃ s', send d (CallMarket (k_market a) (MSetPaymentDistributor x)) s = (Ok tt, s') ∧
      built d a mi bu ke x (ss_chain s') ∧ ss_files s' = ss_files s.
Proof.
    intros (H1 & H2 & H3 & H4 & H5 & (m & Hm & Ho & Ht & Hr & Htr & Hp & Hc) & H7) Hx.
    eexists. split; [by apply (send_distributor d _ m)|].
    split; [|done]. unfold built. split_and!; try done. simpl. rewrite lookup_alter_eq, Hm. eexists. split; [done|].
    by split_and!.
  Qed.

(** The five contracts every deployment starts with. *)
Lemma base_runs d s :
    ∃ s' t r p v sl, deploy_base d s = (Ok (t, r, p, v, sl), s') ∧ ss_files s' = ss_files s ∧
      (∃ e, msg_sender e = d ∧ c_tokens (ss_chain s') !! t = Some (token_created e)) ∧
      (∃ e, msg_sender e = d ∧ c_registries (ss_chain s') !! r = Some (registry_created e)) ∧
      (∃ e, msg_sender e = d ∧ c_pools (ss_chain s') !! p = Some (pool_created e t)) ∧
      (∃ e, msg_sender e = d ∧ c_verifiers (ss_chain s') !! v = Some (verifier_created e)) ∧
      (∃ e, msg_sender e = d ∧ c_slashers (ss_chain s') !! sl = Some (slashing_created e t r)) ∧
      c_markets (ss_chain s') = c_markets (ss_chain s) ∧ c_distributors (ss_chain s') = c_distributors (ss_chain s) ∧
      sl = create_address d (at_ 0 (ss_nonces s) d + 4) ∧ at_ 0 (ss_nonces s') d = at_ 0 (ss_nonces s) d + 5.
Proof.
    assert (∀ m x, at_ 0 (<[d := x]> m) d = x) as Hat by (intros; unfold at_; by rewrite lookup_insert_eq).
    eexists _, _, _, _, _, _. split.
    - unfold deploy_base. do 5 (eapply bind_at; [reflexivity|]). reflexivity.
    - split_and!; try reflexivity; simpl; rewrite ?Hat; [..|f_equal; lia|lia];
        (eexists; split; [|rewrite ?lookup_insert_eq; reflexivity]); reflexivity.
  Qed.

(** Steps 6 and 7 with the four arguments of the constructor. *)
Lemma base_market_runs d s :
    ∃ s1 s2 s3 a,
      deploy_base d s = (Ok (k_token a, k_registry a, k_pledges a, k_prover a, k_slashing a), s1) ∧
      deploy d KMarket [k_token a; k_registry a; k_pledges a; d] s1 = (Ok (k_market a), s2) ∧
      deploy d KDistributor [k_token a; k_market a; k_pledges a; k_registry a] s2 = (Ok (k_payments a), s3) ∧
      built d a ∅ ∅ ∅ address0 (ss_chain s3) ∧ ss_files s3 = ss_files s ∧
      k_slashing a = create_address d (at_ 0 (ss_nonces s) d + 4) ∧
      k_payments a = create_address d (at_ 0 (ss_nonces s) d + 6).
Proof.
    destruct (base_runs d s) as (s1 & t & r & p & v & sl & E & Ef & (e1 & D1 & H1) & (e2 & D2 & H2) & (e3 & D3 & H3) &
      (e4 & D4 & H4) & (e5 & D5 & H5) & _ & _ & Hsl & Hn).
    assert (∀ m x, at_ 0 (<[d := x]> m) d = x) as Hat by (intros; unfold at_; by rewrite lookup_insert_eq).
    set (m := create_address d (at_ 0 (ss_nonces s1) d)). set (s2 := snd (deploy d KMarket [t; r; p; d] s1)).
    set (pay := create_address d (at_ 0 (ss_nonces s2) d)). set (s3 := snd (deploy d KDistributor [t; m; p; r] s2)).
    exists s1, s2, s3, (Contracts t r p v sl m pay). split; [exact E|]. split; [reflexivity|]. split; [reflexivity|].
    unfold built; cbn [k_token k_registry k_pledges k_prover k_slashing k_market k_payments]. split_and!.
    - eexists. split_and!; [exact H1|done..|]. unfold balanceOf, at_. simpl. by rewrite D1, lookup_singleton_eq.
    - eexists. split_and!; [exact H2|done..].
    - eexists. split_and!; [exact H3|done..].
    - eexists. split_and!; [exact H4|done..].
    - eexists. split_and!; [exact H5|done..].
    - eexists. simpl. rewrite lookup_insert_eq. by split_and!.
    - eexists. simpl. rewrite lookup_insert_eq. by split_and!.
    - done.
    - done.
    - unfold pay, s2. simpl. rewrite Hat, Hn. f_equal. lia.
  Qed.

Lemma v2_runs d rest s :
    signers = d :: rest → (∀ n, create_address d n ≠ address0) →
    ∃ s' a, deploy_v2 s = (Ok tt, s') ∧
      built d a {[ k_payments a := true ]} {[ k_slashing a := true ]}
        (<[k_market a := true]> {[ k_slashing a := true ]}) (k_payments a) (ss_chain s') ∧
      ss_files s' = <["./deployed-addresses-v2-" +:+ network_name +:+ ".json" :=
        saved d a [("deployedAt", JStr iso_now); ("version", JStr "2.0.0-renewals")]]> (ss_files s) ∧
      k_slashing a = create_address d (at_ 0 (ss_nonces s) d + 4) ∧
      k_payments a = create_address d (at_ 0 (ss_nonces s) d + 6).
Proof.
    intros Hd Hz. destruct (base_market_runs d s) as (q1 & q2 & s1 & a & E & EM & EP & Hb & Ef & Hsl & Hpay).
    destruct (built_paid d a _ _ _ (k_payments a) s1 Hb) as (s2 & E2 & Hb2 & F2); [rewrite Hpay; apply Hz|].
    destruct (built_minter d a _ _ _ _ (k_payments a) s2 Hb2) as (s3 & E3 & Hb3 & F3).
    destruct (built_burner d a _ _ _ _ (k_slashing a) s3 Hb3) as (s4 & E4 & Hb4 & F4).
    destruct (built_keeper d a _ _ _ _ (k_slashing a) s4 Hb4) as (s5 & E5 & Hb5 & F5).
    destruct (built_keeper d a _ _ _ _ (k_market a) s5 Hb5) as (s6 & E6 & Hb6 & F6).
    eexists _, a. split.
    { unfold deploy_v2, the_deployer. rewrite Hd. rewrite (bind_ok (mret d) _ s d s eq_refl).
      rewrite (bind_ok _ _ _ _ _ E), (bind_ok _ _ _ _ _ EM), (bind_ok _ _ _ _ _ EP), (bind_ok _ _ _ _ _ E2),
        (bind_ok _ _ _ _ _ E3), (bind_ok _ _ _ _ _ E4), (bind_ok _ _ _ _ _ E5), (bind_ok _ _ _ _ _ E6).
      reflexivity. }
    split_and!; [exact Hb6| |done|done]. simpl. unfold saved. congruence.
  Qed.

Lemma amoy_runs d rest s :
    signers = d :: rest →
    ∃ s' a, deploy_amoy s = (Ok tt, s') ∧
      built d a (<[k_slashing a := true]> {[ k_payments a := true ]}) ∅ ∅ address0 (ss_chain s') ∧
      ss_files s' = <["./deployed-addresses-" +:+ network_name +:+ ".json" :=
        saved d a [("deployedAt", JStr iso_now)]]> (ss_files s).
Proof.
    intros Hd. destruct (base_market_runs d s) as (q1 & q2 & s1 & a & E & EM & EP & Hb & Ef & _).
    destruct (built_minter d a _ _ _ _ (k_payments a) s1 Hb) as (s2 & E2 & Hb2 & F2).
    destruct (built_minter d a _ _ _ _ (k_slashing a) s2 Hb2) as (s3 & E3 & Hb3 & F3).
    eexists _, a. split.
    { unfold deploy_amoy, the_deployer. rewrite Hd. rewrite (bind_ok (mret d) _ s d s eq_refl).
      rewrite (bind_ok _ _ _ _ _ E), (bind_ok _ _ _ _ _ EM), (bind_ok _ _ _ _ _ EP), (bind_ok _ _ _ _ _ E2),
        (bind_ok _ _ _ _ _ E3). reflexivity. }
    split_and!; [exact Hb3|]. simpl. unfold saved. congruence.
  Qed.
End Results.

(** * Roles over transactions *)

Inductive role : Type := Minter | Burner.
#[global] Instance role_eq_dec : EqDecision role.
Proof. solve_decision. Defined.
Definition holders (r : role) (t : StorageToken) : gmap address bool :=
  match r with Minter => tk_minters t | Burner => tk_burners t end.

(** [a] is not a minter (burner) of the token at [T]. *)
Definition lacks (r : role) (T a : address) (c : chain) : Prop :=
  ∃ t, c_tokens c !! T = Some t ∧ at_ false (holders r t) a = false.
(** The one call that changes that. *)
Definition grants (r : role) (T a : address) (k : call) : bool :=
  match r, k with
  | Minter, CallToken this (TAuthorizeMinter x) => bool_decide (this = T) && bool_decide (x = a)
  | Burner, CallToken this (TAuthorizeBurner x) => bool_decide (this = T) && bool_decide (x = a)
  | _, _ => false
  end.

Section Roles.
  Context (r : role) (T a : address).

Lemma lacks_leaves A (m : M chain A) : leaves c_tokens m → keeps (lacks r T a) m.
Proof. intros Hm c x c' Hc Hr. unfold lacks. by rewrite (Hm _ _ _ Hr). Qed.
Lemma lacks_store this (f : StorageToken → StorageToken) :
    (∀ t, this = T → at_ false (holders r t) a = false → at_ false (holders r (f t)) a = false) →
    keeps (lacks r T a) (Token.store this f).
Proof.
    intros Hf c u c' (t & Ht & Hn) Hr. unfold Token.store in Hr. run_inv. unfold lacks. simpl.
    destruct (decide (this = T)) as [->|]; [rewrite lookup_alter_eq, Ht|rewrite lookup_alter_ne by done; eauto].
    eexists. split; [done|]. by apply Hf.
  Qed.
Lemma lacks_same this f : (∀ t, holders r (f t) = holders r t) → keeps (lacks r T a) (Token.store this f).
Proof. intros Hf. apply lacks_store. intros t _. by rewrite Hf. Qed.
Lemma lacks_insert x b (m : gmap address bool) :
    (b = true → x ≠ a) → at_ false m a = false → at_ false (<[x := b]> m) a = false.
Proof.
    intros Hx Hm. unfold at_ in *. destruct (decide (x = a)) as [->|]; [|by rewrite lookup_insert_ne].
    rewrite lookup_insert_eq. destruct b; [by destruct Hx|done].
  Qed.
Hint Extern 2 (keeps _ (Token.store _ _)) => (apply lacks_same; intros ?; by destruct r) : chain.

Lemma lacks_update this x y v : keeps (lacks r T a) (Token._update this x y v).
Proof. unfold Token._update, Token.load. keep lacks_leaves. Qed.
Hint Resolve lacks_update : chain.
Lemma lacks_transfer this e y v : keeps (lacks r T a) (Token.transfer this e y v).
Proof. unfold Token.transfer, Token._transfer. keep lacks_leaves. Qed.
Lemma lacks_transferFrom this e x y v : keeps (lacks r T a) (Token.transferFrom this e x y v).
Proof. unfold Token.transferFrom, Token._spendAllowance, Token._approve, Token._transfer, Token.load. keep lacks_leaves. Qed.
Lemma lacks_mint this e y v : keeps (lacks r T a) (Token.mint this e y v).
Proof. unfold Token.mint, Token._mint, Token.load. keep lacks_leaves. Qed.
Lemma lacks_burn this e v : keeps (lacks r T a) (Token.burn this e v).
Proof. unfold Token.burn, Token._burn, Token.count_burned, Token.load. keep lacks_leaves. Qed.
Lemma lacks_burnFrom this e x v : keeps (lacks r T a) (Token.burnFrom this e x v).
Proof. unfold Token.burnFrom, Token._burn, Token.count_burned, Token.load. keep lacks_leaves. Qed.
Hint Resolve lacks_transfer lacks_transferFrom lacks_mint lacks_burn lacks_burnFrom : chain.

Lemma lacks_token e this k : grants r T a (CallToken this k) = false → keeps (lacks r T a) (run_token e this k).
Proof.
    intros Hg.
    assert (∀ f, (∀ t, holders r (f t) = holders r t ∨ ∃ x b, holders r (f t) = <[x := b]> (holders r t) ∧
              (b = true → this = T → x ≠ a)) → keeps (lacks r T a) (Token.store this f)) as Hrole.
    { intros f Hf. apply lacks_store. intros t HT Hl. destruct (Hf t) as [->|(x & b & -> & Hx)]; [done|].
      apply lacks_insert; auto. }
    destruct k; simpl in Hg; unfold run_token, discard, Token.approve, Token._approve, Token.authorizeBurner,
      Token.revokeBurner, Token.authorizeMinter, Token.revokeMinter, Token.updateInflationRate, Token.batchTransfer,
      Token.load; keep lacks_leaves.
    all: apply Hrole; intros t; destruct r; simpl in *; auto; right; (eexists _, _; split; [done|]; try done).
    all: intros _ ->; rewrite bool_decide_eq_true_2 in Hg by done; simpl in Hg; by apply bool_decide_eq_false in Hg.
  Qed.

Lemma lacks_call `{Hashing} e k : grants r T a k = false → keeps (lacks r T a) (run_call e k).
Proof.
    intros Hg. assert (∀ rg ps seen, keeps (lacks r T a) (Market.check_providers rg seen ps)) as Hc.
    { intros rg ps. induction ps as [|p ps IH]; intros seen; simpl; keep lacks_leaves. }
    destruct k as [this k|this k|this k|this k|this k|this k|this k|this k|k this x|k this]; cbn [run_call];
      try solve [by apply lacks_token | apply lacks_leaves; eauto with chain].
    - destruct k; open_pool; keep lacks_leaves.
    - destruct k; open_market; keep lacks_leaves.
    - destruct k; open_distributor; keep lacks_leaves.
    - destruct k; open_slashing; keep lacks_leaves.
    - destruct k; open_vesting; keep lacks_leaves.
    - destruct k; unfold transferOwnership, _transferOwnership; keep lacks_leaves.
      all: apply lacks_same; intros t; by destruct r.
    - destruct k; unfold renounceOwnership, _transferOwnership; keep lacks_leaves.
      all: apply lacks_same; intros t; by destruct r.
  Qed.
End Roles.

(** The slashing contract at [S] uses the token at [T], for good. *)
Definition court_of (S T : address) (c : chain) : Prop := ∃ s, c_slashers c !! S = Some s ∧ sm_token s = T.
Section Court.
  Context (S T : address).

Lemma court_leaves A (m : M chain A) : leaves (λ c, c_slashers c !! S) m → keeps (court_of S T) m.
Proof. intros Hm c x c' Hc Hr. unfold court_of. by rewrite (Hm _ _ _ Hr). Qed.
Lemma court_store this (f : SlashingManager → SlashingManager) :
    (∀ s, sm_token (f s) = sm_token s) → keeps (court_of S T) (sstore this f).
Proof.
    intros Hf c u c' (s & Hs & Ht) Hr. run_inv. unfold court_of. simpl.
    destruct (decide (this = S)) as [->|]; [rewrite lookup_alter_eq, Hs|rewrite lookup_alter_ne by done; eauto].
    eexists. split; [done|]. by rewrite Hf.
  Qed.
Hint Extern 2 (keeps _ (sstore _ _)) => (apply court_store; done) : chain.
Lemma court_call `{Hashing} e k : keeps (court_of S T) (run_call e k).
Proof.
    destruct k as [| | | | |? k| | |k ? ?|k ?]; simpl; try solve [apply court_leaves; eauto with chain].
    - destruct k; open_slashing; keep court_leaves.
    - destruct k; unfold transferOwnership, _transferOwnership; keep court_leaves.
    - destruct k; unfold renounceOwnership, _transferOwnership; keep court_leaves.
  Qed.
End Court.

(** Without the role, the slashing contract can neither burn nor refund. *)
Lemma no_burn T e p n c u c' : lacks Burner T (msg_sender e) c → Token.burnFrom T e p n c = (Ok u, c') → False.
Proof. intros (t & Ht & Hn) Hr. apply burnFrom_returns in Hr as (t' & Ht' & Hb & _). simplify_eq/=. congruence. Qed.
Lemma no_mint T e p n c u c' : lacks Minter T (msg_sender e) c → Token.mint T e p n c = (Ok u, c') → False.
Proof. intros (t & Ht & Hn) Hr. apply mint_returns in Hr as (t' & Ht' & Hb & _). simplify_eq/=. congruence. Qed.

Lemma no_slashing S T e p n reason c u c' :
  court_of S T c → lacks Burner T S c → _applySlashing S e p n reason c = (Ok u, c') → False.
Proof.
  intros (s & Hs & <-) Hl Hr. unfold _applySlashing, Slashing.load in Hr. next Hr s0 c0 H0. run_step H0. simpl in H0.
  assert (s0 = s) as -> by congruence. next Hr z c1 Hz. by apply (no_burn _ (sent_by S e)) in Hz.
Qed.
Lemma no_slash_run S T e c u c' k :
  court_of S T c → lacks Burner T S c → run_slashing e S k c = (Ok u, c') →
  match k with SMissedPost _ _ | SDataLoss _ _ | SEarlyExit _ _ => False | _ => True end.
Proof.
  intros Hc Hl Hr. destruct k; [..|done|done]; simpl in Hr; unfold slashMissedPost, slashDataLoss, slashEarlyExit in Hr;
    next Hr o c0 Ho; apply onlyOwner_returns in Ho as (o1 & _ & _ & ->).
  - unfold Slashing.load in Hr. next Hr s c1 H1. run_step H1. cbv zeta in Hr. next Hr x2 c2 H2. run_step H2.
    next Hr x3 c3 H3. assert (c3 = c) as -> by (run_step H3; by run_step H3).
    next Hr x4 c4 H4. next Hr x5 c5 H5. next Hr x6 c6 H6. run_step H6.
    next Hr x7 c7 H7. assert (c7 = c5) as -> by (unfold calculateRepeatMultiplier, Slashing.load in H7; by run_inv).
    next Hr x8 c8 H8. run_step H8. next Hr x9 c9 H9. unfold set_state, Slashing.store in H4, H5.
    eapply no_slashing; [| |exact H9].
    + refine ((_ : keeps (court_of S T) _) _ _ _ _ H5); [by apply court_store|].
      refine ((_ : keeps (court_of S T) _) _ _ _ Hc H4). by apply court_store.
    + refine ((_ : keeps (lacks Burner T S) _) _ _ _ _ H5); [apply lacks_leaves; leave|].
      refine ((_ : keeps (lacks Burner T S) _) _ _ _ Hl H4). apply lacks_leaves. leave.
  - next Hr x c1 H1. by eapply no_slashing.
  - by eapply no_slashing.
Qed.

(** * Theorems *)

(** deploy.js never completes: it gives three arguments to the constructor of
    StorageMarketplace, which has four, so the script stops there; no addresses are
    saved and no marketplace or distributor exists afterwards. *)
Theorem deploy_js_never_completes `{Hashing} `{Host} d rest s :
  signers = d :: rest →
  ∃ s', deploy_js s = (Throw (Error "incorrect number of arguments to constructor"), s') ∧
    ss_files s' = ss_files s ∧ c_markets (ss_chain s') = c_markets (ss_chain s) ∧
    c_distributors (ss_chain s') = c_distributors (ss_chain s).
Proof.
  intros Hd. destruct (base_runs d s) as (s1 & t & r & p & v & sl & E & Ef & _ & _ & _ & _ & _ & Em & Ed & _).
  exists s1. split_and!; [|done..]. unfold deploy_js, the_deployer. rewrite Hd.
  by rewrite (bind_ok (mret d) _ s d s eq_refl), (bind_ok _ _ _ _ _ E).
Qed.

(** C26. deploy-v2.js completes and wires the protocol: the seven contracts belong to the
    deployer and point at each other, the distributor may mint, the slashing contract
    may burn, it and the market keep records, the market pays to the distributor, the
    deployer has the whole supply; and the saved file names exactly these contracts. *)
Theorem v2_deployment_is_wired `{Hashing} `{Host} d rest s :
  signers = d :: rest → (∀ n, create_address d n ≠ address0) →
  ∃ s' a, deploy_v2 s = (Ok tt, s') ∧
    built d a {[ k_payments a := true ]} {[ k_slashing a := true ]}
      (<[k_market a := true]> {[ k_slashing a := true ]}) (k_payments a) (ss_chain s') ∧
    ss_files s' = <["./deployed-addresses-v2-" +:+ network_name +:+ ".json" :=
      saved d a [("deployedAt", JStr iso_now); ("version", JStr "2.0.0-renewals")]]> (ss_files s).
Proof. intros Hd Hz. destruct (v2_runs d rest s Hd Hz) as (s' & a & E & Hb & Ef & _). by exists s', a. Qed.

(** C27. Deployed by deploy-amoy.js the protocol cannot slash: the script completes with
    the seven contracts pointing at each other and named in the saved file; the token
    of that deployment has the distributor and the slashing contract as its minters
    ("for burning") and no burner; and over any transactions of all contracts that do
    not make the slashing contract a burner, every kind of slashing by it reverts. *)
Theorem amoy_deployment_cannot_slash `{Hashing} `{Host} d rest s :
  signers = d :: rest →
  ∃ s' a, deploy_amoy s = (Ok tt, s') ∧
    built d a (<[k_slashing a := true]> {[ k_payments a := true ]}) ∅ ∅ address0 (ss_chain s') ∧
    ss_files s' = <["./deployed-addresses-" +:+ network_name +:+ ".json" :=
      saved d a [("deployedAt", JStr iso_now)]]> (ss_files s) ∧
    ∀ txs e p n u, Forall (λ tx, grants Burner (k_token a) (k_slashing a) (snd tx) = false) txs →
    let c := apply_txs (ss_chain s') txs in
    fst (slashMissedPost (k_slashing a) e p n c) ≠ Ok u ∧ fst (slashDataLoss (k_slashing a) e p n c) ≠ Ok u ∧
    fst (slashEarlyExit (k_slashing a) e p n c) ≠ Ok u.
Proof.
  intros Hd. destruct (amoy_runs d rest s Hd) as (s' & a & E & Hb & Ef). exists s', a. split_and!; [done..|].
  intros txs e p n u Htxs c.
  destruct Hb as ((t & Ht & _ & _ & Hbu & _) & _ & _ & _ & (sm & Hs & _ & Htok & _) & _).
  assert (court_of (k_slashing a) (k_token a) c ∧ lacks Burner (k_token a) (k_slashing a) c) as [Hc Hl].
  { unfold c. apply (apply_txs_keeps (λ c, court_of (k_slashing a) (k_token a) c ∧
      lacks Burner (k_token a) (k_slashing a) c) (λ _ k, grants Burner (k_token a) (k_slashing a) k = false));
      [|done|split; [by exists sm|exists t; split; [done|simpl; by rewrite Hbu]]].
    intros e' k Hg c1 u1 c2 [H1 H2] Hr. split; [by eapply court_call|by eapply lacks_call]. }
  assert (∀ k, match k with SMissedPost _ _ | SDataLoss _ _ | SEarlyExit _ _ => True | _ => False end →
    fst (run_slashing e (k_slashing a) k c) ≠ Ok u) as Hno.
  { intros k Hk HE. destruct (run_slashing e (k_slashing a) k c) as [r c'] eqn:Hr. simpl in HE. subst r.
    eapply no_slash_run in Hr; [|done|done]. by destruct k. }
  split_and!; [by apply (Hno (SMissedPost p n))|by apply (Hno (SDataLoss p n))|by apply (Hno (SEarlyExit p n))].
Qed.

(** Deployed by deploy-v2.js the protocol burns but cannot refund: the slashing
    contract is no minter, so over any transactions of all contracts that do not make
    it one, [resolveAppeal] never returns in the appellant's favour. *)
Theorem v2_deployment_cannot_refund `{Hashing} `{Host} d rest s :
  signers = d :: rest → (∀ n, create_address d n ≠ address0) →
  (∀ n n', create_address d n = create_address d n' → n = n') →
  ∃ s' a, deploy_v2 s = (Ok tt, s') ∧
    ∀ txs e p i u, Forall (λ tx, grants Minter (k_token a) (k_slashing a) (snd tx) = false) txs →
    fst (resolveAppeal (k_slashing a) e p i false (apply_txs (ss_chain s') txs)) ≠ Ok u.
Proof.
  intros Hd Hz Hinj. destruct (v2_runs d rest s Hd Hz) as (s' & a & E & Hb & _ & Hsl & Hpay).
  exists s', a. split; [done|]. intros txs e p i u Htxs HE.
  assert (k_payments a ≠ k_slashing a) as Hne by (rewrite Hsl, Hpay; intros ?%Hinj; lia).
  destruct Hb as ((t & Ht & _ & Hmi & _) & _ & _ & _ & (sm & Hs & _ & Htok & _) & _).
  assert (court_of (k_slashing a) (k_token a) (apply_txs (ss_chain s') txs) ∧
    lacks Minter (k_token a) (k_slashing a) (apply_txs (ss_chain s') txs)) as [(s1 & Hs1 & Ht1) Hl].
  { apply (apply_txs_keeps (λ c, court_of (k_slashing a) (k_token a) c ∧ lacks Minter (k_token a) (k_slashing a) c)
      (λ _ k, grants Minter (k_token a) (k_slashing a) k = false));
      [|done|split; [by exists sm|exists t; split; [done|simpl; rewrite Hmi; unfold at_; by rewrite lookup_singleton_ne]]].
    intros e' k Hg c1 u1 c2 [H1 H2] Hr. split; [by eapply court_call|by eapply lacks_call]. }
  set (c := apply_txs (ss_chain s') txs) in *.
  destruct (resolveAppeal (k_slashing a) e p i false c) as [r c'] eqn:Hr. simpl in HE. subst r.
  unfold resolveAppeal, Slashing.load, set_record, Slashing.store in Hr.
  next Hr o c0 Ho. apply onlyOwner_returns in Ho as (o1 & _ & _ & ->).
  next Hr s2 c1 H1. run_step H1. simpl in H1. assert (s2 = s1) as -> by congruence. cbv zeta in Hr.
  next Hr x2 c2 H2. run_step H2. next Hr x3 c3 H3. run_step H3. next Hr x4 c4 H4. run_step H4.
  next Hr x5 c5 H5. next Hr x6 c6 H6. cbn [negb] in H6. next H6 x7 c7 H7. rewrite Ht1 in H7.
  apply (no_mint _ (sent_by (k_slashing a) e)) in H7; [done|].
  refine ((_ : keeps (lacks Minter (k_token a) (k_slashing a)) _) _ _ _ Hl H5). apply lacks_leaves. leave.
Qed.

(** ** An example host *)

Definition demo_others : list address := "client" :: map (λ i, "node" +:+ show_Z (Z.of_nat i)) (seq 0 15).
#[local] Instance demo_host : Host := {|
  create_address := λ d n, d +:+ "#" +:+ show_Z (Z.of_N n);
  signers := "deployer" :: demo_others;
  network_name := "amoy"; network_chainId := 80002%Z; block_at := λ n, (n, 0);
  iso_now := "2026-01-01T00:00:00.000Z";
  getenv := λ x, if bool_decide (x = "TARGET_ADDRESS") then Some "client" else
                 if bool_decide (x = "PRIVATE_KEY") then Some "key" else
                 if bool_decide (x = "AMOUNT") then Some "7" else None;
  argv2 := None; wallet_of := λ _, Ok "deployer"; pol_balance := λ _, Ok 0;
  format18 := λ n, show_Z (Z.of_N n); parse18 := λ s, Ok (10 ^ 18)
|}.
Definition empty_chain : chain := Chain ∅ ∅ ∅ ∅ ∅ ∅ ∅ ∅ [] ∅.
Definition start : session := Session empty_chain 0 ∅ ∅ [] None.

Lemma deploy_js_never_completes_witness :
  ∃ s', deploy_js (H := demo_hashing) start = (Throw (Error "incorrect number of arguments to constructor"), s') ∧
    ss_files s' = ss_files start ∧ c_markets (ss_chain s') = c_markets (ss_chain start) ∧
    c_distributors (ss_chain s') = c_distributors (ss_chain start).
Proof. exact (deploy_js_never_completes (H := demo_hashing) (H0 := demo_host) "deployer" demo_others start eq_refl). Defined.

Lemma demo_create_nonzero n : create_address "deployer" n ≠ address0.
Proof. done. Qed.
Lemma demo_create_inj n n' : create_address "deployer" n = create_address "deployer" n' → n = n'.
Proof. intros [= E]. change (show_Z (Z.of_N n) = show_Z (Z.of_N n')) in E. unfold show_Z in E. apply (inj (A := Z) pretty.pretty) in E. by apply N2Z.inj. Qed.

Lemma v2_deployment_is_wired_witness :
  ∃ s' a, deploy_v2 (H := demo_hashing) start = (Ok tt, s') ∧
    built "deployer" a {[ k_payments a := true ]} {[ k_slashing a := true ]}
      (<[k_market a := true]> {[ k_slashing a := true ]}) (k_payments a) (ss_chain s') ∧
    ss_files s' = <["./deployed-addresses-v2-amoy.json" :=
      saved "deployer" a [("deployedAt", JStr iso_now); ("version", JStr "2.0.0-renewals")]]> (ss_files start).
Proof. exact (v2_deployment_is_wired (H := demo_hashing) (H0 := demo_host) "deployer" demo_others start eq_refl demo_create_nonzero). Defined.
Lemma amoy_deployment_cannot_slash_witness :
  ∃ s' a, deploy_amoy (H := demo_hashing) start = (Ok tt, s') ∧
    ss_files s' !! "./deployed-addresses-amoy.json" = Some (saved "deployer" a [("deployedAt", JStr iso_now)]) ∧
    (∃ sm, c_slashers (ss_chain s') !! k_slashing a = Some sm ∧ sm_token sm = k_token a) ∧
    fst (slashEarlyExit (k_slashing a) (demo_env "deployer" 5) "node1" 0
      (apply_txs (H := demo_hashing) (ss_chain s') [])) ≠ Ok tt.
Proof.
  destruct (amoy_deployment_cannot_slash (H := demo_hashing) (H0 := demo_host) "deployer" demo_others start eq_refl) as (s' & a & E & Hb & Ef & Hno).
  exists s', a. split; [exact E|]. split; [by rewrite Ef, lookup_insert_eq|].
  split; [destruct Hb as (_ & _ & _ & _ & (sm & Hs & _ & Ht & _) & _); by exists sm|].
  apply (Hno [] (demo_env "deployer" 5) "node1" 0 tt). constructor.
Defined.
Lemma v2_deployment_cannot_refund_witness :
  ∃ s' a, deploy_v2 (H := demo_hashing) start = (Ok tt, s') ∧
    fst (resolveAppeal (k_slashing a) (demo_env "deployer" 5) "node1" 0 false
      (apply_txs (H := demo_hashing) (ss_chain s') [])) ≠ Ok tt.
Proof.
  destruct (v2_deployment_cannot_refund (H := demo_hashing) (H0 := demo_host) "deployer" demo_others start eq_refl demo_create_nonzero
    demo_create_inj) as (s' & a & E & Hno).
  exists s', a. split; [exact E|]. apply (Hno [] (demo_env "deployer" 5) "node1" 0 tt). constructor.
Defined.

(** deploy-local.js seeds a running deal with its fifteen providers. *)
Definition local_end : session := snd (deploy_local (H := demo_hashing) start).
Example local_deployment_has_a_deal :
  fst (deploy_local (H := demo_hashing) start) = Ok tt ∧
  dl_status (deal_at "deployer#5" 0 (ss_chain local_end)) = Active ∧
  dl_activeShards (deal_at "deployer#5" 0 (ss_chain local_end)) = 15 ∧
  dl_client (deal_at "deployer#5" 0 (ss_chain local_end)) = "client" ∧
  is_Some (ss_files local_end !! "./deployed-addresses-local.json").
Proof. vm_compute. split_and!; try done. by eexists. Qed.

(** ** Upgrading the market *)

Definition v2_end : session := snd (deploy_v2 (H := demo_hashing) start).
Definition upgraded : session := snd (upgrade_marketplace v2_end).
(** The market that upgrade-marketplace.js deploys keeps no records, sends payments
    nowhere, and the distributor still reads the old one. *)
Example upgraded_market_is_not_wired :
  fst (upgrade_marketplace v2_end) = Ok tt ∧
  ∃ m r d, c_markets (ss_chain upgraded) !! "deployer#12" = Some m ∧ mk_paymentDistributor m = address0 ∧
    c_registries (ss_chain upgraded) !! "deployer#1" = Some r ∧ at_ false (rg_keepers r) "deployer#12" = false ∧
    c_distributors (ss_chain upgraded) !! "deployer#6" = Some d ∧ pd_marketplace d = "deployer#5".
Proof. split; [by vm_compute|]. eexists _, _, _. vm_compute. by split_and!. Qed.

(** * The key of the deployment *)

(** Which key hardhat.config.js deploys with: a key of 64 hex digits after 0x is used
    as it is; one without 0x, the form the comment allows, is silently replaced by the
    public key of the Hardhat node; and every result starts with 0x. *)
Theorem deployment_key_is (k : string) :
  hex64 k = true →
  getPrivateKey (Some ("0x" +:+ k)) = "0x" +:+ k ∧ getPrivateKey (Some k) = HARDHAT_KEY ∧
  ∀ pk, String.prefix "0x" (getPrivateKey pk) = true.
Proof.
  intros Hk. assert (String.length k = 64%nat) as Hlen.
  { unfold hex64 in Hk. apply andb_true_iff in Hk as [Hl _]. by apply Nat.eqb_eq in Hl. }
  split_and!.
  - assert (key_pattern ("0x" +:+ k) = true) as Hp.
    { change (hex64 ("x" +:+ k) || hex64 k = true). by rewrite Hk, orb_true_r. }
    unfold getPrivateKey. rewrite Hp, bool_decide_eq_false_2 by discriminate. simpl. by destruct k.
  - unfold getPrivateKey. destruct (key_pattern k) eqn:Hp; [|by rewrite andb_false_r].
    destruct k as [|c rest]; [done|]. simpl in Hp. apply andb_true_iff in Hp as [_ Hp].
    apply orb_true_iff in Hp as [Hp|Hp].
    + unfold hex64 in Hp. apply andb_true_iff in Hp as [Hl _]. apply Nat.eqb_eq in Hl. simpl in Hlen. lia.
    + destruct rest as [|x rest']; [done|]. apply andb_true_iff in Hp as [_ Hp].
      unfold hex64 in Hp. apply andb_true_iff in Hp as [Hl _]. apply Nat.eqb_eq in Hl. simpl in Hlen. lia.
  - intros [pk|]; [|done]. unfold getPrivateKey. destruct (negb _ && _); [|done].
    destruct (String.prefix "0x" pk) eqn:Hx; [done|]. simpl. by destruct pk.
Qed.
Definition some_key : string := "00000000000000000000000000000000000000000000000000000000000000aB".
Lemma deployment_key_is_witness :
  getPrivateKey (Some ("0x" +:+ some_key)) = "0x" +:+ some_key ∧ getPrivateKey (Some some_key) = HARDHAT_KEY ∧
  ∀ pk, String.prefix "0x" (getPrivateKey pk) = true.
Proof. exact (deployment_key_is some_key eq_refl). Defined.

(** * The wallet tools on a small chain *)

Definition tools0 : session :=
  Session (with_c_registries (λ _, {[ REGISTRY_ADDRESS := registry_created (demo_env "deployer" 0) ]})
    (with_c_tokens (λ _, {[ KYN_TOKEN_ADDRESS := token_created (demo_env "deployer" 0) ]}) empty_chain)) 0 ∅ ∅ [] None.
Definition tools_token (s : session) : StorageToken :=
  default (token_created (demo_env "deployer" 0)) (c_tokens (ss_chain s) !! KYN_TOKEN_ADDRESS).
Example faucet_sends :
  let s := snd (faucet (H := demo_hashing) tools0) in
  balanceOf (tools_token s) "client" = 10 ^ 18 ∧
  balanceOf (tools_token s) "deployer" + 10 ^ 18 = INITIAL_SUPPLY ∧ ss_exit s = None.
Proof. by vm_compute. Qed.
Example approvals_are_set :
  let s := snd (approve_tokens (H := demo_hashing) tools0) in
  allowance (tools_token s) "deployer" CAPACITY_PLEDGE_ADDRESS = 10 ^ 18 ∧
  allowance (tools_token s) "deployer" MARKETPLACE_ADDRESS = 10 ^ 18.
Proof. by vm_compute. Qed.
Example no_wallet_no_check : ss_exit (snd (check_wallet tools0)) = Some 1%Z.
Proof. by vm_compute. Qed.
