(* ===== verification/Bridge.v ===== *)
(** Where the dashboard and the contracts meet: what createDeal of the marketplace
    takes from a client is its formula at the fee and price of the moment, which the
    approval of the dashboard covers up to a fee of three per cent. *)

From S2P Require Import Prelude JsNum Transactions Contracts ChainRules Token Registry Pool Market Distributor Slashing Verifier Vesting Protocol Collateral Escrow Deals.

Local Open Scope N_scope.

(** The checked arithmetic of the contract is the formula the dashboard mirrors. *)
Lemma deal_cost_charge m size price days kyn s fee total s' :
  deal_cost m size (price * 10 ^ 18 / kyn) days s = (Ok (fee, total), s') →
  Z.of_N total = contract_charge (Z.of_N (mk_protocolFeeBasisPoints m)) (Z.of_N size) (Z.of_N price) (Z.of_N days) (Z.of_N kyn) ∧ s' = s.
Proof.
  intros Hr. unfold deal_cost in Hr. do 5 (run_step Hr; run_step H; cbv zeta in Hr; clear H).
  injection Hr as <- <- <-. split; [|done].
  unfold contract_charge.
  rewrite N2Z.inj_add, N2Z.inj_div, !N2Z.inj_mul, !N2Z.inj_div, N2Z.inj_mul, N2Z.inj_add. reflexivity.
Qed.

(** C9. What a deal costs: when [createDeal] returns, the client (who is not the market
    itself) has paid exactly the contract's formula at the fee and the price stored at
    that moment, and the market has received it. While the stored fee, which the owner
    can set, is at most the 300 basis points the dashboard computes with, and for
    prices in steps of 0.0001 USD, that is at most the amount the dashboard has the
    client approve. *)
Theorem market_charges_what_was_approved K e params c r c' m t :
  supply_ok c → c_markets c !! K = Some m →
  c_tokens c !! mk_token m = Some t → msg_sender e ≠ K → createDeal K e params c = (Ok r, c') →
  let charge := contract_charge (Z.of_N (mk_protocolFeeBasisPoints m)) (Z.of_N (dp_fileSizeGB params)) (Z.of_N (dp_pricePerGBMonthUSD params))
                  (Z.of_N (dp_durationDays params)) (Z.of_N (mk_kynPriceUSD m)) in
  ∃ t', c_tokens c' !! mk_token m = Some t' ∧
    (Z.of_N (balanceOf t' (msg_sender e)) + charge = Z.of_N (balanceOf t (msg_sender e)))%Z ∧
    (Z.of_N (balanceOf t' K) = Z.of_N (balanceOf t K) + charge)%Z ∧
    (mk_protocolFeeBasisPoints m ≤ 300 → (100 | Z.of_N (dp_pricePerGBMonthUSD params))%Z →
     (charge ≤ deal_approval (Z.of_N (dp_fileSizeGB params)) (Z.of_N (dp_pricePerGBMonthUSD params))
        (ceil_div (Z.of_N (dp_durationDays params)) 30) (Z.of_N (mk_kynPriceUSD m)))%Z).
Proof.
  intros Hok Hm Ht Hne Hr charge.
  apply nonReentrant_returns in Hr as (k & c2 & Hk & _ & Hr & ->). simpl in Hk. simplify_eq.
  set (c1 := with_slot _ c) in Hr.
  assert (c_tokens c1 = c_tokens c) as E1 by done.
  assert (Market.load K c1 = (Ok (with_mk_entered (λ _, true) m), c1)) as Hl.
  { apply sload_run. simpl. by rewrite lookup_alter_eq, Hm. }
  next Hr z1 d1 Hz1. run_step Hz1. next Hr z2 d2 Hz2. run_step Hz2. next Hr z3 d3 Hz3. run_step Hz3.
  next Hr z0 d0 Hz0. run_step Hz0. next Hr m1 d4 Hm1. rewrite Hl in Hm1. injection Hm1 as <- <-.
  next Hr x d5 Hx. run_step Hx. next Hr price d6 Hp. run_step Hp.
  next Hr z d7 Hch. apply check_providers_distinct in Hch as (_ & _ & ->).
  next Hr fc d8 Hf. destruct fc as [fee total]. apply deal_cost_charge in Hf as [Htot ->].
  next Hr ok d9 Htr. apply transferFrom_returns in Htr as (t0 & Ht0 & Hv & _ & _ & _ & _ & Et).
  rewrite E1 in Ht0, Et. simpl in Ht0, Et. simplify_eq. change (Z.of_N total = charge) in Htot.
  exists (moved (msg_sender e) K total (spent (msg_sender e) K total t)). split_and!.
  - simpl. assert (c_tokens c2 = c_tokens d9) as ->; [|by rewrite Et, lookup_insert_eq].
    refine ((_ : leaves c_tokens _) _ _ _ Hr). unfold set_deal, assign_shard, set_deal, Market.load, Market.store. leave.
  - destruct (moved_spec (spent (msg_sender e) K total t) (msg_sender e) K total) as [_ Hx1];
      [by apply spent_ok, (Hok _ _ Ht)|by rewrite spent_balance|].
    specialize (Hx1 (msg_sender e)). rewrite spent_balance, decide_True, decide_False in Hx1 by done. lia.
  - destruct (moved_spec (spent (msg_sender e) K total t) (msg_sender e) K total) as [_ Hx1];
      [by apply spent_ok, (Hok _ _ Ht)|by rewrite spent_balance|].
    specialize (Hx1 K). rewrite spent_balance, decide_False, decide_True in Hx1 by done. lia.
  - intros Hb Hd. apply approval_covers_charge; [lia..| |done|lia]. simpl in Hp. lia.
Qed.

Definition bridge0 : chain :=
  apply_txs (H := demo_hashing) market0 (take 18 market_setup).
Definition bridge_market : StorageMarketplace :=
  default (market_created (demo_env "owner" 0) "T" "R" "P" "treasury") (c_markets bridge0 !! "K").
Definition bridge_token : StorageToken :=
  default (token_created (demo_env "owner" 0)) (c_tokens bridge0 !! mk_token bridge_market).
Lemma market_charges_what_was_approved_witness :
  let c' := snd (createDeal "K" (demo_env "client" 3) demo_params bridge0) in
  ∃ t', c_tokens c' !! mk_token bridge_market = Some t' ∧
    (Z.of_N (balanceOf t' "K") = Z.of_N (balanceOf bridge_token "K") +
      contract_charge 300 10 5000 30 (Z.of_N (mk_kynPriceUSD bridge_market)))%Z.
Proof.
  destruct (createDeal "K" (demo_env "client" 3) demo_params bridge0) as [[id|err] c'] eqn:Hr; [|by vm_compute in Hr].
  destruct (market_charges_what_was_approved "K" (demo_env "client" 3) demo_params bridge0 id c' bridge_market bridge_token)
    as (t' & H1 & _ & H2 & _); [|by vm_compute|by vm_compute|done|exact Hr|].
  - apply (apply_txs_keeps (H := demo_hashing) supply_ok (λ _ _, True));
      [intros; apply supply_run_call|by apply Forall_true|by apply map_Forall_singleton, token_created_ok].
  - exists t'. split; [exact H1|exact H2].
Defined.
