(* ===== verification/Mirror.v ===== *)
(** The listener against the contracts: what the database knows of the chain after the
    events of all transactions have been handled
    (services/blockchain-listener and smart-contracts/contracts/core).

    The state of a contract that the listener mirrors is determined by the log: a
    replay of the log is shown to give the state of the contract after every sequence of
    transactions, and the rows the listener writes are shown to follow the same replay,
    as far as the spelling of addresses and the constraints of the tables let them. *)

From stdpp Require Import gmap.
From S2P Require Import Prelude JsNum World HealthMonitor RestApi Listener Contracts ChainRules Token Registry Pool Market Distributor Slashing Verifier Vesting Protocol Collateral Escrow Roster.

Local Open Scope N_scope.

(** * What the listener hears *)

(** How ethers spells an address: hexadecimal digits, some of them capitals (EIP-55).
    Two addresses differ in more than case. *)
Class Spelling : Type := {
  getAddress : address → string;
  spelled_apart : ∀ p q, toLowerCase (getAddress p) = toLowerCase (getAddress q) → p = q
}.

Section Hearing.
  Context `{Spelling}.

(** The events of the ABIs.  The block number goes only into the row of a new deal, whose
    insertion never succeeds ([chain_deals_never_listed]); it is taken as 0. *)
Definition hear (ev : event) : option chain_event :=
  match ev with
  | DealCreated id client size cost =>
      Some (Listener.DealCreated (Z.of_N id) (getAddress client) (Z.of_N size) (Z.of_N cost) 0)
  | ShardAssigned id p i cid => Some (Listener.ShardAssigned (Z.of_N id) (getAddress p) (Z.of_N i) cid)
  | DealCompleted id => Some (Listener.DealCompleted (Z.of_N id))
  | DealCancelled id client => Some (Listener.DealCancelled (Z.of_N id) (getAddress client))
  | ShardLost id p i => Some (Listener.ShardLost (Z.of_N id) (getAddress p) (Z.of_N i))
  | ProviderRegistered p peer region => Some (Listener.ProviderRegistered (getAddress p) peer region)
  | ReputationUpdated p n reason => Some (Listener.ReputationUpdated (getAddress p) (Z.of_N n) reason)
  | PledgeCreated p i cap dur coll =>
      Some (Listener.PledgeCreated (getAddress p) (Z.of_N i) (Z.of_N cap) (Z.of_N dur) (Z.of_N coll))
  | PoStSubmitted i p => Some (Listener.PoStSubmitted (Z.of_N i) (getAddress p))
  | PoStMissed i p => Some (Listener.PoStMissed (Z.of_N i) (getAddress p))
  | ProviderSlashed p n reason => Some (Listener.ProviderSlashed (getAddress p) (Z.of_N n) reason)
  | RewardsWithdrawn p n => Some (Listener.RewardsWithdrawn (getAddress p) (Z.of_N n))
  | _ => None
  end.

Definition on_event (ev : event) : M world unit :=
  match hear ev with Some e => Listener.handle e | None => mret tt end.
(** The database after the listener has handled the whole log. *)
Definition followed (c : chain) (w : world) : world := snd (for_each (c_logs c) on_event w).

(** What an event does to the tables. *)
Definition noted (t : Z) (sc : schema) (d : db) (ev : event) : db :=
  match hear ev with Some e => handled e t sc d | None => d end.

Lemma follow_log log : ∀ w, db_answers w →
  for_each log on_event w = (Ok tt, with_db (λ d, foldl (noted (w_now w) (w_schema w)) d log) w).
Proof.
  induction log as [|ev log IH]; intros w Hw; simpl; [by destruct w|].
  assert (on_event ev w = (Ok tt, with_db (λ d, noted (w_now w) (w_schema w) d ev) w)) as E.
  { unfold on_event, noted. destruct (hear ev) as [e|]; [by rewrite handle_run|by destruct w]. }
  by rewrite (bind_ok _ _ _ _ _ E), IH.
Qed.
Lemma followed_db c w : db_answers w →
  w_db (followed c w) = foldl (noted (w_now w) (w_schema w)) (w_db w) (c_logs c).
Proof. intros Hw. unfold followed. by rewrite follow_log. Qed.

(** A replay of the log that the tables follow step by step. *)
Lemma follow_chain {A} (step : A → event → A) (shows : A → db → Prop) t sc log :
  (∀ a ev d, shows a d → shows (step a ev) (noted t sc d ev)) →
  ∀ a d, shows a d → shows (foldl step a log) (foldl (noted t sc) d log).
Proof. intros Hs. induction log as [|ev log IH]; intros a d Ha; simpl; [done|]. by apply IH, Hs. Qed.
End Hearing.

(** Views of the chain that end in a replay of the log. *)
Definition replayed {A B} (g : chain → B) (step : A → event → A) (a : A) (c : chain) : B * A :=
  (g c, foldl step a (c_logs c)).
Lemma replayed_emit {A} step (a : A) ev c :
  foldl step a (c_logs (with_c_logs (λ l, l ++ [ev]) c)) = step (foldl step a (c_logs c)) ev.
Proof. simpl. by rewrite foldl_app. Qed.
#[export] Hint Extern 1 (Ignores (replayed _ _ _) _ _) => (intros ? ?; reflexivity) : chain typeclass_instances.
#[export] Hint Extern 1 (IgnoresEvents (replayed _ _ _) _) =>
  (intros ev ? He; unfold replayed; rewrite replayed_emit; by destruct ev) : chain typeclass_instances.

(** * Providers *)

(** The texts of a registration fit into the columns of providers. *)
Definition fits (peer region : string) : bool := negb (too_long 100 peer) && negb (too_long 50 region).

Lemma fits_refused peer region sc d :
  provider_refused peer region sc d = None ↔ fits peer region = true.
Proof. unfold provider_refused, fits. by destruct (too_long 100 peer), (too_long 50 region). Qed.

(** Peer id and score, by address. *)
Definition scored (m : gmap address (string * N)) (ev : event) : gmap address (string * N) :=
  match ev with
  | ProviderRegistered p peer region =>
      if fits peer region then
        match m !! p with Some _ => m | None => <[p := (peer, INITIAL_REPUTATION)]> m end
      else m
  | ReputationUpdated p n _ => alter (λ x, (fst x, n)) p m
  | _ => m
  end.

(** ** The rows *)

Definition provider_rows (a : string) (d : db) : list (string * Z) :=
  map (λ r, (p_peer_id r, p_reputation_score r)) (where_ (λ r, same_text (p_address r) a) (providers d)).

Lemma provider_rows_update q g p d :
  (∀ r, p_address (g r) = p_address r) →
  provider_rows p (set_providers (update_where (λ r, same_text (p_address r) q) g (providers d)) d)
  = if decide (p = q) then map (λ r, (p_peer_id (g r), p_reputation_score (g r)))
                             (where_ (λ r, same_text (p_address r) p) (providers d))
    else provider_rows p d.
Proof.
  intros Hg. unfold provider_rows, update_where. simpl. generalize (providers d). intros l.
  unfold where_, same_text. induction l as [|r l IH]; simpl; [by case_decide|].
  destruct (decide (p = q)) as [->|Hpq].
  - destruct (bool_decide (p_address r = q)) eqn:E; simpl; rewrite ?Hg, E; simpl; by rewrite IH.
  - destruct (bool_decide (p_address r = q)) eqn:E; simpl; rewrite ?Hg;
      destruct (bool_decide (p_address r = p)) eqn:E2; simpl; rewrite ?IH; try done.
    apply bool_decide_eq_true in E, E2. congruence.
Qed.

Lemma provider_rows_insert row p d :
  provider_rows p (insert_provider row d) =
  if decide (p = p_address row)
  then match provider_rows p d with [] => [(p_peer_id row, p_reputation_score row)] | rows => rows end
  else provider_rows p d.
Proof.
  unfold insert_provider. destruct (existsb _ _) eqn:E.
  - case_decide as Hp; [subst p|done]. apply existsb_exists in E as (r & Hr & Hs). apply list_elem_of_In in Hr.
    unfold provider_rows. destruct (where_ _ _) as [|r0 rows] eqn:Hw; [|done]. exfalso.
    assert (r ∈ where_ (λ r, same_text (p_address r) (p_address row)) (providers d)) as Hin
      by (by apply elem_of_where).
    rewrite Hw in Hin. by apply elem_of_nil in Hin.
  - unfold provider_rows. simpl. rewrite where_app, map_app. unfold where_ at 2. simpl. unfold same_text at 2.
    case_decide as Hp; [subst p|].
    + rewrite bool_decide_eq_true_2 by done. simpl.
      destruct (where_ _ (providers d)) as [|r rows] eqn:Hw; [done|]. exfalso.
      assert (r ∈ where_ (λ r, same_text (p_address r) (p_address row)) (providers d)) as Hin
        by (rewrite Hw; by left).
      apply elem_of_where in Hin as [Hin Hr]. apply not_true_iff_false in E. apply E.
      apply existsb_exists. exists r. split; [by apply list_elem_of_In|done].
    + rewrite bool_decide_eq_false_2 by done. simpl. by rewrite app_nil_r.
Qed.

(** Rows are kept under lower-case addresses. *)
Lemma lower_rows_noted `{Spelling} t sc ev d : lower_rows d → lower_rows (noted t sc d ev).
Proof.
  intros Hd. unfold noted. destruct (hear ev) as [e|]; [|done]. destruct e; simpl; repeat case_match; try exact Hd.
  - unfold insert_provider. case_match; [done|]. apply Forall_app. split; [done|]. repeat constructor.
    apply toLowerCase_idemp.
  - unfold lower_rows. simpl. apply Forall_forall. intros x (r & Hr & ->)%elem_of_update_where.
    apply (proj1 (Forall_forall _ _) Hd) in Hr. by case_match.
  - unfold lower_rows. simpl. apply Forall_forall. intros x (r & Hr & ->)%elem_of_update_where.
    apply (proj1 (Forall_forall _ _) Hd) in Hr. by case_match.
Qed.

Section Rows.
  Context `{Spelling}.

(** The address under which the listener registers a provider, and whether ethers spells
    it the same way. *)
Definition stored (p : address) : string := toLowerCase (getAddress p).
Definition plain (p : address) : bool := bool_decide (stored p = getAddress p).

Lemma stored_inj p q : stored p = stored q → p = q.
Proof. apply spelled_apart. Qed.

(** The row of a provider: the score is followed only under a plain spelling. *)
Definition row_of_score (p : address) (o : option (string * N)) : list (string * Z) :=
  match o with
  | Some (peer, n) => [(peer, Z.of_N (if plain p then n else INITIAL_REPUTATION))]
  | None => []
  end.
Definition shows_scores (m : gmap address (string * N)) (d : db) : Prop :=
  lower_rows d ∧ ∀ p, provider_rows (stored p) d = row_of_score p (m !! p).

Lemma shows_scores_step t sc m ev d : shows_scores m d → shows_scores (scored m ev) (noted t sc d ev).
Proof.
  intros [Hd Hm]. split; [by apply lower_rows_noted|]. unfold noted.
  destruct ev; simpl; try exact Hm.
  all: try (repeat case_match; exact Hm).
  - destruct (fits peerId region) eqn:Hfit.
    + rewrite (proj2 (fits_refused _ _ sc d) Hfit). intros p. rewrite provider_rows_insert. simpl. fold (stored provider).
      case_decide as Hp; [apply stored_inj in Hp; subst p|]; rewrite Hm; destruct (m !! provider) as [[peer n]|] eqn:E.
      * by rewrite E.
      * rewrite lookup_insert_eq. simpl. by destruct (plain provider).
      * done.
      * rewrite lookup_insert_ne; [done|]. intros ->. done.
    + destruct (provider_refused _ _ _ _) eqn:E; [exact Hm|]. apply fits_refused in E. congruence.
  - intros p. destruct (plain provider) eqn:Hpl.
    + apply bool_decide_eq_true in Hpl. rewrite provider_rows_update by done. rewrite <- Hpl.
      case_decide as Hp; [apply stored_inj in Hp; subst p|].
      * rewrite lookup_alter_eq. specialize (Hm provider). unfold provider_rows in Hm.
        assert (plain provider = true) as Hpt by (by apply bool_decide_eq_true).
        destruct (m !! provider) as [[peer n]|]; simpl in *; rewrite ?Hpt in *.
        -- destruct (where_ _ _) as [|r [|]]; try done. by injection Hm as <- _.
        -- by destruct (where_ _ _).
      * rewrite lookup_alter_ne; [done|]. intros ->. done.
    + apply bool_decide_eq_false in Hpl.
      rewrite update_unmatched by (by apply unmatched_address).
      replace (set_providers (providers d) d) with d by (by destruct d). rewrite Hm.
      destruct (decide (p = provider)) as [->|Hne]; [|by rewrite lookup_alter_ne].
      rewrite lookup_alter_eq. destruct (m !! provider) as [[peer n]|]; simpl; [|done].
      unfold plain. by rewrite (bool_decide_eq_false_2 _ Hpl).
  - intros p. rewrite provider_rows_update by done. simpl. case_decide; apply Hm.
Qed.
End Rows.

(** ** The registry is the replay of the log *)

Definition entry (x : Provider) : option (string * N) :=
  if pr_registered x then Some (pr_peerId x, pr_reputationScore x) else None.

Section RegistryLog.
  Context `{Hashing} (R : address).

(** [R] is the only registry, and the log tells its scores. *)
Definition scores_logged (c : chain) : Prop :=
  ∃ r, c_registries c = {[ R := r ]} ∧ ∀ p, foldl scored ∅ (c_logs c) !! p = entry (provider_of r p).

Lemma scores_leaves A (m : M chain A) : leaves (replayed c_registries scored ∅) m → keeps scores_logged m.
Proof.
  intros Hm c a c' (r & Hc & Hl) Hr. specialize (Hm c a c' Hr). unfold replayed in Hm.
  injection Hm as E1 E2. exists r. rewrite E1, E2. done.
Qed.

Lemma scores_store this (g : ProviderRegistry → ProviderRegistry) :
  (∀ r p, entry (provider_of (g r) p) = entry (provider_of r p)) → keeps scores_logged (sstore this g).
Proof.
  intros Hg c a c' (r & Hc & Hl) Hr. run_inv. unfold scores_logged. simpl. rewrite Hc.
  destruct (decide (this = R)) as [->|Hne].
  - exists (g r). split; [by rewrite alter_singleton_eq|]. intros p. by rewrite Hl, Hg.
  - exists r. split; [|done]. by rewrite alter_singleton_ne.
Qed.
Lemma scores_update this p g : (∀ x, entry (g x) = entry x) → keeps scores_logged (update this p g).
Proof.
  intros Hg. apply scores_store. intros r q. rewrite provider_of_update. case_decide; [subst; by rewrite Hg|done].
Qed.
Lemma scores_emit ev : (∀ m, scored m ev = m) → keeps scores_logged (emit ev).
Proof.
  intros Hev. apply scores_leaves, leaves_emit. intros c. unfold replayed. by rewrite replayed_emit, Hev.
Qed.
#[local] Hint Resolve scores_update scores_emit : chain.
#[local] Hint Extern 2 (∀ m, scored m _ = m) => (intros m; reflexivity) : chain.
#[local] Hint Extern 2 (∀ x, entry _ = entry _) => (intros x; reflexivity) : chain.

(** A score is written together with its event. *)
Lemma scores_written this p n reason r c u c' :
  scores_logged c → c_registries c !! this = Some r → pr_registered (provider_of r p) = true →
  (update this p (with_pr_reputationScore (λ _, n)) ;; emit (ReputationUpdated p n reason)) c = (Ok u, c') →
  scores_logged c'.
Proof.
  intros (r0 & Hc & Hl) Ht Hp Hr. rewrite Hc in Ht. apply lookup_singleton_Some in Ht as [<- <-].
  unfold update in Hr. run_inv. unfold scores_logged. simpl. rewrite Hc, alter_singleton_eq, foldl_app. simpl.
  eexists. split; [done|]. intros q. rewrite provider_of_update. case_decide as Hq; [subst q|].
  - rewrite lookup_alter_eq, Hl. unfold entry. simpl. by rewrite Hp.
  - by rewrite lookup_alter_ne.
Qed.

Lemma scores_deactivate this e p : keeps scores_logged (deactivateProvider this e p).
Proof. unfold deactivateProvider. keep scores_leaves. Qed.
Lemma scores_increase this e p n reason : keeps scores_logged (increaseReputation this e p n reason).
Proof.
  intros c u c' Hc Hr. unfold increaseReputation, Registry.load in Hr. next Hr z c0 Hz. apply keeper_returns in Hz as ->.
  next Hr r c1 Hl. apply sload_returns in Hl as [Hl ->]. next Hr y c2 Hy. run_step Hy. next Hr s c3 Hs. run_step Hs.
  cbv zeta in Hr. by eapply scores_written.
Qed.
Lemma scores_decrease this e p n reason : keeps scores_logged (decreaseReputation this e p n reason).
Proof.
  intros c u c' Hc Hr. unfold decreaseReputation, Registry.load in Hr. next Hr z c0 Hz. apply keeper_returns in Hz as ->.
  next Hr r c1 Hl. apply sload_returns in Hl as [Hl ->]. next Hr y c2 Hy. run_step Hy. cbv zeta in Hr.
  next Hr s c3 Hs. assert (c3 = c) as -> by (destruct (_ <? _) in Hs; by run_inv).
  next Hr v c4 Hv. next Hr w c5 Hw.
  assert (scores_logged c5) as H5.
  { eapply (scores_written this p s reason r c w c5); [done..|]. by rewrite (bind_ok _ _ _ _ _ Hv). }
  destruct (s <? 20); [by eapply scores_deactivate|by run_inv].
Qed.
Lemma scores_register this e peer ep region price :
  fits peer region = true → keeps scores_logged (registerProvider this e peer ep region price).
Proof.
  intros Hfit c u c' (r0 & Hc & Hl) Hr. unfold registerProvider, Registry.load, update in Hr. run_inv. settle.
  rewrite Hc in H0. apply lookup_singleton_Some in H0 as [<- <-].
  unfold scores_logged. simpl. rewrite Hc, !alter_singleton_eq, foldl_app. simpl. eexists. split; [done|].
  assert (foldl scored ∅ (c_logs c) !! msg_sender e = None) as E.
  { rewrite Hl. unfold entry. by match goal with H : pr_registered _ = false |- _ => rewrite H end. }
  rewrite E, Hfit. intros q. set (x := MkProvider _ _ _ _ _ _ _ _ _ _ _ _ _).
  assert (provider_of (with_rg_providerList (λ l, l ++ [msg_sender e])
      (with_rg_providers (λ m, <[msg_sender e := x]> m) r0)) q
    = if decide (q = msg_sender e) then x else provider_of r0 q) as ->
    by exact (provider_of_update r0 (msg_sender e) (λ _, x) q).
  case_decide as Hq; [subst q; by rewrite lookup_insert_eq|]. by rewrite lookup_insert_ne.
Qed.
#[local] Hint Resolve scores_deactivate scores_increase scores_decrease scores_register : chain.

(** The calls of the registry the listener can follow: no reactivation, and no
    registration with texts too long for the table. *)
Definition followable (k : registry_call) : Prop :=
  match k with RReactivate => False | RRegister peer _ region _ => fits peer region = true | _ => True end.

Lemma scores_run e this k : followable k → keeps scores_logged (run_registry e this k).
Proof.
  intros Hk. destruct k; try done; simpl in *;
    unfold updateProvider, updateCapacity, authorizeRecordKeeper, revokeRecordKeeper, recordDealCompleted,
      recordDealFailed, recordSlashing, onlyAuthorizedKeeper, Registry.load; keep scores_leaves.
  all: by apply scores_store.
Qed.

Lemma scores_txs txs c :
  Forall (λ tx, ∀ this k, snd tx = CallRegistry this k → followable k) txs → scores_logged c →
  scores_logged (apply_txs c txs).
Proof.
  intros Htxs. apply (I_txs (replayed c_registries scored ∅) scores_logged (λ _, followable) scores_leaves).
  - intros e this k Hk. by apply scores_run.
  - intros. by apply scores_store.
  - eapply Forall_impl; [exact Htxs|]. intros [e k] Hk. split; [by intros a []|]. intros this j Hj. by apply (Hk this).
Qed.
End RegistryLog.

Lemma scores_fresh R e c :
  c_registries c = {[ R := registry_created e ]} → Forall (λ ev, emitter_of ev ≠ ByRegistry) (c_logs c) →
  scores_logged R c.
Proof.
  intros Hc Hl. exists (registry_created e). split; [done|]. intros p.
  assert (foldl scored ∅ (c_logs c) = ∅) as ->; [|done]. revert Hl. generalize (c_logs c). intros l.
  induction 1 as [|ev l Hev _ IH]; simpl; [done|]. by destruct ev.
Qed.

Lemma scores_shown `{Spelling} R c w : scores_logged R c → db_answers w → providers (w_db w) = [] →
  ∃ r, c_registries c = {[ R := r ]} ∧
    ∀ p, provider_rows (stored p) (w_db (followed c w)) = row_of_score p (entry (provider_of r p)).
Proof.
  intros (r & Hr & Hl) Hw Hp. exists r. split; [done|]. intros p. rewrite <- Hl, followed_db by done.
  apply (follow_chain scored shows_scores); [by apply shows_scores_step|]. split.
  - unfold lower_rows. by rewrite Hp.
  - intros q. unfold provider_rows. by rewrite Hp.
Qed.

(** * The database against the registry *)

(** C10. The provider table follows the registry: after any transactions to the contracts,
    reactivations and registrations with texts longer than the columns apart, while the
    database answers and nobody else writes providers, the listener has exactly one row
    for every registered provider, under its address in lower case and with its peer
    id, and no row for anybody else; the reputation of the row is the one the contract
    has now when ethers spells the address without capitals, and stays at the initial
    50 otherwise. *)
Theorem registry_is_mirrored `{Hashing} `{Spelling} R e c txs w :
  c_registries c = {[ R := registry_created e ]} → Forall (λ ev, emitter_of ev ≠ ByRegistry) (c_logs c) →
  Forall (λ tx, ∀ this k, snd tx = CallRegistry this k → followable k) txs →
  db_answers w → providers (w_db w) = [] →
  ∃ r, c_registries (apply_txs c txs) = {[ R := r ]} ∧
    ∀ p, let x := provider_of r p in
      provider_rows (toLowerCase (getAddress p)) (w_db (followed (apply_txs c txs) w)) =
      if pr_registered x
      then [(pr_peerId x, Z.of_N (if bool_decide (toLowerCase (getAddress p) = getAddress p)
                                  then pr_reputationScore x else 50))]
      else [].
Proof.
  intros Hc Hlog Htxs Hw Hp.
  destruct (scores_shown R (apply_txs c txs) w) as (r & Hr & Hrows); [|done|done|].
  { apply scores_txs; [done|]. by apply (scores_fresh R e). }
  exists r. split; [done|]. intros p x. fold (stored p). rewrite Hrows. unfold entry, row_of_score, plain. fold x.
  destruct (pr_registered x); [|done]. by case_bool_decide.
Qed.

(** A reactivation is not mirrored: the contract sets the score back to 50 and announces
    it with an event the listener does not subscribe to, so the row keeps the score that
    got the provider deactivated. *)
Theorem reactivation_is_not_mirrored `{Spelling} R e c r u c' w :
  scores_logged R c → c_registries c = {[ R := r ]} → db_answers w → providers (w_db w) = [] →
  reactivateProvider R e c = (Ok u, c') → plain (msg_sender e) = true →
  let old := provider_of r (msg_sender e) in
  ∃ r', c_registries c' = {[ R := r' ]} ∧ pr_reputationScore (provider_of r' (msg_sender e)) = 50 ∧
    provider_rows (stored (msg_sender e)) (w_db (followed c' w)) = [(pr_peerId old, Z.of_N (pr_reputationScore old))].
Proof.
  intros Hs Hc Hw Hp Hr Hpl old.
  destruct (scores_shown R c w Hs Hw Hp) as (r0 & Hr0 & Hrows). rewrite Hc in Hr0.
  assert (r0 = r) as -> by (by apply (inj (singletonM R)) in Hr0). clear Hr0.
  unfold reactivateProvider, Registry.load, update in Hr. run_inv. settle.
  match goal with H : c_registries c !! R = Some ?a |- _ =>
    rewrite Hc, lookup_singleton_eq in H; injection H as <- end.
  eexists. simpl. rewrite Hc, !alter_singleton_eq. split; [reflexivity|]. split.
  - unfold provider_of, at_. simpl. by rewrite !lookup_insert_eq.
  - specialize (Hrows (msg_sender e)). rewrite followed_db in * by done. simpl. rewrite foldl_app. simpl.
    unfold noted at 1. simpl. rewrite Hrows. unfold entry, old.
    match goal with H : pr_registered _ = true |- _ => rewrite H end. simpl. by rewrite Hpl.
Qed.

(** No deal of the chain reaches the table of deals: the listener inserts no row
    whatever happens, since the statement leaves out columns that must not be null. *)
Definition deal_ids (d : db) : list string := map d_deal_id (deals d).
Lemma deal_ids_update p g d : (∀ r, d_deal_id (g r) = d_deal_id r) →
  deal_ids (set_deals (update_where p g (deals d)) d) = deal_ids d.
Proof.
  intros Hg. unfold deal_ids, update_where. simpl. rewrite map_map. apply map_ext. intros r. by destruct (p r).
Qed.
Theorem chain_deals_never_listed `{Spelling} c w : deal_ids (w_db (followed c w)) = deal_ids (w_db w).
Proof.
  unfold followed. apply (preserves_for_each (λ w', deal_ids (w_db w') = deal_ids (w_db w)) (c_logs c) on_event); [|done].
  intros ev. unfold on_event. destruct (hear ev) as [e|]; [|apply preserves_ret].
  destruct e; simpl;
    unfold handleDealCreated, handleShardAssigned, handleDealCompleted, handleDealCancelled, handleShardLost,
      handleProviderRegistered, handleReputationUpdated, handlePledgeCreated, handlePoStSubmitted, handlePoStMissed,
      handleProviderSlashed, handleRewardsWithdrawn, logged, insert_event, now, exec, exec_api, require_column, add_shard, insert_checked; preserve;
      simpl in *; try done.
  all: try (by apply preserves_query).
  - unfold complete_deal. by rewrite deal_ids_update.
  - unfold cancel_deal. by rewrite deal_ids_update.
  - unfold insert_provider. by destruct (existsb _ _).
Qed.

(** ** Witnesses *)

(** A spelling: every character as eight letters, with a capital in front of names that
    start with one. *)
Definition bit_letter (b : bool) : Ascii.ascii := Ascii.ascii_of_nat (if b then 98 else 97).
Fixpoint bit_letters (s : string) : string :=
  match s with
  | EmptyString => EmptyString
  | String (Ascii.Ascii b0 b1 b2 b3 b4 b5 b6 b7) s' =>
      String (bit_letter b0) (String (bit_letter b1) (String (bit_letter b2) (String (bit_letter b3)
        (String (bit_letter b4) (String (bit_letter b5) (String (bit_letter b6) (String (bit_letter b7)
          (bit_letters s'))))))))
  end.
Definition capital_name (a : string) : bool :=
  match a with String c _ => negb (bool_decide (lower_ascii c = c)) | EmptyString => false end.
Definition demo_spell (a : address) : string := String (Ascii.ascii_of_nat (if capital_name a then 88 else 120)) (bit_letters a).

Lemma bit_letters_lower s : toLowerCase (bit_letters s) = bit_letters s.
Proof.
  assert (∀ b, lower_ascii (bit_letter b) = bit_letter b) as Hl by (by intros []).
  induction s as [|[b0 b1 b2 b3 b4 b5 b6 b7] s IH]; simpl; [done|]. by rewrite !Hl, IH.
Qed.
Lemma bit_letters_inj s : ∀ s', bit_letters s = bit_letters s' → s = s'.
Proof.
  assert (∀ b b', bit_letter b = bit_letter b' → b = b') as Hb by (by intros [] []).
  induction s as [|[b0 b1 b2 b3 b4 b5 b6 b7] s IH]; intros [|[c0 c1 c2 c3 c4 c5 c6 c7] s']; simpl; try done.
  intros E. injection E as E0 E1 E2 E3 E4 E5 E6 E7 E. apply Hb in E0, E1, E2, E3, E4, E5, E6, E7. apply IH in E.
  by subst.
Qed.
Lemma demo_spell_apart p q : toLowerCase (demo_spell p) = toLowerCase (demo_spell q) → p = q.
Proof.
  unfold demo_spell. cbn [toLowerCase]. rewrite !bit_letters_lower. intros E.
  injection E as E. by apply bit_letters_inj.
Qed.
Definition demo_spelling : Spelling := {| getAddress := demo_spell; spelled_apart := demo_spell_apart |}.

Definition empty_world : world :=
  World (Db [] [] [] [] [] [] [] [] [] [] [] []) None ∅ 1000 [] [] [] (true, true) true false committed_schema.

Lemma registry_is_mirrored_witness :
  provider_rows (demo_spell "p3") (w_db (followed (H := demo_spelling) bad_day empty_world)) = [("peer", 19%Z)] ∧
  ∃ r, c_registries market1 = {[ "R" := r ]} ∧
    ∀ p, let x := provider_of r p in
      provider_rows (toLowerCase (demo_spell p)) (w_db (followed (H := demo_spelling) market1 empty_world)) =
      if pr_registered x
      then [(pr_peerId x, Z.of_N (if bool_decide (toLowerCase (demo_spell p) = demo_spell p)
                                  then pr_reputationScore x else 50))]
      else [].
Proof.
  split; [by vm_compute|].
  apply (registry_is_mirrored (H := demo_hashing) (H0 := demo_spelling) "R" (demo_env "owner" 0) market0 market_setup
           empty_world).
  - reflexivity.
  - repeat constructor; discriminate.
  - repeat constructor; intros this k Hk; simpl in Hk; try discriminate Hk; injection Hk as _ <-; exact I || reflexivity.
  - by right.
  - reflexivity.
Defined.

(** Deactivated at 19, reactivated after the cool-down: 50 in the contract, 19 in the table. *)
Definition returned : chain :=
  snd (reactivateProvider "R" (demo_env "p3" (10 + days 7)) bad_day).
Example reactivated_row :
  pr_reputationScore (provider_of (default (registry_created (demo_env "owner" 0)) (c_registries returned !! "R")) "p3") = 50 ∧
  provider_rows (demo_spell "p3") (w_db (followed (H := demo_spelling) returned empty_world)) = [("peer", 19%Z)].
Proof. split; by vm_compute. Qed.
