(* ===== verification/Ledgers.v ===== *)
(** Pledges, penalties and withdrawals in the database against the contracts that
    announce them (services/blockchain-listener with CapacityPledge.sol,
    SlashingManager.sol and PaymentDistributor.sol). *)

From stdpp Require Import gmap.
From S2P Require Import Prelude JsNum World HealthMonitor RestApi Listener Contracts ChainRules Token Registry Pool Market Distributor Slashing Verifier Vesting Protocol Collateral Escrow Roster Mirror.

Local Open Scope N_scope.

(** A call that does not write what an invariant depends on. *)
Ltac other_calls L :=
  simpl; try solve [apply L; eauto with chain];
  match goal with
  | k : kind |- _ => destruct k; unfold transferOwnership, renounceOwnership, _transferOwnership; keep L
  | _ => idtac
  end.

(** * Pledges *)

(** Who, which, and (capacity, duration, collateral). *)
Definition pledge_terms : Type := address * N * (N * N * N).
Definition pledged (l : list pledge_terms) (ev : event) : list pledge_terms :=
  match ev with
  | PledgeCreated p i cap dur coll => l ++ [((p, i), (cap, dur, coll))]
  | _ => l
  end.

Definition terms (x : Contracts.Pledge) : N * N * N := (pg_capacityGB x, pg_duration x, pg_collateral x).

Section PledgeLog.
  Context `{Hashing} (P : address).

(** [P] is the only pledge contract, and the log lists its pledges, each once. *)
Definition pledges_logged (c : chain) : Prop :=
  ∃ pool, c_pools c = {[ P := pool ]} ∧
    let log := foldl pledged [] (c_logs c) in
    NoDup (map fst log) ∧
    ∀ p i x, ((p, i), x) ∈ log ↔ i < at_ 0 (cp_pledgeCount pool) p ∧ x = terms (getPledge pool p i).

Lemma pledges_leaves A (m : M chain A) : leaves (replayed c_pools pledged []) m → keeps pledges_logged m.
Proof.
  intros Hm c a c' (r & Hc & Hl) Hr. specialize (Hm c a c' Hr). unfold replayed in Hm.
  injection Hm as E1 E2. exists r. rewrite E1. cbv zeta. rewrite E2. done.
Qed.

(** A write that keeps the number and the terms of all pledges. *)
Definition same_terms (g : CapacityPledge → CapacityPledge) : Prop := ∀ pool,
  cp_pledgeCount (g pool) = cp_pledgeCount pool ∧ ∀ p i, terms (getPledge (g pool) p i) = terms (getPledge pool p i).
Lemma pledges_store this g : same_terms g → keeps pledges_logged (sstore this g).
Proof.
  intros Hg c a c' (pool & Hc & Hn & Hl) Hr. run_inv. unfold pledges_logged. simpl. rewrite Hc.
  destruct (decide (this = P)) as [->|Hne].
  - exists (g pool). split; [by rewrite alter_singleton_eq|]. split; [done|]. intros p i x.
    destruct (Hg pool) as [-> ->]. apply Hl.
  - exists pool. split; [|done]. by rewrite alter_singleton_ne.
Qed.
Lemma pledges_set this p i g : (∀ x, terms (g x) = terms x) → keeps pledges_logged (set_pledge this p i g).
Proof.
  intros Hg. apply pledges_store. intros pool. split; [done|]. intros q j. unfold getPledge, at_. simpl.
  destruct (decide ((q, j) = (p, i))) as [E|Hne].
  - injection E as -> ->. rewrite lookup_insert_eq. apply Hg.
  - by rewrite lookup_insert_ne.
Qed.
#[local] Hint Resolve pledges_set : chain.
#[local] Hint Extern 2 (∀ x, terms _ = terms _) => (intros x; reflexivity) : chain.

Lemma pledges_emit ev : (∀ m, pledged m ev = m) → keeps pledges_logged (emit ev).
Proof. intros Hev. apply pledges_leaves, leaves_emit. intros c. unfold replayed. by rewrite replayed_emit, Hev. Qed.
#[local] Hint Resolve pledges_emit : chain.
#[local] Hint Extern 2 (∀ m, pledged m _ = m) => (intros m; reflexivity) : chain.
#[local] Hint Extern 2 (keeps pledges_logged (sstore _ _)) => (apply pledges_store; intros ?; done) : chain.

(** A new pledge is the next of its provider. *)
Lemma pledge_added this g pool c c' who cap dur coll :
  pledges_logged c → c_pools c !! this = Some pool → c_pools c' = alter g this (c_pools c) →
  let i := at_ 0 (cp_pledgeCount pool) who in
  c_logs c' = c_logs c ++ [PledgeCreated who i cap dur coll] →
  cp_pledgeCount (g pool) = <[who := i + 1]> (cp_pledgeCount pool) →
  (∀ p j, terms (getPledge (g pool) p j) =
     if decide ((p, j) = (who, i)) then (cap, dur, coll) else terms (getPledge pool p j)) →
  pledges_logged c'.
Proof.
  intros (pool0 & Hc & Hn & Hl) Ht Hp i Hlog Hcount Hterms. rewrite Hc in Ht.
  apply lookup_singleton_Some in Ht as [<- ->]. exists (g pool). split; [by rewrite Hp, Hc, alter_singleton_eq|].
  cbv zeta. rewrite Hlog, foldl_app. simpl. split.
  - rewrite map_app. apply NoDup_app. split; [done|]. split; [|apply NoDup_singleton].
    intros k Hk Hnew%list_elem_of_singleton. simpl in Hnew. subst k.
    apply list_elem_of_fmap in Hk as ([[q j] x] & E & Hx). simpl in E. injection E as <- <-.
    apply Hl in Hx as [Hx _]. subst i. lia.
  - intros q j x. rewrite elem_of_app, list_elem_of_singleton, Hl, Hcount, Hterms. unfold at_ at 2.
    destruct (decide (q = who)) as [->|Hq].
    + rewrite lookup_insert_eq. simpl. fold i. case_decide as Hj.
      * injection Hj as ->. naive_solver lia.
      * assert (j ≠ i) by congruence. naive_solver lia.
    + rewrite lookup_insert_ne by done. rewrite decide_False by congruence. unfold at_. naive_solver.
Qed.
Lemma pledges_create this e cap dur coll : keeps pledges_logged (createPledge this e cap dur coll).
Proof.
  intros c u c' Hc Hr. unfold createPledge, Pool.load, set_pledge, calculateMinimumCollateral in Hr.
  next Hr z0 c0 H0. run_step H0. next Hr mult c1 H1.
  assert (c1 = c) as -> by (destruct (multiplier_of dur); by run_inv).
  next Hr min c2 H2. run_inv.
  match goal with H : transferFrom _ _ _ _ _ _ = (Ok _, ?c3) |- _ =>
    assert (pledges_logged c3) as Hc3 by
      (eapply pledges_leaves; [|exact Hc|exact H]; apply leaves_token_transferFrom; typeclasses eauto);
    match goal with Hp : slot c3 !! this = Some ?pool |- _ =>
      eapply (pledge_added this _ pool c3 _ (msg_sender e) cap dur coll Hc3 Hp) end end.
  - simpl. rewrite !alter_alter_eq. reflexivity.
  - reflexivity.
  - reflexivity.
  - intros p j. unfold getPledge, at_, compose. simpl. case_decide as E.
    + injection E as -> ->. by rewrite lookup_insert_eq.
    + by rewrite lookup_insert_ne.
Qed.
#[local] Hint Resolve pledges_create : chain.

Lemma pledges_run_pool e this k : keeps pledges_logged (run_pool e this k).
Proof.
  destruct k; [apply pledges_create|..]; open_pool; keep pledges_leaves.
  all: try solve [apply pledges_set; intros x; reflexivity | by apply pledges_store].
Qed.
Lemma pledges_run_call e k : keeps pledges_logged (run_call e k).
Proof.
  destruct k as [| |this k| | | | | |k ? ?|k ?]; other_calls pledges_leaves; try apply pledges_run_pool; by apply pledges_store.
Qed.
Lemma pledges_txs txs c : pledges_logged c → pledges_logged (apply_txs c txs).
Proof.
  apply (apply_txs_keeps pledges_logged (λ _ _, True)); [intros; apply pledges_run_call|by apply Forall_true].
Qed.
End PledgeLog.

(** * Penalties *)

Definition slashed (m : gmap address N) (ev : event) : gmap address N :=
  match ev with ProviderSlashed p n _ => <[p := at_ 0 m p + n]> m | _ => m end.

Section SlashLog.
  Context `{Hashing} (S : address).

(** [S] is the only slashing contract, and the log adds up to its totals. *)
Definition slashes_logged (c : chain) : Prop :=
  ∃ s, c_slashers c = {[ S := s ]} ∧
    ∀ p, at_ 0 (foldl slashed ∅ (c_logs c)) p = ps_totalSlashed (getPenaltyState s p).

Lemma slashes_leaves A (m : M chain A) : leaves (replayed c_slashers slashed ∅) m → keeps slashes_logged m.
Proof.
  intros Hm c a c' (s & Hc & Hl) Hr. specialize (Hm c a c' Hr). unfold replayed in Hm.
  injection Hm as E1 E2. exists s. rewrite E1, E2. done.
Qed.
Lemma slashes_store this g :
  (∀ s p, ps_totalSlashed (getPenaltyState (g s) p) = ps_totalSlashed (getPenaltyState s p)) →
  keeps slashes_logged (sstore this g).
Proof.
  intros Hg c a c' (s & Hc & Hl) Hr. run_inv. unfold slashes_logged. simpl. rewrite Hc.
  destruct (decide (this = S)) as [->|Hne].
  - exists (g s). split; [by rewrite alter_singleton_eq|]. intros p. by rewrite Hl, Hg.
  - exists s. split; [|done]. by rewrite alter_singleton_ne.
Qed.
Lemma state_of_set s p f q :
  getPenaltyState (with_sm_penaltyStates (λ m, <[p := f (at_ penalty0 m p)]> m) s) q
  = if decide (q = p) then f (getPenaltyState s p) else getPenaltyState s q.
Proof.
  unfold getPenaltyState, at_. simpl. case_decide as Hq; [subst; by rewrite lookup_insert_eq|].
  by rewrite lookup_insert_ne.
Qed.
Lemma slashes_set this p f : (∀ x, ps_totalSlashed (f x) = ps_totalSlashed x) → keeps slashes_logged (set_state this p f).
Proof.
  intros Hf. apply slashes_store. intros s q. rewrite state_of_set. case_decide; [subst; apply Hf|done].
Qed.
#[local] Hint Resolve slashes_set : chain.
#[local] Hint Extern 2 (∀ x, ps_totalSlashed _ = ps_totalSlashed _) => (intros x; reflexivity) : chain.
#[local] Hint Extern 2 (keeps slashes_logged (sstore _ _)) => (apply slashes_store; intros ? ?; done) : chain.

Lemma slashes_emit ev : (∀ m, slashed m ev = m) → keeps slashes_logged (emit ev).
Proof. intros Hev. apply slashes_leaves, leaves_emit. intros c. unfold replayed. by rewrite replayed_emit, Hev. Qed.
#[local] Hint Resolve slashes_emit : chain.
#[local] Hint Extern 2 (∀ m, slashed m _ = m) => (intros m; reflexivity) : chain.

Lemma slash_added this g s c c' p n reason :
  slashes_logged c → c_slashers c !! this = Some s → c_slashers c' = alter g this (c_slashers c) →
  c_logs c' = c_logs c ++ [ProviderSlashed p n reason] →
  (∀ q, ps_totalSlashed (getPenaltyState (g s) q) =
     ps_totalSlashed (getPenaltyState s q) + if decide (q = p) then n else 0) →
  slashes_logged c'.
Proof.
  intros (s0 & Hc & Hl) Ht Hs Hlog Hg. rewrite Hc in Ht. apply lookup_singleton_Some in Ht as [<- ->].
  exists (g s). split; [by rewrite Hs, Hc, alter_singleton_eq|]. intros q. rewrite Hlog, foldl_app. simpl.
  rewrite Hg, <- Hl. unfold at_ at 1. case_decide as Hq; [subst; by rewrite lookup_insert_eq|].
  rewrite lookup_insert_ne by done. unfold at_. lia.
Qed.
Lemma slashes_apply this e p n reason : keeps slashes_logged (_applySlashing this e p n reason).
Proof.
  intros c u c' Hc Hr. unfold _applySlashing, Slashing.load, set_state, Slashing.store in Hr.
  next Hr s c0 Hs. apply sload_returns in Hs as [Hs ->]. simpl in Hs. next Hr z c1 Hb.
  pose proof (leaves_token_burnFrom c_slashers _ _ _ _ _ _ _ Hb) as Eb. rewrite <- Eb in Hs.
  assert (slashes_logged c1) as Hc1.
  { eapply slashes_leaves; [|exact Hc|exact Hb]. apply leaves_token_burnFrom; typeclasses eauto. }
  cbv zeta in Hr. next Hr total c2 H2. run_step H2. next Hr y c3 H3. next Hr since c4 H4. run_step H4.
  next Hr count c5 H5. assert (c5 = c3) as -> by (destruct (_ <=? _) in H5; by run_inv). clear H5. run_inv.
  eapply (slash_added this _ s c1 _ p n reason Hc1 Hs).
  - simpl. rewrite !alter_alter_eq. reflexivity.
  - reflexivity.
  - intros q. unfold getPenaltyState, at_. simpl. case_decide as Hq.
    + subst q. by rewrite !lookup_insert_eq.
    + rewrite !lookup_insert_ne by done. lia.
Qed.
#[local] Hint Resolve slashes_apply : chain.

Lemma slashes_run e this k : keeps slashes_logged (run_slashing e this k).
Proof.
  destruct k; unfold run_slashing, slashMissedPost, slashDataLoss, slashEarlyExit, submitAppeal, resolveAppeal,
    _deregisterProvider, calculateRepeatMultiplier, set_record, Slashing.load, Slashing.store; keep slashes_leaves.
Qed.
Lemma slashes_run_call e k : keeps slashes_logged (run_call e k).
Proof.
  destruct k as [| | | | |this k| | |k ? ?|k ?]; other_calls slashes_leaves; try apply slashes_run; by apply slashes_store.
Qed.
Lemma slashes_txs txs c : slashes_logged c → slashes_logged (apply_txs c txs).
Proof.
  apply (apply_txs_keeps slashes_logged (λ _ _, True)); [intros; apply slashes_run_call|by apply Forall_true].
Qed.
End SlashLog.

(** * Withdrawals *)

Definition withdrawn (m : gmap address N) (ev : event) : gmap address N :=
  match ev with RewardsWithdrawn p n => <[p := at_ 0 m p + n]> m | _ => m end.

Section WithdrawalLog.
  Context `{Hashing} (D : address).

(** [D] is the only distributor; its totals are those of the log, but for [n] that [p]
    is being paid. *)
Definition paying (p : address) (n : N) (c : chain) : Prop :=
  ∃ d, c_distributors c = {[ D := d ]} ∧
    ∀ q, er_totalWithdrawn (earnings_of d q) =
         at_ 0 (foldl withdrawn ∅ (c_logs c)) q + if decide (q = p) then n else 0.
Definition withdrawals_logged : chain → Prop := paying "" 0.

Lemma paying_nothing p q c : paying p 0 c → paying q 0 c.
Proof.
  intros (d & Hd & Hl). exists d. split; [done|]. intros x. rewrite Hl. repeat case_decide; lia.
Qed.

Section Paying.
  Context (p : address) (n : N).
Lemma paying_leaves A (m : M chain A) : leaves (replayed c_distributors withdrawn ∅) m → keeps (paying p n) m.
Proof.
  intros Hm c a c' (d & Hc & Hl) Hr. specialize (Hm c a c' Hr). unfold replayed in Hm.
  injection Hm as E1 E2. exists d. rewrite E1, E2. done.
Qed.
Lemma paying_store this g :
  (∀ d q, er_totalWithdrawn (earnings_of (g d) q) = er_totalWithdrawn (earnings_of d q)) →
  keeps (paying p n) (sstore this g).
Proof.
  intros Hg c a c' (d & Hc & Hl) Hr. run_inv. unfold paying. simpl. rewrite Hc.
  destruct (decide (this = D)) as [->|Hne].
  - exists (g d). split; [by rewrite alter_singleton_eq|]. intros q. by rewrite Hg, Hl.
  - exists d. split; [|done]. by rewrite alter_singleton_ne.
Qed.
Lemma paying_set this q f :
  (∀ x, er_totalWithdrawn (f x) = er_totalWithdrawn x) → keeps (paying p n) (set_earnings this q f).
Proof.
  intros Hf. apply paying_store. intros d x. unfold earnings_of, at_. simpl.
  destruct (decide (x = q)) as [->|Hx]; [rewrite lookup_insert_eq; apply Hf|by rewrite lookup_insert_ne].
Qed.
Lemma paying_emit ev : (∀ m, withdrawn m ev = m) → keeps (paying p n) (emit ev).
Proof. intros Hev. apply paying_leaves, leaves_emit. intros c. unfold replayed. by rewrite replayed_emit, Hev. Qed.
End Paying.
#[local] Hint Resolve paying_set paying_emit : chain.
#[local] Hint Extern 2 (∀ x, er_totalWithdrawn _ = er_totalWithdrawn _) => (intros x; reflexivity) : chain.
#[local] Hint Extern 2 (∀ m, withdrawn m _ = m) => (intros m; reflexivity) : chain.
#[local] Hint Extern 2 (keeps (paying _ _) (sstore _ _)) => (apply paying_store; intros ? ?; done) : chain.
#[local] Hint Extern 2 (keeps (paying _ _) (Distributor.store _ _)) => (apply paying_store; intros ? ?; done) : chain.

(** The two ends of a payment. *)
Lemma payment_begins this p x n d c u c' :
  withdrawals_logged c → c_distributors c !! this = Some d → x = er_totalWithdrawn (earnings_of d p) + n →
  set_earnings this p (with_er_totalWithdrawn (λ _, x)) c = (Ok u, c') → paying p n c'.
Proof.
  intros (d0 & Hc & Hl)%(paying_nothing "" p) Ht Hx Hr. rewrite Hc in Ht. apply lookup_singleton_Some in Ht as [<- ->].
  unfold set_earnings, Distributor.store in Hr. run_inv. unfold paying. simpl. rewrite Hc, alter_singleton_eq.
  eexists. split; [done|]. intros q. specialize (Hl q). unfold earnings_of, at_ in *. simpl.
  destruct (decide (q = p)) as [->|Hq]; [rewrite lookup_insert_eq; simpl; lia|by rewrite lookup_insert_ne].
Qed.
Lemma payment_ends p n c u c' : paying p n c → emit (RewardsWithdrawn p n) c = (Ok u, c') → withdrawals_logged c'.
Proof.
  intros (d & Hc & Hl) Hr. run_inv. apply (paying_nothing p ""). exists d. split; [done|]. intros q. simpl.
  rewrite Hl, foldl_app. simpl. unfold at_.
  destruct (decide (q = p)) as [->|Hq]; [rewrite lookup_insert_eq; simpl; lia|by rewrite lookup_insert_ne].
Qed.

Lemma withdrawals_withdraw this e : keeps withdrawals_logged (withdrawEarnings this e).
Proof.
  intros c u c' Hc Hr. unfold withdrawEarnings, Distributor.guarded in Hr.
  apply nonReentrant_returns in Hr as (d & c1 & Hd & _ & Hr & ->). simpl in Hd.
  set (c0 := with_slot _ c) in Hr.
  assert (withdrawals_logged c0) as H0 by (by eapply (paying_store "" 0); [|exact Hc|reflexivity]).
  assert (withdrawals_logged c1) as H1; [|by eapply (paying_store "" 0); [|exact H1|reflexivity]].
  clearbody c0. clear Hc Hd. unfold Distributor.load in Hr. next Hr d0 c2 Hl. apply sload_returns in Hl as [Hl ->].
  cbv zeta in Hr. next Hr n c3 Hn. run_step Hn. next Hr y c4 Hy. run_step Hy. next Hr x c5 Hx. run_step Hx.
  next Hr z c6 Hz. eapply (payment_begins _ _ _ _ d0) in Hz; [|done|done|reflexivity].
  next Hr z1 c7 Hz1. eapply paying_set in Hz1; [|done|exact Hz].
  next Hr ok c8 Ht. eapply paying_leaves in Ht; [|apply leaves_token_transfer; typeclasses eauto|exact Hz1].
  next Hr z2 c9 Hok. run_step Hok. by eapply payment_ends.
Qed.
#[local] Hint Resolve withdrawals_withdraw : chain.

Lemma withdrawals_run e this k : keeps withdrawals_logged (run_distributor e this k).
Proof.
  unfold withdrawals_logged. destruct k; [..|apply withdrawals_withdraw| | |]; open_distributor; keep (paying_leaves "" 0).
Qed.
Lemma withdrawals_run_call e k : keeps withdrawals_logged (run_call e k).
Proof.
  unfold withdrawals_logged. destruct k as [| | | |this k| | | |k ? ?|k ?]; other_calls (paying_leaves "" 0);
    try apply withdrawals_run; by apply paying_store.
Qed.
Lemma withdrawals_txs txs c : withdrawals_logged c → withdrawals_logged (apply_txs c txs).
Proof.
  apply (apply_txs_keeps withdrawals_logged (λ _ _, True)); [intros; apply withdrawals_run_call|by apply Forall_true].
Qed.
End WithdrawalLog.

(** * The database against the contracts *)

Lemma replay_silent {A} (step : A → event → A) b a log :
  (∀ a ev, emitter_of ev ≠ b → step a ev = a) → Forall (λ ev, emitter_of ev ≠ b) log → foldl step a log = a.
Proof. intros Hs. induction 1 as [|ev log Hev _ IH]; simpl; [done|]. by rewrite Hs. Qed.

(** * The tables *)

Section Tables.
  Context `{Spelling} (t : Z) (sc : schema) (Hfk : sc_foreign_keys sc = true).

(** ** Who is registered *)

(** The log has a registration of [p] that fits the table. *)
Definition registers (p : address) (ev : event) : bool :=
  match ev with ProviderRegistered q peer region => bool_decide (q = p) && fits peer region | _ => false end.
Definition heard (log : list event) (p : address) : bool := existsb (registers p) log.

(** Every event that concerns [p] comes after its registration. *)
Fixpoint in_order (concerns : event → bool) (p : address) (seen : bool) (log : list event) : bool :=
  match log with
  | [] => true
  | ev :: log' => implb (concerns ev) seen && in_order concerns p (seen || registers p ev) log'
  end.
Definition registered_first (concerns : event → bool) (p : address) (log : list event) : Prop :=
  in_order concerns p false log = true.

Lemma registered_first_snoc concerns p log ev :
  registered_first concerns p (log ++ [ev]) →
  registered_first concerns p log ∧ (concerns ev = true → heard log p = true).
Proof.
  unfold registered_first, heard. assert (∀ seen, in_order concerns p seen (log ++ [ev]) =
    in_order concerns p seen log && implb (concerns ev) (seen || existsb (registers p) log)) as ->.
  { induction log as [|x log IH]; intros seen; simpl.
    - by rewrite orb_false_r, andb_true_r.
    - by rewrite IH, andb_assoc, orb_assoc. }
  intros [H1 H2]%andb_prop. split; [done|]. intros E. by rewrite E in H2.
Qed.

(** The rows of providers are those of the registrations heard so far. *)
Definition shows_known (log : list event) (d : db) : Prop :=
  lower_rows d ∧ ∀ p, known_provider (stored p) d = heard log p.

Lemma known_insert a row d :
  known_provider a (insert_provider row d) = known_provider a d || bool_decide (p_address row = a).
Proof.
  unfold insert_provider. destruct (existsb _ (providers d)) eqn:E.
  - case_bool_decide as Ha; [|by rewrite orb_false_r]. subst a. unfold known_provider.
    unfold same_text in E. by rewrite E.
  - unfold known_provider. simpl. rewrite existsb_app. simpl. by rewrite orb_false_r.
Qed.
Lemma known_update a q g d : (∀ r, p_address (g r) = p_address r) →
  known_provider a (set_providers (update_where q g (providers d)) d) = known_provider a d.
Proof.
  intros Hg. unfold known_provider, update_where. simpl. induction (providers d) as [|r l IH]; simpl; [done|].
  rewrite IH. by destruct (q r); rewrite ?Hg.
Qed.

Lemma shows_known_step log ev d : shows_known log d → shows_known (log ++ [ev]) (noted t sc d ev).
Proof.
  intros [Hd Hk]. split; [by apply lower_rows_noted|]. intros p. unfold heard. rewrite existsb_app. simpl.
  fold (heard log p). rewrite <- Hk, orb_false_r. unfold noted.
  destruct ev; simpl; rewrite ?orb_false_r; try done; try (repeat case_match; done).
  - destruct (fits peerId region) eqn:Hfit.
    + rewrite (proj2 (fits_refused _ _ sc d) Hfit), known_insert. simpl. rewrite andb_true_r. f_equal.
      apply bool_decide_ext. fold (stored provider). split; [apply stored_inj|by intros ->].
    + rewrite andb_false_r, orb_false_r. destruct (provider_refused _ _ _ _) eqn:E; [done|].
      apply fits_refused in E. congruence.
  - by apply known_update.
  - by apply known_update.
Qed.

(** Under the spelling of the events only plain addresses are known. *)
Lemma known_spelled log d p : shows_known log d → known_provider (getAddress p) d = plain p && heard log p.
Proof.
  intros [Hd Hk]. destruct (plain p) eqn:Hp.
  - apply bool_decide_eq_true in Hp. simpl. by rewrite <- Hk, Hp.
  - apply bool_decide_eq_false in Hp. by apply unmatched_unknown.
Qed.

(** Invariants of the tables by the log handled so far. *)
Lemma follow_prefix (shows : list event → db → Prop) log :
  (∀ l ev d, shows_known l d → shows l d → shows (l ++ [ev]) (noted t sc d ev)) →
  ∀ d, providers d = [] → shows [] d → shows log (foldl (noted t sc) d log).
Proof.
  intros Hs d Hp H0.
  assert (foldl (λ l ev, l ++ [ev]) [] log = log) as E.
  { assert (∀ l0, foldl (λ l ev, l ++ [ev]) l0 log = l0 ++ log) as ->; [|done].
    induction log as [|ev log IH]; intros l0; simpl; [by rewrite app_nil_r|]. by rewrite IH, <- app_assoc. }
  rewrite <- E at 1.
  apply (follow_chain (λ l ev, l ++ [ev]) (λ l d, shows_known l d ∧ shows l d)); [|split; [split|done]].
  - intros l ev d' [Hk Hl]. split; [by apply shows_known_step|by apply Hs].
  - unfold lower_rows. by rewrite Hp.
  - intros p. unfold known_provider. by rewrite Hp.
Qed.

(** ** Pledges *)

Definition row_of (x : pledge_terms) : string * Z * (Z * Z * Z) :=
  let '((p, i), (cap, dur, coll)) := x in
  ((getAddress p, Z.of_N i), (Z.of_N cap, Z.of_N dur, Z.of_N coll)).
Definition terms_of_row (r : pledge_row) : string * Z * (Z * Z * Z) :=
  ((pl_provider_address r, pl_pledge_id r), (pl_capacity_gb r, pl_duration_seconds r, pl_collateral r)).
Definition pledge_rows (d : db) : list (string * Z * (Z * Z * Z)) := map terms_of_row (pledges d).

Definition pledge_by (p : address) (ev : event) : bool :=
  match ev with PledgeCreated q _ _ _ _ => bool_decide (q = p) | _ => false end.
(** Number and duration fit the INTEGER columns. *)
Definition storable (x : pledge_terms) : bool := int4 (Z.of_N (snd (fst x))) && int4 (Z.of_N (snd (fst (snd x)))).

Definition shows_pledges (log : list event) (d : db) : Prop :=
  let all := foldl pledged [] log in
  NoDup (map fst all) →
  NoDup (map fst (pledge_rows d)) ∧
  (∀ row, row ∈ pledge_rows d → ∃ x, x ∈ all ∧ plain (fst (fst x)) = true ∧ row = row_of x) ∧
  (∀ x, x ∈ all → plain (fst (fst x)) = true → storable x = true →
     registered_first (pledge_by (fst (fst x))) (fst (fst x)) log → row_of x ∈ pledge_rows d).

Lemma plain_spelled p q : plain p = true → plain q = true → getAddress p = getAddress q → p = q.
Proof. intros Hp%bool_decide_eq_true Hq%bool_decide_eq_true E. apply stored_inj. congruence. Qed.

Lemma row_key x y : plain (fst (fst x)) = true → plain (fst (fst y)) = true →
  fst (row_of x) = fst (row_of y) → fst x = fst y.
Proof.
  destruct x as [[p i] [[a b] c]], y as [[q j] [[a' b'] c']]. simpl. intros Hp Hq E. injection E as E Ei.
  apply N2Z.inj in Ei. by rewrite (plain_spelled p q Hp Hq E), Ei.
Qed.

(** The key of capacity_pledges refuses no pledge that is made for the first time. *)
Lemma pledge_is_new log d p i cap dur coll :
  shows_pledges log d → NoDup (map fst (foldl pledged [] log ++ [((p, i), (cap, dur, coll))])) → plain p = true →
  existsb (λ r, same_text (pl_provider_address r) (getAddress p) && (pl_pledge_id r =? Z.of_N i)%Z) (pledges d) = false.
Proof.
  intros Hs Hnd Hp. rewrite map_app in Hnd. apply NoDup_app in Hnd as (Hnd & Hnew & _).
  destruct (Hs Hnd) as (_ & Hsound & _). apply not_true_iff_false.
  intros (r & Hr & [Ha Hi]%andb_prop)%existsb_exists. apply list_elem_of_In in Hr.
  apply bool_decide_eq_true in Ha. apply Z.eqb_eq in Hi.
  destruct (Hsound (terms_of_row r)) as (x & Hx & Hpx & E); [by apply (list_elem_of_fmap_2 terms_of_row)|].
  apply (Hnew (p, i)); [|by left].
  assert (fst x = (p, i)) as <-; [|by apply (list_elem_of_fmap_2 fst)].
  apply (row_key x ((p, i), (cap, dur, coll)) Hpx Hp). rewrite <- E. simpl. by rewrite Ha, Hi.
Qed.

(** An event that leaves the rows as they are keeps the claim, unless it is a pledge
    that belongs there. *)
Lemma pledges_unchanged log ev d d' :
  pledge_rows d' = pledge_rows d → shows_pledges log d →
  (∀ x, pledged (foldl pledged [] log) ev = foldl pledged [] log ++ [x] →
     plain (fst (fst x)) = true → storable x = true →
     pledge_by (fst (fst x)) ev = true ∧ heard log (fst (fst x)) = false) →
  shows_pledges (log ++ [ev]) d'.
Proof.
  intros Hrows Hs Hx. unfold shows_pledges. rewrite foldl_app, Hrows. cbn [foldl]. intros Hnd.
  assert (pledged (foldl pledged [] log) ev = foldl pledged [] log ∨
          ∃ x, pledged (foldl pledged [] log) ev = foldl pledged [] log ++ [x]) as [E|[x E]]
    by (destruct ev; simpl; eauto).
  all: rewrite E in *; cbv zeta.
  - destruct (Hs Hnd) as (H1 & H2 & H3). split_and!; [done|done|].
    intros y Hy Hp Hi [Hf _]%registered_first_snoc. by apply H3.
  - rewrite map_app in Hnd. apply NoDup_app in Hnd as (Hnd & _). destruct (Hs Hnd) as (H1 & H2 & H3). split_and!; [done| |].
    + intros row Hr. destruct (H2 row Hr) as (y & Hy & Hrest). exists y. rewrite elem_of_app. auto.
    + intros y Hy Hp Hi [Hf Hh]%registered_first_snoc.
      apply elem_of_app in Hy as [Hy|Hy%list_elem_of_singleton]; [by apply H3|]. subst y.
      destruct (Hx x eq_refl Hp Hi) as [Hc Hno]. rewrite Hh in Hno by done. done.
Qed.

(** A pledge that belongs there and is added. *)
Lemma pledges_added log d p i cap dur coll row :
  let x := ((p, i), (cap, dur, coll)) in
  shows_pledges log d → plain p = true → terms_of_row row = row_of x →
  shows_pledges (log ++ [PledgeCreated p i cap dur coll]) (set_pledges (pledges d ++ [row]) d).
Proof.
  intros x Hs Hp Hrow. unfold shows_pledges. rewrite foldl_app. cbn [foldl pledged]. fold x. cbv zeta. intros Hnd.
  rewrite map_app in Hnd. apply NoDup_app in Hnd as (Hnd & Hnew & _). destruct (Hs Hnd) as (H1 & H2 & H3).
  assert (pledge_rows (set_pledges (pledges d ++ [row]) d) = pledge_rows d ++ [row_of x]) as ->.
  { unfold pledge_rows. cbn [pledges set_pledges]. rewrite map_app. cbn [map]. by rewrite Hrow. }
  rewrite map_app. cbn [map]. split_and!.
  - apply NoDup_app. split; [done|]. split; [|apply NoDup_singleton].
    intros k Hkin Hkx. apply list_elem_of_singleton in Hkx. subst k.
    apply list_elem_of_fmap in Hkin as (row' & Hrow' & Hr). destruct (H2 row' Hr) as (y & Hy & Hpy & ->).
    apply (row_key x y Hp Hpy) in Hrow'. apply (Hnew (fst y)); [by apply (list_elem_of_fmap_2 fst)|].
    rewrite <- Hrow'. by left.
  - intros row'. rewrite elem_of_app, list_elem_of_singleton. intros [Hr| ->].
    + destruct (H2 row' Hr) as (y & Hy & Hrest). exists y. rewrite elem_of_app. auto.
    + exists x. rewrite elem_of_app. split; [right; by left|done].
  - intros y. rewrite !elem_of_app. intros [Hy|Hy%list_elem_of_singleton] Hpy Hi [Hf _]%registered_first_snoc.
    + left. by apply H3.
    + subst y. right. by left.
Qed.

Lemma shows_pledges_step log ev d :
  shows_known log d → shows_pledges log d → shows_pledges (log ++ [ev]) (noted t sc d ev).
Proof.
  intros Hk Hs. destruct ev.
  all: try (apply (pledges_unchanged _ _ d);
    [unfold noted; simpl; repeat case_match; unfold insert_provider; repeat case_match; done|done|];
    intros x E; simpl in E; by apply (f_equal length) in E; rewrite length_app in E; simpl in E; lia).
  unfold noted. simpl. unfold pledge_refused, unknown_provider. simpl.
  rewrite Hfk, (known_spelled log d provider Hk). simpl.
  destruct (negb (int4 (Z.of_N pledgeId)) || negb (int4 (Z.of_N duration))) eqn:Ei; simpl.
  { apply (pledges_unchanged _ _ d); [done|done|]. intros x E _ Hi. apply app_inv_head in E. injection E as <-.
    unfold storable in Hi. simpl in Hi. apply andb_prop in Hi as [Hi1 Hi2]. by rewrite Hi1, Hi2 in Ei. }
  destruct (existsb _ (pledges d)) eqn:Ex; [|destruct (plain provider && heard log provider) eqn:Ek; simpl].
  - intros Hnd0. pose proof Hnd0 as Hnd. rewrite foldl_app in Hnd. simpl in Hnd.
    destruct (plain provider) eqn:Hp; [by rewrite (pledge_is_new log d provider pledgeId capacityGB duration collateral) in Ex|].
    revert Hnd0. change (shows_pledges (log ++ [PledgeCreated provider pledgeId capacityGB duration collateral]) d).
    apply (pledges_unchanged _ _ d); [done|done|]. intros x E Hpx. apply app_inv_head in E. injection E as <-.
    simpl in Hpx. congruence.
  - apply andb_prop in Ek as [Hp _]. by apply pledges_added.
  - apply (pledges_unchanged _ _ d); [done|done|]. intros x E Hpx _. apply app_inv_head in E. injection E as <-.
    simpl in *. rewrite Hpx in Ek. split; [by apply bool_decide_eq_true|done].
Qed.

(** ** Sums *)

(** What the database adds up for a provider, out of what the events announced in all. *)
Definition kept (concerns : event → bool) (p : address) (log : list event) (sum announced : Z) : Prop :=
  (0 ≤ sum ≤ announced)%Z ∧ (plain p = false → sum = 0%Z) ∧
  (plain p = true → registered_first concerns p log → sum = announced).

Section Sums.
  Context (amount : event → option (address * N)) (step : gmap address N → event → gmap address N)
    (total : string → db → Z).
  Context (step_is : ∀ m ev, step m ev = match amount ev with Some (p, n) => <[p := at_ 0 m p + n]> m | None => m end)
    (total_is : ∀ a d ev, total a (noted t sc d ev) =
       (total a d + match amount ev with
                    | Some (p, n) => if known_provider (getAddress p) d && bool_decide (getAddress p = a) then Z.of_N n else 0
                    | None => 0
                    end)%Z).

Definition amount_of (p : address) (ev : event) : bool :=
  match amount ev with Some (q, _) => bool_decide (q = p) | None => false end.

Lemma kept_step log ev d :
  shows_known log d → (∀ p, kept (amount_of p) p log (total (getAddress p) d) (Z.of_N (at_ 0 (foldl step ∅ log) p))) →
  ∀ p, kept (amount_of p) p (log ++ [ev]) (total (getAddress p) (noted t sc d ev))
         (Z.of_N (at_ 0 (foldl step ∅ (log ++ [ev])) p)).
Proof using step_is total_is.
  intros Hk Hs p. specialize (Hs p). destruct Hs as (Hle & Hcap & Heq). rewrite foldl_app. simpl.
  rewrite total_is, step_is.
  destruct (amount ev) as [[q n]|] eqn:Ea.
  2: { rewrite Z.add_0_r. split_and!; [lia..|done|].
       intros Hp [Hf _]%registered_first_snoc. by apply Heq. }
  rewrite (known_spelled log d q Hk).
  assert (∀ m : gmap address N, at_ 0 (<[q := at_ 0 m q + n]> m) p = at_ 0 m p + if decide (q = p) then n else 0) as E.
  { intros m. unfold at_. case_decide as E; [subst; by rewrite lookup_insert_eq|].
    rewrite lookup_insert_ne by done. lia. }
  rewrite E. clear E. case_decide as Hne; [subst q|].
  - rewrite (bool_decide_eq_true_2 (getAddress p = getAddress p)) by done. rewrite andb_true_r.
    split_and!.
    1-2: destruct (plain p && heard log p); lia.
    + intros Hp. rewrite Hp. simpl. rewrite (Hcap Hp). lia.
    + intros Hp [Hf Hh]%registered_first_snoc. rewrite Hp, (Heq Hp Hf). simpl.
      rewrite Hh by (unfold amount_of; rewrite Ea; by apply bool_decide_eq_true). lia.
  - rewrite N.add_0_r.
    assert (plain q && heard log q && bool_decide (getAddress q = getAddress p) = true → plain p = false) as Hdiff.
    { intros [[Hq _]%andb_prop E]%andb_prop. apply bool_decide_eq_true in E.
      apply not_true_iff_false. intros Hp. by apply Hne, plain_spelled. }
    assert (plain q && heard log q && bool_decide (getAddress q = getAddress p) = false) as ->.
    { apply not_true_iff_false. intros E. pose proof (Hdiff E) as Hp.
      apply andb_prop in E as [[Hq _]%andb_prop E]. apply bool_decide_eq_true in E.
      apply bool_decide_eq_true in Hq. apply bool_decide_eq_false in Hp. apply Hp. unfold stored in *. congruence. }
    rewrite Z.add_0_r. split_and!; [lia..|done|].
    intros Hp [Hf _]%registered_first_snoc. by apply Heq.
Qed.
End Sums.
End Tables.

Definition slash_amount (ev : event) : option (address * N) :=
  match ev with ProviderSlashed p n _ => Some (p, n) | _ => None end.
Definition withdrawal_amount (ev : event) : option (address * N) :=
  match ev with RewardsWithdrawn p n => Some (p, n) | _ => None end.
Definition withdrawn_total (p : string) (d : db) : Z :=
  foldr Z.add 0%Z (map wd_amount (where_ (λ r, same_text (wd_provider_address r) p) (withdrawals d))).

Lemma slashed_total_noted `{Spelling} t sc a d ev : sc_foreign_keys sc = true →
  slashed_total a (noted t sc d ev) =
  (slashed_total a d + match slash_amount ev with
                       | Some (p, n) => if known_provider (getAddress p) d && bool_decide (getAddress p = a) then Z.of_N n else 0
                       | None => 0
                       end)%Z.
Proof.
  intros Hfk. unfold noted. destruct ev; simpl; try (repeat case_match; unfold insert_provider; repeat case_match;
    unfold slashed_total; simpl; lia).
  unfold unknown_provider. rewrite Hfk. simpl. destruct (known_provider _ d); simpl; [|lia].
  rewrite slashed_total_app. simpl. unfold same_text. by case_bool_decide.
Qed.
Lemma withdrawn_total_noted `{Spelling} t sc a d ev : sc_foreign_keys sc = true →
  withdrawn_total a (noted t sc d ev) =
  (withdrawn_total a d + match withdrawal_amount ev with
                         | Some (p, n) => if known_provider (getAddress p) d && bool_decide (getAddress p = a) then Z.of_N n else 0
                         | None => 0
                         end)%Z.
Proof.
  intros Hfk. unfold noted. destruct ev; simpl; try (repeat case_match; unfold insert_provider; repeat case_match;
    unfold withdrawn_total; simpl; lia).
  unfold unknown_provider. rewrite Hfk. simpl. destruct (known_provider _ d); simpl; [|lia].
  unfold withdrawn_total. simpl. rewrite where_app, map_app, sum_app. unfold where_ at 2. simpl. unfold same_text at 2.
  case_bool_decide; simpl; lia.
Qed.

(** * The database against the contracts *)


(** The table does not follow the end of a pledge: every row stays active, whatever the
    contract did with the pledge since. *)
Theorem ended_pledges_stay_active `{Spelling} c w :
  db_answers w → Forall (λ r, pl_active r = true) (pledges (w_db w)) →
  Forall (λ r, pl_active r = true) (pledges (w_db (followed c w))).
Proof.
  intros Hw Hp. rewrite followed_db by done.
  apply (follow_chain (λ (_ : unit) _, tt) (λ _ d, Forall (λ r, pl_active r = true) (pledges d))) with (a := tt); [|done..].
  intros _ ev d Ha. unfold noted. destruct (hear ev) as [ch|]; [|done].
  destruct ch; simpl; repeat case_match; unfold insert_provider; repeat case_match; try exact Ha.
  apply Forall_app. by split; [|repeat constructor].
Qed.


(** ** Witnesses *)

#[local] Existing Instance demo_spelling.
#[local] Existing Instance demo_hashing.

(** Alice registers and pledges twice; Bob, spelled with a capital, does the same once. *)
Definition two_pledges : list (env * call) :=
  [(demo_env "owner" 1, CallToken "T" (TTransfer "alice" (kyn 1000)));
   (demo_env "owner" 1, CallToken "T" (TTransfer "Bob" (kyn 1000)));
   (demo_env "alice" 2, CallRegistry "R" (RRegister "peer" "https://a" "EU" 1));
   (demo_env "Bob" 2, CallRegistry "R" (RRegister "peer2" "https://b" "EU" 1));
   (demo_env "alice" 2, CallToken "T" (TApprove "P" (kyn 1000)));
   (demo_env "Bob" 2, CallToken "T" (TApprove "P" (kyn 1000)));
   (demo_env "alice" 3, CallPool "P" (PCreate 100 (days 30) (kyn 100)));
   (demo_env "Bob" 3, CallPool "P" (PCreate 100 (days 30) (kyn 100)));
   (demo_env "alice" 4, CallPool "P" (PCreate 50 (days 90) (kyn 80)));
   (demo_env "alice" 5, CallPool "P" (PExit 0))].
Definition pledged_chain : chain := apply_txs demo0 two_pledges.


(** The pledge that was left early is still active in the table. *)
Example left_pledge_is_active :
  pg_active (getPledge (default (pool_created (demo_env "owner" 0) "T") (c_pools pledged_chain !! "P")) "alice" 0) = false ∧
  map pl_active (pledges (w_db (followed pledged_chain empty_world))) = [true; true].
Proof. split; by vm_compute. Qed.

Definition books0 : chain :=
  Chain {[ "T" := token_created (demo_env "owner" 0) ]} {[ "R" := registry_created (demo_env "owner" 0) ]}
    ∅ ∅ {[ "D" := distributor_created (demo_env "owner" 0) "T" "K" "P" "R" ]}
    {[ "S" := slashing_created (demo_env "owner" 0) "T" "R" ]} ∅ ∅ [] ∅.
Definition fined_and_paid : list (env * call) :=
  [(demo_env "owner" 1, CallToken "T" (TAuthorizeBurner "S"));
   (demo_env "owner" 1, CallToken "T" (TAuthorizeMinter "D"));
   (demo_env "owner" 1, CallToken "T" (TTransfer "p" (kyn 50)));
   (demo_env "p" 2, CallRegistry "R" (RRegister "peer" "https://p" "EU" 1));
   (demo_env "owner" 3, CallSlashing "S" (SEarlyExit "p" 700));
   (demo_env "owner" 4, CallSlashing "S" (SEarlyExit "p" 300));
   (demo_env "owner" 5, CallDistributor "D" (DProofBonus "p"));
   (demo_env "p" 6, CallDistributor "D" DWithdraw)].
Definition books1 : chain := apply_txs books0 fined_and_paid.

